(* ===== verification/_CoqProject ===== *)
-Q . S2P
Prelude.v
Policy.v
Identity.v
Catalog.v
Office.v
Meeting.v
Deliverable.v
Approval.v
OutputQueue.v
LineDecoder.v
InputWriter.v
WinEncoding.v
ProcessEnv.v
Workspace.v
Graph.v
Execution.v
ExecutionFacts.v
M3.v
Mvp.v
Adapter.v
CodexCommands.v
AgyCommands.v
ProcessChild.v
CodexLifecycle.v
CodexFacts.v
AgyStream.v
AgyFacts.v
CodexEvidence.v
CodexServer.v
CodexRun.v
CodexRunFacts.v
CodexStdio.v
AgyProcess.v
CodexStdioFacts.v
AgyProcessFacts.v
Protocol.v
Store.v
StoreLogic.v
Launch.v
StagedLaunches.v
GraphStore.v
FinishRun.v
CatalogStore.v
CredentialGrants.v
Dispatch.v
DaemonStore.v
Daemon.v
Executor.v
Routes.v
Http.v
Client.v
Delivery.v
Projection.v
Desktop.v
Samples.v
AdapterSamples.v
StoreSpec.v
StoreRefines.v
StoreMethods.v
StoreReachable.v
StoreFacts.v
StoreEffects.v
StoreEnds.v
DaemonFacts.v
DaemonBooks.v
DaemonCancel.v
ExecutorFacts.v
ClientFacts.v
DesktopFacts.v
Application.v
StoreSamples.v
RunSamples.v
DesktopSamples.v
StoreTheorems.v
ExecutionTheorems.v
CoreTheorems.v
ProcessTheorems.v
AdapterTheorems.v
RunTheorems.v
DesktopTheorems.v
