(* ===== verification/Prelude.v ===== *)
(** * Bastet Workstation: a verification of its core, adapters, daemon and desktop

    Bastet Workstation runs coding agents as child processes under permission
    policies, and keeps what they did as records that a human approves.  The
    crate [crates/bastet-core] holds the rules: who may do what, which node of a
    workflow may run, what counts as an approval, and how bytes go to and come
    from the agents' processes.  The crate [crates/bastet-daemon] keeps the
    records in a database and lets clients change them through the methods of
    its [Store].  The crates [crates/bastet-adapter-codex] and
    [crates/bastet-adapter-agy] turn what two coding agents print into events
    that both share.  The application [apps/desktop/src-tauri] keeps a daemon
    running, shows its records and changes them through [crates/bastet-client].
    Paths below are relative to [src/crates]; [core] and [daemon] stand for
    [bastet-core/src] and [bastet-daemon/src], [codex] and [agy] for the sources
    of the two adapters, [client] and [desktop] for those of the client and the
    application.

    ** Parts and files

    The core crate:

    - Prelude.v (this file): the result type [outcome] of fallible code with its
      bind [let?], the guard [fail_if c with e;;], loops over lists
      ([for_each], [fold_try]), integers of fixed width, [str], hexadecimal
      digests, the hint database [bastet], and general lemmas.
    - Policy.v ([core/policy.rs]): permission ceilings in four layers; [restrict]
      derives a narrower policy.
    - Identity.v ([core/identity.rs], data of [core/adapter.rs]): typed
      identifiers and the records that every other part refers to.
    - Catalog.v ([core/catalog.rs]), Office.v ([core/office.rs]), Meeting.v
      ([core/meeting.rs]), Deliverable.v ([core/deliverable.rs]): four catalogs
      of records, each with the function that validates it.
    - Approval.v ([core/approval.rs]): requests, their canonical hash, decisions,
      and the check of a request against the identity catalog.
    - Graph.v ([core/graph.rs], [WorkflowGraph]): the workflow graph and its
      validation.  Execution.v ([core/graph.rs], [GraphExecution]): an execution
      of a graph and its operations.  ExecutionFacts.v: the invariant
      [valid_exec], the abstract state machine [node_step], reachability, and
      their lemmas.
    - M3.v ([core/m3.rs]): the state that ties the catalogs and the executions
      together.  Mvp.v ([core/mvp.rs]): the first-run workflow that makes a draft
      and turns an accepted decision into an execution.
    - OutputQueue.v ([core/process_queue.rs]), LineDecoder.v
      ([core/process_output.rs]), InputWriter.v ([core/process_input.rs]): the
      bytes between the workstation and an agent.  WinEncoding.v
      ([core/windows_launch_encoding.rs]), ProcessEnv.v
      ([core/process_environment.rs]): how an agent is launched, and in the Module
      [Sandbox] ([daemon/sandbox.rs], [daemon/sandbox_linux.rs]) the sandbox it is
      launched in.  Workspace.v ([core/workspace.rs]): evidence of what a run
      changed.

    The adapters:

    - Adapter.v: JSON values as an interface, the monad [self] of methods with
      [&mut self], and the interface [EventSource] of a stream of events, from
      whose laws [src_reported] follows for every client.
    - CodexLifecycle.v ([codex/lifecycle.rs]): the stream of a turn.
      CodexEvidence.v ([codex/evidence.rs]): receipts of writes and counts of
      tokens.  CodexServer.v ([codex/app_server.rs]): the calls of the app server
      over the interface [AppServerTransport], and the loops that wait for an
      update.  CodexRun.v ([codex/run.rs]): the tracker of a run.  CodexStdio.v
      ([codex/stdio.rs]): the pipe, an implementation of the transport on top of
      OutputQueue.v and InputWriter.v.
    - CodexCommands.v ([codex/lib.rs]), AgyCommands.v ([agy/lib.rs]): what the
      executables are asked for beside runs, and the list of models.
    - AgyStream.v ([agy/stream.rs]): the lines of a run of the second agent.
      AgyProcess.v ([agy/process.rs]): its process, from the start with a prompt
      to the clean-up, on top of the stream, the writer and the owned child of
      ProcessChild.v ([core/process_child.rs]).
    - CodexFacts.v, AgyFacts.v, CodexRunFacts.v: both streams and the tracker are
      sources of events; what they can say; what is collected.  CodexStdioFacts.v:
      order, bounds, replies, failures and the end of waits.  AgyProcessFacts.v:
      a postcondition logic [post] for methods, ends after clean-up, clean
      starts, the end of polls.

    The daemon, over the records of Protocol.v ([bastet-protocol/src/lib.rs]):

    - Store.v: the tables as a record [db] of finite maps and lists, one
      Definition per SQL statement, and the monad [M] of a method: the database,
      readings of the clock, fresh identifiers, commits that may fail and the
      mutex that a panic poisons.  [transact] is a transaction.
    - Launch.v ([daemon/provider_launch.rs]): the plan of a run.
      StagedLaunches.v ([daemon/staged_launches.rs]): launches that wait for an
      approval.  CredentialGrants.v ([daemon/credential_grants.rs]): leave to use
      a credential once.  Dispatch.v ([daemon/credential_dispatch.rs]): the claim
      of a launch and the read of the native store, as an effect of [broker].
    - GraphStore.v, FinishRun.v, CatalogStore.v, DaemonStore.v
      ([daemon/lib.rs]): executions and runs, the end of a run, the catalogs,
      and approvals, life cycle, journal and recovery.
    - StoreLogic.v: a weakest precondition for [M].  StoreSpec.v: the abstract
      database, whose steps [db_step] change one table each under its
      conditions, and [well_formed].  StoreRefines.v, StoreMethods.v: every
      method refines it.  StoreReachable.v: recovery, [run_op] for all methods,
      and [stored], the databases there are.  StoreFacts.v, StoreEffects.v: the
      invariants, and what single methods do.  StoreEnds.v: a total-correctness
      logic for how methods end, with panics tolerated or not ([Panics]).

    The daemon at work:

    - Daemon.v (the registry of [daemon/lib.rs], the shared state of
      [daemon/provider_executor.rs]): threads as programs [prog] over the atomic
      accesses [action] to the store, the registry, the count of active workers,
      the tokens and the channels; [daemon_step] interleaves them.
    - Executor.v ([daemon/provider_executor.rs]): the worker of a run, its
      cancellation, the durable end of a run, and the runners, which drive
      CodexRun.v over CodexStdio.v and AgyProcess.v behind the interface
      [ProviderRunner].  Routes.v (handlers of [daemon/lib.rs],
      [daemon/main.rs]): one program per route, and what [main] does with the
      store.
    - DaemonFacts.v: the runs of a daemon ([running]), with crashes, and what
      follows from the accesses a program makes at all ([only]).  DaemonBooks.v:
      what a program owes ([owes]), and books that balance.  DaemonCancel.v: a
      rely-guarantee logic ([honest]) for cancellations.  ExecutorFacts.v: what
      the runners report ([reports]) and how the loop that records an outcome ends.

    The client and the desktop:

    - Http.v (the router of [daemon/lib.rs]): the messages by kind, the table of
      the routes with their extractors, and responses.  The router of axum and
      the JSON of messages are interfaces ([Axum] with its laws [AxumLaws],
      [Serde]).
    - Client.v ([client/lib.rs], [client/transport.rs]): programs [cprog] that
      connect, send a request and are told what the network answered, or access
      a state of their own; one Definition per method of [DaemonClient] (Module
      [Call]).  ClientFacts.v: a method against the route it is meant for.
    - Delivery.v ([desktop/lib.rs]): deliveries and exports on a file system with
      links, one access per call of the system.  DesktopFacts.v: what a delivery
      leaves when it is interrupted.  Projection.v ([desktop/lib.rs]): what the
      window shows, and in the Module [AgentCenter] the agents that are installed.
      DesktopFacts.v also has the restarts that the window offers.
    - Desktop.v ([desktop/supervisor.rs], [desktop/lib.rs]): the supervisor of the
      daemon, quitting, sleep and wake, and the commands of the window.
      Application.v: their threads beside those of the daemon ([app_step]), with
      a network that loses and delays and a daemon that crashes; and the accesses that leave an invariant alone ([locally],
      [calm]), programs that leave only when they know of a shutdown ([secure]),
      and the invariant of all runs ([sound_application]).

    Samples.v, AdapterSamples.v, StoreSamples.v, RunSamples.v and DesktopSamples.v
    hold concrete inputs.  StoreTheorems.v, ExecutionTheorems.v, CoreTheorems.v,
    ProcessTheorems.v, AdapterTheorems.v, RunTheorems.v and DesktopTheorems.v hold
    the properties, and for each with hypotheses an instance on a concrete input.

    ** How code becomes definitions

    A method that returns [Result] is a function to [outcome E A]: [Ok], [Err],
    and the two results a [Result] does not show, [Panic] for [expect] and
    [Diverge] for a loop that has run out of fuel or of observations.  A method
    with [&mut self] takes the old state and gives the new one; one that assigns
    before it can fail ([claim_ready], [retry_failed], [accept_mvp_decision])
    gives the state next to the result, so that what an error leaves behind can
    be seen.  [HashSet] and [HashMap] are [gset] and [gmap]; [Vec] is a list.
    [u64] counters wrap as release builds do ([u64_incr]); lengths are [usize]
    with checked arithmetic where the code checks.  Costs are IEEE numbers.

    A method of the store is a computation in [M].  Its SQL statements run one
    after the other under the mutex, as SQLite runs them; an error, a panic or a
    commit that fails rolls the transaction back, and a panic also poisons the
    mutex, after which every method answers [Poisoned].  A JSON column holds a
    value or is [Malformed].

    Parameters stand for what is not in the repository: SHA-256 (the class
    [Digest]), [serde_json] (the class [Serializer] for requests, [Formats] for
    plans and the payloads of events, the buffers of a [serialization] for
    frames, [Json] for the values the adapters take apart and build,
    [ServerWire] for the derived decoders of replies, [Serde] for the messages
    between client and daemon), the router of axum ([Axum]), the clock, fresh identifiers and failing commits ([Environment]),
    the native credential store ([CredentialReader]), the allocator, the
    command of AgentMemoryOS ([AgentMemory]) and the resolution of paths.
    Injectivity of the serializer is a hypothesis of the theorem about
    request hashes, distinctness of fresh identifiers one of those about drafts
    and decisions; both have an instance in Samples.v, and the laws of the router
    one in DesktopSamples.v.

    Concurrency appears in five ways.  The output queue is a step relation
    ([queue_step]) with one rule per atomic access of [send], [recv_timeout] and
    the destructors, so a run is an arbitrary interleaving; the methods without
    interference are shown to be runs of it.  The reader and the writer share
    with other threads only flags, a channel and a pipe: what these answer at
    each iteration is a list of observations ([tick], [write_tick],
    [write_schedule]), and the theorems hold for every such list.  The
    store is a sequence of methods in any order ([stored]), with crashes in
    between.  The threads of the daemon are programs whose accesses to shared
    state are its steps, one method of the store being one access, so that a run
    is an arbitrary interleaving ([daemon_step]);
    [running_keeps] (DaemonFacts.v) joins the two views.  What an adapter does
    within a worker is local to it; what its surroundings answer is the
    [provider_world] of the run.  The desktop is a second pool of threads beside
    that of the daemon: a request becomes a thread of the daemon, and its answer
    may be late, damaged or lost ([app_step]).

    ** Fuel

    [visit] recurses one level per node, so [visit_fuel], one more than the
    number of nodes, suffices; [validate_graph_returns] proves it for all
    graphs.  [block_loop] and [retry_loop] change a node in every round but
    the last, and get one round more than there are nodes; that
    [block_dependents] and [retry_failed] return is part of their theorems, and
    [every_method_returns] carries it to all methods on all databases there
    are, and tells the one call that panics.  [push_loop] consumes a newline per iteration, with the length of the
    chunk as fuel; [push_feed] proves that [push] always returns.

    The loops of the pipe ask its environment ([StdioEnvironment]) a question per
    iteration; [every_wait_ends] shows that a bound exists whenever the clock
    passes every instant.  [next_run_update_inner] waits as long as notifications
    of no interest arrive, so nothing is claimed of its end.  [every_poll_ends]
    bounds the polls of the process of the second agent, by the reading of the
    clock from which on it stands at the deadline.  The loops of the workers
    are bounded by fuel, and a thread out of fuel counts as one that goes on
    ([Diverge]): the theorems about running daemons hold for every bound.

    ** What the theorems show

    - Store: every method refines the abstract database; stored databases are
      well formed; history is never rewritten; stale commands are refused;
      every method ends, and without a panic but for one request; recovery
      leaves nothing running; shutdown waits for active runs; the end of a run is recorded in
      every table; replaced catalogs keep the runs; expired launches are
      cancelled; a credential is read at most once for a request, after its
      grant was spent in a committed transaction under a live approval.
    - Executions: every operation refines the node state machine; reachable
      executions validate; no node is launched before its dependencies; staging
      is left only by its owner; finished nodes are final; blocking and retrying
      reach exactly their fixed points; claims are exact, make progress and
      leave no trace when refused; outputs are append-only and bound to their
      hash.
    - Approvals and policies: [restrict] and chains of it never widen; a request
      is bound by its hash; a decision counts in its interval only; credential
      use is bound to a chain of active entities.
    - Catalogs: each [validate] accepts exactly the records that satisfy an
      independent specification ([wf_graph], [valid_catalog], [valid_office],
      [valid_meetings], [valid_deliverables], [valid_m3]) and always returns.
    - First run: prepared drafts validate, accepted decisions give valid states,
      and decisions are atomic and final.
    - Processes: the queue is bounded and in order under every interleaving; the
      decoder does not depend on how the output is cut and hands over sound
      lines only; frames are encoded within the exact bound, read back by the
      decoder, and written whole; a failed write poisons the writer; launch
      encodings read back as what was written; children inherit a fixed list; a
      sandbox grants what its profile declares.
    - Workspaces: snapshots are exact within their limits.
    - Adapters: the events of a run are numbered without gaps and end once, over
      any transport; no text of a provider reaches an event; answers are whole
      or absent; the end of a run that may write comes after the evidence of its
      writes, and such a run starts under one captured root.
    - The pipe: notifications keep their order within bounds; replies belong to
      their requests; a failed pipe accepts nothing; every wait ends.
    - Agents' processes: a child is signalled at most once and by its own id; a
      failed start leaves no child; the end of a run is told after its child was
      reaped; every poll ends; runners report outcomes after confirmed clean-up.
    - The client and the desktop: every method of the client does what the handler
      of its route does and tells its result; in every interleaving with the
      daemon the application leaves only after a recorded shutdown and has at
      most one daemon of its own at work; an interrupted delivery can be made
      again, but for one case; restarts are offered where the daemon makes them;
      a list of models is read row by row or refused.
    - Runs of the daemon, in every interleaving: registrations and counts are given back; cancellations are
      acknowledged for cancelled runs only; an undisturbed outcome is settled in
      one round.

    Ten theorems state behaviour that differs from what the code or its
    documents say: [retry_reopens_an_unrelated_blocked_branch],
    [validate_against_panics_on_a_binding_without_run],
    [an_approval_without_a_run_disables_the_store],
    [resume_accepts_another_thread], [a_failed_pipe_accepts_nothing] (rejections
    that may be tried again), [a_long_answer_counts_as_none],
    [a_blank_answer_is_never_recorded], [outcomes_are_settled_in_one_round]
    (the worker of a poisoned store), [deliveries_resume_after_an_interruption]
    (a note that was created and not written) and
    [a_quit_may_leave_a_new_daemon].

    ** What is not modelled

    In the daemon: the parsing of HTTP and JSON, the signal that stops the
    server, the waiting between attempts, the backup and the migration of older
    schemas, the native credential stores, and how the system
    enforces a sandbox: what its enforcers grant is read from the options they
    document.  In the adapters:
    the runner that starts an executable.  In the core crate: the creation of
    threads and processes, the branches of the owned child for macOS and
    Windows, and the system calls behind reads, writes and polling.  In the
    client: the transport for fixtures of tests.  In the desktop: the window, the
    menus, the tray and the notifications of macOS, which begin the programs that
    are modelled.  Local IPC, which is sockets, pipes and their permissions, and
    the conformance suite, which is a harness of tests. *)
From Stdlib Require Export Ascii Lia.
From stdpp Require Export base tactics option numbers list gmap strings sets.

Declare Scope rust_scope.
Delimit Scope rust_scope with rust.

(** ** Outcomes

    Every fallible routine of the program returns [Result<A, E>].  Two more
    outcomes exist in the model: [Panic], for an [expect] that fails, and
    [Diverge], for a loop that has used up the fuel it was given.  A theorem
    that a routine returns excludes both. *)

Inductive outcome (E A : Type) : Type :=
| Ok (a : A)
| Err (e : E)
| Panic
| Diverge.
Arguments Ok {E A} a.
Arguments Err {E A} e.
Arguments Panic {E A}.
Arguments Diverge {E A}.

(** [m?] followed by the rest of the function body. *)
Definition obind {E A B} (m : outcome E A) (k : A → outcome E B) : outcome E B :=
  match m with
  | Ok a => k a
  | Err e => Err e
  | Panic => Panic
  | Diverge => Diverge
  end.

(** [Result::map_err]. *)
Definition map_err {E F A} (f : E → F) (m : outcome E A) : outcome F A :=
  match m with
  | Ok a => Ok a
  | Err e => Err (f e)
  | Panic => Panic
  | Diverge => Diverge
  end.

(** [Option::ok_or]. *)
Definition ok_or {E A} (o : option A) (e : E) : outcome E A :=
  match o with Some a => Ok a | None => Err e end.

(** [Option::expect]. *)
Definition expect {E A} (o : option A) : outcome E A :=
  match o with Some a => Ok a | None => Panic end.

Definition is_ok {E A} (m : outcome E A) : bool :=
  match m with Ok _ => true | _ => false end.
Definition is_err {E A} (m : outcome E A) : bool :=
  match m with Err _ => true | _ => false end.

(** The routine returned to its caller. *)
Definition returns {E A} (m : outcome E A) : Prop :=
  match m with Ok _ | Err _ => True | _ => False end.

Notation "'let?' x ':=' m 'in' k" := (obind m (λ x, k))
  (at level 10, x pattern, m at level 100, k at level 200) : rust_scope.
Notation "m '?;' k" := (obind m (λ _, k))
  (at level 199, right associativity) : rust_scope.
Notation "'fail_if' b 'with' e ';;' k" := (if (b : bool) then Err e else k)
  (at level 199, b at level 99, e at level 99, k at level 199) : rust_scope.
Open Scope rust_scope.

(** [iter().map(f).collect::<Result<Vec<_>, _>>()]. *)
Fixpoint map_try {E A B} (f : A → outcome E B) (l : list A) : outcome E (list B) :=
  match l with
  | [] => Ok []
  | x :: r => let? y := f x in let? ys := map_try f r in Ok (y :: ys)
  end.

(** A [for] loop whose body may leave the function with an error. *)
Fixpoint for_each {E A} (f : A → outcome E unit) (l : list A) : outcome E unit :=
  match l with
  | [] => Ok tt
  | x :: r => f x ?; for_each f r
  end.

(** A [for] loop that also threads mutable state. *)
Fixpoint fold_try {E A S} (f : S → A → outcome E S) (s : S) (l : list A) : outcome E S :=
  match l with
  | [] => Ok s
  | x :: r => let? s' := f s x in fold_try f s' r
  end.

(** A [for] loop that checks each element and inserts its key in a [HashSet],
    leaving the function when the key was present already. *)
Definition for_each_distinct {E A} `{Countable K} (key : A → K)
    (check : A → outcome E unit) (duplicate : A → E) (seen : gset K) (l : list A)
    : outcome E (gset K) :=
  fold_try (λ seen x,
      check x ?;
      fail_if bool_decide (key x ∈ seen) with duplicate x;;
      Ok ({[key x]} ∪ seen)) seen l.

(** ** Iterators *)

(** [iter().enumerate()]. *)
Definition enumerate {A} (l : list A) : list (nat * A) := zip (seq 0 (length l)) l.

(** [iter_mut().find(p)] followed by an assignment through the reference: the
    first element that satisfies [p] is replaced. *)
Fixpoint update_first {A} (p : A → bool) (f : A → A) (l : list A) : list A :=
  match l with
  | [] => []
  | x :: r => if p x then f x :: r else x :: update_first p f r
  end.

(** [iter().collect::<HashMap<_, _>>()]: a later pair replaces an earlier one. *)
Definition collect_map `{Countable K} {A} (l : list (K * A)) : gmap K A :=
  list_to_map (reverse l).

(** [iter().collect::<HashSet<_>>()]. *)
Definition collect_set `{Countable K} (l : list K) : gset K := list_to_set l.

(** [iter().take_while(p)] *)
Fixpoint take_while {A} (p : A → bool) (l : list A) : list A :=
  match l with
  | [] => []
  | x :: r => if p x then x :: take_while p r else []
  end.

(** ** Machine integers *)

Definition u64_modulus : Z := 2 ^ 64.
Definition U64_MAX : Z := 2 ^ 64 - 1.
Definition U32_MAX : Z := 2 ^ 32 - 1.
Definition U8_MAX : Z := 255.
Definition USIZE_MAX : Z := 2 ^ 64 - 1.

(** [x += 1] on a [u64] in a release build. *)
Definition u64_incr (x : Z) : Z := (x + 1) `mod` u64_modulus.

Definition checked_add (max a b : Z) : option Z :=
  if bool_decide (a + b ≤ max)%Z then Some (a + b)%Z else None.
Definition checked_mul (max a b : Z) : option Z :=
  if bool_decide (a * b ≤ max)%Z then Some (a * b)%Z else None.

(** [u8::try_from(n).unwrap_or(u8::MAX)] and its [u32] sibling. *)
Definition saturating_from (max : Z) (n : nat) : Z :=
  if bool_decide (Z.of_nat n ≤ max)%Z then Z.of_nat n else max.

(** ** Rust strings

    A [String] is its UTF-8 bytes, so [len] is the number of characters of the
    Rocq string.  [trim] removes the code points with the Unicode property
    White_Space, which are recognised on their encodings. *)

Definition white1 (a : ascii) : bool :=
  let a := N_of_ascii a in ((9 <=? a) && (a <=? 13) || (a =? 32))%N.
Definition white2 (a b : ascii) : bool :=
  let a := N_of_ascii a in let b := N_of_ascii b in
  ((a =? 0xC2) && ((b =? 0x85) || (b =? 0xA0)))%N.
Definition white3 (a b c : ascii) : bool :=
  let a := N_of_ascii a in let b := N_of_ascii b in let c := N_of_ascii c in
  ((a =? 0xE1) && (b =? 0x9A) && (c =? 0x80)
   || (a =? 0xE2) && (b =? 0x80)
      && ((0x80 <=? c) && (c <=? 0x8A) || (c =? 0xA8) || (c =? 0xA9) || (c =? 0xAF))
   || (a =? 0xE2) && (b =? 0x81) && (c =? 0x9F)
   || (a =? 0xE3) && (b =? 0x80) && (c =? 0x80))%N.

Section strip.
Context (w1 : ascii → bool) (w2 : ascii → ascii → bool) (w3 : ascii → ascii → ascii → bool).

(** Removes white space from the front, one encoded code point at a time. *)
Fixpoint strip (s : list ascii) : list ascii :=
  match s with
  | [] => []
  | a :: s1 =>
      if w1 a then strip s1 else
      match s1 with
      | [] => s
      | b :: s2 =>
          if w2 a b then strip s2 else
          match s2 with
          | [] => s
          | c :: s3 => if w3 a b c then strip s3 else s
          end
      end
  end.

(** No white-space code point is encoded at the front. *)
Definition no_white_head (s : list ascii) : bool :=
  match s with
  | [] => true
  | a :: s1 => negb (w1 a) &&
      match s1 with
      | [] => true
      | b :: s2 => negb (w2 a b) &&
          match s2 with
          | [] => true
          | c :: _ => negb (w3 a b c)
          end
      end
  end.
End strip.

Definition trim_start_bytes : list ascii → list ascii := strip white1 white2 white3.
Definition trim_end_bytes (s : list ascii) : list ascii :=
  reverse (strip white1 (λ a b, white2 b a) (λ a b c, white3 c b a) (reverse s)).

(** [str::trim]. *)
Definition trim (s : string) : string :=
  String.string_of_list_ascii
    (trim_end_bytes (trim_start_bytes (String.list_ascii_of_string s))).

Definition is_empty (s : string) : bool :=
  match s with EmptyString => true | _ => false end.

(** [s.trim().is_empty()]. *)
Definition blank (s : string) : bool := is_empty (trim s).

(** What else the program uses of [str] and of iterators over it. *)

(** [str::split] at a character. *)
Fixpoint split_at (c : ascii) (s : string) : list string :=
  match s with
  | EmptyString => [EmptyString]
  | String a r =>
      if Ascii.eqb a c then EmptyString :: split_at c r else
      match split_at c r with
      | [] => [String a EmptyString]
      | x :: xs => String a x :: xs
      end
  end.

(** [str::strip_prefix] *)
Fixpoint str_strip_prefix (prefix s : string) : option string :=
  match prefix, s with
  | EmptyString, _ => Some s
  | String a prefix, String b s => if Ascii.eqb a b then str_strip_prefix prefix s else None
  | String _ _, EmptyString => None
  end.

(** [str::contains] *)
Fixpoint contains (pattern s : string) : bool :=
  String.prefix pattern s || match s with EmptyString => false | String _ s => contains pattern s end.

(** [s.chars().all(p)] and [s.bytes().all(p)], for predicates on ASCII. *)
Fixpoint all_chars (p : ascii → bool) (s : string) : bool :=
  match s with EmptyString => true | String c s => p c && all_chars p s end.
(** [is_ascii_digit] *)
Definition ascii_digit (c : ascii) : bool :=
  let n := N_of_ascii c in ((48 <=? n) && (n <=? 57))%N.

(** A line that ended with a line feed loses a carriage return before it. *)
Definition strip_carriage_return (line : string) : string :=
  match reverse (String.list_ascii_of_string line) with
  | "013"%char :: rest => String.string_of_list_ascii (reverse rest)
  | _ => line
  end.
Fixpoint finish_lines (segments : list string) : list string :=
  match segments with
  | [] => []
  | [last] => if is_empty last then [] else [last]
  | line :: segments => strip_carriage_return line :: finish_lines segments
  end.
(** [str::lines] *)
Definition lines (s : string) : list string := finish_lines (split_at "010" s).

(** [Iterator::find_map] *)
Fixpoint find_map {A B} (f : A → option B) (l : list A) : option B :=
  match l with
  | [] => None
  | a :: l => match f a with Some b => Some b | None => find_map f l end
  end.

(** [str::split_once] at a character. *)
Fixpoint split_once (c : ascii) (s : string) : option (string * string) :=
  match s with
  | EmptyString => None
  | String a r =>
      if Ascii.eqb a c then Some (EmptyString, r) else
      '(before, after) ← split_once c r; Some (String a before, after)
  end.

(** [s.len()]. *)
Definition str_len (s : string) : Z := Z.of_nat (String.length s).

(** [format!("{:x}")] of a digest and [format!("{byte:02x}")] of its bytes. *)
Definition hex_digit (n : N) : ascii :=
  ascii_of_N (if (n <? 10)%N then 48 + n else 87 + n).
Fixpoint to_hex (s : string) : string :=
  match s with
  | EmptyString => EmptyString
  | String c r =>
      let n := N_of_ascii c in
      String (hex_digit (n / 16)) (String (hex_digit (n mod 16)) (to_hex r))
  end.

(** ** Digests

    The [sha2] crate: [Sha256::digest] maps a byte string to a byte string.
    Nothing is assumed of it; a theorem that depends on the digest separating
    two inputs says so by exhibiting the collision otherwise. *)

Class Digest := sha256 : string → string.

Definition collision `{Digest} : Prop := ∃ a b : string, a ≠ b ∧ sha256 a = sha256 b.

(** [format!("sha256:{:x}", Sha256::digest(content.as_bytes()))], the content
    hash that graph outputs, decision baselines and document versions share. *)
Definition content_digest `{Digest} (content : string) : string :=
  String.append "sha256:" (to_hex (sha256 content)).

(** ** Automation

    [bastet] holds the introduction rules of the outcome monad, [bastet_ok] the
    rewriting rules that turn "this body returned [Ok]" into the conjunction of
    its guards. *)
Create HintDb bastet.
Create Rewrite HintDb bastet_ok.
Create Rewrite HintDb bastet_bool.

Lemma obind_ok {E A B} (m : outcome E A) (k : A → outcome E B) r :
  obind m k = Ok r ↔ ∃ a, m = Ok a ∧ k a = Ok r.
Proof.
  destruct m; simpl; (split; [eauto; congruence|intros (? & [=] & ?); by subst]).
Qed.

Lemma ex_unit (P : unit → Prop) : (∃ u, P u) ↔ P tt.
Proof. split; [by intros [[] ?]|eauto]. Qed.

Lemma fail_if_ok {E A} (b : bool) (e : E) (k : outcome E A) r :
  (fail_if b with e;; k) = Ok r ↔ b = false ∧ k = Ok r.
Proof. destruct b; (split; [eauto; congruence|by intros [[=] ?]]). Qed.

Lemma unit_guard_ok {E} (b : bool) (e : E) : (fail_if b with e;; Ok tt) = Ok tt ↔ b = false.
Proof. by destruct b. Qed.

Lemma fail_unless_ok {E A} (b : bool) (e : E) (k : outcome E A) r :
  (if b then k else Err e) = Ok r ↔ b = true ∧ k = Ok r.
Proof. destruct b; (split; [eauto; congruence|by intros [[=] ?]]). Qed.

Lemma ok_or_ok {E A} (o : option A) (e : E) a : ok_or o e = Ok a ↔ o = Some a.
Proof. destruct o; simpl; split; congruence. Qed.

Lemma expect_ok {E A} (o : option A) a : @expect E A o = Ok a ↔ o = Some a.
Proof. destruct o; simpl; split; congruence. Qed.

Lemma map_err_ok {E F A} (f : E → F) (m : outcome E A) a : map_err f m = Ok a ↔ m = Ok a.
Proof. destruct m; simpl; split; congruence. Qed.

Lemma for_each_ok {E A} (f : A → outcome E unit) l u :
  for_each f l = Ok u ↔ Forall (λ x, f x = Ok tt) l.
Proof.
  destruct u. induction l as [|x l IH]; simpl.
  - split; [constructor|done].
  - rewrite obind_ok, ex_unit, IH, Forall_cons. done.
Qed.

Lemma map_try_ok {E A B} (f : A → outcome E B) l ys :
  map_try f l = Ok ys ↔ Forall2 (λ x y, f x = Ok y) l ys.
Proof.
  revert ys. induction l as [|x l IH]; intros ys; simpl.
  - split; [by intros [= <-]|by inversion 1].
  - rewrite obind_ok. setoid_rewrite obind_ok. setoid_rewrite IH. split.
    + intros (y & ? & zs & ? & [= <-]). by constructor.
    + inversion 1; subst. eauto 10.
Qed.

Lemma for_each_app {E A} (f : A → outcome E unit) l1 l2 :
  for_each f (l1 ++ l2) = (for_each f l1 ?; for_each f l2).
Proof. induction l1 as [|x l1 IH]; simpl; [done|]. destruct (f x); simpl; auto. Qed.

#[export] Hint Rewrite ex_unit @obind_ok @fail_if_ok @fail_unless_ok @ok_or_ok
  @expect_ok @map_err_ok @for_each_ok : bastet_ok.

(** [ok_inv] decomposes the hypotheses [body = Ok r] into their guards. *)
Ltac split_hyps :=
  repeat match goal with
  | H : _ ∧ _ |- _ => destruct H
  | H : ∃ _, _ |- _ => destruct H
  end.
Ltac ok_step :=
  match goal with
  | H : obind _ _ = Ok _ |- _ => apply obind_ok in H as (? & ? & H)
  | H : (if _ then Err _ else _) = Ok _ |- _ => apply fail_if_ok in H as [? H]
  | H : ok_or _ _ = Ok _ |- _ => apply ok_or_ok in H
  | H : expect _ = Ok _ |- _ => apply expect_ok in H
  | H : map_err _ _ = Ok _ |- _ => apply map_err_ok in H
  | H : for_each _ _ = Ok _ |- _ => apply for_each_ok in H
  | u : unit |- _ => destruct u
  end.
Ltac ok_inv := repeat ok_step; simplify_eq.

(** Turns boolean guards into propositions, in the goal and the hypotheses. *)
Ltac bool_prop :=
  repeat match goal with
  | H : negb _ = true |- _ => apply negb_true_iff in H
  | H : negb _ = false |- _ => apply negb_false_iff in H
  | H : _ && _ = true |- _ => apply andb_true_iff in H as [? ?]
  | H : _ || _ = false |- _ => apply orb_false_iff in H as [? ?]
  | H : bool_decide _ = true |- _ => apply bool_decide_eq_true in H
  | H : bool_decide _ = false |- _ => apply bool_decide_eq_false in H
  end.

(** *** Routines that return *)

Lemma returns_obind {E A B} (m : outcome E A) (k : A → outcome E B) :
  returns m → (∀ a, m = Ok a → returns (k a)) → returns (obind m k).
Proof. destruct m; simpl; auto. Qed.

Lemma returns_fail_if {E A} (b : bool) (e : E) (k : outcome E A) :
  (b = false → returns k) → returns (fail_if b with e;; k).
Proof. destruct b; simpl; auto. Qed.

Lemma returns_ok_or {E A} (o : option A) (e : E) : returns (ok_or o e).
Proof. by destruct o. Qed.

Lemma returns_map_err {E F A} (f : E → F) (m : outcome E A) :
  returns m → returns (map_err f m).
Proof. by destruct m. Qed.

Lemma returns_for_each {E A} (f : A → outcome E unit) l :
  (∀ x, returns (f x)) → returns (for_each f l).
Proof. intros Hf. induction l; simpl; [done|]. apply returns_obind; auto. Qed.

Lemma returns_fold_try {E A S} (f : S → A → outcome E S) l s :
  (∀ s x, returns (f s x)) → returns (fold_try f s l).
Proof.
  intros Hf. revert s. induction l as [|x l IH]; intros s; simpl; [done|].
  apply returns_obind; auto.
Qed.

#[export] Hint Resolve returns_obind returns_fail_if returns_ok_or returns_map_err
  returns_for_each returns_fold_try : bastet.

Lemma returns_for_each_distinct {E A} `{Countable K} (key : A → K)
    (check : A → outcome E unit) duplicate seen l :
  (∀ x, returns (check x)) → returns (for_each_distinct key check duplicate seen l).
Proof.
  intros Hc. apply returns_fold_try. intros. apply returns_obind; [done|]. intros.
  by case_bool_decide.
Qed.

(** Closes the goal that a body made of guards and lookups returns. *)
Ltac solve_returns :=
  repeat lazymatch goal with
  | |- returns (obind _ _) => apply returns_obind; [|intros ? _]
  | |- returns (for_each _ _) => apply returns_for_each; intros ?
  | |- returns (fold_try _ _ _) => apply returns_fold_try; intros ? ?
  | |- returns (for_each_distinct _ _ _ _ _) => apply returns_for_each_distinct; intros ?
  | |- returns (ok_or _ _) => apply returns_ok_or
  | |- returns (map_err _ _) => apply returns_map_err
  | |- returns (if ?b then _ else _) => destruct b
  | |- returns (match ?x with _ => _ end) => destruct x
  | |- _ => solve [exact I | eauto with bastet]
  end.

(** *** Lists *)

Section lists.
Context {A : Type}.
Implicit Types (p : A → bool) (f : A → A) (l : list A).

Lemma existsb_true p l : existsb p l = true ↔ ∃ x, x ∈ l ∧ p x = true.
Proof. rewrite existsb_exists. by setoid_rewrite list_elem_of_In. Qed.

Lemma existsb_false p l : existsb p l = false ↔ ∀ x, x ∈ l → p x = false.
Proof.
  rewrite <- not_true_iff_false, existsb_true. split.
  - intros H x Hx. destruct (p x) eqn:E; [|done]. destruct H. eauto.
  - intros H (x & Hx & E). rewrite (H x Hx) in E. done.
Qed.

Lemma forallb_true p l : forallb p l = true ↔ ∀ x, x ∈ l → p x = true.
Proof. rewrite forallb_forall. by setoid_rewrite list_elem_of_In. Qed.

Lemma find_Some_elem p l x : List.find p l = Some x → x ∈ l ∧ p x = true.
Proof. intros H. apply List.find_some in H. by rewrite list_elem_of_In. Qed.

Lemma find_None_elem p l : List.find p l = None ↔ ∀ x, x ∈ l → p x = false.
Proof.
  split.
  - intros H x. rewrite list_elem_of_In. by apply List.find_none.
  - induction l as [|y l IH]; simpl; intros H; [done|].
    rewrite (H y) by set_solver. apply IH. set_solver.
Qed.

Lemma find_is_Some p l : is_Some (List.find p l) ↔ ∃ x, x ∈ l ∧ p x = true.
Proof.
  split.
  - intros [x H]. apply find_Some_elem in H. eauto.
  - intros (x & Hx & Hp). destruct (List.find p l) eqn:E; [eauto|].
    rewrite find_None_elem in E. by rewrite (E x Hx) in Hp.
Qed.

Lemma length_update_first p f l : length (update_first p f l) = length l.
Proof. induction l as [|x l IH]; simpl; [done|]. destruct (p x); simpl; auto. Qed.

Lemma elem_of_update_first p f l y :
  y ∈ update_first p f l → y ∈ l ∨ ∃ x, List.find p l = Some x ∧ y = f x.
Proof.
  induction l as [|x l IH]; simpl; [set_solver|].
  destruct (p x) eqn:E; rewrite !elem_of_cons; intros [->|?]; eauto.
  destruct IH as [?|?]; eauto.
Qed.

Lemma map_update_first {B} (g : A → B) p f l :
  (∀ x, p x = true → g (f x) = g x) → map g (update_first p f l) = map g l.
Proof.
  intros H. induction l as [|x l IH]; simpl; [done|].
  destruct (p x) eqn:E; simpl; rewrite ?H, ?IH by done; done.
Qed.

Lemma update_first_none p f l : List.find p l = None → update_first p f l = l.
Proof.
  induction l as [|x l IH]; simpl; [done|].
  destruct (p x); intros; [done|]. f_equal; auto.
Qed.

(** When the predicate selects a key and the keys are distinct, at most one
    element is replaced, so the update is a [map]. *)
Lemma update_first_map `{EqDecision K} (key : A → K) k f l :
  NoDup (map key l) →
  update_first (λ x, bool_decide (key x = k)) f l
  = map (λ x, if bool_decide (key x = k) then f x else x) l.
Proof.
  induction l as [|x l IH]; simpl; [done|]. intros [Hx Hl]%NoDup_cons.
  case_bool_decide as Hk; [|by f_equal; apply IH]. f_equal.
  rewrite <- (map_id l) at 1. apply map_ext_in. intros y Hy.
  rewrite bool_decide_false; [done|]. intros ?. apply Hx. subst k.
  rewrite list_elem_of_In, in_map_iff. exists y. split; congruence.
Qed.

Lemma find_key `{EqDecision K} (key : A → K) k l x :
  NoDup (map key l) → x ∈ l → key x = k →
  List.find (λ y, bool_decide (key y = k)) l = Some x.
Proof.
  induction l as [|y l IH]; simpl; [set_solver|]. intros [Hy Hl]%NoDup_cons Hx <-.
  apply elem_of_cons in Hx as [->|Hx]; [by rewrite bool_decide_true|].
  rewrite bool_decide_false; [auto|]. intros E. apply Hy. rewrite E.
  rewrite list_elem_of_In. apply in_map. by apply list_elem_of_In.
Qed.

Lemma NoDup_map_key {K} (key : A → K) l x y :
  NoDup (map key l) → x ∈ l → y ∈ l → key x = key y → x = y.
Proof.
  induction l as [|z l IH]; simpl; [set_solver|]. intros [Hz Hl]%NoDup_cons Hx Hy E.
  assert (Hin : ∀ w, w ∈ l → key w ∈ map key l).
  { intros w. rewrite !list_elem_of_In. apply in_map. }
  apply elem_of_cons in Hx as [->|Hx], Hy as [->|Hy]; auto.
  - destruct Hz. rewrite E. auto.
  - destruct Hz. rewrite <- E. auto.
Qed.
End lists.

Lemma find_key_Some `{EqDecision K} {A} (key : A → K) k (l : list A) x :
  List.find (λ y, bool_decide (key y = k)) l = Some x → x ∈ l ∧ key x = k.
Proof. intros [? E]%find_Some_elem. by apply bool_decide_eq_true in E. Qed.

Lemma elem_of_map {A B} (f : A → B) l y : y ∈ map f l ↔ ∃ x, x ∈ l ∧ y = f x.
Proof. rewrite list_elem_of_In, in_map_iff. setoid_rewrite list_elem_of_In. firstorder congruence. Qed.

Lemma elem_of_filter_bool {A} (p : A → bool) l x :
  x ∈ List.filter p l ↔ x ∈ l ∧ p x = true.
Proof. by rewrite !list_elem_of_In, filter_In. Qed.

Lemma Forall2_map_l {A B C} (R : B → C → Prop) (f : A → B) l k :
  Forall2 R (map f l) k ↔ Forall2 (λ x y, R (f x) y) l k.
Proof.
  revert k. induction l as [|x l IH]; intros [|y k]; simpl.
  - done.
  - split; inversion 1.
  - split; inversion 1.
  - by rewrite !Forall2_cons, IH.
Qed.

Lemma Forall2_map_r {A B C} (R : A → C → Prop) (f : B → C) l k :
  Forall2 R l (map f k) ↔ Forall2 (λ x y, R x (f y)) l k.
Proof.
  revert l. induction k as [|y k IH]; intros [|x l]; simpl.
  - done.
  - split; inversion 1.
  - split; inversion 1.
  - by rewrite !Forall2_cons, IH.
Qed.

Lemma Forall2_diag {A} (R : A → A → Prop) l : (∀ x, x ∈ l → R x x) → Forall2 R l l.
Proof.
  induction l as [|x l IH]; intros Hd; constructor; [apply Hd; left|].
  apply IH. intros. apply Hd. by right.
Qed.

Lemma Forall2_compose {A B C} (R : A → B → Prop) (S : B → C → Prop) (T : A → C → Prop) l m k :
  Forall2 R l m → Forall2 S m k → (∀ x y z, R x y → S y z → T x z) → Forall2 T l k.
Proof.
  intros HR HS HT. revert k HS. induction HR as [|x y l m Hxy _ IH]; intros k HS;
    inversion HS; subst; constructor; eauto.
Qed.

Lemma Forall2_impl_elem {A B} (R S : A → B → Prop) l k :
  Forall2 R l k → (∀ x y, x ∈ l → R x y → S x y) → Forall2 S l k.
Proof.
  induction 1 as [|x y l k Hxy _ IH]; intros HS; constructor.
  - apply HS; [left|done].
  - apply IH. intros. apply HS; [by right|done].
Qed.

Lemma Forall2_update_first {A} (R : A → A → Prop) p f (l : list A) :
  (∀ x, R x x) → (∀ x, List.find p l = Some x → R x (f x)) →
  Forall2 R l (update_first p f l).
Proof.
  intros Hrefl. induction l as [|x l IH]; simpl; [constructor|].
  destruct (p x); intros Hf; constructor; auto.
  apply Forall2_diag; auto.
Qed.

(** *** Sets and maps collected from iterators *)

Section collect.
Context `{Countable K}.

Lemma elem_of_collect_set (l : list K) k : k ∈ collect_set l ↔ k ∈ l.
Proof. apply elem_of_list_to_set. Qed.

Lemma length_collect_set_le (l : list K) : size (collect_set l) ≤ length l.
Proof.
  unfold collect_set. induction l as [|x l IH]; simpl; [done|].
  pose proof (size_union_alt ({[x]} : gset K) (list_to_set l)) as E.
  assert (Hs : size ((list_to_set l : gset K) ∖ {[x]}) ≤ size (list_to_set l : gset K)).
  { apply subseteq_size. intros k Hk. by apply elem_of_difference in Hk as [? _]. }
  rewrite E, size_singleton. lia.
Qed.

(** [set.len() == vec.len()] says that the elements are distinct. *)
Lemma size_collect_set (l : list K) : size (collect_set l) = length l ↔ NoDup l.
Proof.
  split; [|apply size_list_to_set].
  intros E. induction l as [|x l IH]; [constructor|].
  unfold collect_set in E. simpl in E.
  destruct (decide (x ∈ l)) as [Hx|Hx].
  - rewrite subseteq_union_1_L in E by set_solver.
    pose proof (length_collect_set_le l) as Hle. unfold collect_set in Hle. lia.
  - constructor; [done|]. apply IH. rewrite size_union in E by set_solver.
    rewrite size_singleton in E. unfold collect_set. lia.
Qed.

Lemma lookup_collect_map {A} (l : list (K * A)) k v :
  NoDup l.*1 → collect_map l !! k = Some v ↔ (k, v) ∈ l.
Proof.
  intros Hl. unfold collect_map. rewrite <- elem_of_list_to_map.
  - by rewrite elem_of_reverse.
  - rewrite fmap_reverse. by rewrite (reverse_Permutation l.*1).
Qed.


(** The loop succeeds on the lists whose elements pass the check and whose keys
    are new and distinct, and collects the keys. *)
Lemma for_each_distinct_ok {E A} (key : A → K) (check : A → outcome E unit) duplicate seen l r :
  for_each_distinct key check duplicate seen l = Ok r ↔
  r = collect_set (map key l) ∪ seen ∧ Forall (λ x, check x = Ok tt) l ∧
  NoDup (map key l) ∧ (∀ x, x ∈ l → key x ∉ seen).
Proof.
  unfold for_each_distinct, collect_set. revert seen.
  induction l as [|x l IH]; intros seen; cbn [fold_try map list_to_set].
  - split; [|intros (-> & _); f_equal; set_solver]. intros [= ->].
    split_and!; [set_solver|constructor..|set_solver].
  - rewrite obind_ok. setoid_rewrite IH. rewrite Forall_cons, NoDup_cons, elem_of_map.
    split.
    + intros (seen' & Hx & -> & Hall & Hnd & Hnew). ok_inv. bool_prop. split_and!; try done.
      * set_solver.
      * intros (y & Hy & E'). apply (Hnew y Hy). set_solver.
      * intros y [->|Hy]%elem_of_cons; [done|]. intros Hs. apply (Hnew y Hy). set_solver.
    + intros (-> & [Hc Hall] & [Hx Hnd] & Hnew). exists ({[key x]} ∪ seen).
      rewrite Hc. cbn. rewrite bool_decide_false by (apply Hnew; left).
      split_and!; try done; [set_solver|]. intros y Hy Hin.
      apply elem_of_union in Hin as [E'%elem_of_singleton|Hin].
      * apply Hx. eauto.
      * revert Hin. apply Hnew. by right.
Qed.

Lemma all_distinct_ok {E} (duplicate : K → E) (l : list K) :
  (for_each_distinct id (λ _, Ok tt) duplicate ∅ l ?; Ok tt) = Ok tt ↔ NoDup l.
Proof.
  rewrite obind_ok. setoid_rewrite for_each_distinct_ok. rewrite map_id. split.
  - by intros (? & (_ & _ & ? & _) & _).
  - intros Hnd. eexists. split_and!; try done; by apply Forall_forall.
Qed.

Lemma for_each_distinct_err {E A} (key : A → K) (check : A → outcome E unit) duplicate seen l e :
  for_each_distinct key check duplicate seen l = Err e →
  ∃ l1 x l2, l = l1 ++ x :: l2 ∧
    (check x = Err e ∨ e = duplicate x ∧ (key x ∈ seen ∨ key x ∈ map key l1)).
Proof.
  unfold for_each_distinct. revert seen.
  induction l as [|x l IH]; intros seen; cbn [fold_try]; [done|].
  destruct (check x) as [[]|e'| |] eqn:Hc; cbn; try done.
  - case_bool_decide as Hin; cbn.
    + intros [= <-]. exists [], x, l. eauto.
    + intros (l1 & y & l2 & -> & Hy)%IH. exists (x :: l1), y, l2. split; [done|].
      cbn [map]. set_solver.
  - intros [= ->]. exists [], x, l. eauto.
Qed.

End collect.

Lemma for_each_err {E A} (f : A → outcome E unit) l e :
  for_each f l = Err e → ∃ x, x ∈ l ∧ f x = Err e.
Proof.
  induction l as [|x l IH]; cbn; [done|]. destruct (f x) as [[]| | |] eqn:Ef; cbn; try done.
  - intros (y & ? & ?)%IH. exists y. split; [by right|done].
  - intros [= ->]. exists x. split; [left|done].
Qed.

Lemma obind_err {E A B} (m : outcome E A) (k : A → outcome E B) e :
  obind m k = Err e ↔ m = Err e ∨ ∃ a, m = Ok a ∧ k a = Err e.
Proof.
  destruct m; cbn; split; try naive_solver.
Qed.

Lemma fail_if_err {E A} (b : bool) (e' : E) (k : outcome E A) e :
  (fail_if b with e';; k) = Err e ↔ b = true ∧ e' = e ∨ b = false ∧ k = Err e.
Proof. destruct b; naive_solver. Qed.
#[export] Hint Rewrite @existsb_true @existsb_false @forallb_true : bastet_bool.

(** [iter().any(|x| key(x) == k)] *)
Lemma existsb_key `{EqDecision K} {A} (key : A → K) k l :
  existsb (λ x, bool_decide (key x = k)) l = true ↔ k ∈ map key l.
Proof.
  rewrite existsb_true, elem_of_map. setoid_rewrite bool_decide_eq_true. firstorder congruence.
Qed.

Lemma existsb_key_false `{EqDecision K} {A} (key : A → K) k l :
  existsb (λ x, bool_decide (key x = k)) l = false ↔ k ∉ map key l.
Proof. by rewrite <- not_true_iff_false, existsb_key. Qed.

(** An optional reference is followed only when it is present. *)
Lemma match_option_ok {E A} (o : option A) (f : A → outcome E unit) :
  match o with Some a => f a | None => Ok tt end = Ok tt ↔ ∀ a, o = Some a → f a = Ok tt.
Proof. destruct o; split; naive_solver. Qed.

Lemma and_iff (A B C D : Prop) : (A ↔ C) → (B ↔ D) → (A ∧ B ↔ C ∧ D).
Proof. tauto. Qed.

Lemma fold_try_app {E A S} (f : S → A → outcome E S) s l1 l2 :
  fold_try f s (l1 ++ l2) = (let? s' := fold_try f s l1 in fold_try f s' l2).
Proof. revert s. induction l1 as [|x l1 IH]; intros s; cbn; [done|]. by destruct (f s x); cbn. Qed.

Lemma enumerate_snoc {A} (l : list A) x : enumerate (l ++ [x]) = enumerate l ++ [(length l, x)].
Proof.
  unfold enumerate. rewrite length_app, seq_app, zip_with_app by by rewrite length_seq. done.
Qed.

Lemma elem_of_enumerate {A} (l : list A) i x : (i, x) ∈ enumerate l ↔ l !! i = Some x.
Proof.
  unfold enumerate. rewrite list_elem_of_lookup. setoid_rewrite lookup_zip_Some.
  split.
  - intros (j & Hj & Hx). apply lookup_seq in Hj as [-> _]. done.
  - intros Hx. exists i. split; [|done]. apply lookup_seq. split; [done|].
    by eapply lookup_lt_Some.
Qed.

Lemma saturating_from_min max n : saturating_from max n = Z.min (Z.of_nat n) max.
Proof. unfold saturating_from. case_bool_decide; lia. Qed.

(** *** Trimming *)

Section strip_facts.
Context (w1 : ascii → bool) (w2 : ascii → ascii → bool) (w3 : ascii → ascii → ascii → bool).
Notation stripped := (strip w1 w2 w3).
Notation no_white := (no_white_head w1 w2 w3).

(** The encoding of one white-space code point. *)
Inductive white : list ascii → Prop :=
| white_1 a : w1 a = true → white [a]
| white_2 a b : w2 a b = true → white [a; b]
| white_3 a b c : w3 a b c = true → white [a; b; c].

(** One step of [strip]: nothing to remove, or one code point removed. *)
Lemma strip_step s :
  (no_white s = true ∧ stripped s = s) ∨
  ∃ t u, s = t ++ u ∧ white t ∧ stripped s = stripped u.
Proof.
  destruct s as [|a s]; [by left|]. cbn [strip no_white_head].
  destruct (w1 a) eqn:E1; [right; exists [a], s; by repeat constructor|].
  destruct s as [|b s]; [by left|].
  destruct (w2 a b) eqn:E2; [right; exists [a; b], s; by repeat constructor|].
  destruct s as [|c s]; [by left|].
  destruct (w3 a b c) eqn:E3; [right; exists [a; b; c], s; by repeat constructor|]. by left.
Qed.

Lemma strip_ind (P : list ascii → list ascii → Prop) :
  (∀ s, no_white s = true → P s s) →
  (∀ t u, white t → P u (stripped u) → P (t ++ u) (stripped u)) →
  ∀ s, P s (stripped s).
Proof.
  intros Hd Hs s. remember (length s) as n eqn:En. revert s En.
  induction (lt_wf n) as [n _ IH]. intros s ->.
  destruct (strip_step s) as [[Hn ->]|(t & u & -> & Ht & ->)]; [auto|].
  apply Hs; [done|]. eapply IH; [|done]. rewrite length_app. destruct Ht; cbn; lia.
Qed.

Lemma strip_no_white s : no_white (stripped s) = true.
Proof. by apply (strip_ind (λ _ r, no_white r = true)). Qed.

Lemma no_white_strip s : no_white s = true → stripped s = s.
Proof.
  destruct s as [|a [|b [|c s]]]; cbn; [done|..];
    destruct (w1 a); cbn; try done; destruct (w2 a b); cbn; try done; by destruct (w3 a b c).
Qed.

Lemma no_white_prefix s t : no_white (s ++ t) = true → no_white s = true.
Proof.
  destruct s as [|a [|b [|c s]]]; cbn; rewrite ?andb_true_iff; intuition.
Qed.

Lemma strip_suffix s : ∃ t, s = t ++ stripped s.
Proof.
  apply (strip_ind (λ s r, ∃ t, s = t ++ r)).
  - intros. by exists [].
  - intros t u _ [t' Hu]. exists (t ++ t'). rewrite <- app_assoc. by f_equal.
Qed.

(** A character that occurs in no white-space encoding is never removed. *)
Lemma strip_keeps x s : (∀ t, white t → x ∉ t) → x ∈ s → x ∈ stripped s.
Proof.
  intros Hx. apply (strip_ind (λ s r, x ∈ s → x ∈ r)); [done|].
  intros t u Ht IH [?|?]%elem_of_app; [|auto]. by destruct (Hx t Ht).
Qed.
End strip_facts.

Lemma trim_bytes_idemp l :
  let t := trim_end_bytes (trim_start_bytes l) in trim_end_bytes (trim_start_bytes t) = t.
Proof.
  cbv zeta. unfold trim_start_bytes, trim_end_bytes.
  set (w2' := λ a b, white2 b a). set (w3' := λ a b c, white3 c b a).
  set (u := strip white1 white2 white3 l).
  assert (Hu : no_white_head white1 white2 white3 (reverse (strip white1 w2' w3' (reverse u))) = true).
  { destruct (strip_suffix white1 w2' w3' (reverse u)) as [t Ht].
    apply (no_white_prefix _ _ _ _ (reverse t)).
    rewrite <- reverse_app, <- Ht, reverse_involutive. apply strip_no_white. }
  rewrite (no_white_strip _ _ _ _ Hu), reverse_involutive.
  f_equal. apply no_white_strip, strip_no_white.
Qed.

Lemma trim_idemp s : trim (trim s) = trim s.
Proof.
  unfold trim at 1. unfold trim at 1. rewrite String.list_ascii_of_string_of_list_ascii.
  unfold trim. f_equal. apply trim_bytes_idemp.
Qed.

Lemma blank_trim s : blank (trim s) = blank s.
Proof. unfold blank. by rewrite trim_idemp. Qed.

(** No white-space encoding contains the byte. *)
Definition not_white_byte (a : ascii) : bool :=
  let n := N_of_ascii a in ((0x21 <=? n) && (n <=? 0x7E))%N.

Lemma not_white_encodings a t :
  not_white_byte a = true →
  white white1 white2 white3 t ∨
  white white1 (λ a b, white2 b a) (λ a b c, white3 c b a) t → a ∉ t.
Proof.
  unfold not_white_byte, white1, white2, white3. cbv zeta. intros Ha Ht Hin.
  destruct Ht as [Ht|Ht]; inversion Ht; subst;
    repeat match goal with H : _ ∈ _ :: _ |- _ => apply elem_of_cons in H as [<-|H] end;
    try (by apply elem_of_nil in Hin);
    repeat rewrite ?andb_true_iff, ?orb_true_iff, ?N.leb_le, ?N.eqb_eq in *; lia.
Qed.

(** A string with a visible ASCII character is not blank. *)
Lemma visible_not_blank a s :
  not_white_byte a = true → a ∈ String.list_ascii_of_string s → blank s = false.
Proof.
  intros Ha Hin. assert (Ht : a ∈ trim_end_bytes (trim_start_bytes (String.list_ascii_of_string s))).
  { unfold trim_end_bytes, trim_start_bytes. apply elem_of_reverse, strip_keeps.
    - intros. apply not_white_encodings; auto.
    - apply elem_of_reverse, strip_keeps; [|done]. intros. apply not_white_encodings; auto. }
  unfold blank, trim. destruct (trim_end_bytes _); [by apply elem_of_nil in Ht|done].
Qed.

Lemma take_while_app {A} (p : A → bool) l x r :
  forallb p l = true → p x = false → take_while p (l ++ x :: r) = l.
Proof.
  intros Hl Hx. induction l as [|y l IH]; cbn in *; [by rewrite Hx|].
  apply andb_true_iff in Hl as [-> Hl]. by rewrite IH.
Qed.

Lemma obind_assoc {E A B C} (m : outcome E A) (k : A → outcome E B) (h : B → outcome E C) :
  obind (obind m k) h = obind m (λ a, obind (k a) h).
Proof. by destruct m. Qed.

(** The element that was updated in place is the one found afterwards. *)
Lemma find_update_first {A} (p : A → bool) (f : A → A) l x :
  List.find p l = Some x → p (f x) = true → List.find p (update_first p f l) = Some (f x).
Proof.
  induction l as [|y l IH]; cbn; [done|]. destruct (p y) eqn:E; cbn; [by intros [= ->] ->|].
  intros. rewrite E. auto.
Qed.
