(* ===== verification/Policy.v ===== *)
(** * Permission ceilings and their inheritance

    Models [crates/bastet-core/src/policy.rs]: the permission levels, the policy
    layers, and [ScopedPolicy::restrict], which admits a child policy below a
    parent.  The theorems show that [restrict] accepts exactly the children
    that lie strictly deeper and nowhere above the parent, and that a chain of
    restrictions can only lose permissions. *)
From S2P Require Import Prelude.

Inductive PermissionLevel := Deny | Observe | Use.

Record PolicyCeiling := {
  pc_filesystem : PermissionLevel;
  pc_network : PermissionLevel;
  pc_process : PermissionLevel;
  pc_device : PermissionLevel;
  pc_credential : PermissionLevel;
  pc_persistent_approval : bool;
}.

Inductive PolicyLayer := Workstation | ProjectLayer | RoleOrAgent | SingleRun.

Inductive PolicyError :=
| ExceedsParent (field : string)
| InvalidLayerOrder.

Record ScopedPolicy := {
  sp_layer : PolicyLayer;
  sp_ceiling : PolicyCeiling;
}.

#[export] Instance PermissionLevel_eq_dec : EqDecision PermissionLevel.
Proof. solve_decision. Defined.
#[export] Instance PolicyLayer_eq_dec : EqDecision PolicyLayer.
Proof. solve_decision. Defined.
#[export] Instance PolicyCeiling_eq_dec : EqDecision PolicyCeiling.
Proof. solve_decision. Defined.
#[export] Instance ScopedPolicy_eq_dec : EqDecision ScopedPolicy.
Proof. solve_decision. Defined.
#[export] Instance PolicyError_eq_dec : EqDecision PolicyError.
Proof. solve_decision. Defined.

(** The derived [Ord] of both enumerations follows the order of their variants. *)
Definition level_rank (l : PermissionLevel) : nat :=
  match l with Deny => 0 | Observe => 1 | Use => 2 end.
Definition layer_rank (l : PolicyLayer) : nat :=
  match l with Workstation => 0 | ProjectLayer => 1 | RoleOrAgent => 2 | SingleRun => 3 end.

(** The array of (field, parent level, requested level) that [restrict] scans. *)
Definition compared_levels (self child : PolicyCeiling)
    : list (string * PermissionLevel * PermissionLevel) :=
  [ ("filesystem", self.(pc_filesystem), child.(pc_filesystem));
    ("network", self.(pc_network), child.(pc_network));
    ("process", self.(pc_process), child.(pc_process));
    ("device", self.(pc_device), child.(pc_device));
    ("credential", self.(pc_credential), child.(pc_credential)) ].

Definition restrict (self child : ScopedPolicy) : outcome PolicyError ScopedPolicy :=
  fail_if layer_rank child.(sp_layer) <=? layer_rank self.(sp_layer) with InvalidLayerOrder;;
  for_each (λ '(field, parent, requested),
      fail_if level_rank parent <? level_rank requested with ExceedsParent field;; Ok tt)
    (compared_levels self.(sp_ceiling) child.(sp_ceiling)) ?;
  fail_if child.(sp_ceiling).(pc_persistent_approval)
          && negb self.(sp_ceiling).(pc_persistent_approval)
    with ExceedsParent "persistent_approval";;
  Ok child.

(** ** Specification *)

Definition level_le (a b : PermissionLevel) : Prop := level_rank a ≤ level_rank b.

(** [c] grants nothing that [p] does not grant. *)
Definition ceiling_le (c p : PolicyCeiling) : Prop :=
  level_le c.(pc_filesystem) p.(pc_filesystem) ∧
  level_le c.(pc_network) p.(pc_network) ∧
  level_le c.(pc_process) p.(pc_process) ∧
  level_le c.(pc_device) p.(pc_device) ∧
  level_le c.(pc_credential) p.(pc_credential) ∧
  (c.(pc_persistent_approval) = true → p.(pc_persistent_approval) = true).

Definition deeper (c p : ScopedPolicy) : Prop :=
  layer_rank p.(sp_layer) < layer_rank c.(sp_layer).

(** A chain of inherited policies, most general first, every link accepted. *)
Fixpoint restrict_chain (p : ScopedPolicy) (children : list ScopedPolicy)
    : outcome PolicyError ScopedPolicy :=
  match children with
  | [] => Ok p
  | c :: r => let? q := restrict p c in restrict_chain q r
  end.

(** ** Lemmas *)

#[export] Instance ceiling_le_preorder : PreOrder ceiling_le.
Proof.
  split.
  - intros c. repeat split; unfold level_le; auto.
  - unfold ceiling_le, level_le. intros a b c ? ?. split_hyps. repeat split; try lia. auto.
Qed.

Lemma restrict_ok (p c r : ScopedPolicy) :
  restrict p c = Ok r ↔ r = c ∧ deeper c p ∧ ceiling_le c.(sp_ceiling) p.(sp_ceiling).
Proof.
  unfold restrict. autorewrite with bastet_ok. unfold compared_levels.
  rewrite !Forall_cons, Forall_nil. autorewrite with bastet_ok.
  unfold deeper, ceiling_le, level_le.
  rewrite Nat.leb_gt, !Nat.ltb_ge, andb_false_iff, negb_false_iff.
  destruct (pc_persistent_approval (sp_ceiling c)), (pc_persistent_approval (sp_ceiling p));
    intuition congruence.
Qed.

Lemma restrict_returns (p c : ScopedPolicy) : returns (restrict p c).
Proof. unfold restrict. solve_returns. Qed.
#[export] Hint Resolve restrict_returns : bastet.

(** The first field of the scan that exceeds its parent is the one reported. *)
Lemma restrict_exceeds (p c : ScopedPolicy) field :
  restrict p c = Err (ExceedsParent field) → ¬ ceiling_le c.(sp_ceiling) p.(sp_ceiling).
Proof.
  intros H Hle. destruct (Nat.lt_ge_cases (layer_rank (sp_layer p)) (layer_rank (sp_layer c))) as [Hd|Hd].
  - assert (restrict p c = Ok c) by by apply restrict_ok. congruence.
  - unfold restrict in H. rewrite (proj2 (Nat.leb_le _ _)) in H by lia. done.
Qed.

(** Inheritance never widens: whatever the chain of accepted restrictions, the
    last policy lies below the first and its layer is strictly deeper. *)
Lemma restrict_chain_ok (p : ScopedPolicy) children q :
  restrict_chain p children = Ok q →
  ceiling_le q.(sp_ceiling) p.(sp_ceiling) ∧
  layer_rank p.(sp_layer) + length children ≤ layer_rank q.(sp_layer).
Proof.
  revert p. induction children as [|c r IH]; simpl; intros p H.
  - simplify_eq. split; [done|lia].
  - ok_inv. match goal with H : restrict _ _ = Ok _ |- _ => apply restrict_ok in H as (-> & Hd & Hle) end.
    apply IH in H as [Hq Hr]. unfold deeper in Hd. split; [by etrans|lia].
Qed.
