(* ===== verification/Identity.v ===== *)
(** * Identities and catalog records

    Models [crates/bastet-core/src/identity.rs] and the data of
    [crates/bastet-core/src/adapter.rs]: the stable identifiers, the metadata
    every entity carries, and the entities of the identity catalog. *)
From Corelib Require Import Floats.SpecFloat.
From S2P Require Import Prelude Policy.

(** ** Stable identifiers

    The [stable_id!] macro makes one newtype over a [Uuid] per entity.  The
    phantom [id_kind] keeps the newtypes apart; the 128-bit value is only
    compared.  [new] draws the value at random, so fresh identifiers are
    arguments of the operations that create them. *)
Inductive id_kind :=
| AgentProviderK | ModelProviderK | AccountK | ModelK | AgentInstanceK | ProjectK | RoleK
| SessionK | RunK | CredentialReferenceK | ApprovalRequestK | PetProfileK | PetAssignmentK
| RoomK | MeetingK | DecisionBaselineK | GraphNodeK | GraphRunK | ArtifactK
| ArtifactVersionK | CostRecordK | KnowledgeDeliveryK.

Notation Uuid := N.

Record stable_id (k : id_kind) := mk_id { value : Uuid }.
Arguments mk_id {k} value.
Arguments value {k} s.

(** [Uuid::from_bytes]: sixteen bytes, most significant first. *)
Definition from_bytes {k} (bytes : list ascii) : stable_id k :=
  mk_id (fold_left (λ acc b, 256 * acc + N_of_ascii b)%N bytes 0%N).

#[export] Instance stable_id_eq_dec k : EqDecision (stable_id k).
Proof. solve_decision. Defined.
#[export] Instance stable_id_countable k : Countable (stable_id k).
Proof. apply (inj_countable' value mk_id). by intros []. Defined.

Notation AgentProviderId := (stable_id AgentProviderK).
Notation ModelProviderId := (stable_id ModelProviderK).
Notation AccountId := (stable_id AccountK).
Notation ModelId := (stable_id ModelK).
Notation AgentInstanceId := (stable_id AgentInstanceK).
Notation ProjectId := (stable_id ProjectK).
Notation RoleId := (stable_id RoleK).
Notation SessionId := (stable_id SessionK).
Notation RunId := (stable_id RunK).
Notation CredentialReferenceId := (stable_id CredentialReferenceK).
Notation ApprovalRequestId := (stable_id ApprovalRequestK).
Notation PetProfileId := (stable_id PetProfileK).
Notation PetAssignmentId := (stable_id PetAssignmentK).
Notation RoomId := (stable_id RoomK).
Notation MeetingId := (stable_id MeetingK).
Notation DecisionBaselineId := (stable_id DecisionBaselineK).
Notation GraphNodeId := (stable_id GraphNodeK).
Notation GraphRunId := (stable_id GraphRunK).
Notation ArtifactId := (stable_id ArtifactK).
Notation ArtifactVersionId := (stable_id ArtifactVersionK).
Notation CostRecordId := (stable_id CostRecordK).
Notation KnowledgeDeliveryId := (stable_id KnowledgeDeliveryK).

(** ** Metadata *)

Inductive EntityLifecycle := Active | Disabled | Archived.

Record Provenance := {
  pv_source_kind : string;
  pv_source_id : string;
  pv_recorded_by : string;
}.

Record EntityMetadata (k : id_kind) := {
  em_id : stable_id k;
  em_revision : Z;
  em_created_at : string;
  em_updated_at : string;
  em_provenance : Provenance;
  em_lifecycle : EntityLifecycle;
}.
Arguments em_id {k} e.
Arguments em_revision {k} e.
Arguments em_created_at {k} e.
Arguments em_updated_at {k} e.
Arguments em_provenance {k} e.
Arguments em_lifecycle {k} e.

(** ** Adapter vocabulary *)

Inductive AdapterOperation :=
| Discover | Install | Update | Version | Doctor | Authenticate | InspectAuthentication
| ListModels | Start | Attach | Prompt | Steer | FollowUp | Status | Explain | Wait
| Cancel | Terminate | ExportSession | ExportResult | ExportUsage.

Record AdapterCapabilities := {
  ac_operations : list AdapterOperation;
  ac_reasoning_controls : list string;
  ac_supports_read_only : bool;
  ac_supports_write : bool;
  ac_supports_resume : bool;
  ac_supports_structured_events : bool;
}.

Inductive EvidenceClass :=
| ProviderReported | AgentReported | LocallyMeasured | Estimated | UnknownEvidence.

Inductive NormalizedRunState :=
| RunStarting | RunRunning | RunAwaitingApproval | RunBlocked | RunCancelling | RunCancelled
| RunFailed | RunSucceeded | RunRecovering | RunUncertain.

Record NormalizedAdapterEvent := {
  ev_contract_version : Z;
  ev_run_id : RunId;
  ev_sequence : Z;
  ev_state : NormalizedRunState;
  ev_event_type : string;
  ev_occurred_at : string;
  ev_evidence_class : EvidenceClass;
  ev_provider_event_id : option string;
  ev_redacted_payload_json : string;
}.

Inductive AdapterFailureKind :=
| BinaryMissing | Authentication | Quota | PermissionDenied | Timeout | CancelledFailure
| Crashed | ProtocolDrift | MalformedOutput | Unsupported | UnknownFailure.

Record AdapterFailure := {
  af_kind : AdapterFailureKind;
  af_message_key : string;
  af_retryable : bool;
  af_provider_code : option string;
  af_redacted_detail : option string;
}.

Record StartRunRequest := {
  sr_agent_instance_id : AgentInstanceId;
  sr_account_id : option AccountId;
  sr_model_id : ModelId;
  sr_session_id : SessionId;
  sr_run_id : RunId;
  sr_prompt : string;
  sr_read_only : bool;
  sr_timeout_seconds : Z;
}.

(** [f64] and [f32] are IEEE 754 data, the Standard Library's [spec_float]. *)
Record CostEvidence := {
  ce_evidence_class : EvidenceClass;
  ce_currency : option string;
  ce_amount : option spec_float;
  ce_input_tokens : option Z;
  ce_output_tokens : option Z;
  ce_confidence : spec_float;
}.

Definition AGENT_ADAPTER_CONTRACT_VERSION : Z := 1.

(** ** Entities *)

Inductive CredentialBackend := MacosKeychain | WindowsCredentialManager | LinuxSecretService.

Record CredentialReference := {
  cr_metadata : EntityMetadata CredentialReferenceK;
  cr_backend : CredentialBackend;
  cr_service : string;
  cr_account_label : string;
}.

Record AgentProvider := {
  ap_metadata : EntityMetadata AgentProviderK;
  ap_adapter_kind : string;
  ap_display_name : string;
}.

Record ModelProvider := {
  mp_metadata : EntityMetadata ModelProviderK;
  mp_provider_key : string;
  mp_display_name : string;
}.

Record Account := {
  acc_metadata : EntityMetadata AccountK;
  acc_agent_provider_id : AgentProviderId;
  acc_provider_identity : string;
  acc_credential_reference_id : option CredentialReferenceId;
}.

Record Model := {
  md_metadata : EntityMetadata ModelK;
  md_model_provider_id : ModelProviderId;
  md_provider_model_id : string;
  md_reasoning_controls : list string;
}.

Record AgentInstance := {
  ai_metadata : EntityMetadata AgentInstanceK;
  ai_agent_provider_id : AgentProviderId;
  ai_account_id : option AccountId;
  ai_default_model_id : option ModelId;
}.

Record Project := {
  pj_metadata : EntityMetadata ProjectK;
  pj_name : string;
  pj_workspace_root : string;
  pj_policy : ScopedPolicy;
}.

Record Role := {
  rl_metadata : EntityMetadata RoleK;
  rl_name : string;
  rl_responsibilities : list string;
  rl_policy : ScopedPolicy;
}.

Record Session := {
  ss_metadata : EntityMetadata SessionK;
  ss_agent_instance_id : AgentInstanceId;
  ss_project_id : ProjectId;
  ss_provider_session_id : option string;
}.

Record Run := {
  rn_metadata : EntityMetadata RunK;
  rn_session_id : SessionId;
  rn_model_id : ModelId;
  rn_state : NormalizedRunState;
  rn_started_at : option string;
  rn_finished_at : option string;
}.

(** ** Decidable equality *)

#[export] Instance id_kind_eq_dec : EqDecision id_kind.
Proof. solve_decision. Defined.
#[export] Instance EntityLifecycle_eq_dec : EqDecision EntityLifecycle.
Proof. solve_decision. Defined.
#[export] Instance EvidenceClass_eq_dec : EqDecision EvidenceClass.
Proof. solve_decision. Defined.
#[export] Instance NormalizedRunState_eq_dec : EqDecision NormalizedRunState.
Proof. solve_decision. Defined.
#[export] Instance AdapterFailureKind_eq_dec : EqDecision AdapterFailureKind.
Proof. solve_decision. Defined.
#[export] Instance AdapterFailure_eq_dec : EqDecision AdapterFailure.
Proof. solve_decision. Defined.
#[export] Instance CredentialBackend_eq_dec : EqDecision CredentialBackend.
Proof. solve_decision. Defined.
#[export] Instance Provenance_eq_dec : EqDecision Provenance.
Proof. solve_decision. Defined.
#[export] Instance EntityMetadata_eq_dec k : EqDecision (EntityMetadata k).
Proof. solve_decision. Defined.
#[export] Instance Run_eq_dec : EqDecision Run.
Proof. solve_decision. Defined.
#[export] Instance CredentialReference_eq_dec : EqDecision CredentialReference.
Proof. solve_decision. Defined.
#[export] Instance AgentProvider_eq_dec : EqDecision AgentProvider.
Proof. solve_decision. Defined.
#[export] Instance ModelProvider_eq_dec : EqDecision ModelProvider.
Proof. solve_decision. Defined.
#[export] Instance Account_eq_dec : EqDecision Account.
Proof. solve_decision. Defined.
#[export] Instance Model_eq_dec : EqDecision Model.
Proof. solve_decision. Defined.
#[export] Instance AgentInstance_eq_dec : EqDecision AgentInstance.
Proof. solve_decision. Defined.
#[export] Instance Project_eq_dec : EqDecision Project.
Proof. solve_decision. Defined.
#[export] Instance Role_eq_dec : EqDecision Role.
Proof. solve_decision. Defined.
#[export] Instance Session_eq_dec : EqDecision Session.
Proof. solve_decision. Defined.

(** Sixteen equal bytes: the shape of the identifiers written in the code. *)
Definition id_of_byte {k} (b : N) : stable_id k :=
  from_bytes (repeat (ascii_of_N b) 16).
