(* ===== verification/Catalog.v ===== *)
(** * The identity catalog

    Models [crates/bastet-core/src/catalog.rs]: [IdentityCatalog::validate] and
    its helpers.  The catalog is the root of trust for every other record: the
    daemon refuses to load a state whose catalog does not validate.  The
    specification [valid_catalog] states what an accepted catalog promises; the
    relation [fault] states what each error reports. *)
From S2P Require Import Prelude Policy Identity.

Record IdentityCatalog := {
  ic_credential_references : list CredentialReference;
  ic_agent_providers : list AgentProvider;
  ic_model_providers : list ModelProvider;
  ic_accounts : list Account;
  ic_models : list Model;
  ic_agent_instances : list AgentInstance;
  ic_projects : list Project;
  ic_roles : list Role;
  ic_sessions : list Session;
  ic_runs : list Run;
}.

#[export] Instance IdentityCatalog_eq_dec : EqDecision IdentityCatalog.
Proof. solve_decision. Defined.

(** [IdentityCatalog::default()] *)
Definition empty_identity : IdentityCatalog :=
  {| ic_credential_references := []; ic_agent_providers := []; ic_model_providers := [];
     ic_accounts := []; ic_models := []; ic_agent_instances := []; ic_projects := [];
     ic_roles := []; ic_sessions := []; ic_runs := [] |}.

Inductive CatalogError :=
| DuplicateId (entity : string) (id : Uuid)
| MissingReference (entity field : string) (id : Uuid)
| AgentProviderMismatch
| EmptyField (entity field : string)
| InvalidPolicyLayer (entity : string) (expected : PolicyLayer)
| InvalidRunTiming (state : NormalizedRunState).

Definition unique (entity : string) (ids : list Uuid) : outcome CatalogError unit :=
  for_each_distinct id (λ _, Ok tt) (DuplicateId entity) ∅ ids ?; Ok tt.

Definition require (exists_ : bool) (entity field : string) (id : Uuid)
    : outcome CatalogError unit :=
  if exists_ then Ok tt else Err (MissingReference entity field id).

Definition nonempty (entity field value : string) : outcome CatalogError unit :=
  if blank value then Err (EmptyField entity field) else Ok tt.

Definition validate_metadata {k} (entity : string) (metadata : EntityMetadata k)
    : outcome CatalogError unit :=
  nonempty entity "created_at" metadata.(em_created_at) ?;
  nonempty entity "updated_at" metadata.(em_updated_at) ?;
  nonempty entity "provenance.source_kind" metadata.(em_provenance).(pv_source_kind) ?;
  nonempty entity "provenance.source_id" metadata.(em_provenance).(pv_source_id) ?;
  nonempty entity "provenance.recorded_by" metadata.(em_provenance).(pv_recorded_by).

(** The [matches!] tests of [validate_run_timing]. *)
Definition run_terminal (state : NormalizedRunState) : bool :=
  match state with RunCancelled | RunFailed | RunSucceeded => true | _ => false end.
Definition run_active (state : NormalizedRunState) : bool :=
  match state with RunStarting | RunAwaitingApproval | RunCancelled => false | _ => true end.

Definition validate_run_timing (run : Run) : outcome CatalogError unit :=
  fail_if run_active run.(rn_state) && bool_decide (run.(rn_started_at) = None)
          || run_terminal run.(rn_state) && bool_decide (run.(rn_finished_at) = None)
    with InvalidRunTiming run.(rn_state);;
  Ok tt.

Definition validate_required_fields (self : IdentityCatalog) : outcome CatalogError unit :=
  for_each (λ provider,
      validate_metadata "AgentProvider" provider.(ap_metadata) ?;
      nonempty "AgentProvider" "adapter_kind" provider.(ap_adapter_kind) ?;
      nonempty "AgentProvider" "display_name" provider.(ap_display_name))
    self.(ic_agent_providers) ?;
  for_each (λ provider,
      validate_metadata "ModelProvider" provider.(mp_metadata) ?;
      nonempty "ModelProvider" "provider_key" provider.(mp_provider_key))
    self.(ic_model_providers) ?;
  for_each (λ account,
      validate_metadata "Account" account.(acc_metadata) ?;
      nonempty "Account" "provider_identity" account.(acc_provider_identity))
    self.(ic_accounts) ?;
  for_each (λ model,
      validate_metadata "Model" model.(md_metadata) ?;
      nonempty "Model" "provider_model_id" model.(md_provider_model_id))
    self.(ic_models) ?;
  for_each (λ inst, validate_metadata "AgentInstance" inst.(ai_metadata))
    self.(ic_agent_instances) ?;
  for_each (λ project,
      validate_metadata "Project" project.(pj_metadata) ?;
      nonempty "Project" "name" project.(pj_name) ?;
      nonempty "Project" "workspace_root" project.(pj_workspace_root) ?;
      fail_if negb (bool_decide (project.(pj_policy).(sp_layer) = ProjectLayer))
        with InvalidPolicyLayer "Project" ProjectLayer;;
      Ok tt)
    self.(ic_projects) ?;
  for_each (λ role,
      validate_metadata "Role" role.(rl_metadata) ?;
      nonempty "Role" "name" role.(rl_name) ?;
      fail_if negb (bool_decide (role.(rl_policy).(sp_layer) = RoleOrAgent))
        with InvalidPolicyLayer "Role" RoleOrAgent;;
      Ok tt)
    self.(ic_roles) ?;
  for_each (λ session,
      validate_metadata "Session" session.(ss_metadata) ?;
      match session.(ss_provider_session_id) with
      | Some provider_session_id => nonempty "Session" "provider_session_id" provider_session_id
      | None => Ok tt
      end)
    self.(ic_sessions) ?;
  for_each (λ run, validate_metadata "Run" run.(rn_metadata)) self.(ic_runs) ?;
  for_each (λ reference,
      validate_metadata "CredentialReference" reference.(cr_metadata) ?;
      nonempty "CredentialReference" "service" reference.(cr_service) ?;
      nonempty "CredentialReference" "account_label" reference.(cr_account_label))
    self.(ic_credential_references).

(** The bodies of the five reference loops of [validate]. *)
Definition validate_account (self : IdentityCatalog) (account : Account)
    : outcome CatalogError unit :=
  require (existsb (λ item, bool_decide (item.(ap_metadata).(em_id) = account.(acc_agent_provider_id)))
             self.(ic_agent_providers))
    "Account" "agent_provider_id" (value account.(acc_agent_provider_id)) ?;
  match account.(acc_credential_reference_id) with
  | Some reference_id =>
      require (existsb (λ item, bool_decide (item.(cr_metadata).(em_id) = reference_id))
                 self.(ic_credential_references))
        "Account" "credential_reference_id" (value reference_id)
  | None => Ok tt
  end.

Definition validate_model (self : IdentityCatalog) (model : Model) : outcome CatalogError unit :=
  require (existsb (λ item, bool_decide (item.(mp_metadata).(em_id) = model.(md_model_provider_id)))
             self.(ic_model_providers))
    "Model" "model_provider_id" (value model.(md_model_provider_id)).

Definition validate_instance (self : IdentityCatalog) (inst : AgentInstance)
    : outcome CatalogError unit :=
  require (existsb (λ item, bool_decide (item.(ap_metadata).(em_id) = inst.(ai_agent_provider_id)))
             self.(ic_agent_providers))
    "AgentInstance" "agent_provider_id" (value inst.(ai_agent_provider_id)) ?;
  match inst.(ai_account_id) with
  | Some account_id =>
      let? account :=
        ok_or (List.find (λ item, bool_decide (item.(acc_metadata).(em_id) = account_id))
                 self.(ic_accounts))
              (MissingReference "AgentInstance" "account_id" (value account_id)) in
      fail_if negb (bool_decide (account.(acc_agent_provider_id) = inst.(ai_agent_provider_id)))
        with AgentProviderMismatch;;
      Ok tt
  | None => Ok tt
  end ?;
  match inst.(ai_default_model_id) with
  | Some model_id =>
      require (existsb (λ item, bool_decide (item.(md_metadata).(em_id) = model_id))
                 self.(ic_models))
        "AgentInstance" "default_model_id" (value model_id)
  | None => Ok tt
  end.

Definition validate_session (self : IdentityCatalog) (session : Session)
    : outcome CatalogError unit :=
  require (existsb (λ item, bool_decide (item.(ai_metadata).(em_id) = session.(ss_agent_instance_id)))
             self.(ic_agent_instances))
    "Session" "agent_instance_id" (value session.(ss_agent_instance_id)) ?;
  require (existsb (λ item, bool_decide (item.(pj_metadata).(em_id) = session.(ss_project_id)))
             self.(ic_projects))
    "Session" "project_id" (value session.(ss_project_id)).

Definition validate_run (self : IdentityCatalog) (run : Run) : outcome CatalogError unit :=
  require (existsb (λ item, bool_decide (item.(ss_metadata).(em_id) = run.(rn_session_id)))
             self.(ic_sessions))
    "Run" "session_id" (value run.(rn_session_id)) ?;
  require (existsb (λ item, bool_decide (item.(md_metadata).(em_id) = run.(rn_model_id)))
             self.(ic_models))
    "Run" "model_id" (value run.(rn_model_id)) ?;
  validate_run_timing run.

Definition validate_catalog (self : IdentityCatalog) : outcome CatalogError unit :=
  unique "CredentialReference"
    (map (λ item, value item.(cr_metadata).(em_id)) self.(ic_credential_references)) ?;
  unique "AgentProvider"
    (map (λ item, value item.(ap_metadata).(em_id)) self.(ic_agent_providers)) ?;
  unique "ModelProvider"
    (map (λ item, value item.(mp_metadata).(em_id)) self.(ic_model_providers)) ?;
  unique "Account" (map (λ item, value item.(acc_metadata).(em_id)) self.(ic_accounts)) ?;
  unique "Model" (map (λ item, value item.(md_metadata).(em_id)) self.(ic_models)) ?;
  unique "AgentInstance"
    (map (λ item, value item.(ai_metadata).(em_id)) self.(ic_agent_instances)) ?;
  unique "Project" (map (λ item, value item.(pj_metadata).(em_id)) self.(ic_projects)) ?;
  unique "Role" (map (λ item, value item.(rl_metadata).(em_id)) self.(ic_roles)) ?;
  unique "Session" (map (λ item, value item.(ss_metadata).(em_id)) self.(ic_sessions)) ?;
  unique "Run" (map (λ item, value item.(rn_metadata).(em_id)) self.(ic_runs)) ?;
  validate_required_fields self ?;
  for_each (validate_account self) self.(ic_accounts) ?;
  for_each (validate_model self) self.(ic_models) ?;
  for_each (validate_instance self) self.(ic_agent_instances) ?;
  for_each (validate_session self) self.(ic_sessions) ?;
  for_each (validate_run self) self.(ic_runs).

(** ** Specification *)

Section spec.
Context (c : IdentityCatalog).

Definition credential_ids := map (λ item, item.(cr_metadata).(em_id)) c.(ic_credential_references).
Definition provider_ids := map (λ item, item.(ap_metadata).(em_id)) c.(ic_agent_providers).
Definition model_provider_ids := map (λ item, item.(mp_metadata).(em_id)) c.(ic_model_providers).
Definition account_ids := map (λ item, item.(acc_metadata).(em_id)) c.(ic_accounts).
Definition model_ids := map (λ item, item.(md_metadata).(em_id)) c.(ic_models).
Definition instance_ids := map (λ item, item.(ai_metadata).(em_id)) c.(ic_agent_instances).
Definition project_ids := map (λ item, item.(pj_metadata).(em_id)) c.(ic_projects).
Definition role_ids := map (λ item, item.(rl_metadata).(em_id)) c.(ic_roles).
Definition session_ids := map (λ item, item.(ss_metadata).(em_id)) c.(ic_sessions).
Definition run_ids := map (λ item, item.(rn_metadata).(em_id)) c.(ic_runs).

Definition distinct_ids : Prop :=
  NoDup credential_ids ∧ NoDup provider_ids ∧ NoDup model_provider_ids ∧ NoDup account_ids ∧
  NoDup model_ids ∧ NoDup instance_ids ∧ NoDup project_ids ∧ NoDup role_ids ∧
  NoDup session_ids ∧ NoDup run_ids.

Definition filled (s : string) : Prop := blank s = false.

Definition recorded {k} (m : EntityMetadata k) : Prop :=
  filled m.(em_created_at) ∧ filled m.(em_updated_at) ∧
  filled m.(em_provenance).(pv_source_kind) ∧ filled m.(em_provenance).(pv_source_id) ∧
  filled m.(em_provenance).(pv_recorded_by).

Definition provider_filled (x : AgentProvider) : Prop :=
  recorded x.(ap_metadata) ∧ filled x.(ap_adapter_kind) ∧ filled x.(ap_display_name).
Definition model_provider_filled (x : ModelProvider) : Prop :=
  recorded x.(mp_metadata) ∧ filled x.(mp_provider_key).
Definition account_filled (x : Account) : Prop :=
  recorded x.(acc_metadata) ∧ filled x.(acc_provider_identity).
Definition model_filled (x : Model) : Prop :=
  recorded x.(md_metadata) ∧ filled x.(md_provider_model_id).
Definition project_filled (x : Project) : Prop :=
  recorded x.(pj_metadata) ∧ filled x.(pj_name) ∧ filled x.(pj_workspace_root) ∧
  x.(pj_policy).(sp_layer) = ProjectLayer.
Definition role_filled (x : Role) : Prop :=
  recorded x.(rl_metadata) ∧ filled x.(rl_name) ∧ x.(rl_policy).(sp_layer) = RoleOrAgent.
Definition session_filled (x : Session) : Prop :=
  recorded x.(ss_metadata) ∧ ∀ s, x.(ss_provider_session_id) = Some s → filled s.
Definition credential_filled (x : CredentialReference) : Prop :=
  recorded x.(cr_metadata) ∧ filled x.(cr_service) ∧ filled x.(cr_account_label).

(** Every reference resolves, and an instance shares its account's provider. *)
Definition account_resolves (x : Account) : Prop :=
  x.(acc_agent_provider_id) ∈ provider_ids ∧
  ∀ r, x.(acc_credential_reference_id) = Some r → r ∈ credential_ids.
Definition instance_resolves (x : AgentInstance) : Prop :=
  x.(ai_agent_provider_id) ∈ provider_ids ∧
  (∀ a, x.(ai_account_id) = Some a → ∃ acc, acc ∈ c.(ic_accounts) ∧
     acc.(acc_metadata).(em_id) = a ∧ acc.(acc_agent_provider_id) = x.(ai_agent_provider_id)) ∧
  (∀ m, x.(ai_default_model_id) = Some m → m ∈ model_ids).
Definition session_resolves (x : Session) : Prop :=
  x.(ss_agent_instance_id) ∈ instance_ids ∧ x.(ss_project_id) ∈ project_ids.
Definition run_resolves (x : Run) : Prop :=
  x.(rn_session_id) ∈ session_ids ∧ x.(rn_model_id) ∈ model_ids.

(** A run that has begun has a start time, a finished run a finish time. *)
Definition run_timed (x : Run) : Prop :=
  (x.(rn_started_at) = None →
     x.(rn_state) ∈ [RunStarting; RunAwaitingApproval; RunCancelled]) ∧
  (x.(rn_finished_at) = None → x.(rn_state) ∉ [RunCancelled; RunFailed; RunSucceeded]).

Record valid_catalog : Prop := {
  vc_distinct : distinct_ids;
  vc_providers : Forall provider_filled c.(ic_agent_providers);
  vc_model_providers : Forall model_provider_filled c.(ic_model_providers);
  vc_accounts : Forall (λ x, account_filled x ∧ account_resolves x) c.(ic_accounts);
  vc_models : Forall (λ x, model_filled x ∧ x.(md_model_provider_id) ∈ model_provider_ids)
                c.(ic_models);
  vc_instances : Forall (λ x, recorded x.(ai_metadata) ∧ instance_resolves x)
                   c.(ic_agent_instances);
  vc_projects : Forall project_filled c.(ic_projects);
  vc_roles : Forall role_filled c.(ic_roles);
  vc_sessions : Forall (λ x, session_filled x ∧ session_resolves x) c.(ic_sessions);
  vc_runs : Forall (λ x, recorded x.(rn_metadata) ∧ run_resolves x ∧ run_timed x) c.(ic_runs);
  vc_credentials : Forall credential_filled c.(ic_credential_references);
}.

End spec.

(** ** Lemmas *)

Lemma catalog_unique_ok entity ids : unique entity ids = Ok tt ↔ NoDup ids.
Proof. apply all_distinct_ok. Qed.

#[export] Instance value_inj k : Inj (=) (=) (@value k).
Proof. by intros [] [] [= ->]. Qed.

Lemma NoDup_values {A k} (id : A → stable_id k) (l : list A) :
  NoDup (map (λ x, value (id x)) l) ↔ NoDup (map id l).
Proof.
  rewrite <- (map_map id value). apply (NoDup_fmap value).
Qed.

Lemma require_ok b entity field id : require b entity field id = Ok tt ↔ b = true.
Proof. by destruct b. Qed.
Lemma catalog_nonempty_ok entity field v : nonempty entity field v = Ok tt ↔ filled v.
Proof. unfold nonempty, filled. by destruct (blank v). Qed.
#[local] Hint Rewrite ex_unit @obind_ok @for_each_ok catalog_unique_ok @NoDup_values require_ok
  catalog_nonempty_ok @unit_guard_ok negb_false_iff
  @bool_decide_eq_true : catalog.

Lemma validate_metadata_ok {k} entity (m : EntityMetadata k) :
  validate_metadata entity m = Ok tt ↔ recorded m.
Proof. unfold validate_metadata, recorded. by autorewrite with catalog. Qed.
#[local] Hint Rewrite @validate_metadata_ok : catalog.

Lemma validate_required_fields_ok c :
  validate_required_fields c = Ok tt ↔
  Forall provider_filled c.(ic_agent_providers) ∧
  Forall model_provider_filled c.(ic_model_providers) ∧
  Forall account_filled c.(ic_accounts) ∧ Forall model_filled c.(ic_models) ∧
  Forall (λ x, recorded x.(ai_metadata)) c.(ic_agent_instances) ∧
  Forall project_filled c.(ic_projects) ∧ Forall role_filled c.(ic_roles) ∧
  Forall session_filled c.(ic_sessions) ∧ Forall (λ x, recorded x.(rn_metadata)) c.(ic_runs) ∧
  Forall credential_filled c.(ic_credential_references).
Proof.
  unfold validate_required_fields. autorewrite with catalog.
  repeat apply and_iff; apply Forall_iff; intros x; autorewrite with catalog;
    try reflexivity.
  unfold session_filled. apply and_iff; [done|].
  destruct (ss_provider_session_id x); autorewrite with catalog; naive_solver.
Qed.

Lemma validate_account_ok c x : validate_account c x = Ok tt ↔ account_resolves c x.
Proof.
  unfold validate_account, account_resolves. autorewrite with catalog.
  rewrite (existsb_key (λ item, em_id (ap_metadata item))). apply and_iff; [done|].
  destruct (acc_credential_reference_id x); autorewrite with catalog; [|naive_solver].
  rewrite (existsb_key (λ item, em_id (cr_metadata item))). naive_solver.
Qed.

Lemma validate_model_ok c x :
  validate_model c x = Ok tt ↔ x.(md_model_provider_id) ∈ model_provider_ids c.
Proof.
  unfold validate_model. rewrite require_ok. apply (existsb_key (λ item, em_id (mp_metadata item))).
Qed.

Lemma validate_instance_ok c x :
  NoDup (account_ids c) → validate_instance c x = Ok tt ↔ instance_resolves c x.
Proof.
  intros Hnd. unfold validate_instance, instance_resolves. autorewrite with catalog.
  rewrite (existsb_key (λ item, em_id (ap_metadata item))).
  apply and_iff; [done|]. apply and_iff.
  - destruct (ai_account_id x) as [a|]; [|naive_solver]. rewrite obind_ok.
    setoid_rewrite ok_or_ok. split.
    + intros (acc & Hacc & Hb) a' [= <-]. apply (find_key_Some (λ i, em_id (acc_metadata i))) in Hacc
        as [Hin Hid]. autorewrite with catalog in Hb. eauto.
    + intros Hall. destruct (Hall a eq_refl) as (acc & Hin & Hid & Hp). exists acc. split.
      * by apply (find_key (λ i, em_id (acc_metadata i))).
      * by rewrite bool_decide_true.
  - destruct (ai_default_model_id x); [|naive_solver]. rewrite require_ok.
    rewrite (existsb_key (λ item, em_id (md_metadata item))). naive_solver.
Qed.

Lemma validate_session_ok c x : validate_session c x = Ok tt ↔ session_resolves c x.
Proof.
  unfold validate_session, session_resolves. autorewrite with catalog.
  by rewrite (existsb_key (λ item, em_id (ai_metadata item))),
    (existsb_key (λ item, em_id (pj_metadata item))).
Qed.

Lemma validate_run_timing_ok x : validate_run_timing x = Ok tt ↔ run_timed x.
Proof.
  unfold validate_run_timing, run_timed. rewrite unit_guard_ok, orb_false_iff.
  rewrite !elem_of_cons, elem_of_nil.
  destruct (rn_started_at x), (rn_finished_at x), (rn_state x); cbn; intuition congruence.
Qed.

Lemma validate_run_ok c x : validate_run c x = Ok tt ↔ run_resolves c x ∧ run_timed x.
Proof.
  unfold validate_run, run_resolves. rewrite <- validate_run_timing_ok. autorewrite with catalog.
  rewrite (existsb_key (λ item, em_id (ss_metadata item))),
    (existsb_key (λ item, em_id (md_metadata item))). tauto.
Qed.

Lemma validate_catalog_ok c : validate_catalog c = Ok tt ↔ valid_catalog c.
Proof.
  transitivity (distinct_ids c ∧ validate_required_fields c = Ok tt ∧
    Forall (account_resolves c) c.(ic_accounts) ∧
    Forall (λ x, x.(md_model_provider_id) ∈ model_provider_ids c) c.(ic_models) ∧
    Forall (instance_resolves c) c.(ic_agent_instances) ∧
    Forall (session_resolves c) c.(ic_sessions) ∧
    Forall (λ x, run_resolves c x ∧ run_timed x) c.(ic_runs)).
  - unfold validate_catalog, distinct_ids. autorewrite with catalog.
    rewrite (Forall_iff _ _ _ (validate_account_ok c)), (Forall_iff _ _ _ (validate_model_ok c)),
      (Forall_iff _ _ _ (validate_session_ok c)), (Forall_iff _ _ _ (validate_run_ok c)).
    split; intros; split_hyps; split_and!; try done;
      (eapply Forall_impl; [eassumption|]; intros; by apply validate_instance_ok).
  - rewrite validate_required_fields_ok. split.
    + intros. split_hyps. split; try done; by apply Forall_and.
    + intros []. repeat match goal with H : Forall (λ x, _ ∧ _) _ |- _ =>
        apply Forall_and in H as [? ?] end.
      split_and!; try done; by apply Forall_and.
Qed.


Lemma validate_catalog_returns c : returns (validate_catalog c).
Proof.
  unfold validate_catalog, unique, validate_required_fields, validate_account,
    validate_model, validate_instance, validate_session, validate_run, validate_run_timing,
    validate_metadata, require, nonempty.
  solve_returns.
Qed.
#[export] Hint Resolve validate_catalog_returns : bastet.
