(* ===== verification/Office.v ===== *)
(** * The office catalog

    Models [crates/bastet-core/src/office.rs]: pet profiles, their assignment
    to project roles, meeting rooms, and [OfficeCatalog::validate] against an
    identity catalog. *)
From S2P Require Import Prelude Policy Identity Catalog.

Definition REQUIRED_PET_STATES : list string :=
  [ "idle"; "thinking"; "working"; "waiting"; "blocked"; "approval_required"; "succeeded";
    "failed" ].

Record PetStateAsset := {
  ps_state_key : string;
  ps_asset_ref : string;
  ps_accessible_label_key : string;
}.

Record PetProfile := {
  pp_metadata : EntityMetadata PetProfileK;
  pp_name : string;
  pp_version : Z;
  pp_states : list PetStateAsset;
}.

#[export] Instance PetStateAsset_eq_dec : EqDecision PetStateAsset.
Proof. solve_decision. Defined.
#[export] Instance PetProfile_eq_dec : EqDecision PetProfile.
Proof. solve_decision. Defined.

Record PetAssignment := {
  pa_metadata : EntityMetadata PetAssignmentK;
  pa_project_id : ProjectId;
  pa_role_id : RoleId;
  pa_agent_instance_id : AgentInstanceId;
  pa_pet_profile_id : PetProfileId;
}.

Record Room := {
  rm_metadata : EntityMetadata RoomK;
  rm_project_id : ProjectId;
  rm_name : string;
  rm_capacity : Z;
}.

Record OfficeCatalog := {
  oc_pet_profiles : list PetProfile;
  oc_pet_assignments : list PetAssignment;
  oc_rooms : list Room;
}.

Inductive OfficeError :=
| DuplicateId (entity : string) (id : Uuid)
| EmptyField (entity field : string)
| InvalidVersion
| InvalidCapacity
| MissingPetState (state : string)
| DuplicatePetState (state : string)
| MissingPetProfile
| MissingIdentityReference
| MissingProject
| DuplicateRoleAssignment.

Definition unique (entity : string) (ids : list Uuid) : outcome OfficeError unit :=
  for_each_distinct id (λ _, Ok tt) (DuplicateId entity) ∅ ids ?; Ok tt.

Definition nonempty (entity field value : string) : outcome OfficeError unit :=
  if blank value then Err (EmptyField entity field) else Ok tt.

(** The bodies of the three loops of [validate]. *)
Definition validate_profile (profile : PetProfile) : outcome OfficeError unit :=
  nonempty "PetProfile" "name" profile.(pp_name) ?;
  fail_if bool_decide (profile.(pp_version) = 0%Z) with InvalidVersion;;
  let? states :=
    for_each_distinct ps_state_key (λ state,
        nonempty "PetStateAsset" "state_key" state.(ps_state_key) ?;
        nonempty "PetStateAsset" "asset_ref" state.(ps_asset_ref) ?;
        nonempty "PetStateAsset" "accessible_label_key" state.(ps_accessible_label_key))
      (λ state, DuplicatePetState state.(ps_state_key)) ∅ profile.(pp_states) in
  for_each (λ required,
      fail_if negb (bool_decide (required ∈ states)) with MissingPetState required;; Ok tt)
    REQUIRED_PET_STATES.

Definition validate_assignment (self : OfficeCatalog) (identity : IdentityCatalog)
    (assignment : PetAssignment) : outcome OfficeError unit :=
  fail_if negb (existsb (λ profile,
                   bool_decide (profile.(pp_metadata).(em_id) = assignment.(pa_pet_profile_id)))
                 self.(oc_pet_profiles))
    with MissingPetProfile;;
  fail_if negb (existsb (λ project,
                   bool_decide (project.(pj_metadata).(em_id) = assignment.(pa_project_id)))
                 identity.(ic_projects))
          || negb (existsb (λ role,
                   bool_decide (role.(rl_metadata).(em_id) = assignment.(pa_role_id)))
                 identity.(ic_roles))
          || negb (existsb (λ agent,
                   bool_decide (agent.(ai_metadata).(em_id) = assignment.(pa_agent_instance_id)))
                 identity.(ic_agent_instances))
    with MissingIdentityReference;;
  Ok tt.

Definition validate_room (identity : IdentityCatalog) (room : Room) : outcome OfficeError unit :=
  nonempty "Room" "name" room.(rm_name) ?;
  fail_if bool_decide (room.(rm_capacity) = 0%Z) with InvalidCapacity;;
  fail_if negb (existsb (λ project,
                   bool_decide (project.(pj_metadata).(em_id) = room.(rm_project_id)))
                 identity.(ic_projects))
    with MissingProject;;
  Ok tt.

Definition validate_office (self : OfficeCatalog) (identity : IdentityCatalog)
    : outcome OfficeError unit :=
  unique "PetProfile" (map (λ item, value item.(pp_metadata).(em_id)) self.(oc_pet_profiles)) ?;
  unique "PetAssignment"
    (map (λ item, value item.(pa_metadata).(em_id)) self.(oc_pet_assignments)) ?;
  unique "Room" (map (λ item, value item.(rm_metadata).(em_id)) self.(oc_rooms)) ?;
  for_each validate_profile self.(oc_pet_profiles) ?;
  for_each_distinct (λ assignment, (assignment.(pa_project_id), assignment.(pa_role_id)))
    (validate_assignment self identity) (λ _, DuplicateRoleAssignment) ∅
    self.(oc_pet_assignments) ?;
  for_each (validate_room identity) self.(oc_rooms).

(** ** Specification *)

(** A profile that a user interface can render: every state the runtime can be
    in has exactly one labelled asset. *)
Record valid_profile (p : PetProfile) : Prop := {
  vp_name : filled p.(pp_name);
  vp_version : p.(pp_version) ≠ 0%Z;
  vp_assets : Forall (λ s, filled s.(ps_state_key) ∧ filled s.(ps_asset_ref) ∧
                filled s.(ps_accessible_label_key)) p.(pp_states);
  vp_keys : NoDup (map ps_state_key p.(pp_states));
  vp_complete : ∀ k, k ∈ REQUIRED_PET_STATES → k ∈ map ps_state_key p.(pp_states);
}.

Record valid_office (o : OfficeCatalog) (c : IdentityCatalog) : Prop := {
  vo_profiles : NoDup (map (λ x, em_id (pp_metadata x)) o.(oc_pet_profiles));
  vo_assignments : NoDup (map (λ x, em_id (pa_metadata x)) o.(oc_pet_assignments));
  vo_rooms : NoDup (map (λ x, em_id (rm_metadata x)) o.(oc_rooms));
  vo_profile : Forall valid_profile o.(oc_pet_profiles);
  vo_assigned : Forall (λ a,
    a.(pa_pet_profile_id) ∈ map (λ x, em_id (pp_metadata x)) o.(oc_pet_profiles) ∧
    a.(pa_project_id) ∈ project_ids c ∧ a.(pa_role_id) ∈ role_ids c ∧
    a.(pa_agent_instance_id) ∈ instance_ids c) o.(oc_pet_assignments);
  vo_one_pet_per_role : NoDup (map (λ a, (a.(pa_project_id), a.(pa_role_id))) o.(oc_pet_assignments));
  vo_room : Forall (λ r, filled r.(rm_name) ∧ r.(rm_capacity) ≠ 0%Z ∧
    r.(rm_project_id) ∈ project_ids c) o.(oc_rooms);
}.

(** ** Lemmas *)

Lemma office_unique_ok entity ids : unique entity ids = Ok tt ↔ NoDup ids.
Proof. apply all_distinct_ok. Qed.

Lemma office_nonempty_ok entity field v : nonempty entity field v = Ok tt ↔ filled v.
Proof. unfold nonempty, filled. by destruct (blank v). Qed.

#[local] Hint Rewrite ex_unit @obind_ok @fail_if_ok @for_each_ok office_unique_ok @NoDup_values
  office_nonempty_ok @unit_guard_ok orb_false_iff negb_false_iff
  @bool_decide_eq_true @bool_decide_eq_false : office.

Lemma validate_profile_ok p : validate_profile p = Ok tt ↔ valid_profile p.
Proof.
  unfold validate_profile. autorewrite with office. setoid_rewrite for_each_distinct_ok.
  assert (Ha : ∀ s, (nonempty "PetStateAsset" "state_key" s.(ps_state_key) ?;
      nonempty "PetStateAsset" "asset_ref" s.(ps_asset_ref) ?;
      nonempty "PetStateAsset" "accessible_label_key" s.(ps_accessible_label_key)) = Ok tt ↔
    filled s.(ps_state_key) ∧ filled s.(ps_asset_ref) ∧ filled s.(ps_accessible_label_key))
    by (intros s; by autorewrite with office).
  setoid_rewrite (λ l, Forall_iff _ l _ Ha). clear Ha. split.
  - intros (Hn & Hv & states & (-> & Ha & Hk & _) & Hr). split; try done.
    apply for_each_ok in Hr. rewrite Forall_forall in Hr. intros k Hin%Hr. autorewrite with office in Hin.
    rewrite elem_of_union, elem_of_collect_set in Hin. set_solver.
  - intros []. split_and!; try done. eexists. split; [split_and!; try done; set_solver|].
    apply for_each_ok, Forall_forall. intros k Hin. autorewrite with office.
    rewrite elem_of_union, elem_of_collect_set. auto.
Qed.

Lemma validate_assignment_ok o c a :
  validate_assignment o c a = Ok tt ↔
  a.(pa_pet_profile_id) ∈ map (λ x, em_id (pp_metadata x)) o.(oc_pet_profiles) ∧
  a.(pa_project_id) ∈ project_ids c ∧ a.(pa_role_id) ∈ role_ids c ∧
  a.(pa_agent_instance_id) ∈ instance_ids c.
Proof.
  unfold validate_assignment. autorewrite with office.
  rewrite (existsb_key (λ x, em_id (pp_metadata x))), (existsb_key (λ x, em_id (pj_metadata x))),
    (existsb_key (λ x, em_id (rl_metadata x))), (existsb_key (λ x, em_id (ai_metadata x))).
  unfold project_ids, role_ids, instance_ids. tauto.
Qed.

Lemma validate_room_ok c r :
  validate_room c r = Ok tt ↔
  filled r.(rm_name) ∧ r.(rm_capacity) ≠ 0%Z ∧ r.(rm_project_id) ∈ project_ids c.
Proof.
  unfold validate_room. autorewrite with office.
  rewrite (existsb_key (λ x, em_id (pj_metadata x))). unfold project_ids. tauto.
Qed.

Lemma validate_office_ok o c : validate_office o c = Ok tt ↔ valid_office o c.
Proof.
  unfold validate_office. autorewrite with office.
  setoid_rewrite for_each_distinct_ok. setoid_rewrite for_each_ok.
  rewrite (Forall_iff _ _ _ validate_profile_ok).
  setoid_rewrite (λ l, Forall_iff _ l _ (validate_room_ok c)).
  setoid_rewrite (λ l, Forall_iff _ l _ (validate_assignment_ok o c)). split.
  - intros (? & ? & ? & ? & (? & (_ & ? & ? & _) & ?)). by split.
  - intros []. split_and!; try done. eexists. split_and!; try done.
Qed.

Lemma validate_office_returns o c : returns (validate_office o c).
Proof.
  unfold validate_office, unique, validate_profile, validate_assignment,
    validate_room, nonempty.
  solve_returns.
Qed.
#[export] Hint Resolve validate_office_returns : bastet.
