(* ===== verification/Meeting.v ===== *)
(** * Meetings and decision baselines

    Models [crates/bastet-core/src/meeting.rs]: bounded project meetings, the
    hash-bound baselines a human accepts, and [MeetingCatalog::validate]. *)
From S2P Require Import Prelude Policy Identity Catalog Office.

Definition MAX_MEETING_ROUNDS : Z := 5.
Definition MAX_MEETING_PARTICIPANTS : nat := 12.

Inductive MeetingState := Draft | InProgress | AwaitingDecision | Accepted.

#[export] Instance MeetingState_eq_dec : EqDecision MeetingState.
Proof. solve_decision. Defined.

Record MeetingRound := {
  mr_index : Z;
  mr_summary : string;
}.

Record ProjectMeeting := {
  mt_metadata : EntityMetadata MeetingK;
  mt_project_id : ProjectId;
  mt_room_id : RoomId;
  mt_participant_role_ids : list RoleId;
  mt_max_rounds : Z;
  mt_rounds : list MeetingRound;
  mt_state : MeetingState;
}.

Record DecisionBaseline := {
  db_metadata : EntityMetadata DecisionBaselineK;
  db_meeting_id : MeetingId;
  db_content : string;
  db_content_hash : string;
  db_accepted_by : string;
  db_accepted_at : string;
}.

Record MeetingCatalog := {
  mc_meetings : list ProjectMeeting;
  mc_decision_baselines : list DecisionBaseline;
}.

Inductive MeetingError :=
| InvalidRoom | InvalidParticipants | InvalidRoundLimit | InvalidRounds | MissingMeeting
| MeetingNotAwaitingDecision | MissingAcceptance | HashMismatch | DuplicateBaseline.

Section baseline.
Context `{Digest}.

Definition hash_content (content : string) : string := content_digest content.

Definition baseline_create (metadata : EntityMetadata DecisionBaselineK) (meeting_id : MeetingId)
    (content accepted_by accepted_at : string) : outcome MeetingError DecisionBaseline :=
  fail_if blank content || blank accepted_by || blank accepted_at with MissingAcceptance;;
  Ok {| db_metadata := metadata; db_meeting_id := meeting_id; db_content := content;
        db_content_hash := hash_content content; db_accepted_by := accepted_by;
        db_accepted_at := accepted_at |}.

Definition baseline_validate_unchanged (self : DecisionBaseline) : outcome MeetingError unit :=
  fail_if blank self.(db_content) || blank self.(db_accepted_by) || blank self.(db_accepted_at)
    with MissingAcceptance;;
  fail_if negb (bool_decide (self.(db_content_hash) = hash_content self.(db_content)))
    with HashMismatch;;
  Ok tt.

(** The bodies of the two loops of [validate]. *)
Definition validate_meeting (identity : IdentityCatalog) (office : OfficeCatalog)
    (meeting : ProjectMeeting) : outcome MeetingError unit :=
  let room_matches := existsb (λ room,
    bool_decide (room.(rm_metadata).(em_id) = meeting.(mt_room_id))
    && bool_decide (room.(rm_project_id) = meeting.(mt_project_id))) office.(oc_rooms) in
  fail_if negb room_matches with InvalidRoom;;
  fail_if bool_decide (meeting.(mt_participant_role_ids) = [])
          || negb (length meeting.(mt_participant_role_ids) <=? MAX_MEETING_PARTICIPANTS)
          || negb (size (collect_set meeting.(mt_participant_role_ids))
                   =? length meeting.(mt_participant_role_ids))
          || existsb (λ role_id,
               negb (existsb (λ role, bool_decide (role.(rl_metadata).(em_id) = role_id))
                       identity.(ic_roles))) meeting.(mt_participant_role_ids)
    with InvalidParticipants;;
  fail_if bool_decide (meeting.(mt_max_rounds) = 0%Z)
          || bool_decide (MAX_MEETING_ROUNDS < meeting.(mt_max_rounds))%Z
    with InvalidRoundLimit;;
  fail_if bool_decide (meeting.(mt_max_rounds) < Z.of_nat (length meeting.(mt_rounds)))%Z
          || existsb (λ '(index, round),
               negb (bool_decide (round.(mr_index) = saturating_from U8_MAX (index + 1)))
               || blank round.(mr_summary)) (enumerate meeting.(mt_rounds))
    with InvalidRounds;;
  Ok tt.

Definition is_decided (state : MeetingState) : bool :=
  match state with AwaitingDecision | Accepted => true | _ => false end.

Definition validate_baseline (self : MeetingCatalog) (baseline : DecisionBaseline)
    : outcome MeetingError unit :=
  baseline_validate_unchanged baseline ?;
  let? meeting :=
    ok_or (List.find (λ meeting,
             bool_decide (meeting.(mt_metadata).(em_id) = baseline.(db_meeting_id)))
             self.(mc_meetings)) MissingMeeting in
  fail_if negb (is_decided meeting.(mt_state)) with MeetingNotAwaitingDecision;;
  Ok tt.

Definition validate_meetings (self : MeetingCatalog) (identity : IdentityCatalog)
    (office : OfficeCatalog) : outcome MeetingError unit :=
  for_each (validate_meeting identity office) self.(mc_meetings) ?;
  for_each_distinct db_meeting_id (validate_baseline self) (λ _, DuplicateBaseline) ∅
    self.(mc_decision_baselines) ?;
  Ok tt.

End baseline.

(** ** Specification *)

(** The rounds held are numbered from one, in order, each with a summary. *)
Definition rounds_in_order (rounds : list MeetingRound) : Prop :=
  ∀ i r, rounds !! i = Some r → r.(mr_index) = Z.of_nat (i + 1) ∧ filled r.(mr_summary).

Record valid_meeting (c : IdentityCatalog) (o : OfficeCatalog) (m : ProjectMeeting) : Prop := {
  vm_room : ∃ room, room ∈ o.(oc_rooms) ∧ room.(rm_metadata).(em_id) = m.(mt_room_id) ∧
    room.(rm_project_id) = m.(mt_project_id);
  vm_size : 0 < length m.(mt_participant_role_ids) ≤ MAX_MEETING_PARTICIPANTS;
  vm_distinct : NoDup m.(mt_participant_role_ids);
  vm_roles : ∀ r, r ∈ m.(mt_participant_role_ids) → r ∈ role_ids c;
  vm_limit : (1 ≤ m.(mt_max_rounds) ≤ 5)%Z;
  vm_rounds : (Z.of_nat (length m.(mt_rounds)) ≤ m.(mt_max_rounds))%Z;
  vm_order : rounds_in_order m.(mt_rounds);
}.

(** The first meeting recorded under the id, which [find] returns. *)
Definition meeting_of (ms : MeetingCatalog) (id : MeetingId) (m : ProjectMeeting) : Prop :=
  List.find (λ m, bool_decide (m.(mt_metadata).(em_id) = id)) ms.(mc_meetings) = Some m.

Record valid_baseline `{Digest} (ms : MeetingCatalog) (b : DecisionBaseline) : Prop := {
  vb_filled : filled b.(db_content) ∧ filled b.(db_accepted_by) ∧ filled b.(db_accepted_at);
  vb_hash : b.(db_content_hash) = content_digest b.(db_content);
  vb_meeting : ∃ m, meeting_of ms b.(db_meeting_id) m ∧
    (m.(mt_state) = AwaitingDecision ∨ m.(mt_state) = Accepted);
}.

Record valid_meetings `{Digest} (ms : MeetingCatalog) (c : IdentityCatalog) (o : OfficeCatalog)
    : Prop := {
  vms_meetings : Forall (valid_meeting c o) ms.(mc_meetings);
  vms_baselines : Forall (valid_baseline ms) ms.(mc_decision_baselines);
  vms_single : NoDup (map db_meeting_id ms.(mc_decision_baselines));
}.

(** ** Lemmas *)

#[local] Hint Rewrite ex_unit @obind_ok @fail_if_ok @for_each_ok orb_false_iff
  negb_false_iff @bool_decide_eq_true @bool_decide_eq_false Nat.leb_le Nat.eqb_eq
  @size_collect_set @ok_or_ok : meeting.

Lemma rounds_ok rounds :
  length rounds ≤ 5 →
  existsb (λ '(index, round),
    negb (bool_decide (round.(mr_index) = saturating_from U8_MAX (index + 1)))
    || blank round.(mr_summary)) (enumerate rounds) = false ↔ rounds_in_order rounds.
Proof.
  intros Hlen. rewrite existsb_false. unfold rounds_in_order, filled.
  assert (Hs : ∀ i r, rounds !! i = Some r →
      saturating_from U8_MAX (i + 1) = Z.of_nat (i + 1)).
  { intros i r Hi%lookup_lt_Some. rewrite saturating_from_min. unfold U8_MAX. lia. }
  split.
  - intros Hall i r Hr. specialize (Hall (i, r)). rewrite elem_of_enumerate in Hall.
    specialize (Hall Hr). cbn in Hall. autorewrite with meeting in Hall.
    by rewrite (Hs i r Hr) in Hall.
  - intros Hall [i r] Hr%elem_of_enumerate. autorewrite with meeting.
    by rewrite (Hs i r Hr); apply Hall.
Qed.

Section facts.
Context `{Digest}.

Lemma validate_meeting_ok c o m : validate_meeting c o m = Ok tt ↔ valid_meeting c o m.
Proof.
  unfold validate_meeting. autorewrite with meeting. rewrite existsb_true, !existsb_false.
  setoid_rewrite andb_true_iff. setoid_rewrite bool_decide_eq_true. setoid_rewrite negb_false_iff.
  setoid_rewrite (existsb_key (λ role, em_id (rl_metadata role))). split.
  - intros (Hroom & (((Hne & Hmax) & Hnd) & Hroles) & (Hz & H5) & (Hlen & Hord) & _).
    assert (length (mt_rounds m) ≤ 5) by (unfold MAX_MEETING_ROUNDS in *; lia).
    split; try done.
    + destruct (mt_participant_role_ids m); [done|cbn in *; lia].
    + unfold MAX_MEETING_ROUNDS in *. lia.
    + lia.
    + by apply rounds_ok, existsb_false.
  - intros [Hroom Hsz Hnd Hroles Hlim Hlen Hord]. unfold MAX_MEETING_ROUNDS in *.
    split_and!; try done; try lia.
    + intros E. rewrite E in Hsz. cbn in Hsz. lia.
    + apply existsb_false, rounds_ok; [lia|done].
Qed.

Lemma baseline_validate_unchanged_ok b :
  baseline_validate_unchanged b = Ok tt ↔
  (filled b.(db_content) ∧ filled b.(db_accepted_by) ∧ filled b.(db_accepted_at)) ∧
  b.(db_content_hash) = content_digest b.(db_content).
Proof.
  unfold baseline_validate_unchanged, filled. autorewrite with meeting. unfold hash_content. tauto.
Qed.

Lemma validate_baseline_ok ms b : validate_baseline ms b = Ok tt ↔ valid_baseline ms b.
Proof.
  unfold validate_baseline. autorewrite with meeting.
  rewrite baseline_validate_unchanged_ok. split.
  - intros ((Hf & Hh) & m & Hm & Hs). autorewrite with meeting in Hm, Hs. split; [done..|].
    exists m. split; [done|]. destruct (mt_state m); naive_solver.
  - intros [Hf Hh (m & Hm & Hs)]. split; [done|]. exists m. autorewrite with meeting.
    split; [done|]. by destruct Hs as [-> | ->].
Qed.

Lemma validate_meetings_ok ms c o : validate_meetings ms c o = Ok tt ↔ valid_meetings ms c o.
Proof.
  unfold validate_meetings. autorewrite with meeting.
  setoid_rewrite for_each_distinct_ok.
  rewrite (Forall_iff _ _ _ (validate_meeting_ok c o)).
  setoid_rewrite (λ l, Forall_iff _ l _ (validate_baseline_ok ms)). split.
  - intros (? & s & (_ & ? & ? & _) & _). by split.
  - intros []. split; [done|]. eexists. split_and!; done.
Qed.

Lemma validate_meetings_returns ms c o : returns (validate_meetings ms c o).
Proof.
  unfold validate_meetings, validate_meeting, validate_baseline, baseline_validate_unchanged.
  solve_returns.
Qed.

(** A created baseline validates, and keeps the text it was created with. *)
Lemma baseline_create_ok metadata id content by_ at_ b :
  baseline_create metadata id content by_ at_ = Ok b →
  baseline_validate_unchanged b = Ok tt ∧ b.(db_content) = content ∧ b.(db_meeting_id) = id.
Proof.
  unfold baseline_create. intros E. ok_inv. bool_prop.
  rewrite baseline_validate_unchanged_ok. cbn. by split_and!.
Qed.

End facts.
#[export] Hint Resolve validate_meetings_returns : bastet.
