(* ===== verification/Deliverable.v ===== *)
(** * Documents, costs and knowledge deliveries

    Models [crates/bastet-core/src/deliverable.rs]: the versioned documents with
    their hash, join receipt and acceptance, the cost ledger, the knowledge
    deliveries, and [DeliverableCatalog::validate].  The [f64] amounts and [f32]
    confidences are IEEE data compared with the IEEE order, so NaN and the
    infinities are in the model. *)
From Corelib Require Import Floats.SpecFloat.
From S2P Require Import Prelude Policy Identity Catalog.

Record DocumentVersion := {
  dv_id : ArtifactVersionId;
  dv_version : Z;
  dv_parent_id : option ArtifactVersionId;
  dv_markdown : string;
  dv_content_hash : string;
  dv_source_node_ids : list GraphNodeId;
  dv_source_execution_id : option GraphRunId;
  dv_source_join_node_id : option GraphNodeId;
  dv_source_join_output_hash : option string;
  dv_accepted_by : option string;
  dv_accepted_at : option string;
}.

Record DocumentArtifact := {
  da_metadata : EntityMetadata ArtifactK;
  da_project_id : ProjectId;
  da_title : string;
  da_versions : list DocumentVersion;
}.

Record CostLedgerRecord := {
  cl_metadata : EntityMetadata CostRecordK;
  cl_project_id : ProjectId;
  cl_node_id : GraphNodeId;
  cl_run_id : RunId;
  cl_provider : string;
  cl_account : string;
  cl_model : string;
  cl_currency : option string;
  cl_amount : option spec_float;
  cl_input_tokens : option Z;
  cl_output_tokens : option Z;
  cl_evidence_class : EvidenceClass;
  cl_source : string;
  cl_formula_version : option string;
  cl_confidence : spec_float;
  cl_reconciliation_state : string;
}.

Inductive KnowledgeTarget := AgentMemoryOs | BastetMind.
Inductive DeliveryState := Prepared | Delivered.

#[export] Instance DeliveryState_eq_dec : EqDecision DeliveryState.
Proof. solve_decision. Defined.

Record KnowledgeDelivery := {
  kd_metadata : EntityMetadata KnowledgeDeliveryK;
  kd_project_id : ProjectId;
  kd_artifact_version_id : ArtifactVersionId;
  kd_target : KnowledgeTarget;
  kd_preview : string;
  kd_redacted : bool;
  kd_state : DeliveryState;
  kd_destination_receipt : option string;
}.

Record DeliverableCatalog := {
  dc_documents : list DocumentArtifact;
  dc_costs : list CostLedgerRecord;
  dc_knowledge_deliveries : list KnowledgeDelivery;
}.

Inductive DeliverableError :=
| InvalidDocumentVersion | InvalidAcceptance | InvalidVersionChain | InvalidJoinReceipt
| InvalidCost | InvalidKnowledgeDelivery | UnacceptedArtifact.

Section versions.
Context `{Digest}.

Definition hash (content : string) : string := content_digest content.

Definition version_create (id : ArtifactVersionId) (version : Z)
    (parent_id : option ArtifactVersionId) (markdown : string)
    (source_node_ids : list GraphNodeId) : outcome DeliverableError DocumentVersion :=
  fail_if bool_decide (version = 0%Z) || blank markdown with InvalidDocumentVersion;;
  Ok {| dv_id := id; dv_version := version; dv_parent_id := parent_id;
        dv_markdown := markdown; dv_content_hash := hash markdown;
        dv_source_node_ids := source_node_ids; dv_source_execution_id := None;
        dv_source_join_node_id := None; dv_source_join_output_hash := None;
        dv_accepted_by := None; dv_accepted_at := None |}.

Definition bind_join_receipt (self : DocumentVersion) (execution_id : GraphRunId)
    (join_node_id : GraphNodeId) (join_output_hash : string)
    : outcome DeliverableError DocumentVersion :=
  fail_if blank join_output_hash
          || bool_decide (is_Some self.(dv_source_execution_id))
          || bool_decide (is_Some self.(dv_source_join_node_id))
          || bool_decide (is_Some self.(dv_source_join_output_hash))
    with InvalidJoinReceipt;;
  Ok {| dv_id := self.(dv_id); dv_version := self.(dv_version);
        dv_parent_id := self.(dv_parent_id); dv_markdown := self.(dv_markdown);
        dv_content_hash := self.(dv_content_hash);
        dv_source_node_ids := self.(dv_source_node_ids);
        dv_source_execution_id := Some execution_id;
        dv_source_join_node_id := Some join_node_id;
        dv_source_join_output_hash := Some join_output_hash;
        dv_accepted_by := self.(dv_accepted_by); dv_accepted_at := self.(dv_accepted_at) |}.

Definition valid_source_receipt (self : DocumentVersion) : bool :=
  match self.(dv_source_execution_id), self.(dv_source_join_node_id),
        self.(dv_source_join_output_hash) with
  | None, None, None => true
  | Some _, Some _, Some hash => negb (blank hash)
  | _, _, _ => false
  end.

Definition version_validate_unchanged (self : DocumentVersion)
    : outcome DeliverableError unit :=
  fail_if bool_decide (self.(dv_version) = 0%Z)
          || blank self.(dv_markdown)
          || negb (bool_decide (self.(dv_content_hash) = hash self.(dv_markdown)))
          || negb (Bool.eqb (bool_decide (is_Some self.(dv_accepted_by)))
                            (bool_decide (is_Some self.(dv_accepted_at))))
          || negb (valid_source_receipt self)
    with InvalidDocumentVersion;;
  Ok tt.

Definition accept (self : DocumentVersion) (actor accepted_at : string)
    : outcome DeliverableError DocumentVersion :=
  version_validate_unchanged self ?;
  fail_if bool_decide (is_Some self.(dv_accepted_by)) || blank actor || blank accepted_at
    with InvalidAcceptance;;
  Ok {| dv_id := self.(dv_id); dv_version := self.(dv_version);
        dv_parent_id := self.(dv_parent_id); dv_markdown := self.(dv_markdown);
        dv_content_hash := self.(dv_content_hash);
        dv_source_node_ids := self.(dv_source_node_ids);
        dv_source_execution_id := self.(dv_source_execution_id);
        dv_source_join_node_id := self.(dv_source_join_node_id);
        dv_source_join_output_hash := self.(dv_source_join_output_hash);
        dv_accepted_by := Some actor; dv_accepted_at := Some accepted_at |}.

End versions.

Definition prepare (metadata : EntityMetadata KnowledgeDeliveryK) (project_id : ProjectId)
    (artifact_version_id : ArtifactVersionId) (target : KnowledgeTarget) (preview : string)
    : outcome DeliverableError KnowledgeDelivery :=
  fail_if blank preview with InvalidKnowledgeDelivery;;
  Ok {| kd_metadata := metadata; kd_project_id := project_id;
        kd_artifact_version_id := artifact_version_id; kd_target := target;
        kd_preview := preview; kd_redacted := true; kd_state := Prepared;
        kd_destination_receipt := None |}.

Definition record_delivered (self : KnowledgeDelivery) (receipt : string)
    : outcome DeliverableError KnowledgeDelivery :=
  fail_if negb (bool_decide (self.(kd_state) = Prepared)) || blank receipt
    with InvalidKnowledgeDelivery;;
  Ok {| kd_metadata := self.(kd_metadata); kd_project_id := self.(kd_project_id);
        kd_artifact_version_id := self.(kd_artifact_version_id); kd_target := self.(kd_target);
        kd_preview := self.(kd_preview); kd_redacted := self.(kd_redacted);
        kd_state := Delivered; kd_destination_receipt := Some receipt |}.

(** ** Validation *)

Section validation.
Context `{Digest}.

(** The loop over the versions of a document threads [previous] and
    [accepted_versions]; the latter is shared by all documents. *)
Notation version_state := (option ArtifactVersionId * gset ArtifactVersionId)%type.
Definition validate_version (st : version_state) (entry : nat * DocumentVersion)
    : outcome DeliverableError version_state :=
  let '(previous, accepted_versions) := st in
  let '(index, version) := entry in
  version_validate_unchanged version ?;
  fail_if negb (bool_decide (version.(dv_version) = saturating_from U32_MAX (index + 1)))
          || negb (bool_decide (version.(dv_parent_id) = previous))
    with InvalidVersionChain;;
  fail_if negb (size (collect_set version.(dv_source_node_ids)) =? 2) with InvalidJoinReceipt;;
  Ok (Some version.(dv_id),
      if bool_decide (is_Some version.(dv_accepted_by))
      then {[version.(dv_id)]} ∪ accepted_versions else accepted_versions).

Definition validate_document (accepted_versions : gset ArtifactVersionId)
    (document : DocumentArtifact) : outcome DeliverableError (gset ArtifactVersionId) :=
  fail_if blank document.(da_title) || bool_decide (document.(da_versions) = [])
    with InvalidDocumentVersion;;
  let? (_, accepted_versions) :=
    fold_try validate_version (None, accepted_versions) (enumerate document.(da_versions)) in
  Ok accepted_versions.

(** [0.0] and [1.0]; [is_finite], and the range and sign tests. *)
Definition sf_zero : spec_float := S754_zero false.
Definition f32_one : spec_float := S754_finite false 8388608 (-23).
Definition sf_finite (x : spec_float) : bool :=
  match x with S754_zero _ | S754_finite _ _ _ => true | _ => false end.

Definition validate_cost (cost : CostLedgerRecord) : outcome DeliverableError unit :=
  fail_if blank cost.(cl_provider) || blank cost.(cl_account) || blank cost.(cl_model)
          || blank cost.(cl_source) || blank cost.(cl_reconciliation_state)
          || negb (SFleb sf_zero cost.(cl_confidence) && SFleb cost.(cl_confidence) f32_one)
          || match cost.(cl_amount) with
             | Some amount => negb (sf_finite amount) || SFltb amount sf_zero
             | None => false
             end
          || bool_decide (cost.(cl_evidence_class) = UnknownEvidence)
             && (bool_decide (is_Some cost.(cl_amount))
                 || bool_decide (is_Some cost.(cl_input_tokens))
                 || bool_decide (is_Some cost.(cl_output_tokens)))
    with InvalidCost;;
  Ok tt.

Definition validate_delivery (accepted_versions : gset ArtifactVersionId)
    (delivery : KnowledgeDelivery) : outcome DeliverableError unit :=
  fail_if blank delivery.(kd_preview) || negb delivery.(kd_redacted)
          || match delivery.(kd_state) with
             | Prepared => bool_decide (is_Some delivery.(kd_destination_receipt))
             | Delivered => match delivery.(kd_destination_receipt) with
                            | Some receipt => blank receipt
                            | None => true
                            end
             end
    with InvalidKnowledgeDelivery;;
  fail_if negb (bool_decide (delivery.(kd_artifact_version_id) ∈ accepted_versions))
    with UnacceptedArtifact;;
  Ok tt.

Definition validate_deliverables (self : DeliverableCatalog) : outcome DeliverableError unit :=
  let? accepted_versions := fold_try validate_document ∅ self.(dc_documents) in
  for_each validate_cost self.(dc_costs) ?;
  for_each (validate_delivery accepted_versions) self.(dc_knowledge_deliveries).

End validation.

(** ** Specification *)

Section spec.
Context `{Digest}.

(** A version whose text is the one that was hashed, with an acceptance and a
    join receipt that are complete or absent. *)
Record valid_version (v : DocumentVersion) : Prop := {
  vv_number : v.(dv_version) ≠ 0%Z;
  vv_text : filled v.(dv_markdown);
  vv_hash : v.(dv_content_hash) = content_digest v.(dv_markdown);
  vv_accepted : is_Some v.(dv_accepted_by) ↔ is_Some v.(dv_accepted_at);
  vv_receipt : valid_source_receipt v = true;
}.

(** Versions are numbered from one, each names its predecessor as parent and
    cites exactly two sources. *)
Definition version_chain (versions : list DocumentVersion) : Prop :=
  ∀ i v, versions !! i = Some v →
    valid_version v ∧
    v.(dv_version) = Z.min (Z.of_nat (i + 1)) U32_MAX ∧
    v.(dv_parent_id) = match i with O => None | S j => dv_id <$> versions !! j end ∧
    size (collect_set v.(dv_source_node_ids)) = 2.

Definition valid_document (d : DocumentArtifact) : Prop :=
  filled d.(da_title) ∧ d.(da_versions) ≠ [] ∧ version_chain d.(da_versions).

(** The ids of the versions a human accepted, in any document. *)
Definition accepted_version (dc : DeliverableCatalog) (id : ArtifactVersionId) : Prop :=
  ∃ d v, d ∈ dc.(dc_documents) ∧ v ∈ d.(da_versions) ∧ v.(dv_id) = id ∧
    is_Some v.(dv_accepted_by).

(** Confidence is a probability and an amount a finite non-negative number. *)
Definition sf_nonnegative (x : spec_float) : Prop :=
  (∃ s, x = S754_zero s) ∨ ∃ m e, x = S754_finite false m e.

Record valid_cost (c : CostLedgerRecord) : Prop := {
  vco_filled : filled c.(cl_provider) ∧ filled c.(cl_account) ∧ filled c.(cl_model) ∧
    filled c.(cl_source) ∧ filled c.(cl_reconciliation_state);
  vco_confidence : sf_nonnegative c.(cl_confidence) ∧ SFleb c.(cl_confidence) f32_one = true;
  vco_amount : ∀ a, c.(cl_amount) = Some a → sf_nonnegative a;
  vco_unknown : c.(cl_evidence_class) = UnknownEvidence →
    c.(cl_amount) = None ∧ c.(cl_input_tokens) = None ∧ c.(cl_output_tokens) = None;
}.

Record valid_delivery (dc : DeliverableCatalog) (k : KnowledgeDelivery) : Prop := {
  vd_preview : filled k.(kd_preview);
  vd_redacted : k.(kd_redacted) = true;
  vd_receipt : (k.(kd_state) = Prepared ∧ k.(kd_destination_receipt) = None) ∨
    (k.(kd_state) = Delivered ∧ ∃ r, k.(kd_destination_receipt) = Some r ∧ filled r);
  vd_accepted : accepted_version dc k.(kd_artifact_version_id);
}.

Record valid_deliverables (dc : DeliverableCatalog) : Prop := {
  vdc_documents : Forall valid_document dc.(dc_documents);
  vdc_costs : Forall valid_cost dc.(dc_costs);
  vdc_deliveries : Forall (valid_delivery dc) dc.(dc_knowledge_deliveries);
}.

End spec.

(** ** Lemmas *)

#[local] Hint Rewrite ex_unit @obind_ok @fail_if_ok @for_each_ok orb_false_iff
  negb_false_iff @bool_decide_eq_true @bool_decide_eq_false Nat.eqb_eq : deliverable.

Section facts.
Context `{Digest}.

Lemma version_validate_unchanged_ok v :
  version_validate_unchanged v = Ok tt ↔ valid_version v.
Proof.
  unfold version_validate_unchanged. autorewrite with deliverable. rewrite eqb_true_iff.
  assert (Ha : bool_decide (is_Some (dv_accepted_by v)) = bool_decide (is_Some (dv_accepted_at v))
    ↔ (is_Some (dv_accepted_by v) ↔ is_Some (dv_accepted_at v))).
  { split; [|apply bool_decide_ext]. intros E.
    by destruct (dv_accepted_by v), (dv_accepted_at v). }
  rewrite Ha. split.
  - intros (((((? & ?) & ?) & ?) & ?) & _). by split.
  - intros []. by split_and!.
Qed.

Lemma version_chain_snoc l v :
  version_chain (l ++ [v]) ↔ version_chain l ∧ valid_version v ∧
    v.(dv_version) = Z.min (Z.of_nat (length l + 1)) U32_MAX ∧
    v.(dv_parent_id) = dv_id <$> last l ∧ size (collect_set v.(dv_source_node_ids)) = 2.
Proof.
  assert (Hlast : match length l with O => None | S j => dv_id <$> (l ++ [v]) !! j end
                  = dv_id <$> last l).
  { destruct l as [|x l]; [done|]. rewrite last_lookup. cbn [length pred].
    by rewrite lookup_app_l by (cbn; lia). }
  assert (Hpar : ∀ i w, l !! i = Some w →
    match i with O => None | S j => dv_id <$> (l ++ [v]) !! j end
    = match i with O => None | S j => dv_id <$> l !! j end).
  { intros [|i] w Hi; [done|]. apply lookup_lt_Some in Hi. by rewrite lookup_app_l by lia. }
  unfold version_chain. split.
  - intros Hc. split.
    + intros i w Hi. rewrite <- (Hpar i w Hi). apply Hc. by apply lookup_app_l_Some.
    + rewrite <- Hlast. apply Hc. by rewrite lookup_app_r, Nat.sub_diag by lia.
  - intros (Hc & Hv) i w [Hi|[Hi Hw]]%lookup_app_Some.
    + rewrite (Hpar i w Hi). by apply Hc.
    + destruct (i - length l) as [|k] eqn:Ek; [|done]. simplify_eq/=.
      replace i with (length l) by lia. by rewrite Hlast.
Qed.

Definition accepted_ids (versions : list DocumentVersion) : list ArtifactVersionId :=
  map dv_id (List.filter (λ v, bool_decide (is_Some v.(dv_accepted_by))) versions).

Lemma validate_versions_ok acc versions p acc' :
  fold_try validate_version (None, acc) (enumerate versions) = Ok (p, acc') ↔
  version_chain versions ∧ p = dv_id <$> last versions ∧
  acc' = collect_set (accepted_ids versions) ∪ acc.
Proof.
  revert p acc'. induction versions as [|v versions IH] using rev_ind; intros p acc'.
  - cbn. unfold collect_set. cbn. split.
    + intros [= <- <-]. split_and!; [done|done|set_solver].
    + intros (_ & -> & ->). f_equal. f_equal. set_solver.
  - rewrite enumerate_snoc, fold_try_app, obind_ok, version_chain_snoc, last_snoc.
    unfold accepted_ids, collect_set in *. rewrite List.filter_app, map_app, list_to_set_app_L.
    cbn [List.filter]. split.
    + intros ([p0 acc0] & (Hc & -> & ->)%IH & Hv). cbn in Hv. ok_inv.
      autorewrite with deliverable in *. rewrite saturating_from_min in *. split_hyps.
      split_and!; try done; [by apply version_validate_unchanged_ok|].
      destruct (bool_decide (is_Some (dv_accepted_by v))); cbn; set_solver.
    + intros ((Hc & Hv & Hn & Hp & Hs) & -> & ->). eexists (_, _). split; [by apply IH|].
      cbn. apply version_validate_unchanged_ok in Hv. rewrite Hv. cbn.
      rewrite bool_decide_true by by rewrite Hn, saturating_from_min.
      rewrite (bool_decide_true (_ = _)) by done. cbn.
      apply Nat.eqb_eq in Hs. unfold collect_set. rewrite Hs. cbn. repeat f_equal.
      destruct (bool_decide (is_Some (dv_accepted_by v))); cbn; set_solver.
Qed.

Lemma validate_documents_ok acc docs acc' :
  fold_try validate_document acc docs = Ok acc' ↔
  Forall valid_document docs ∧
  acc' = collect_set (concat (map (λ d, accepted_ids d.(da_versions)) docs)) ∪ acc.
Proof.
  revert acc. induction docs as [|d docs IH]; intros acc; cbn [fold_try map concat].
  - unfold collect_set. cbn. split; [intros [= <-]|intros [_ ->]].
    + split; [constructor|set_solver].
    + f_equal. set_solver.
  - rewrite obind_ok, Forall_cons. setoid_rewrite IH. unfold collect_set.
    rewrite list_to_set_app_L. split.
    + intros (a & Ha & Hf & ->). unfold validate_document in Ha.
      apply fail_if_ok in Ha as [Hg Ha]. apply obind_ok in Ha as ([p a'] & Hv & [= ->]).
      apply validate_versions_ok in Hv as (? & -> & ->). autorewrite with deliverable in Hg.
      destruct Hg. unfold collect_set. split_and!; try done. set_solver.
    + intros (((Ht & Hne & Hc) & Hf) & ->). eexists. split; [|split; [done|]].
      * unfold validate_document. rewrite Ht, bool_decide_false by done. cbn.
        rewrite (proj2 (validate_versions_ok acc _ _ _)) by done. cbn. done.
      * unfold collect_set. set_solver.
Qed.

Lemma elem_of_accepted dc id :
  id ∈ concat (map (λ d, accepted_ids d.(da_versions)) dc.(dc_documents)) ↔
  accepted_version dc id.
Proof.
  unfold accepted_version, accepted_ids. rewrite list_elem_of_In, in_concat.
  setoid_rewrite <- list_elem_of_In. setoid_rewrite elem_of_map. split.
  - intros (l & (d & Hd & ->) & Hid). apply elem_of_map in Hid as (v & Hv & ->).
    apply elem_of_filter_bool in Hv as [Hv Ha%bool_decide_eq_true]. eauto 10.
  - intros (d & v & Hd & Hv & <- & Ha). eexists. split; [eauto|]. apply elem_of_map.
    exists v. split; [|done]. apply elem_of_filter_bool. by rewrite bool_decide_eq_true.
Qed.

Lemma SFleb_zero_nonnegative x : SFleb sf_zero x = true → SFleb x f32_one = true →
  sf_nonnegative x.
Proof.
  unfold sf_nonnegative. intros H0 H1. destruct x as [s|s| |s m e].
  - left. by exists s.
  - destruct s; discriminate.
  - discriminate.
  - destruct s; [discriminate|]. right. by exists m, e.
Qed.

Lemma validate_cost_ok c : validate_cost c = Ok tt ↔ valid_cost c.
Proof.
  unfold validate_cost. autorewrite with deliverable. rewrite !andb_true_iff.
  assert (Hz : ∀ x, sf_nonnegative x → SFleb sf_zero x = true ∧ SFltb x sf_zero = false ∧
    sf_finite x = true) by by intros x [[? ->]|(? & ? & ->)].
  split.
  - intros ((((((((? & ?) & ?) & ?) & ?) & [Hc1 Hc2]) & Ha) & Hu) & _). split.
    + done.
    + split; [by apply SFleb_zero_nonnegative|done].
    + intros a E. rewrite E in Ha. autorewrite with deliverable in Ha. destruct Ha as [Hf Hl].
      destruct a as [| | |[]]; try done; [left; eauto|right; eauto].
    + intros E. rewrite E, bool_decide_true in Hu by done. cbn in Hu.
      autorewrite with deliverable in Hu. rewrite !eq_None_not_Some. tauto.
  - intros [Hf [Hc1 Hc2] Ha Hu]. split_and!; try apply Hf; try done; try by apply Hz.
    + destruct (cl_amount c) as [a|]; [|done]. destruct (Hz a (Ha a eq_refl)) as (_ & -> & ->). done.
    + apply andb_false_iff. case_bool_decide as E; [right|by left].
      destruct (Hu E) as (-> & -> & ->). done.
Qed.

Lemma validate_delivery_ok dc s k :
  (∀ id, id ∈ s ↔ accepted_version dc id) →
  validate_delivery s k = Ok tt ↔ valid_delivery dc k.
Proof.
  intros Hs. unfold validate_delivery. autorewrite with deliverable. rewrite Hs. split.
  - intros (((Hp & Hr) & Hst) & Ha & _). split; try done.
    destruct (kd_state k), (kd_destination_receipt k) eqn:E; try done; eauto 10.
  - intros [Hp Hr Hst Ha]. split_and!; try done.
    by destruct Hst as [[-> ->]|(-> & r & -> & ?)].
Qed.

Lemma validate_deliverables_ok dc : validate_deliverables dc = Ok tt ↔ valid_deliverables dc.
Proof.
  unfold validate_deliverables. autorewrite with deliverable.
  setoid_rewrite validate_documents_ok. setoid_rewrite obind_ok. setoid_rewrite ex_unit.
  setoid_rewrite for_each_ok. setoid_rewrite (λ l, Forall_iff _ l _ validate_cost_ok).
  assert (Hd : ∀ k, validate_delivery (collect_set (concat (map (λ d, accepted_ids d.(da_versions))
      dc.(dc_documents))) ∪ ∅) k = Ok tt ↔ valid_delivery dc k).
  { intros k. apply validate_delivery_ok. intros id.
    rewrite elem_of_union, elem_of_collect_set, elem_of_accepted. set_solver. }
  split.
  - intros (s & (? & ->) & ? & Hk). split; [done..|].
    eapply Forall_impl; [exact Hk|]. intros. by apply Hd.
  - intros []. eexists. split; [done|]. split; [done|].
    eapply Forall_impl; [done|]. intros. by apply Hd.
Qed.

Lemma validate_deliverables_returns dc : returns (validate_deliverables dc).
Proof.
  unfold validate_deliverables, validate_document, validate_version, version_validate_unchanged,
    validate_cost, validate_delivery. solve_returns.
Qed.

End facts.
#[export] Hint Resolve validate_deliverables_returns : bastet.
