(* ===== verification/Approval.v ===== *)
(** * Approval requests

    Models [crates/bastet-core/src/approval.rs]: the immutable, hash-bound
    approval requests, the decisions a human takes on them, and the checks that
    tie a credential-use approval to the active identity catalog.

    [serde_json] is not under verification: the encoding of the hashed record is
    the parameter [to_vec], and what the hash protects is stated up to the
    injectivity of that encoding and collisions of SHA-256. *)
From S2P Require Import Prelude Policy Identity Catalog.

Inductive ApprovalRisk := Low | Medium | High | Critical.

Record CredentialGrantBinding := {
  cb_agent_provider_id : AgentProviderId;
  cb_account_id : AccountId;
  cb_adapter_kind : string;
  cb_provider_identity : string;
  cb_credential_reference_id : CredentialReferenceId;
  cb_backend : CredentialBackend;
  cb_service : string;
  cb_account_label : string;
  cb_capability_key : string;
}.

Record ApprovalScope := {
  sc_project_id : ProjectId;
  sc_run_id : option RunId;
  sc_filesystem_roots : list string;
  sc_data_scopes : list string;
  sc_network_destinations : list string;
  sc_credential_reference_ids : list CredentialReferenceId;
  sc_destination : option string;
  sc_credential_binding : option CredentialGrantBinding;
}.

Record ApprovalAction := {
  aa_agent_instance_id : AgentInstanceId;
  aa_role_id : option RoleId;
  aa_action_key : string;
  aa_reason_key : string;
  aa_consequence_key : string;
  aa_risk : ApprovalRisk;
  aa_scope : ApprovalScope;
  aa_requested_policy : ScopedPolicy;
}.

Record ApprovalRequest := {
  ar_id : ApprovalRequestId;
  ar_request_hash : string;
  ar_created_at_ms : Z;
  ar_expires_at_ms : Z;
  ar_action : ApprovalAction;
}.

Inductive ApprovalDecisionKind := Approve | DenyDecision.

Record ApprovalDecision := {
  ad_request_id : ApprovalRequestId;
  ad_request_hash : string;
  ad_kind : ApprovalDecisionKind;
  ad_decided_at_ms : Z;
  ad_actor : string;
}.

#[export] Instance ApprovalRisk_eq_dec : EqDecision ApprovalRisk.
Proof. solve_decision. Defined.
#[export] Instance CredentialGrantBinding_eq_dec : EqDecision CredentialGrantBinding.
Proof. solve_decision. Defined.
#[export] Instance ApprovalScope_eq_dec : EqDecision ApprovalScope.
Proof. solve_decision. Defined.
#[export] Instance ApprovalAction_eq_dec : EqDecision ApprovalAction.
Proof. solve_decision. Defined.
#[export] Instance ApprovalDecisionKind_eq_dec : EqDecision ApprovalDecisionKind.
Proof. solve_decision. Defined.

Inductive ApprovalError :=
| EmptyField (field : string)
| InvalidExpiry
| InvalidPolicyLayer
| PolicyE (e : PolicyError)
| PersistentHighRisk
| HashMismatch
| Expired
| EmptyActor
| MissingReference (field : string)
| CredentialAccountRequired
| AccountCredentialRequired
| CredentialAccountMismatch
| RunAgentMismatch
| RunProjectMismatch
| CredentialUseBindingRequired
| CredentialBindingReferenceMismatch
| CredentialBindingRunRequired
| CredentialBindingRoleRequired
| EmptyCredentialCapability
| UnsupportedCredentialCapability
| CredentialPermissionRequired
| CredentialRiskRequired
| PersistentCredentialGrant
| CredentialBindingMismatch (field : string)
| CredentialBindingInactive (entity : string)
| InvalidDecisionTime.

(** The record that is serialized and hashed. *)
Record HashInput := {
  hi_schema : string;
  hi_id : ApprovalRequestId;
  hi_created_at_ms : Z;
  hi_expires_at_ms : Z;
  hi_action : ApprovalAction;
}.

#[export] Instance HashInput_eq_dec : EqDecision HashInput.
Proof. solve_decision. Defined.

(** [serde_json::to_vec] on [HashInput]. *)
Class Serializer := to_vec : HashInput → string.

Definition is_high (risk : ApprovalRisk) : bool :=
  match risk with High | Critical => true | _ => false end.

(** The part of [validate_action] under [if let Some(binding)]. *)
Definition validate_action_binding (action : ApprovalAction) (binding : CredentialGrantBinding)
    : outcome ApprovalError unit :=
  fail_if negb (bool_decide (action.(aa_action_key) = "credential.use"))
    with CredentialUseBindingRequired;;
  fail_if blank binding.(cb_capability_key) with EmptyCredentialCapability;;
  fail_if negb (bool_decide (binding.(cb_capability_key) = "provider.authenticate"))
    with UnsupportedCredentialCapability;;
  fail_if bool_decide (action.(aa_scope).(sc_run_id) = None) with CredentialBindingRunRequired;;
  fail_if bool_decide (action.(aa_role_id) = None) with CredentialBindingRoleRequired;;
  fail_if negb (bool_decide (action.(aa_scope).(sc_credential_reference_ids)
                             = [binding.(cb_credential_reference_id)]))
    with CredentialBindingReferenceMismatch;;
  fail_if negb (bool_decide
                  (action.(aa_requested_policy).(sp_ceiling).(pc_credential) = Use))
    with CredentialPermissionRequired;;
  fail_if negb (is_high action.(aa_risk)) with CredentialRiskRequired;;
  fail_if action.(aa_requested_policy).(sp_ceiling).(pc_persistent_approval)
    with PersistentCredentialGrant;;
  Ok tt.

Definition validate_action (action : ApprovalAction) (parent : ScopedPolicy)
    : outcome ApprovalError unit :=
  for_each (λ '(name, value), fail_if blank value with EmptyField name;; Ok tt)
    [ ("action_key", action.(aa_action_key)); ("reason_key", action.(aa_reason_key));
      ("consequence_key", action.(aa_consequence_key)) ] ?;
  fail_if negb (bool_decide (action.(aa_requested_policy).(sp_layer) = SingleRun))
    with InvalidPolicyLayer;;
  map_err PolicyE (restrict parent action.(aa_requested_policy)) ?;
  fail_if is_high action.(aa_risk)
          && action.(aa_requested_policy).(sp_ceiling).(pc_persistent_approval)
    with PersistentHighRisk;;
  fail_if bool_decide (action.(aa_action_key) = "credential.use")
          && bool_decide (action.(aa_scope).(sc_credential_binding) = None)
    with CredentialUseBindingRequired;;
  match action.(aa_scope).(sc_credential_binding) with
  | Some binding => validate_action_binding action binding
  | None => Ok tt
  end.

(** [list.iter().find(|item| item.metadata.id == id).ok_or(MissingReference(field))] *)
Definition find_item {k} {A} (metadata : A → EntityMetadata k) (id : stable_id k) (l : list A)
    (field : string) : outcome ApprovalError A :=
  ok_or (List.find (λ item, bool_decide ((metadata item).(em_id) = id)) l)
        (MissingReference field).

Definition inactive {k} (m : EntityMetadata k) : bool := negb (bool_decide (m.(em_lifecycle) = Active)).

Section request.
Context `{Digest} `{Serializer}.

Definition canonical_hash (id : ApprovalRequestId) (created_at_ms expires_at_ms : Z)
    (action : ApprovalAction) : string :=
  to_hex (sha256 (to_vec {| hi_schema := "bastet.approval-request.v1"; hi_id := id;
    hi_created_at_ms := created_at_ms; hi_expires_at_ms := expires_at_ms;
    hi_action := action |})).

Definition request_create (id : ApprovalRequestId) (created_at_ms expires_at_ms : Z)
    (action : ApprovalAction) (parent_policy : ScopedPolicy)
    : outcome ApprovalError ApprovalRequest :=
  validate_action action parent_policy ?;
  fail_if (expires_at_ms <=? created_at_ms)%Z with InvalidExpiry;;
  Ok {| ar_id := id; ar_request_hash := canonical_hash id created_at_ms expires_at_ms action;
        ar_created_at_ms := created_at_ms; ar_expires_at_ms := expires_at_ms;
        ar_action := action |}.

Definition verify_decision (self : ApprovalRequest) (decision : ApprovalDecision)
    : outcome ApprovalError unit :=
  fail_if blank decision.(ad_actor) with EmptyActor;;
  fail_if negb (bool_decide (decision.(ad_request_id) = self.(ar_id)))
          || negb (bool_decide (decision.(ad_request_hash) = self.(ar_request_hash)))
    with HashMismatch;;
  fail_if (decision.(ad_decided_at_ms) <? self.(ar_created_at_ms))%Z with InvalidDecisionTime;;
  fail_if (self.(ar_expires_at_ms) <=? decision.(ad_decided_at_ms))%Z with Expired;;
  Ok tt.

Definition request_validate_unchanged (self : ApprovalRequest) : outcome ApprovalError unit :=
  let expected := canonical_hash self.(ar_id) self.(ar_created_at_ms) self.(ar_expires_at_ms)
                    self.(ar_action) in
  if bool_decide (expected = self.(ar_request_hash)) then Ok tt else Err HashMismatch.

Definition validate_credential_binding (request : ApprovalRequest) (catalog : IdentityCatalog)
    (agent : AgentInstance) (project : Project) (binding : CredentialGrantBinding)
    : outcome ApprovalError unit :=
  fail_if inactive agent.(ai_metadata) with CredentialBindingInactive "agent_instance";;
  fail_if inactive project.(pj_metadata) with CredentialBindingInactive "project";;
  fail_if negb (bool_decide (agent.(ai_agent_provider_id) = binding.(cb_agent_provider_id)))
    with CredentialBindingMismatch "agent_provider_id";;
  let? provider := find_item ap_metadata binding.(cb_agent_provider_id)
                     catalog.(ic_agent_providers) "agent_provider_id" in
  fail_if inactive provider.(ap_metadata) with CredentialBindingInactive "agent_provider";;
  fail_if negb (bool_decide (provider.(ap_adapter_kind) = binding.(cb_adapter_kind)))
    with CredentialBindingMismatch "adapter_kind";;
  fail_if negb (bool_decide (agent.(ai_account_id) = Some binding.(cb_account_id)))
    with CredentialBindingMismatch "account_id";;
  let? account := find_item acc_metadata binding.(cb_account_id) catalog.(ic_accounts)
                    "account_id" in
  fail_if inactive account.(acc_metadata) with CredentialBindingInactive "account";;
  fail_if negb (bool_decide (account.(acc_agent_provider_id) = binding.(cb_agent_provider_id)))
    with CredentialBindingMismatch "account.agent_provider_id";;
  fail_if negb (bool_decide (account.(acc_provider_identity) = binding.(cb_provider_identity)))
    with CredentialBindingMismatch "provider_identity";;
  fail_if negb (bool_decide (account.(acc_credential_reference_id)
                             = Some binding.(cb_credential_reference_id)))
    with CredentialBindingMismatch "credential_reference_id";;
  let? reference := find_item cr_metadata binding.(cb_credential_reference_id)
                      catalog.(ic_credential_references) "credential_reference_id" in
  fail_if inactive reference.(cr_metadata) with CredentialBindingInactive "credential_reference";;
  fail_if negb (bool_decide (reference.(cr_backend) = binding.(cb_backend)))
    with CredentialBindingMismatch "backend";;
  fail_if negb (bool_decide (reference.(cr_service) = binding.(cb_service)))
    with CredentialBindingMismatch "service";;
  fail_if negb (bool_decide (reference.(cr_account_label) = binding.(cb_account_label)))
    with CredentialBindingMismatch "account_label";;
  let? run_id := expect request.(ar_action).(aa_scope).(sc_run_id) in
  let? run := find_item rn_metadata run_id catalog.(ic_runs) "run_id" in
  fail_if inactive run.(rn_metadata) with CredentialBindingInactive "run";;
  let? session := find_item ss_metadata run.(rn_session_id) catalog.(ic_sessions) "session_id" in
  fail_if inactive session.(ss_metadata) with CredentialBindingInactive "session";;
  fail_if negb (bool_decide (session.(ss_agent_instance_id)
                             = request.(ar_action).(aa_agent_instance_id)))
    with RunAgentMismatch;;
  fail_if negb (bool_decide (session.(ss_project_id)
                             = request.(ar_action).(aa_scope).(sc_project_id)))
    with RunProjectMismatch;;
  match request.(ar_action).(aa_role_id) with
  | Some role_id =>
      let? role := find_item rl_metadata role_id catalog.(ic_roles) "role_id" in
      fail_if inactive role.(rl_metadata) with CredentialBindingInactive "role";;
      Ok tt
  | None => Ok tt
  end.

(** The checks of [validate_against] on the run and on the credential list. *)
Definition validate_run_scope (action : ApprovalAction) (catalog : IdentityCatalog)
    : outcome ApprovalError unit :=
  match action.(aa_scope).(sc_run_id) with
  | Some run_id =>
      let? run := find_item rn_metadata run_id catalog.(ic_runs) "run_id" in
      let? session := find_item ss_metadata run.(rn_session_id) catalog.(ic_sessions)
                        "session_id" in
      fail_if negb (bool_decide (session.(ss_agent_instance_id) = action.(aa_agent_instance_id)))
        with RunAgentMismatch;;
      fail_if negb (bool_decide (session.(ss_project_id) = action.(aa_scope).(sc_project_id)))
        with RunProjectMismatch;;
      Ok tt
  | None => Ok tt
  end.

Definition validate_credential_scope (action : ApprovalAction) (catalog : IdentityCatalog)
    (agent : AgentInstance) : outcome ApprovalError unit :=
  let reference_ids := action.(aa_scope).(sc_credential_reference_ids) in
  if negb (bool_decide (reference_ids = [])) then
    for_each (λ reference_id,
        fail_if negb (existsb (λ item,
                    bool_decide (item.(cr_metadata).(em_id) = reference_id))
                  catalog.(ic_credential_references))
          with MissingReference "credential_reference_id";;
        Ok tt) reference_ids ?;
    let? account_id := ok_or agent.(ai_account_id) CredentialAccountRequired in
    let? account := find_item acc_metadata account_id catalog.(ic_accounts) "account_id" in
    let? account_reference :=
      ok_or account.(acc_credential_reference_id) AccountCredentialRequired in
    for_each (λ reference_id,
        fail_if negb (bool_decide (reference_id = account_reference))
          with CredentialAccountMismatch;;
        Ok tt) reference_ids
  else Ok tt.

Definition validate_against (self : ApprovalRequest) (catalog : IdentityCatalog)
    : outcome ApprovalError unit :=
  request_validate_unchanged self ?;
  let action := self.(ar_action) in
  let? agent := find_item ai_metadata action.(aa_agent_instance_id) catalog.(ic_agent_instances)
                  "agent_instance_id" in
  let? project := find_item pj_metadata action.(aa_scope).(sc_project_id) catalog.(ic_projects)
                    "project_id" in
  map_err PolicyE (restrict project.(pj_policy) action.(aa_requested_policy)) ?;
  let? parent_policy :=
    match action.(aa_role_id) with
    | Some role_id =>
        let? role := find_item rl_metadata role_id catalog.(ic_roles) "role_id" in
        Ok role.(rl_policy)
    | None => Ok project.(pj_policy)
    end in
  validate_run_scope action catalog ?;
  validate_credential_scope action catalog agent ?;
  match action.(aa_scope).(sc_credential_binding) with
  | Some binding => validate_credential_binding self catalog agent project binding
  | None => Ok tt
  end ?;
  validate_action action parent_policy.

End request.

(** ** Specification *)

(** A credential grant is asked for one provider login: the fixed capability,
    one credential, a named run and role, full credential permission, a high
    risk, and no persistence. *)
Record valid_grant (a : ApprovalAction) (b : CredentialGrantBinding) : Prop := {
  vg_action : a.(aa_action_key) = "credential.use";
  vg_capability : b.(cb_capability_key) = "provider.authenticate";
  vg_run : is_Some a.(aa_scope).(sc_run_id);
  vg_role : is_Some a.(aa_role_id);
  vg_references : a.(aa_scope).(sc_credential_reference_ids) = [b.(cb_credential_reference_id)];
  vg_permission : a.(aa_requested_policy).(sp_ceiling).(pc_credential) = Use;
  vg_risk : a.(aa_risk) = High ∨ a.(aa_risk) = Critical;
  vg_transient : a.(aa_requested_policy).(sp_ceiling).(pc_persistent_approval) = false;
}.

Record valid_action (a : ApprovalAction) (parent : ScopedPolicy) : Prop := {
  va_keys : filled a.(aa_action_key) ∧ filled a.(aa_reason_key) ∧ filled a.(aa_consequence_key);
  va_layer : a.(aa_requested_policy).(sp_layer) = SingleRun;
  va_deeper : deeper a.(aa_requested_policy) parent;
  va_ceiling : ceiling_le a.(aa_requested_policy).(sp_ceiling) parent.(sp_ceiling);
  va_transient : a.(aa_risk) = High ∨ a.(aa_risk) = Critical →
    a.(aa_requested_policy).(sp_ceiling).(pc_persistent_approval) = false;
  va_bound : a.(aa_action_key) = "credential.use" → is_Some a.(aa_scope).(sc_credential_binding);
  va_grant : ∀ b, a.(aa_scope).(sc_credential_binding) = Some b → valid_grant a b;
}.

(** An entity of the catalog that has the identifier and is active. *)
Definition active_item {k A} (metadata : A → EntityMetadata k) (l : list A) (id : stable_id k)
    (x : A) : Prop :=
  x ∈ l ∧ (metadata x).(em_id) = id ∧ (metadata x).(em_lifecycle) = Active.

(** The chain of active entities a credential-use approval is bound to: the
    acting agent, its provider and account, the account's credential as the
    binding describes it, and a run of that agent in that project. *)
Record credential_chain (c : IdentityCatalog) (a : ApprovalAction) (b : CredentialGrantBinding)
    : Prop := {
  cc_agent : ∃ agent, active_item ai_metadata c.(ic_agent_instances) a.(aa_agent_instance_id) agent ∧
    agent.(ai_agent_provider_id) = b.(cb_agent_provider_id) ∧
    agent.(ai_account_id) = Some b.(cb_account_id);
  cc_provider : ∃ provider,
    active_item ap_metadata c.(ic_agent_providers) b.(cb_agent_provider_id) provider ∧
    provider.(ap_adapter_kind) = b.(cb_adapter_kind);
  cc_account : ∃ account, active_item acc_metadata c.(ic_accounts) b.(cb_account_id) account ∧
    account.(acc_agent_provider_id) = b.(cb_agent_provider_id) ∧
    account.(acc_provider_identity) = b.(cb_provider_identity) ∧
    account.(acc_credential_reference_id) = Some b.(cb_credential_reference_id);
  cc_reference : ∃ reference,
    active_item cr_metadata c.(ic_credential_references) b.(cb_credential_reference_id) reference ∧
    reference.(cr_backend) = b.(cb_backend) ∧ reference.(cr_service) = b.(cb_service) ∧
    reference.(cr_account_label) = b.(cb_account_label);
  cc_run : ∃ run_id run session, a.(aa_scope).(sc_run_id) = Some run_id ∧
    active_item rn_metadata c.(ic_runs) run_id run ∧
    active_item ss_metadata c.(ic_sessions) run.(rn_session_id) session ∧
    session.(ss_agent_instance_id) = a.(aa_agent_instance_id) ∧
    session.(ss_project_id) = a.(aa_scope).(sc_project_id);
  cc_role : ∃ role_id role, a.(aa_role_id) = Some role_id ∧
    active_item rl_metadata c.(ic_roles) role_id role ∧
    ceiling_le a.(aa_requested_policy).(sp_ceiling) role.(rl_policy).(sp_ceiling);
  cc_project : ∃ project,
    active_item pj_metadata c.(ic_projects) a.(aa_scope).(sc_project_id) project ∧
    ceiling_le a.(aa_requested_policy).(sp_ceiling) project.(pj_policy).(sp_ceiling);
}.

(** The entity the catalog lists first under the identifier, and that it is active. *)
Definition listed {k A} (metadata : A → EntityMetadata k) (l : list A) (id : stable_id k)
    (x : A) : Prop :=
  List.find (λ y, bool_decide ((metadata y).(em_id) = id)) l = Some x.
Definition listed_active {k A} (metadata : A → EntityMetadata k) (l : list A) (id : stable_id k)
    (x : A) : Prop :=
  listed metadata l id x ∧ (metadata x).(em_lifecycle) = Active.

(** An action that binds a credential to no run, and is otherwise of the catalog:
    the agent, its provider and account, and the credential are those of the
    binding, the project admits the policy, a role that is named exists, and
    no other credential is asked for. *)
Record unbound_login (c : IdentityCatalog) (a : ApprovalAction) (b : CredentialGrantBinding)
    : Prop := {
  ul_binding : a.(aa_scope).(sc_credential_binding) = Some b;
  ul_run : a.(aa_scope).(sc_run_id) = None;
  ul_agent : ∃ agent, listed_active ai_metadata c.(ic_agent_instances) a.(aa_agent_instance_id) agent ∧
    agent.(ai_agent_provider_id) = b.(cb_agent_provider_id) ∧
    agent.(ai_account_id) = Some b.(cb_account_id);
  ul_project : ∃ project, listed_active pj_metadata c.(ic_projects) a.(aa_scope).(sc_project_id) project ∧
    deeper a.(aa_requested_policy) project.(pj_policy) ∧
    ceiling_le a.(aa_requested_policy).(sp_ceiling) project.(pj_policy).(sp_ceiling);
  ul_role : ∀ role_id, a.(aa_role_id) = Some role_id →
    ∃ role, listed rl_metadata c.(ic_roles) role_id role;
  ul_provider : ∃ provider,
    listed_active ap_metadata c.(ic_agent_providers) b.(cb_agent_provider_id) provider ∧
    provider.(ap_adapter_kind) = b.(cb_adapter_kind);
  ul_account : ∃ account, listed_active acc_metadata c.(ic_accounts) b.(cb_account_id) account ∧
    account.(acc_agent_provider_id) = b.(cb_agent_provider_id) ∧
    account.(acc_provider_identity) = b.(cb_provider_identity) ∧
    account.(acc_credential_reference_id) = Some b.(cb_credential_reference_id);
  ul_reference : ∃ reference,
    listed_active cr_metadata c.(ic_credential_references) b.(cb_credential_reference_id) reference ∧
    reference.(cr_backend) = b.(cb_backend) ∧ reference.(cr_service) = b.(cb_service) ∧
    reference.(cr_account_label) = b.(cb_account_label);
  ul_references : ∀ id, id ∈ a.(aa_scope).(sc_credential_reference_ids) →
    id = b.(cb_credential_reference_id);
}.

(** ** Lemmas *)

Lemma is_high_true risk : is_high risk = true ↔ risk = High ∨ risk = Critical.
Proof. destruct risk; cbn; intuition congruence. Qed.

#[local] Hint Rewrite ex_unit @obind_ok @fail_if_ok @for_each_ok @map_err_ok orb_false_iff
  negb_false_iff @bool_decide_eq_true @bool_decide_eq_false is_high_true : approval.

Lemma validate_action_binding_ok a b : validate_action_binding a b = Ok tt ↔ valid_grant a b.
Proof.
  unfold validate_action_binding. autorewrite with approval. split.
  - intros (? & ? & ? & Hr & Ho & ? & ? & ? & ? & _).
    split; try done; by apply not_eq_None_Some.
  - intros [? Hc Hr Ho ? ? ? ?]. rewrite Hc. split_and!; try done; by apply not_eq_None_Some.
Qed.

Lemma validate_action_ok a parent : validate_action a parent = Ok tt ↔ valid_action a parent.
Proof.
  assert (Hb : match a.(aa_scope).(sc_credential_binding) with
               | Some binding => validate_action_binding a binding
               | None => Ok tt
               end = Ok tt ↔
    ∀ b, a.(aa_scope).(sc_credential_binding) = Some b → valid_grant a b).
  { destruct (sc_credential_binding _) as [b|]; [|naive_solver].
    rewrite validate_action_binding_ok. naive_solver. }
  assert (Hh : ¬ ((a.(aa_risk) = High ∨ a.(aa_risk) = Critical) ∧
      pc_persistent_approval (sp_ceiling (aa_requested_policy a)) = true) ↔
    (a.(aa_risk) = High ∨ a.(aa_risk) = Critical →
      pc_persistent_approval (sp_ceiling (aa_requested_policy a)) = false)).
  { destruct (pc_persistent_approval _); intuition congruence. }
  unfold validate_action. rewrite obind_ok, ex_unit, for_each_ok, !Forall_cons, Forall_nil.
  cbn beta iota. rewrite !fail_if_ok, negb_false_iff, bool_decide_eq_true, obind_ok.
  setoid_rewrite map_err_ok.
  setoid_rewrite restrict_ok. repeat setoid_rewrite fail_if_ok. setoid_rewrite Hb.
  repeat setoid_rewrite <- not_true_iff_false. repeat setoid_rewrite andb_true_iff.
  repeat setoid_rewrite bool_decide_eq_true. setoid_rewrite is_high_true. setoid_rewrite Hh.
  rewrite !not_true_iff_false. split.
  - intros ((? & ? & ? & _) & ? & r & (-> & ? & ?) & ? & Hu & ?). split; try done.
    + unfold filled. tauto.
    + intros E. apply not_eq_None_Some. tauto.
  - intros [(? & ? & ?) ? ? ? ? Hu ?]. split_and!; try done.
    eexists. split_and!; try done. intros [E En]. apply Hu in E as [? ?]. congruence.
Qed.

Section facts.
Context `{Digest} `{Serializer}.

Lemma verify_decision_ok r d :
  verify_decision r d = Ok tt ↔
  filled d.(ad_actor) ∧ d.(ad_request_id) = r.(ar_id) ∧
  d.(ad_request_hash) = r.(ar_request_hash) ∧
  (r.(ar_created_at_ms) ≤ d.(ad_decided_at_ms) < r.(ar_expires_at_ms))%Z.
Proof.
  unfold verify_decision, filled. autorewrite with approval. rewrite Z.ltb_ge, Z.leb_gt. tauto.
Qed.

Lemma request_create_ok id created expires action parent r :
  request_create id created expires action parent = Ok r ↔
  valid_action action parent ∧ (created < expires)%Z ∧
  r = {| ar_id := id; ar_request_hash := canonical_hash id created expires action;
         ar_created_at_ms := created; ar_expires_at_ms := expires; ar_action := action |}.
Proof.
  unfold request_create. rewrite obind_ok, ex_unit, validate_action_ok, fail_if_ok, Z.leb_gt.
  intuition congruence.
Qed.

Lemma request_validate_unchanged_ok r :
  request_validate_unchanged r = Ok tt ↔
  r.(ar_request_hash) = canonical_hash r.(ar_id) r.(ar_created_at_ms) r.(ar_expires_at_ms)
                          r.(ar_action).
Proof. unfold request_validate_unchanged. case_bool_decide; split; congruence. Qed.

Lemma find_item_ok {k A} (metadata : A → EntityMetadata k) id l field x :
  find_item metadata id l field = Ok x → x ∈ l ∧ (metadata x).(em_id) = id.
Proof.
  unfold find_item. rewrite ok_or_ok. apply (find_key_Some (λ y, em_id (metadata y))).
Qed.

Lemma inactive_false {k} (m : EntityMetadata k) : inactive m = false ↔ m.(em_lifecycle) = Active.
Proof. unfold inactive. by rewrite negb_false_iff, bool_decide_eq_true. Qed.

Ltac approval_inv :=
  repeat match goal with
  | H : find_item _ _ _ _ = Ok _ |- _ => apply find_item_ok in H as [? ?]
  | H : inactive _ = false |- _ => apply inactive_false in H
  | H : restrict _ _ = Ok _ |- _ => apply restrict_ok in H as (-> & ? & ?)
  end.

Lemma validate_against_ok r c b :
  validate_against r c = Ok tt → r.(ar_action).(aa_scope).(sc_credential_binding) = Some b →
  request_validate_unchanged r = Ok tt ∧ valid_grant r.(ar_action) b ∧
  r.(ar_action).(aa_requested_policy).(sp_layer) = SingleRun ∧
  credential_chain c r.(ar_action) b.
Proof.
  intros Hv Hb. unfold validate_against in Hv. rewrite Hb in Hv. ok_inv.
  apply validate_action_ok in Hv. pose proof (va_grant _ _ Hv b Hb) as Hg.
  destruct (vg_role _ _ Hg) as [role_id Hrole], (vg_run _ _ Hg) as [run_id Hrun].
  match goal with H : validate_credential_binding _ _ _ _ _ = _ |- _ =>
    unfold validate_credential_binding in H end.
  rewrite Hrole in *. rewrite Hrun in *. cbn [expect] in *. ok_inv.
  repeat match goal with H : find_item rl_metadata _ _ _ = Ok _, H' : find_item rl_metadata _ _ _ = Ok _
    |- _ => rewrite H in H'; simplify_eq end.
  bool_prop. approval_inv. split_and!; [done|done|by apply Hv|]. split; unfold active_item.
  - eexists. by split_and!.
  - eexists. by split_and!.
  - eexists. by split_and!.
  - eexists. by split_and!.
  - eexists _, _, _. by split_and!.
  - eexists _, _. split_and!; try done. by apply Hv.
  - eexists. by split_and!.
Qed.

(** The only panic of the checks needs a binding without a run. *)
Lemma validate_against_returns r c :
  (∀ b, r.(ar_action).(aa_scope).(sc_credential_binding) = Some b →
        is_Some r.(ar_action).(aa_scope).(sc_run_id)) →
  returns (validate_against r c).
Proof.
  intros Hr. unfold validate_against, request_validate_unchanged, validate_run_scope,
    validate_credential_scope, validate_action, validate_action_binding, find_item. cbv zeta.
  destruct (sc_credential_binding _) as [b|].
  - destruct (Hr b eq_refl) as [run_id Hrun]. unfold validate_credential_binding, find_item.
    rewrite Hrun. cbn [expect]. solve_returns.
  - solve_returns.
Qed.

Lemma find_item_listed {k A} (metadata : A → EntityMetadata k) l id x field :
  listed metadata l id x → find_item metadata id l field = Ok x.
Proof. unfold find_item, listed. by intros ->. Qed.
Lemma find_item_active {k A} (metadata : A → EntityMetadata k) l id x field :
  listed_active metadata l id x → find_item metadata id l field = Ok x ∧ inactive (metadata x) = false.
Proof. intros [Hl Ha]. split; [by apply find_item_listed|by apply inactive_false]. Qed.

(** And such a binding is not refused: the routine runs into its [expect]. *)
Lemma unbound_scope c a b agent :
  unbound_login c a b → agent.(ai_account_id) = Some b.(cb_account_id) →
  validate_credential_scope a c agent = Ok tt.
Proof.
  intros U Ha. destruct (ul_account _ _ _ U) as (account & Hc & _ & _ & Hr).
  destruct (ul_reference _ _ _ U) as (reference & [Hl _] & _).
  unfold validate_credential_scope. case_bool_decide; [done|]. cbn [negb].
  rewrite (proj2 (for_each_ok _ _ tt)), Ha; cbn [obind ok_or].
  - destruct (find_item_active _ _ _ _ "account_id" Hc) as [-> _]. cbn [obind]. rewrite Hr.
    cbn [obind ok_or]. apply for_each_ok, Forall_forall. intros id Hid.
    by rewrite (ul_references _ _ _ U id Hid), bool_decide_eq_true_2.
  - apply Forall_forall. intros id Hid. rewrite (ul_references _ _ _ U id Hid).
    apply find_some in Hl. rewrite (proj2 (existsb_exists _ _)); [done|]. by exists reference.
Qed.

Lemma validate_against_panics r c b :
  request_validate_unchanged r = Ok tt → unbound_login c r.(ar_action) b → validate_against r c = Panic.
Proof.
  intros Hu U. pose proof U as [Hb Hr (agent & Ha & Hp & Hc) (project & Hj & Hd & Hl) Ho
    (provider & Hv & Hk) (account & Hn & Hn1 & Hn2 & Hn3) (reference & He & He1 & He2 & He3) _].
  unfold validate_against. rewrite Hu. cbn [obind]. cbv zeta.
  destruct (find_item_active _ _ _ _ "agent_instance_id" Ha) as [-> Ia]. cbn [obind].
  destruct (find_item_active _ _ _ _ "project_id" Hj) as [-> Ij]. cbn [obind].
  rewrite (proj2 (restrict_ok _ _ _)) by done. cbn [obind map_err].
  assert (Hrole : ∃ parent, match aa_role_id (ar_action r) with
    | Some role_id => let? role := find_item rl_metadata role_id (ic_roles c) "role_id" in
                      Ok (rl_policy role)
    | None => Ok (pj_policy project) end = Ok parent).
  { destruct (aa_role_id _) as [role_id|]; [|by eexists]. destruct (Ho role_id eq_refl) as [role Hro].
    rewrite (find_item_listed _ _ _ _ "role_id" Hro). by eexists. }
  destruct Hrole as [parent ->]. cbn [obind].
  unfold validate_run_scope. rewrite Hr. cbn [obind]. rewrite (unbound_scope _ _ _ _ U Hc). cbn [obind].
  rewrite Hb. unfold validate_credential_binding. rewrite Ia, Ij, Hp, bool_decide_eq_true_2 by done. cbn [negb].
  destruct (find_item_active _ _ _ _ "agent_provider_id" Hv) as [-> Iv]. cbn [obind].
  rewrite Iv, Hk, Hc, !bool_decide_eq_true_2 by done. cbn [negb].
  destruct (find_item_active _ _ _ _ "account_id" Hn) as [-> In]. cbn [obind].
  rewrite In, Hn1, Hn2, Hn3, !bool_decide_eq_true_2 by done. cbn [negb].
  destruct (find_item_active _ _ _ _ "credential_reference_id" He) as [-> Ie]. cbn [obind].
  by rewrite Ie, He1, He2, He3, !bool_decide_eq_true_2, Hr by done.
Qed.

(** Requests are told apart by their hash, up to a collision of SHA-256. *)
Lemma to_hex_inj s t : to_hex s = to_hex t → s = t.
Proof.
  assert (Hv : ∀ n, (n < 16)%N →
    N_of_ascii (hex_digit n) = if (n <? 10)%N then (48 + n)%N else (87 + n)%N).
  { intros n Hn. apply N_ascii_embedding. destruct (_ <? _)%N; lia. }
  assert (Hd : ∀ n m, (n < 16)%N → (m < 16)%N → hex_digit n = hex_digit m → n = m).
  { intros n m Hn Hm E. apply (f_equal N_of_ascii) in E. rewrite !Hv in E by done. revert E.
    destruct (N.ltb_spec n 10), (N.ltb_spec m 10); lia. }
  assert (Hc : ∀ c, (N_of_ascii c / 16 < 16)%N).
  { intros c. apply N.Div0.div_lt_upper_bound. pose proof (N_ascii_bounded c). lia. }
  assert (Hm : ∀ c, (N_of_ascii c mod 16 < 16)%N) by (intros c; by apply N.mod_lt).
  revert t. induction s as [|c s IH]; intros [|d t]; cbn; try done.
  intros E. injection E as E1 E2 E3. apply Hd in E1; [|done..]. apply Hd in E2; [|done..].
  f_equal; [|auto]. rewrite <- (ascii_N_embedding c), <- (ascii_N_embedding d). f_equal.
  rewrite (N.div_mod (N_of_ascii c) 16), (N.div_mod (N_of_ascii d) 16) by done. congruence.
Qed.

Lemma canonical_hash_inj id t t' a id' u u' a' :
  (∀ x y : HashInput, to_vec x = to_vec y → x = y) →
  canonical_hash id t t' a = canonical_hash id' u u' a' →
  (id = id' ∧ t = u ∧ t' = u' ∧ a = a') ∨ collision.
Proof.
  intros Hinj E. unfold canonical_hash in E. apply to_hex_inj in E.
  match type of E with sha256 ?x = sha256 ?y => destruct (decide (x = y)) as [Ev|Hne] end.
  - left. apply Hinj in Ev. by injection Ev.
  - right. by eexists _, _.
Qed.
End facts.
