(* ===== verification/OutputQueue.v ===== *)
(** * The bounded output queue

    Models [crates/bastet-core/src/process_queue.rs]: the handoff between the
    thread that reads an adapter's output and its consumer.  The atomic counter
    [used], the sticky flag [failed] and the bounded channel are one shared
    state; the step relation [queue_step] has one rule per atomic access, so a
    run is an arbitrary interleaving of senders with the receiver.  The methods
    [send] and [recv_timeout] executed without interference are the functions
    [send] and [recv_timeout] below, which the relation refines. *)
From stdpp Require Import relations.
From S2P Require Import Prelude.

Definition OUTPUT_QUEUE_BYTES : Z := 16 * 1024 * 1024.
Definition OUTPUT_QUEUE_ITEMS : nat := 128.

Section queue.
Context {T : Type}.

(** An [Envelope] is a value with its size; dropping it subtracts the size. *)
Definition Envelope : Type := T * Z.

Record queue_state := {
  q_used : Z;                      (* AtomicUsize *)
  q_failed : bool;                 (* AtomicBool *)
  q_channel : list Envelope;       (* the items of the sync_channel, oldest first *)
  q_open : bool;                   (* the receiver has not been dropped *)
  (* where the threads are *)
  q_checked : list Envelope;       (* senders that have seen [failed] unset *)
  q_reserved : list Envelope;      (* senders that have added their size *)
  q_rejected : list Envelope;      (* senders whose envelope the channel has given back *)
  q_failing : nat;                 (* senders about to set [failed] *)
  q_receiving : bool;              (* the receiver has seen [failed] unset *)
  q_taken : option Envelope;       (* the receiver between the channel and its second check *)
  q_dropping : list Envelope;      (* envelopes whose size is not yet subtracted *)
  (* history *)
  q_accepted : list T;             (* values [send] answered [true] for *)
  q_delivered : list T;            (* values [recv_timeout] returned *)
}.

Definition output_queue : queue_state :=
  {| q_used := 0; q_failed := false; q_channel := []; q_open := true; q_checked := [];
     q_reserved := []; q_rejected := []; q_failing := 0; q_receiving := false; q_taken := None;
     q_dropping := []; q_accepted := []; q_delivered := [] |}.

(** [used.checked_add(wire_bytes).filter(|total| *total <= OUTPUT_QUEUE_BYTES)] *)
Definition reserve (used wire_bytes : Z) : option Z :=
  match checked_add USIZE_MAX used wire_bytes with
  | Some total => if (total <=? OUTPUT_QUEUE_BYTES)%Z then Some total else None
  | None => None
  end.

(** [try_send]: the channel is bounded and needs a receiver. *)
Definition has_room (q : queue_state) : bool :=
  q.(q_open) && (length q.(q_channel) <? OUTPUT_QUEUE_ITEMS).

(** The accesses of the shared state. *)
Definition q_check (q : queue_state) (e : Envelope) : queue_state :=
  {| q_used := q.(q_used); q_failed := q.(q_failed); q_channel := q.(q_channel);
     q_open := q.(q_open); q_checked := e :: q.(q_checked); q_reserved := q.(q_reserved);
     q_rejected := q.(q_rejected); q_failing := q.(q_failing); q_receiving := q.(q_receiving);
     q_taken := q.(q_taken); q_dropping := q.(q_dropping); q_accepted := q.(q_accepted);
     q_delivered := q.(q_delivered) |}.
Definition q_reserve (q : queue_state) (checked : list Envelope) (e : Envelope) (total : Z)
    : queue_state :=
  {| q_used := total; q_failed := q.(q_failed); q_channel := q.(q_channel);
     q_open := q.(q_open); q_checked := checked; q_reserved := e :: q.(q_reserved);
     q_rejected := q.(q_rejected); q_failing := q.(q_failing); q_receiving := q.(q_receiving);
     q_taken := q.(q_taken); q_dropping := q.(q_dropping); q_accepted := q.(q_accepted);
     q_delivered := q.(q_delivered) |}.
Definition q_refuse (q : queue_state) (checked : list Envelope) : queue_state :=
  {| q_used := q.(q_used); q_failed := q.(q_failed); q_channel := q.(q_channel);
     q_open := q.(q_open); q_checked := checked; q_reserved := q.(q_reserved);
     q_rejected := q.(q_rejected); q_failing := S q.(q_failing); q_receiving := q.(q_receiving);
     q_taken := q.(q_taken); q_dropping := q.(q_dropping); q_accepted := q.(q_accepted);
     q_delivered := q.(q_delivered) |}.
Definition q_enqueue (q : queue_state) (reserved : list Envelope) (e : Envelope) : queue_state :=
  {| q_used := q.(q_used); q_failed := q.(q_failed); q_channel := q.(q_channel) ++ [e];
     q_open := q.(q_open); q_checked := q.(q_checked); q_reserved := reserved;
     q_rejected := q.(q_rejected); q_failing := q.(q_failing); q_receiving := q.(q_receiving);
     q_taken := q.(q_taken); q_dropping := q.(q_dropping);
     q_accepted := q.(q_accepted) ++ [e.1]; q_delivered := q.(q_delivered) |}.
Definition q_reject (q : queue_state) (reserved : list Envelope) (e : Envelope) : queue_state :=
  {| q_used := q.(q_used); q_failed := q.(q_failed); q_channel := q.(q_channel);
     q_open := q.(q_open); q_checked := q.(q_checked); q_reserved := reserved;
     q_rejected := e :: q.(q_rejected); q_failing := q.(q_failing);
     q_receiving := q.(q_receiving); q_taken := q.(q_taken); q_dropping := q.(q_dropping);
     q_accepted := q.(q_accepted); q_delivered := q.(q_delivered) |}.
Definition q_give_up (q : queue_state) (rejected : list Envelope) (e : Envelope) : queue_state :=
  {| q_used := (q.(q_used) - e.2)%Z; q_failed := q.(q_failed); q_channel := q.(q_channel);
     q_open := q.(q_open); q_checked := q.(q_checked); q_reserved := q.(q_reserved);
     q_rejected := rejected; q_failing := S q.(q_failing); q_receiving := q.(q_receiving);
     q_taken := q.(q_taken); q_dropping := q.(q_dropping); q_accepted := q.(q_accepted);
     q_delivered := q.(q_delivered) |}.
Definition q_set_failed (q : queue_state) (failing : nat) : queue_state :=
  {| q_used := q.(q_used); q_failed := true; q_channel := q.(q_channel); q_open := q.(q_open);
     q_checked := q.(q_checked); q_reserved := q.(q_reserved); q_rejected := q.(q_rejected);
     q_failing := failing; q_receiving := q.(q_receiving); q_taken := q.(q_taken);
     q_dropping := q.(q_dropping); q_accepted := q.(q_accepted);
     q_delivered := q.(q_delivered) |}.
Definition q_receive (q : queue_state) (receiving : bool) : queue_state :=
  {| q_used := q.(q_used); q_failed := q.(q_failed); q_channel := q.(q_channel);
     q_open := q.(q_open); q_checked := q.(q_checked); q_reserved := q.(q_reserved);
     q_rejected := q.(q_rejected); q_failing := q.(q_failing); q_receiving := receiving;
     q_taken := q.(q_taken); q_dropping := q.(q_dropping); q_accepted := q.(q_accepted);
     q_delivered := q.(q_delivered) |}.
Definition q_take (q : queue_state) (e : Envelope) (channel : list Envelope) : queue_state :=
  {| q_used := q.(q_used); q_failed := q.(q_failed); q_channel := channel; q_open := q.(q_open);
     q_checked := q.(q_checked); q_reserved := q.(q_reserved); q_rejected := q.(q_rejected);
     q_failing := q.(q_failing); q_receiving := false; q_taken := Some e;
     q_dropping := q.(q_dropping); q_accepted := q.(q_accepted);
     q_delivered := q.(q_delivered) |}.
Definition q_release (q : queue_state) (e : Envelope) (delivered : list T) : queue_state :=
  {| q_used := q.(q_used); q_failed := q.(q_failed); q_channel := q.(q_channel);
     q_open := q.(q_open); q_checked := q.(q_checked); q_reserved := q.(q_reserved);
     q_rejected := q.(q_rejected); q_failing := q.(q_failing); q_receiving := q.(q_receiving);
     q_taken := None; q_dropping := e :: q.(q_dropping); q_accepted := q.(q_accepted);
     q_delivered := q.(q_delivered) ++ delivered |}.
Definition q_drop (q : queue_state) (e : Envelope) (dropping : list Envelope) : queue_state :=
  {| q_used := (q.(q_used) - e.2)%Z; q_failed := q.(q_failed); q_channel := q.(q_channel);
     q_open := q.(q_open); q_checked := q.(q_checked); q_reserved := q.(q_reserved);
     q_rejected := q.(q_rejected); q_failing := q.(q_failing); q_receiving := q.(q_receiving);
     q_taken := q.(q_taken); q_dropping := dropping; q_accepted := q.(q_accepted);
     q_delivered := q.(q_delivered) |}.
Definition q_close (q : queue_state) : queue_state :=
  {| q_used := q.(q_used); q_failed := q.(q_failed); q_channel := []; q_open := false;
     q_checked := q.(q_checked); q_reserved := q.(q_reserved); q_rejected := q.(q_rejected);
     q_failing := q.(q_failing); q_receiving := q.(q_receiving); q_taken := q.(q_taken);
     q_dropping := q.(q_dropping) ++ q.(q_channel); q_accepted := q.(q_accepted);
     q_delivered := q.(q_delivered) |}.

Inductive queue_step (q : queue_state) : queue_state → Prop :=
(* send *)
| step_check v n :
    (0 ≤ n)%Z → q.(q_failed) = false → queue_step q (q_check q (v, n))
| step_reserve l1 l2 e total :
    q.(q_checked) = l1 ++ e :: l2 → reserve q.(q_used) e.2 = Some total →
    queue_step q (q_reserve q (l1 ++ l2) e total)
| step_refuse l1 l2 e :
    q.(q_checked) = l1 ++ e :: l2 → reserve q.(q_used) e.2 = None →
    queue_step q (q_refuse q (l1 ++ l2))
| step_enqueue l1 l2 e :
    q.(q_reserved) = l1 ++ e :: l2 → has_room q = true →
    queue_step q (q_enqueue q (l1 ++ l2) e)
| step_reject l1 l2 e :
    q.(q_reserved) = l1 ++ e :: l2 → has_room q = false →
    queue_step q (q_reject q (l1 ++ l2) e)
| step_give_up l1 l2 e :
    q.(q_rejected) = l1 ++ e :: l2 → queue_step q (q_give_up q (l1 ++ l2) e)
| step_set_failed n :
    q.(q_failing) = S n → queue_step q (q_set_failed q n)
(* recv_timeout *)
| step_receive :
    q.(q_open) = true → q.(q_receiving) = false → q.(q_taken) = None → q.(q_failed) = false →
    queue_step q (q_receive q true)
| step_timeout :
    q.(q_receiving) = true → queue_step q (q_receive q false)
| step_take e channel :
    q.(q_receiving) = true → q.(q_channel) = e :: channel → q.(q_taken) = None →
    queue_step q (q_take q e channel)
| step_deliver e :
    q.(q_taken) = Some e → q.(q_failed) = false → queue_step q (q_release q e [e.1])
| step_discard e :
    q.(q_taken) = Some e → q.(q_failed) = true → queue_step q (q_release q e [])
(* Drop of an envelope, and of the receiver *)
| step_drop l1 l2 e :
    q.(q_dropping) = l1 ++ e :: l2 → queue_step q (q_drop q e (l1 ++ l2))
| step_close :
    q.(q_receiving) = false → q.(q_taken) = None → queue_step q (q_close q).

(** [OutputSender::send] and [OutputReceiver::recv_timeout] without interference
    ([None] stands for the timeout and the disconnection). *)
Definition send (q : queue_state) (value : T) (wire_bytes : Z) : queue_state * bool :=
  if q.(q_failed) then (q, false) else
  let e := (value, wire_bytes) in
  let q := q_check q e in
  match reserve q.(q_used) wire_bytes with
  | None => (q_set_failed (q_refuse q (tail q.(q_checked))) q.(q_failing), false)
  | Some total =>
      let q := q_reserve q (tail q.(q_checked)) e total in
      if has_room q then (q_enqueue q (tail q.(q_reserved)) e, true)
      else let q := q_reject q (tail q.(q_reserved)) e in
           (q_set_failed (q_give_up q (tail q.(q_rejected)) e) q.(q_failing), false)
  end.

Definition recv_timeout (q : queue_state) : queue_state * option T :=
  if q.(q_failed) then (q, None) else
  let q := q_receive q true in
  match q.(q_channel) with
  | [] => (q_receive q false, None)
  | e :: channel =>
      let q := q_release (q_take q e channel) e [e.1] in
      (q_drop q e (tail q.(q_dropping)), Some e.1)
  end.

(** ** Specification *)

Definition sizes (l : list Envelope) : Z := foldr (λ e acc, e.2 + acc)%Z 0%Z l.
Definition taken (q : queue_state) : list Envelope :=
  match q.(q_taken) with Some e => [e] | None => [] end.

(** The counter is the total size of the envelopes that exist, and bounded. *)
Definition accounted (q : queue_state) : Prop :=
  q.(q_used) = (sizes q.(q_reserved) + sizes q.(q_rejected) + sizes q.(q_channel) + sizes (taken q)
                + sizes q.(q_dropping))%Z ∧
  (q.(q_used) ≤ OUTPUT_QUEUE_BYTES)%Z ∧
  Forall (λ e, 0 ≤ e.2)%Z q.(q_checked) ∧ Forall (λ e, 0 ≤ e.2)%Z q.(q_reserved) ∧
  Forall (λ e, 0 ≤ e.2)%Z q.(q_rejected) ∧
  Forall (λ e, 0 ≤ e.2)%Z q.(q_channel) ∧ Forall (λ e, 0 ≤ e.2)%Z (taken q) ∧
  Forall (λ e, 0 ≤ e.2)%Z q.(q_dropping).

(** Until a failure or the end of the receiver, what was accepted is what was
    delivered followed by what is on its way, in order. *)
Definition in_order (q : queue_state) : Prop :=
  (q.(q_failed) = false → q.(q_open) = true →
   q.(q_accepted) = q.(q_delivered) ++ map fst (taken q) ++ map fst q.(q_channel)) ∧
  q.(q_delivered) `prefix_of` q.(q_accepted) ∧
  (q.(q_open) = false → q.(q_channel) = [] ∧ q.(q_taken) = None).

Definition queue_inv (q : queue_state) : Prop :=
  accounted q ∧ length q.(q_channel) ≤ OUTPUT_QUEUE_ITEMS ∧ in_order q.

(** ** Lemmas *)

Lemma sizes_app l1 l2 : sizes (l1 ++ l2) = (sizes l1 + sizes l2)%Z.
Proof. unfold sizes. induction l1 as [|e l1 IH]; cbn; [done|]. rewrite IH. lia. Qed.

Lemma sizes_cons e l : sizes (e :: l) = (e.2 + sizes l)%Z.
Proof. done. Qed.
Lemma sizes_nil : sizes [] = 0%Z.
Proof. done. Qed.

Lemma sizes_nonneg l : Forall (λ e, 0 ≤ e.2)%Z l → (0 ≤ sizes l)%Z.
Proof. unfold sizes. induction 1; cbn; [done|]. lia. Qed.

Lemma reserve_Some used n total :
  reserve used n = Some total ↔ total = (used + n)%Z ∧ (used + n ≤ OUTPUT_QUEUE_BYTES)%Z.
Proof.
  unfold reserve, checked_add, USIZE_MAX, OUTPUT_QUEUE_BYTES.
  case_bool_decide; [|split; [done|lia]]. destruct (Z.leb_spec (used + n) (16 * 1024 * 1024));
    split; try done; [by intros [= <-]|by intros [-> _]|lia].
Qed.

Lemma output_queue_inv : queue_inv output_queue.
Proof.
  split_and!; cbn; try done; try apply Forall_nil_2.
  unfold OUTPUT_QUEUE_ITEMS. lia.
Qed.

Ltac queue_fields :=
  cbn [q_used q_failed q_channel q_open q_checked q_reserved q_rejected q_failing q_receiving
       q_taken q_dropping q_accepted q_delivered q_check q_reserve q_refuse q_enqueue q_reject
       q_give_up q_set_failed q_receive q_take
       q_release q_drop q_close fst snd] in *.

Lemma accounted_step q q' : accounted q → queue_step q q' → accounted q'.
Proof.
  unfold accounted, taken. intros (Hu & Hb & Hc & Hr & Hrj & Hch & Ht & Hd) Hs.
  destruct Hs; queue_fields;
    repeat match goal with
    | E : ?f q = _ |- _ => rewrite E in *; clear E
    | E : reserve _ _ = Some _ |- _ => apply reserve_Some in E as [-> ?]
    end; queue_fields;
    rewrite ?Forall_app, ?Forall_cons in *; split_hyps;
    rewrite ?sizes_app, ?sizes_cons, ?sizes_nil in *; split_and!; try done; try lia;
    try apply Forall_nil_2.
Qed.

Lemma items_step q q' :
  length q.(q_channel) ≤ OUTPUT_QUEUE_ITEMS → queue_step q q' →
  length q'.(q_channel) ≤ OUTPUT_QUEUE_ITEMS.
Proof.
  intros Hi Hs. destruct Hs; queue_fields; try done; try (cbn; lia).
  - unfold has_room in *. bool_prop. rewrite ?Nat.ltb_lt in *. rewrite length_app. cbn. lia.
  - match goal with E : q_channel q = _ |- _ => rewrite E in Hi end. cbn in Hi. lia.
Qed.

Ltac queue_eqs :=
  repeat match goal with
  | E : q_channel _ = _ |- _ => rewrite E in *; clear E
  | E : q_taken _ = _ |- _ => rewrite E in *; clear E
  end.

Lemma in_order_step q q' : in_order q → queue_step q q' → in_order q'.
Proof.
  unfold in_order, taken. intros (Hf & Hp & Hc) Hs. destruct Hs; queue_fields; split_and!; try done.
  - intros ? Ho. rewrite Hf by done. by rewrite map_app, <- !app_assoc.
  - by apply prefix_app_r.
  - intros Ho. unfold has_room in *. by rewrite Ho in *.
  - intros. queue_eqs. by rewrite Hf by done.
  - intros Ho. destruct (Hc Ho). congruence.
  - intros. queue_eqs. rewrite Hf by done. by rewrite <- app_assoc.
  - destruct (q_open q) eqn:Ho; [|destruct (Hc eq_refl); congruence].
    queue_eqs. rewrite Hf by done. apply prefix_app. by exists (map fst (q_channel q)).
  - intros Ho. destruct (Hc Ho). congruence.
  - intros. congruence.
  - by rewrite app_nil_r.
  - intros Ho. destruct (Hc Ho). congruence.
Qed.

Lemma queue_inv_steps q q' : queue_inv q → rtc queue_step q q' → queue_inv q'.
Proof.
  intros Hq Hs. induction Hs as [|q1 q2 q3 Hs _ IH]; [done|]. apply IH.
  destruct Hq as (? & ? & ?). split_and!.
  - by eapply accounted_step.
  - by eapply items_step.
  - by eapply in_order_step.
Qed.

(** A failure is never taken back, and nothing is delivered after it. *)
Lemma failed_is_sticky q q' :
  q.(q_failed) = true → rtc queue_step q q' →
  q'.(q_failed) = true ∧ q'.(q_delivered) = q.(q_delivered).
Proof.
  intros Hf Hs. induction Hs as [|q1 q2 q3 Hs _ IH]; [done|].
  assert (q_failed q2 = true ∧ q_delivered q2 = q_delivered q1) as [? Hd].
  { destruct Hs; queue_fields; try done; [congruence|]. by rewrite app_nil_r. }
  rewrite <- Hd. auto.
Qed.

(** The methods are runs of the relation. *)
Lemma send_steps q v n q' b :
  (0 ≤ n)%Z → send q v n = (q', b) → rtc queue_step q q' ∧
  q'.(q_accepted) = q.(q_accepted) ++ (if b then [v] else []) ∧
  (b = false → q'.(q_failed) = true).
Proof.
  unfold send. intros Hn. destruct (q_failed q) eqn:Ef.
  { intros [= <- <-]. rewrite app_nil_r. split_and!; [done..|]. by rewrite Ef. }
  cbn [q_check q_used q_checked tail]. destruct (reserve _ _) as [total|] eqn:Er.
  - set (q1 := q_check q (v, n)). set (q2 := q_reserve q1 (q_checked q) (v, n) total).
    assert (H12 : rtc queue_step q q2).
    { eapply rtc_l; [by apply step_check|]. eapply rtc_l; [|done].
      by apply (step_reserve q1 [] (q_checked q) (v, n)). }
    change (tail (q_reserved q2)) with (q_reserved q). destruct (has_room q2) eqn:Eh.
    + intros [= <- <-]. split_and!; [|done|done]. eapply rtc_r; [done|].
      by apply (step_enqueue q2 [] (q_reserved q)).
    + intros [= <- <-]. split_and!; [|by rewrite app_nil_r|done].
      set (q3 := q_reject q2 (q_reserved q) (v, n)). transitivity q2; [done|].
      apply (rtc_l _ q2 q3); [by apply (step_reject q2 [] (q_reserved q) (v, n))|].
      eapply rtc_l; [by apply (step_give_up q3 [] (q_rejected q) (v, n))|].
      apply rtc_once. by apply step_set_failed.
  - intros [= <- <-]. split_and!; [|by rewrite app_nil_r|done].
    eapply rtc_l; [by apply step_check|]. eapply rtc_l.
    + by apply (step_refuse (q_check q (v, n)) [] (q_checked q) (v, n)).
    + apply rtc_once. by apply step_set_failed.
Qed.

Lemma recv_timeout_steps q q' r :
  q.(q_open) = true → q.(q_receiving) = false → q.(q_taken) = None → recv_timeout q = (q', r) →
  rtc queue_step q q' ∧
  q'.(q_delivered) = q.(q_delivered) ++ (match r with Some v => [v] | None => [] end) ∧
  q'.(q_open) = true ∧ q'.(q_receiving) = false ∧ q'.(q_taken) = None.
Proof.
  unfold recv_timeout. intros Ho Hr Ht. destruct (q_failed q) eqn:Ef.
  { intros [= <- <-]. by rewrite app_nil_r. }
  assert (H1 : rtc queue_step q (q_receive q true)) by (by apply rtc_once, step_receive).
  cbv zeta. cbn [q_channel q_receive].
  destruct (q_channel q) as [|e channel] eqn:Ec.
  { intros [= <- <-]. rewrite app_nil_r. split_and!; try done.
    eapply rtc_r; [done|]. by apply step_timeout. }
  intros [= <- <-]. split_and!; try done. transitivity (q_receive q true); [done|].
  eapply rtc_l; [by apply step_take|]. eapply rtc_l.
  - by apply step_deliver.
  - apply rtc_once. by apply (step_drop _ [] (q_dropping q) e).
Qed.

End queue.
Arguments queue_state T : clear implicits.
