(* ===== verification/LineDecoder.v ===== *)
(** * The output line decoder

    Models [crates/bastet-core/src/process_output.rs]: [LineDecoder], which cuts
    an adapter's output into UTF-8 lines of bounded length, and the reader loop
    [read_stdout] that feeds it.

    The sink is a callback that answers whether to go on; as its answer may
    depend on everything it has received, it is a parameter [sink] applied to
    the list of the events so far, the last one being the current. *)
From S2P Require Import Prelude.

Notation byte := ascii.

Definition MAX_LINE_BYTES : Z := 8 * 1024 * 1024.

Definition newline : byte := ascii_of_N 10.
Definition carriage_return : byte := ascii_of_N 13.

(** [Result<String, ()>] *)
Inductive event := Line (line : list byte) | Failure.

(** ** UTF-8

    [String::from_utf8] accepts the well-formed byte sequences of the Unicode
    standard. *)
Definition in_range (lo hi : N) (b : byte) : bool :=
  let n := N_of_ascii b in ((lo <=? n) && (n <=? hi))%N.
Definition continuation : byte → bool := in_range 0x80 0xBF.

(** The admitted second bytes of the three- and four-byte sequences. *)
Definition second3 (b0 b1 : byte) : bool :=
  if in_range 0xE0 0xE0 b0 then in_range 0xA0 0xBF b1
  else if in_range 0xED 0xED b0 then in_range 0x80 0x9F b1
  else in_range 0xE1 0xEF b0 && continuation b1.
Definition second4 (b0 b1 : byte) : bool :=
  if in_range 0xF0 0xF0 b0 then in_range 0x90 0xBF b1
  else if in_range 0xF4 0xF4 b0 then in_range 0x80 0x8F b1
  else in_range 0xF1 0xF3 b0 && continuation b1.

Fixpoint from_utf8 (s : list byte) : bool :=
  match s with
  | [] => true
  | b0 :: s1 =>
      if in_range 0x00 0x7F b0 then from_utf8 s1 else
      match s1 with
      | [] => false
      | b1 :: s2 =>
          if in_range 0xC2 0xDF b0 then continuation b1 && from_utf8 s2 else
          match s2 with
          | [] => false
          | b2 :: s3 =>
              if second3 b0 b1 then continuation b2 && from_utf8 s3 else
              match s3 with
              | [] => false
              | b3 :: s4 =>
                  second4 b0 b1 && continuation b2 && continuation b3 && from_utf8 s4
              end
          end
      end
  end.

Section decoder.
Context (sink : list event → bool).

(** The decoder's buffer, what the sink has received, and the answer. *)
Record decoded := {
  d_partial : list byte;
  d_events : list event;
  d_continue : bool;
}.

(** [sink(event)] *)
Definition call_sink (partial : list byte) (events : list event) (e : event) : decoded :=
  {| d_partial := partial; d_events := events ++ [e]; d_continue := sink (events ++ [e]) |}.
(** [let _ = sink(Err(())); return false;] *)
Definition fail_sink (partial : list byte) (events : list event) : decoded :=
  {| d_partial := partial; d_events := events ++ [Failure]; d_continue := false |}.

(** [if newline && self.partial.last() == Some(&b'\r') { self.partial.pop(); }] *)
Definition strip_cr (partial : list byte) : list byte :=
  if bool_decide (last partial = Some carriage_return) then removelast partial else partial.

Definition emit (partial : list byte) (events : list event) (with_newline : bool) : decoded :=
  let line := if with_newline then strip_cr partial else partial in
  if from_utf8 line then call_sink [] events (Line line) else fail_sink [] events.

Definition too_long (partial : list byte) : bool :=
  (MAX_LINE_BYTES <? Z.of_nat (length partial))%Z.

(** [bytes[start..].iter().position(|byte| *byte == b'\n')], with the slices
    before and after the newline. *)
Fixpoint split_newline (bytes : list byte) : option (list byte * list byte) :=
  match bytes with
  | [] => None
  | b :: rest =>
      if bool_decide (b = newline) then Some ([], rest) else
      match split_newline rest with
      | Some (line, rest') => Some (b :: line, rest')
      | None => None
      end
  end.

(** The [while let] loop of [push] and what follows it. *)
Fixpoint push_loop (fuel : nat) (partial : list byte) (events : list event) (bytes : list byte)
    : outcome False decoded :=
  match fuel with
  | O => Diverge
  | S fuel =>
      match split_newline bytes with
      | Some (line, rest) =>
          let partial := partial ++ line in
          if too_long partial then Ok (fail_sink partial events) else
          let d := emit partial events true in
          if d.(d_continue) then push_loop fuel d.(d_partial) d.(d_events) rest else Ok d
      | None =>
          let partial := partial ++ bytes in
          if too_long partial then Ok (fail_sink partial events)
          else Ok {| d_partial := partial; d_events := events; d_continue := true |}
      end
  end.

(** Every iteration consumes a newline. *)
Definition push (partial : list byte) (events : list event) (bytes : list byte)
    : outcome False decoded :=
  push_loop (S (length bytes)) partial events bytes.

Definition finish (partial : list byte) (events : list event) : decoded :=
  if bool_decide (partial = [])
  then {| d_partial := partial; d_events := events; d_continue := true |}
  else emit partial events false.

(** ** The reader loop

    One iteration of the loop of [read_stdout] observes the stop flag up to
    three times and asks the operating system for the available bytes and for a
    read; a [tick] holds what it is answered.  A read returns some of the
    available bytes, at most a chunk of 8 KiB; the model admits any number. *)
Inductive read_result :=
| ReadBytes (bytes : list byte)       (* Ok(read), [] for Ok(0) *)
| WouldBlock | Interrupted | ReadError.
Inductive availability :=
| Closed                              (* Ok(None) *)
| Available (n : nat)                 (* Ok(Some(n)) *)
| AvailableError.
Record tick := {
  t_stopped_first : bool;             (* the load at the head of the loop *)
  t_available : availability;
  t_stopped_second : bool;            (* the load before the read, or before finishing *)
  t_read : read_result;
  t_stopped_third : bool;             (* the load after the read *)
}.

(** What is left when the loop has returned ([inr]) or has gone through the
    observations it was given ([inl], with the decoder's buffer). *)
Fixpoint read_stdout (partial : list byte) (events : list event) (ticks : list tick)
    : outcome False (list byte * list event + list event) :=
  match ticks with
  | [] => Ok (inl (partial, events))
  | t :: ticks =>
      if t.(t_stopped_first) then Ok (inr events) else
      match t.(t_available) with
      | Closed =>
          if t.(t_stopped_second) then Ok (inr events)
          else Ok (inr (finish partial events).(d_events))
      | Available O => read_stdout partial events ticks
      | Available (S _) =>
          if t.(t_stopped_second) then Ok (inr events) else
          match t.(t_read) with
          | ReadBytes [] =>
              if t.(t_stopped_third) then Ok (inr events)
              else Ok (inr (finish partial events).(d_events))
          | ReadBytes bytes =>
              if t.(t_stopped_third) then Ok (inr events) else
              let? d := push partial events bytes in
              if d.(d_continue) then read_stdout d.(d_partial) d.(d_events) ticks
              else Ok (inr d.(d_events))
          | WouldBlock | Interrupted => read_stdout partial events ticks
          | ReadError => Ok (inr (events ++ [Failure]))
          end
      | AvailableError => Ok (inr (events ++ [Failure]))
      end
  end.

(** ** Specification

    The decoder seen one byte at a time. *)
Definition feed (d : decoded) (b : byte) : decoded :=
  if negb d.(d_continue) then d else
  if bool_decide (b = newline) then emit d.(d_partial) d.(d_events) true
  else let partial := d.(d_partial) ++ [b] in
       if too_long partial then fail_sink partial d.(d_events)
       else {| d_partial := partial; d_events := d.(d_events); d_continue := true |}.

Definition feed_all (d : decoded) (bytes : list byte) : decoded := fold_left feed bytes d.

Definition running (partial : list byte) (events : list event) : decoded :=
  {| d_partial := partial; d_events := events; d_continue := true |}.

(** Decoders that agree on what can still be observed: after a stop the buffer
    is dropped with the reader. *)
Definition same_decoding (d d' : decoded) : Prop :=
  d.(d_events) = d'.(d_events) ∧ d.(d_continue) = d'.(d_continue) ∧
  (d.(d_continue) = true → d.(d_partial) = d'.(d_partial)).

(** The chunks of a schedule in which nobody stops the reader, up to the end. *)
Definition undisturbed (t : tick) : Prop :=
  t.(t_stopped_first) = false ∧ t.(t_stopped_second) = false ∧ t.(t_stopped_third) = false ∧
  t.(t_available) ≠ Closed ∧ t.(t_available) ≠ AvailableError ∧
  t.(t_read) ≠ ReadBytes [] ∧ t.(t_read) ≠ ReadError.
Definition tick_bytes (t : tick) : list byte :=
  match t.(t_available), t.(t_read) with
  | Available (S _), ReadBytes bytes => bytes
  | _, _ => []
  end.

(** What every decoder state satisfies. *)
Definition line_ok (e : event) : Prop :=
  match e with
  | Line line => from_utf8 line = true ∧ newline ∉ line ∧ (Z.of_nat (length line) ≤ MAX_LINE_BYTES)%Z
  | Failure => True
  end.

Definition decoder_inv (d : decoded) : Prop :=
  Forall line_ok d.(d_events) ∧
  (d.(d_continue) = true → too_long d.(d_partial) = false ∧ newline ∉ d.(d_partial)).

(** Lines that the decoder hands over as they were written. *)
Definition plain_line (line : list byte) : Prop :=
  newline ∉ line ∧ too_long line = false ∧ from_utf8 line = true ∧
  last line ≠ Some carriage_return.

(** ** Lemmas *)

#[export] Instance same_decoding_equiv : Equivalence same_decoding.
Proof.
  split.
  - by intros d.
  - intros d d' (He & Hc & Hp). split_and!; [done..|]. intros. symmetry. apply Hp. by rewrite Hc.
  - intros d1 d2 d3 (He & Hc & Hp) (He' & Hc' & Hq). split_and!; [by rewrite He|by rewrite Hc|].
    intros E. rewrite Hp by done. apply Hq. by rewrite <- Hc.
Qed.

#[export] Instance feed_proper : Proper (same_decoding ==> (=) ==> same_decoding) feed.
Proof.
  intros d d' (He & Hc & Hp) b ? <-. unfold feed. rewrite <- Hc, <- He.
  destruct (d_continue d) eqn:E; cbn; [|split_and!; [done|congruence|congruence]].
  by rewrite <- (Hp eq_refl).
Qed.

#[export] Instance feed_all_proper : Proper (same_decoding ==> (=) ==> same_decoding) feed_all.
Proof.
  intros d d' Hd bytes ? <-. revert d d' Hd. induction bytes as [|b bytes IH]; intros; [done|].
  cbn. apply IH. by rewrite Hd.
Qed.

Lemma feed_stopped d bytes : d.(d_continue) = false → feed_all d bytes = d.
Proof.
  intros Hd. unfold feed_all. induction bytes as [|b bytes IH]; cbn; [done|].
  unfold feed at 2. by rewrite Hd.
Qed.

Lemma feed_all_app d l1 l2 : feed_all d (l1 ++ l2) = feed_all (feed_all d l1) l2.
Proof. apply fold_left_app. Qed.

Lemma too_long_app l1 l2 : too_long l1 = true → too_long (l1 ++ l2) = true.
Proof. unfold too_long. rewrite length_app, !Z.ltb_lt. lia. Qed.

Lemma split_newline_Some bytes line rest :
  split_newline bytes = Some (line, rest) ↔ bytes = line ++ newline :: rest ∧ newline ∉ line.
Proof.
  revert line. induction bytes as [|b bytes IH]; intros line; cbn.
  - split; [done|]. intros [E _]. by destruct line.
  - case_bool_decide as Hb.
    + subst b. split; [intros [= <- <-]; split; [done|set_solver]|].
      intros [E Hn]. destruct line as [|c line]; [by simplify_eq/=|].
      simplify_eq/=. destruct Hn. by left.
    + destruct (split_newline bytes) as [[line' rest']|].
      * split.
        -- intros [= <- <-]. destruct (proj1 (IH line')) as [-> Hn]; [done|].
           split; [done|]. by apply not_elem_of_cons.
        -- intros [E Hn]. destruct line as [|c line]; simplify_eq/=.
           rewrite not_elem_of_cons in Hn.
           by pose proof (proj2 (IH line) (conj eq_refl (proj2 Hn))) as [= -> ->].
      * split; [done|]. intros [E Hn]. destruct line as [|c line]; simplify_eq/=.
        rewrite not_elem_of_cons in Hn.
        by pose proof (proj2 (IH line) (conj eq_refl (proj2 Hn))).
Qed.

Lemma split_newline_None bytes : split_newline bytes = None ↔ newline ∉ bytes.
Proof.
  induction bytes as [|b bytes IH]; cbn; [split; [set_solver|done]|].
  rewrite not_elem_of_cons. case_bool_decide; [split; [done|intros [? _]; congruence]|].
  destruct (split_newline bytes) as [[? ?]|]; split; try done; [|naive_solver].
  intros [_ Hn]. by apply IH in Hn.
Qed.

(** A newline-free stretch extends the buffer, or fails it once for all. *)
Lemma feed_stretch partial events line :
  newline ∉ line → too_long partial = false →
  same_decoding (feed_all (running partial events) line)
    (if too_long (partial ++ line) then fail_sink (partial ++ line) events
     else running (partial ++ line) events).
Proof.
  revert partial. induction line as [|b line IH]; intros partial Hn Hl.
  - cbn. by rewrite app_nil_r, Hl.
  - apply not_elem_of_cons in Hn as [Hb Hn]. cbn [feed_all fold_left].
    unfold feed at 2. cbn [negb d_continue running d_partial d_events].
    rewrite bool_decide_false by done. cbv zeta.
    replace (partial ++ b :: line) with ((partial ++ [b]) ++ line) by by rewrite <- app_assoc.
    destruct (too_long (partial ++ [b])) eqn:Eb.
    + fold (feed_all (fail_sink (partial ++ [b]) events) line).
      rewrite feed_stopped, (too_long_app _ _ Eb) by done. by split_and!.
    + by apply IH.
Qed.

Lemma resume (m : outcome False decoded) a b rest :
  same_decoding a b → (∃ d, m = Ok d ∧ same_decoding (feed_all b rest) d) →
  ∃ d, m = Ok d ∧ same_decoding (feed_all a rest) d.
Proof. intros Hab (d & Hm & Hd). exists d. split; [done|]. by rewrite Hab. Qed.

(** [push] is the byte-wise decoder, whatever the size of the chunk. *)
Lemma push_loop_feed fuel partial events bytes :
  length bytes < fuel → too_long partial = false →
  ∃ d, push_loop fuel partial events bytes = Ok d ∧
       same_decoding (feed_all (running partial events) bytes) d.
Proof.
  revert partial events bytes. induction fuel as [|fuel IH]; intros partial events bytes Hf Hl; [lia|].
  cbn [push_loop]. destruct (split_newline bytes) as [[line rest]|] eqn:Es.
  - apply split_newline_Some in Es as [-> Hn]. cbv zeta.
    rewrite feed_all_app. apply (resume _ _ _ _ (feed_stretch partial events line Hn Hl)).
    destruct (too_long (partial ++ line)) eqn:Et.
    + eexists. split; [done|]. by rewrite feed_stopped.
    + cbn [feed_all fold_left]. fold (feed_all (feed (running (partial ++ line) events) newline) rest).
      unfold feed. cbn [negb d_continue running d_partial d_events].
      rewrite bool_decide_true by done. destruct (emit (partial ++ line) events true) as [p ev c] eqn:Ee.
      cbn [d_continue d_partial d_events]. destruct c.
      * assert (p = []) as ->.
        { unfold emit, call_sink, fail_sink in Ee. by destruct (from_utf8 _); simplify_eq. }
        apply IH; [|done]. rewrite length_app in Hf. cbn in Hf. lia.
      * eexists. split; [done|]. by rewrite feed_stopped.
  - apply split_newline_None in Es. cbv zeta. pose proof (feed_stretch partial events bytes Es Hl).
    destruct (too_long (partial ++ bytes)); by eexists.
Qed.

Lemma push_feed partial events bytes :
  too_long partial = false →
  ∃ d, push partial events bytes = Ok d ∧
       same_decoding (feed_all (running partial events) bytes) d.
Proof. apply push_loop_feed. lia. Qed.

Lemma strip_cr_sub partial : strip_cr partial `sublist_of` partial.
Proof.
  unfold strip_cr. case_bool_decide as Hl; [|done].
  apply last_Some in Hl as [l ->]. rewrite removelast_last. by apply sublist_inserts_r.
Qed.

Lemma emit_inv partial events nl :
  Forall line_ok events → too_long partial = false → newline ∉ partial →
  decoder_inv (emit partial events nl).
Proof.
  intros He Hl Hn. unfold emit. cbv zeta.
  assert (Hs : (if nl then strip_cr partial else partial) `sublist_of` partial)
    by (destruct nl; [apply strip_cr_sub|done]).
  destruct (from_utf8 _) eqn:Eu; split; cbn; try (by intros; split; [done|set_solver]);
    apply Forall_app; (split; [done|]); apply Forall_singleton; [|done].
  unfold line_ok. split_and!; [done| |].
  - intros Hin. apply Hn. by eapply elem_of_sublist.
  - apply sublist_length in Hs. unfold too_long in Hl. apply Z.ltb_ge in Hl. lia.
Qed.

Lemma feed_inv d b : decoder_inv d → decoder_inv (feed d b).
Proof.
  intros [He Hp]. unfold feed. destruct (d_continue d) eqn:Ec; cbn [negb]; [|by split; [|rewrite Ec]].
  destruct (Hp eq_refl) as [Hl Hn]. case_bool_decide as Hb; [by apply emit_inv|].
  destruct (too_long (d_partial d ++ [b])) eqn:Et; split; cbn; try done.
  - apply Forall_app. split; [done|]. by apply Forall_singleton.
  - split; [done|]. set_solver.
Qed.

Lemma feed_all_inv d bytes : decoder_inv d → decoder_inv (feed_all d bytes).
Proof.
  revert d. induction bytes as [|b bytes IH]; intros d Hd; [done|]. cbn. by apply IH, feed_inv.
Qed.

(** A line followed by a newline reaches the sink as it was written, when the
    sink goes on. *)
Lemma feed_line events line :
  newline ∉ line → too_long line = false → from_utf8 line = true →
  last line ≠ Some carriage_return → sink (events ++ [Line line]) = true →
  same_decoding (feed_all (running [] events) (line ++ [newline])) (running [] (events ++ [Line line])).
Proof.
  intros Hn Hl Hu Hcr Hs. rewrite feed_all_app, (feed_stretch [] events line) by done. cbn [app].
  rewrite Hl. cbn [feed_all fold_left]. unfold feed. cbn [negb d_continue d_partial d_events running].
  rewrite bool_decide_true by done. unfold emit, strip_cr. rewrite bool_decide_false by done.
  cbn. rewrite Hu. unfold call_sink. by rewrite Hs.
Qed.

(** The whole loop on a schedule: it sees the concatenation of the reads. *)
Lemma read_stdout_feed partial events ticks :
  too_long partial = false → newline ∉ partial → Forall line_ok events → Forall undisturbed ticks →
  let d := feed_all (running partial events) (concat (map tick_bytes ticks)) in
  read_stdout partial events ticks =
  Ok (if d.(d_continue) then inl (d.(d_partial), d.(d_events)) else inr d.(d_events)).
Proof.
  intros Hl Hn He Ht. revert partial events Hl Hn He.
  induction Ht as [|t ticks Hu _ IH]; intros partial events Hl Hn He; cbn zeta; [done|].
  destruct Hu as (H1 & H2 & H3 & Ha & Hae & Hr & Hre). cbn [read_stdout map concat].
  rewrite H1, H2, H3. remember (tick_bytes t) as chunk eqn:Echunk. unfold tick_bytes in Echunk.
  destruct (t_available t) as [|[|n]|]; try done; [subst chunk; by apply IH|].
  destruct (t_read t) as [[|b bytes]| | |]; try done; subst chunk; try by apply IH.
  destruct (push_feed partial events (b :: bytes) Hl) as (d & -> & Hd). cbn [obind].
  rewrite feed_all_app.
  assert (Hinv : decoder_inv (feed_all (running partial events) (b :: bytes)))
    by (apply feed_all_inv; split; [done|]; intros; split; done).
  destruct (feed_all (running partial events) (b :: bytes)) as [p ev c].
  destruct Hd as (Hde & Hdc & Hdp), Hinv as [Hi1 Hi2]; cbn in Hde, Hdc, Hdp, Hi1, Hi2.
  rewrite <- Hde, <- Hdc. destruct c.
  - destruct (Hi2 eq_refl) as [? ?]. rewrite <- (Hdp eq_refl). by apply IH.
  - by rewrite feed_stopped.
Qed.

(** A schedule is followed by another. *)
Lemma read_stdout_app partial events ticks more :
  read_stdout partial events (ticks ++ more) =
  (let? r := read_stdout partial events ticks in
   match r with inl (p, ev) => read_stdout p ev more | inr ev => Ok (inr ev) end).
Proof.
  revert partial events. induction ticks as [|t ticks IH]; intros partial events; [done|].
  cbn [app read_stdout]. destruct (t_stopped_first t); [done|].
  destruct (t_available t) as [|[|n]|]; [by destruct (t_stopped_second t)|apply IH| |done].
  destruct (t_stopped_second t); [done|].
  destruct (t_read t) as [[|b bytes]| | |]; [by destruct (t_stopped_third t)| |apply IH..|done].
  destruct (t_stopped_third t); [done|]. rewrite obind_assoc.
  destruct (push partial events (b :: bytes)) as [d| | |]; cbn [obind]; try done.
  by destruct (d_continue d).
Qed.

(** Whatever the schedule, the reader survives it, and every line it has handed
    over is sound. *)
Lemma read_stdout_lines partial events ticks :
  too_long partial = false → newline ∉ partial → Forall line_ok events →
  ∃ r, read_stdout partial events ticks = Ok r ∧
       Forall line_ok (match r with inl (_, ev) => ev | inr ev => ev end).
Proof.
  intros Hl Hn He. revert partial events Hl Hn He.
  induction ticks as [|t ticks IH]; intros partial events Hl Hn He; cbn [read_stdout]; [by eauto|].
  assert (Hfin : Forall line_ok (finish partial events).(d_events)).
  { unfold finish. case_bool_decide; [done|]. by apply emit_inv. }
  assert (Hfail : Forall line_ok (events ++ [Failure])) by (apply Forall_app; split; [done|by constructor]).
  destruct (t_stopped_first t); [by eauto|].
  destruct (t_available t) as [|[|n]|]; [destruct (t_stopped_second t); by eauto|by apply IH| |by eauto].
  destruct (t_stopped_second t); [by eauto|].
  destruct (t_read t) as [[|b bytes]| | |]; [destruct (t_stopped_third t); by eauto| |by apply IH..|by eauto].
  destruct (t_stopped_third t); [by eauto|].
  destruct (push_feed partial events (b :: bytes) Hl) as (d & -> & Hd). cbn [obind].
  destruct (feed_all_inv (running partial events) (b :: bytes)) as [Hi1 Hi2]; [done|].
  destruct Hd as (Hde & Hdc & Hdp). rewrite Hde in Hi1. destruct (d_continue d) eqn:Ec; [|by eauto].
  destruct (Hi2 Hdc) as [? ?]. rewrite (Hdp Hdc) in *. by apply IH.
Qed.

(** Such lines, each followed by a newline, all reach a sink that goes on. *)
Lemma feed_lines events lines :
  (∀ received, sink received = true) → Forall plain_line lines →
  same_decoding (feed_all (running [] events) (concat (map (λ line, line ++ [newline]) lines)))
    (running [] (events ++ map Line lines)).
Proof.
  intros Hs Hl. revert events. induction Hl as [|line lines (Hn & Ht & Hu & Hc) _ IH]; intros events.
  - cbn. by rewrite app_nil_r.
  - cbn [map concat]. rewrite feed_all_app, (feed_line events line), IH by auto.
    by rewrite <- app_assoc.
Qed.

End decoder.
