(* ===== verification/InputWriter.v ===== *)
(** * Writes to an adapter's input

    Models [crates/bastet-core/src/process_input.rs]: the bounded encoding of
    JSON lines, the worker that writes one frame to the child's pipe, and the
    single-flight writer that hands frames to it under a deadline and a
    cancellation token.

    What the clock, the token, the channel and the pipe answer is a list of
    observations, one per iteration of the loop that asks; a loop that outlives
    its observations is [Diverge], "still waiting".  The serializer is a
    parameter: the buffers [serde_json] hands to its writer. *)
From S2P Require Import Prelude.

Notation byte := ascii.

Definition MAX_INPUT_FRAME_BYTES : Z := 8 * 1024 * 1024.

(** [io::ErrorKind], as far as it is distinguished. *)
Inductive io_error :=
| Interrupted | TimedOut | BrokenPipe | InvalidInput | WriteZero | OutOfMemory | InvalidData
| OtherError.

Definition oversized_error : io_error := InvalidInput.
Definition timed_out_error : io_error := TimedOut.
Definition unusable_error : io_error := BrokenPipe.

Definition len {A} (l : list A) : Z := Z.of_nat (length l).

(** ** Bounded encoding *)

Record BoundedVec := {
  bv_bytes : list byte;
  bv_limit : Z;
  bv_capacity : Z;
}.

Definition bounded_new (limit : Z) : BoundedVec :=
  {| bv_bytes := []; bv_limit := limit; bv_capacity := 0 |}.

Section encoding.
(** [try_reserve_exact] asks the allocator. *)
Context (allocates : Z → bool).

Definition grown_capacity (self : BoundedVec) (new_len : Z) : Z :=
  Z.min (Z.max (Z.min (Z.max self.(bv_capacity) 1024 * 2) USIZE_MAX) new_len) self.(bv_limit).

(** [Write::write] for [BoundedVec]; it takes the whole buffer or fails. *)
Definition bounded_write (self : BoundedVec) (buffer : list byte) : outcome io_error BoundedVec :=
  let? new_len :=
    ok_or (match checked_add USIZE_MAX (len self.(bv_bytes)) (len buffer) with
           | Some size => if (size <=? self.(bv_limit))%Z then Some size else None
           | None => None
           end) oversized_error in
  let? capacity :=
    if (self.(bv_capacity) <? new_len)%Z then
      let capacity := grown_capacity self new_len in
      if allocates capacity then Ok capacity else Err OutOfMemory
    else Ok self.(bv_capacity) in
  Ok {| bv_bytes := self.(bv_bytes) ++ buffer; bv_limit := self.(bv_limit);
        bv_capacity := capacity |}.

(** [write_all] does not call [write] for an empty buffer. *)
Definition write_all (self : BoundedVec) (buffer : list byte) : outcome io_error BoundedVec :=
  match buffer with [] => Ok self | _ => bounded_write self buffer end.

(** [serde_json::to_writer]: the buffers in order, up to the first error, or an
    error of the value's own serialization after some buffers. *)
Record serialization := {
  sz_buffers : list (list byte);
  sz_error : option io_error;
}.

Definition to_writer (sink : BoundedVec) (value : serialization) : outcome io_error BoundedVec :=
  let? sink := fold_try write_all sink value.(sz_buffers) in
  match value.(sz_error) with Some e => Err e | None => Ok sink end.

(** [json_error] keeps the kind of an I/O error. *)
Definition json_error (e : io_error) : io_error :=
  match e with InvalidInput => oversized_error | kind => kind end.

Definition encode_json_line (value : serialization) : outcome io_error (list byte) :=
  let sink := bounded_new (MAX_INPUT_FRAME_BYTES - 1) in
  let? sink := map_err json_error (to_writer sink value) in
  let sink := {| bv_bytes := sink.(bv_bytes); bv_limit := MAX_INPUT_FRAME_BYTES;
                 bv_capacity := sink.(bv_capacity) |} in
  let? sink := write_all sink [ascii_of_N 10] in
  Ok sink.(bv_bytes).

End encoding.

(** ** The worker *)

Inductive pipe_result :=
| Written (n : nat)               (* Ok(n) *)
| WriteInterrupted | WriteWouldBlock
| WriteError (e : io_error).

(** One iteration of the loop of [write_one]. *)
Record write_tick := {
  w_stopped : bool;
  w_past_deadline : bool;
  w_result : pipe_result;
}.

(** [written] are the bytes the pipe has taken so far, [rest] is
    [frame[offset..]]; [late] is the clock's answer after the loop.  Returns the
    bytes the pipe took next to the result. *)
Fixpoint write_loop (written rest : list byte) (late : bool) (ticks : list write_tick)
    : list byte * outcome io_error unit :=
  match rest with
  | [] => (written, if late then Err timed_out_error else Ok tt)
  | _ =>
      match ticks with
      | [] => (written, Diverge)
      | t :: ticks =>
          if t.(w_stopped) then (written, Err unusable_error) else
          if t.(w_past_deadline) then (written, Err timed_out_error) else
          match t.(w_result) with
          | Written O => (written, Err WriteZero)
          | Written n => write_loop (written ++ take n rest) (drop n rest) late ticks
          | WriteInterrupted | WriteWouldBlock => write_loop written rest late ticks
          | WriteError e => (written, Err e)
          end
      end
  end.
Definition write_one (frame : list byte) (late : bool) (ticks : list write_tick)
    : list byte * outcome io_error unit := write_loop [] frame late ticks.

(** [write_stdin]: one request after the other until an error, a stop, or the
    end of the channel.  A request comes with its frame and what its write
    observes; the results are sent back. *)
Record write_request := {
  wr_frame : list byte;
  wr_late : bool;
  wr_ticks : list write_tick;
  wr_stopped_after : bool;
}.
Fixpoint write_stdin (pipe : list byte) (requests : list write_request)
    : list byte * list (outcome io_error unit) :=
  match requests with
  | [] => (pipe, [])
  | r :: requests =>
      let '(taken, result) := write_one r.(wr_frame) r.(wr_late) r.(wr_ticks) in
      if negb (is_ok result) || r.(wr_stopped_after) then (pipe ++ taken, [result])
      else let '(pipe, results) := write_stdin (pipe ++ taken) requests in
           (pipe, result :: results)
  end.

(** ** The writer *)

Record ProcessInputWriter := {
  pw_open : bool;                  (* [sender] and [stdin] are still there *)
  pw_poisoned : bool;
}.

Definition writer_close (self : ProcessInputWriter) : ProcessInputWriter :=
  {| pw_open := false; pw_poisoned := self.(pw_poisoned) |}.
Definition poison_and_close (self : ProcessInputWriter) : ProcessInputWriter :=
  writer_close {| pw_open := self.(pw_open); pw_poisoned := true |}.

Inductive try_send_result := Sent | Full | SendDisconnected.

(** One iteration of the loop that hands the frame over. *)
Record send_tick := {
  s_cancelled : bool;
  s_past_deadline : bool;
  s_sent : try_send_result;
  s_past_deadline_again : bool;
}.

Inductive recv_result := Received (result : outcome io_error unit) | RecvTimeout | RecvDisconnected.

(** One iteration of the loop that awaits the worker's answer. *)
Record recv_tick := {
  r_cancelled : bool;
  r_received : recv_result;
  r_before_deadline : bool;
}.

(** What [write_frame_cancellable] observes. *)
Record write_schedule := {
  ws_cancelled : bool;
  ws_past_deadline : bool;
  ws_send : list send_tick;
  ws_recv : list recv_tick;
}.

Notation attempt := (ProcessInputWriter * outcome io_error unit)%type.

Definition fail_poisoned (self : ProcessInputWriter) (e : io_error) : attempt :=
  (poison_and_close self, Err e).

Fixpoint await_result (self : ProcessInputWriter) (ticks : list recv_tick) : attempt :=
  match ticks with
  | [] => (self, Diverge)
  | t :: ticks =>
      if t.(r_cancelled) then fail_poisoned self Interrupted else
      match t.(r_received) with
      | Received (Ok _) => (self, Ok tt)
      | Received (Err e) => fail_poisoned self e
      | Received r => (self, r)
      | RecvTimeout =>
          if t.(r_before_deadline) then await_result self ticks
          else fail_poisoned self timed_out_error
      | RecvDisconnected => fail_poisoned self unusable_error
      end
  end.

Fixpoint hand_over (self : ProcessInputWriter) (recv : list recv_tick) (ticks : list send_tick)
    : attempt :=
  match ticks with
  | [] => (self, Diverge)
  | t :: ticks =>
      if t.(s_cancelled) then fail_poisoned self Interrupted else
      if t.(s_past_deadline) then fail_poisoned self timed_out_error else
      match t.(s_sent) with
      | Sent => await_result self recv
      | Full =>
          if t.(s_past_deadline_again) then fail_poisoned self timed_out_error
          else hand_over self recv ticks
      | SendDisconnected => fail_poisoned self unusable_error
      end
  end.

Definition write_frame_cancellable (self : ProcessInputWriter) (frame : list byte)
    (s : write_schedule) : attempt :=
  if self.(pw_poisoned) || negb self.(pw_open) then (self, Err unusable_error) else
  if (MAX_INPUT_FRAME_BYTES <? len frame)%Z then (self, Err oversized_error) else
  if s.(ws_cancelled) then fail_poisoned self Interrupted else
  if s.(ws_past_deadline) then fail_poisoned self timed_out_error else
  hand_over self s.(ws_recv) s.(ws_send).

(** ** Lemmas *)

Lemma bounded_write_ok allocates v buffer v' :
  (bv_limit v ≤ USIZE_MAX)%Z →
  bounded_write allocates v buffer = Ok v' →
  v'.(bv_bytes) = v.(bv_bytes) ++ buffer ∧ v'.(bv_limit) = v.(bv_limit) ∧
  (len v'.(bv_bytes) ≤ v.(bv_limit))%Z ∧
  (v.(bv_capacity) ≤ v.(bv_limit) → v'.(bv_capacity) ≤ v.(bv_limit))%Z.
Proof.
  intros Hlim. unfold bounded_write. intros E. ok_inv.
  match goal with H : match checked_add _ _ _ with _ => _ end = Some _ |- _ => rename H into Hn end.
  destruct (checked_add _ _ _) as [size|] eqn:Ec; [|done].
  destruct (Z.leb_spec size (bv_limit v)); [|done]. simplify_eq. unfold checked_add in Ec.
  case_bool_decide; simplify_eq. cbn. unfold len in *. rewrite length_app, Nat2Z.inj_add.
  split_and!; [done|done|lia|]. intros.
  match goal with H : (if _ then _ else _) = Ok ?c |- (?c ≤ _)%Z => revert H end.
  destruct (_ <? _)%Z; [|intros [= <-]; lia]. cbv zeta. destruct (allocates _); [|done].
  intros [= <-]. unfold grown_capacity. lia.
Qed.

Lemma bounded_write_fits allocates v buffer :
  (∀ c, allocates c = true) → (bv_limit v ≤ USIZE_MAX)%Z →
  (len v.(bv_bytes) + len buffer ≤ bv_limit v)%Z ↔ is_ok (bounded_write allocates v buffer) = true.
Proof.
  intros Hal Hlim. unfold bounded_write, checked_add. case_bool_decide as Hu.
  - destruct (Z.leb_spec (len (bv_bytes v) + len buffer) (bv_limit v)); cbn; [|split; [lia|done]].
    destruct (_ <? _)%Z; cbv zeta; rewrite ?Hal; done.
  - cbn. split; [lia|done].
Qed.

Lemma bounded_write_returns allocates v buffer : returns (bounded_write allocates v buffer).
Proof. unfold bounded_write. cbv zeta. solve_returns. Qed.

Lemma fold_writes allocates v buffers :
  (∀ c, allocates c = true) → (bv_limit v ≤ USIZE_MAX)%Z → (len v.(bv_bytes) ≤ bv_limit v)%Z →
  (len (v.(bv_bytes) ++ concat buffers) ≤ v.(bv_limit))%Z ∧
    (∃ cap, fold_try (write_all allocates) v buffers =
       Ok {| bv_bytes := v.(bv_bytes) ++ concat buffers; bv_limit := v.(bv_limit);
             bv_capacity := cap |}) ∨
  (v.(bv_limit) < len (v.(bv_bytes) ++ concat buffers))%Z ∧
    fold_try (write_all allocates) v buffers = Err oversized_error.
Proof.
  intros Hal. revert v. induction buffers as [|b buffers IH]; intros v Hlim Hlen; cbn [concat fold_try].
  - rewrite app_nil_r. left. split; [done|]. exists (bv_capacity v). by destruct v.
  - destruct b as [|c b]; [by apply IH|]. cbn [write_all].
    destruct (bounded_write allocates v (c :: b)) as [v'| | |] eqn:Ew.
    + apply bounded_write_ok in Ew as (Hb & Hl & Hle & _); [|done]. cbn [obind].
      rewrite <- Hl. rewrite app_assoc, <- Hb. apply IH; rewrite Hl; lia.
    + right. assert (e = oversized_error ∧ (bv_limit v < len (bv_bytes v) + len (c :: b))%Z) as [-> Hgt].
      { destruct (Z.lt_ge_cases (bv_limit v) (len (bv_bytes v) + len (c :: b))) as [|Hle].
        - split; [|done]. unfold bounded_write, checked_add in Ew. revert Ew.
          case_bool_decide; [|by intros [= <-]].
          destruct (Z.leb_spec (len (bv_bytes v) + len (c :: b)) (bv_limit v)); [lia|].
          by intros [= <-].
        - apply (bounded_write_fits allocates) in Hle; [|done..]. by rewrite Ew in Hle. }
      cbn. split; [|done]. revert Hgt. unfold len. rewrite length_app. cbn [length]. rewrite length_app. lia.
    + by pose proof (bounded_write_returns allocates v (c :: b)) as Hr; rewrite Ew in Hr.
    + by pose proof (bounded_write_returns allocates v (c :: b)) as Hr; rewrite Ew in Hr.
Qed.

Lemma encode_json_line_spec allocates value :
  (∀ c, allocates c = true) → value.(sz_error) = None →
  let frame := concat value.(sz_buffers) ++ [ascii_of_N 10] in
  encode_json_line allocates value =
  if (len frame <=? MAX_INPUT_FRAME_BYTES)%Z then Ok frame else Err oversized_error.
Proof.
  intros Hal Herr. cbv zeta. unfold encode_json_line, to_writer. rewrite Herr.
  destruct (fold_writes allocates (bounded_new (MAX_INPUT_FRAME_BYTES - 1)) value.(sz_buffers))
    as [[Hle [cap ->]]|[Hgt ->]]; [done|done|done| |]; cbn [bounded_new bv_bytes bv_limit app] in *.
  - cbn [obind map_err write_all bv_bytes bv_capacity].
    destruct (Z.leb_spec (len (concat value.(sz_buffers) ++ [ascii_of_N 10])) MAX_INPUT_FRAME_BYTES)
      as [Hf|Hf].
    + set (v := {| bv_bytes := _; bv_limit := _; bv_capacity := cap |}).
      assert (Hfit : is_ok (bounded_write allocates v [ascii_of_N 10]) = true).
      { apply bounded_write_fits; [done|by vm_compute|]. cbn. unfold len in *. rewrite length_app in Hf. cbn in *. lia. }
      destruct (bounded_write allocates v [ascii_of_N 10]) as [v'| | |] eqn:Ew; try done.
      apply bounded_write_ok in Ew as (Hb & _); [|by vm_compute]. cbn [obind]. by rewrite Hb.
    + unfold len in *. rewrite length_app in Hf. cbn in Hf. lia.
  - cbn [map_err obind]. destruct (Z.leb_spec (len (concat value.(sz_buffers) ++ [ascii_of_N 10])) MAX_INPUT_FRAME_BYTES)
      as [Hf|Hf]; [|done]. unfold len in *. rewrite length_app in Hf. cbn in Hf. lia.
Qed.

(** The pipe holds a prefix of the frame at every moment, all of it on success. *)
Lemma write_loop_prefix written rest late ticks w r :
  write_loop written rest late ticks = (w, r) →
  (∃ k, w = written ++ take k rest) ∧
  (is_ok r = true → w = written ++ rest ∧ late = false) ∧ r ≠ Panic.
Proof.
  revert written rest. induction ticks as [|t ticks IH]; intros written rest; destruct rest as [|b rest];
    cbn [write_loop]; try (intros [= <- <-]; split_and!; [by exists 0; rewrite take_0, app_nil_r|by destruct late|by destruct late]);
    try (intros [= <- <-]; split_and!; [by exists 0; rewrite take_0, app_nil_r|done|done]).
  - intros [= <- <-]. split_and!; [by exists 0; rewrite app_nil_r| |by destruct late].
    destruct late; [done|]. by rewrite app_nil_r.
  - intros [= <- <-]. split_and!; [by exists 0; rewrite app_nil_r| |by destruct late].
    destruct late; [done|]. by rewrite app_nil_r.
  - assert (Hstop : ∀ e, (written, Err e) = (w, r) →
      (∃ k, w = written ++ take k (b :: rest)) ∧
      (is_ok r = true → w = written ++ b :: rest ∧ late = false) ∧ r ≠ Panic).
    { intros e [= <- <-]. split_and!; [by exists 0; rewrite app_nil_r|done|done]. }
    destruct (w_stopped t); [by apply Hstop|]. destruct (w_past_deadline t); [by apply Hstop|].
    destruct (w_result t) as [[|n]| | |e]; [by apply Hstop| |by apply IH|by apply IH|by apply Hstop].
    intros Hw. apply IH in Hw as ([k ->] & Hok & Hp). split_and!; [|intros E; destruct (Hok E) as [-> ?]|done].
    + exists (S n + k). by rewrite <- app_assoc, take_take_drop.
    + by rewrite <- app_assoc, take_drop.
Qed.

(** The worker's pipe holds whole frames, in order, and at most one cut frame,
    the one whose write failed; after that nothing more is written. *)
Lemma write_stdin_frames pipe requests pipe' results :
  write_stdin pipe requests = (pipe', results) →
  ∃ n cut, pipe' = pipe ++ concat (map wr_frame (take n requests)) ++ cut ∧
    (cut = [] ∨ ∃ r k, requests !! n = Some r ∧ cut = take k r.(wr_frame) ∧
                        is_ok (default (Ok tt) (results !! n)) = false) ∧
    (∀ i, i < n → results !! i = Some (Ok tt)) ∧
    (∀ i, n < i → results !! i = None).
Proof.
  revert pipe pipe' results. induction requests as [|r requests IH]; intros pipe pipe' results.
  { cbn. intros [= <- <-]. exists 0, []. rewrite app_nil_r. split_and!; [done|by left|lia|done]. }
  cbn [write_stdin]. destruct (write_one _ _ _) as [w res] eqn:Ew.
  pose proof Ew as Hw. unfold write_one in Hw.
  apply write_loop_prefix in Hw as ([k Hk] & Hok & _). cbn [app] in Hk, Hok.
  destruct (is_ok res) eqn:Er; cbn [negb orb].
  - destruct res as [[]| | |]; try done. destruct (Hok eq_refl) as [-> _]. clear Hk.
    destruct (wr_stopped_after r).
    + intros [= <- <-]. exists 1, []. cbn. rewrite !app_nil_r.
      split_and!; [done|by left| |]; intros [|i] Hi; try lia; done.
    + destruct (write_stdin (pipe ++ wr_frame r) requests) as [p rs] eqn:Es.
      intros [= <- <-]. apply IH in Es as (n & cut & -> & Hcut & Hlt & Hgt).
      exists (S n), cut. cbn [take map concat]. rewrite <- !app_assoc. split_and!; [done| | |].
      * destruct Hcut as [?|(r' & k' & ? & ? & ?)]; [by left|right]. exists r', k'. done.
      * intros [|i] Hi; [done|]. apply Hlt. lia.
      * intros [|i] Hi; [lia|]. apply Hgt. lia.
  - intros [= <- <-]. exists 0, w. split_and!; [done| |lia|by intros [|i] Hi; [lia|]].
    right. exists r, k. by cbn.
Qed.

(** ** Poisoning *)

Definition unusable (self : ProcessInputWriter) : bool :=
  self.(pw_poisoned) || negb self.(pw_open).

Lemma await_result_poisons self ticks :
  let r := await_result self ticks in
  (r.2 = Ok tt ∧ r.1 = self) ∨ ((∃ e, r.2 = Err e) ∧ r.1 = poison_and_close self) ∨
  (returns r.2 → False).
Proof.
  cbv zeta. induction ticks as [|t ticks IH]; cbn [await_result]; [by right; right|].
  destruct (r_cancelled t); [right; left; cbn; by eauto|].
  destruct (r_received t) as [[[]| | |]| |]; cbn; eauto; try (by right; right).
  destruct (r_before_deadline t); [done|]. right; left; cbn; by eauto.
Qed.

Lemma hand_over_poisons self recv ticks :
  let r := hand_over self recv ticks in
  (r.2 = Ok tt ∧ r.1 = self) ∨ ((∃ e, r.2 = Err e) ∧ r.1 = poison_and_close self) ∨
  (returns r.2 → False).
Proof.
  cbv zeta. induction ticks as [|t ticks IH]; cbn [hand_over]; [by right; right|].
  destruct (s_cancelled t); [right; left; cbn; by eauto|].
  destruct (s_past_deadline t); [right; left; cbn; by eauto|].
  destruct (s_sent t); [apply await_result_poisons| |right; left; cbn; by eauto].
  destruct (s_past_deadline_again t); [right; left; cbn; by eauto|done].
Qed.
