(* ===== verification/WinEncoding.v ===== *)
(** * Windows launch encoding

    Models [crates/bastet-core/src/windows_launch_encoding.rs]: the quoting of a
    command line for CreateProcessW and the Unicode environment block.  Units
    are UTF-16 code units.  The specification holds the other direction: the
    documented rules by which the C runtime splits a command line, and the way
    an environment block is read. *)
From Stdlib Require Import Sorted.
From S2P Require Import Prelude.

Definition MAX_COMMAND_UNITS : Z := 32767.
Definition MAX_ENVIRONMENT_UNITS : Z := 32767.

Notation unit16 := Z.
Notation encoded := (outcome unit (list unit16)).

(** [invalid()], the only error. *)
Definition invalid {A} : outcome unit A := Err tt.

Definition append (output : list unit16) (unit : unit16) (count limit : Z) : encoded :=
  match checked_add USIZE_MAX (Z.of_nat (length output)) count with
  | Some length =>
      if (length <=? limit)%Z then Ok (output ++ repeat unit (Z.to_nat count)) else invalid
  | None => invalid
  end.

(** One iteration of the loop over the units of an argument. *)
Definition append_unit (st : list unit16 * Z) (unit : unit16) : outcome Datatypes.unit (list unit16 * Z) :=
  let '(output, slashes) := st in
  if (unit =? 0)%Z then invalid else
  if (unit =? 92)%Z then
    match checked_add USIZE_MAX slashes 1 with
    | Some slashes => Ok (output, slashes)
    | None => invalid
    end
  else
    let? count :=
      if (unit =? 34)%Z then
        match checked_mul USIZE_MAX slashes 2 with
        | Some n => match checked_add USIZE_MAX n 1 with Some n => Ok n | None => invalid end
        | None => invalid
        end
      else Ok slashes in
    let? output := append output 92 count MAX_COMMAND_UNITS in
    let? output := append output unit 1 MAX_COMMAND_UNITS in
    Ok (output, 0%Z).

Definition append_argument (output argument : list unit16) : encoded :=
  let? output := append output 32 1 MAX_COMMAND_UNITS in
  let? output := append output 34 1 MAX_COMMAND_UNITS in
  let? (output, slashes) := fold_try append_unit (output, 0%Z) argument in
  let? count := match checked_mul USIZE_MAX slashes 2 with Some n => Ok n | None => invalid end in
  let? output := append output 92 count MAX_COMMAND_UNITS in
  append output 34 1 MAX_COMMAND_UNITS.

Definition windows_command_line (executable : list unit16) (arguments : list (list unit16))
    : encoded :=
  if bool_decide (executable = []) || existsb (λ unit, (unit =? 0) || (unit =? 34))%Z executable
  then invalid else
  let? output := append [] 34 1 MAX_COMMAND_UNITS in
  let? output := fold_try (λ output unit, append output unit 1 MAX_COMMAND_UNITS) output executable in
  let? output := append output 34 1 MAX_COMMAND_UNITS in
  let? output := fold_try append_argument output arguments in
  append output 0 1 MAX_COMMAND_UNITS.

(** ** The environment block *)

Definition ascii_alphanumeric (b : ascii) : bool :=
  let n := N_of_ascii b in
  ((48 <=? n) && (n <=? 57) || (65 <=? n) && (n <=? 90) || (97 <=? n) && (n <=? 122))%N.
Definition key_byte (b : ascii) : bool := ascii_alphanumeric b || bool_decide (b = "_"%char).

Definition upper (b : ascii) : ascii :=
  let n := N_of_ascii b in if ((97 <=? n) && (n <=? 122))%N then ascii_of_N (n - 32) else b.
(** [to_ascii_uppercase]; [eq_ignore_ascii_case] compares these. *)
Fixpoint to_ascii_uppercase (s : string) : string :=
  match s with EmptyString => EmptyString | String b r => String (upper b) (to_ascii_uppercase r) end.

(** [encode_utf16] of a key, which is ASCII when it is reached. *)
Definition encode_utf16 (key : string) : list unit16 :=
  map (λ b, Z.of_N (N_of_ascii b)) (String.list_ascii_of_string key).

Notation entry := (string * list unit16)%type.

(** [sort_by_cached_key] is stable; [str] is ordered by its bytes. *)
Fixpoint insert_entry (e : entry) (l : list entry) : list entry :=
  match l with
  | [] => [e]
  | x :: r => if String.leb (to_ascii_uppercase e.1) (to_ascii_uppercase x.1)
              then e :: l else x :: insert_entry e r
  end.
Definition sort_entries (l : list entry) : list entry := foldr insert_entry [] l.

(** [windows(2).any(..)] *)
Fixpoint adjacent_duplicate (l : list entry) : bool :=
  match l with
  | x :: ((y :: _) as r) =>
      bool_decide (to_ascii_uppercase x.1 = to_ascii_uppercase y.1) || adjacent_duplicate r
  | _ => false
  end.

Definition valid_entry (e : entry) : bool :=
  negb (is_empty e.1) && forallb key_byte (String.list_ascii_of_string e.1)
  && negb (bool_decide (0%Z ∈ e.2)).

(** The units one entry contributes. *)
Definition entry_units (e : entry) : list unit16 := encode_utf16 e.1 ++ [61%Z] ++ e.2 ++ [0%Z].

Definition windows_environment_block (entries : list entry) : encoded :=
  if negb (forallb valid_entry entries) then invalid else
  let ordered := sort_entries entries in
  if adjacent_duplicate ordered then invalid else
  let? output := fold_try (λ output e,
      fold_try (λ output unit, append output unit 1 MAX_ENVIRONMENT_UNITS) output (entry_units e))
    [] ordered in
  let? output := if bool_decide (output = []) then append output 0 1 MAX_ENVIRONMENT_UNITS
                 else Ok output in
  append output 0 1 MAX_ENVIRONMENT_UNITS.

(** ** Specification *)

(** The quoted text of an argument after [n] pending backslashes. *)
Fixpoint quoted (n : nat) (argument : list unit16) : list unit16 :=
  match argument with
  | [] => repeat 92%Z (2 * n)
  | u :: r =>
      if (u =? 92)%Z then quoted (S n) r
      else if (u =? 34)%Z then repeat 92%Z (2 * n + 1) ++ 34%Z :: quoted 0 r
      else repeat 92%Z n ++ u :: quoted 0 r
  end.
Definition quoted_argument (argument : list unit16) : list unit16 :=
  [32%Z; 34%Z] ++ quoted 0 argument ++ [34%Z].
Definition command_text (executable : list unit16) (arguments : list (list unit16)) : list unit16 :=
  [34%Z] ++ executable ++ [34%Z] ++ concat (map quoted_argument arguments).

(** The C runtime's argv rules.  [n] backslashes are pending, [inside] tells
    whether a quoted part is open, [acc] is the argument so far.  [doubled] is
    the rule of newer runtimes that two quotes inside a quoted part are one. *)
Section argv.
Context (doubled : bool).
Fixpoint argv_argument (n : nat) (inside : bool) (acc : list unit16) (s : list unit16)
    : list unit16 * list unit16 :=
  match s with
  | [] => (acc ++ repeat 92%Z n, [])
  | u :: r =>
      if (u =? 92)%Z then argv_argument (S n) inside acc r
      else if (u =? 34)%Z then
        if Nat.even n then
          match r with
          | v :: r' =>
              if inside && doubled && (v =? 34)%Z
              then argv_argument 0 inside (acc ++ repeat 92%Z (n / 2) ++ [34%Z]) r'
              else argv_argument 0 (negb inside) (acc ++ repeat 92%Z (n / 2)) r
          | [] => argv_argument 0 (negb inside) (acc ++ repeat 92%Z (n / 2)) r
          end
        else argv_argument 0 inside (acc ++ repeat 92%Z (n / 2) ++ [34%Z]) r
      else if (u =? 0)%Z || negb inside && (u =? 32)%Z then (acc ++ repeat 92%Z n, s)
      else argv_argument 0 inside (acc ++ repeat 92%Z n ++ [u]) r
  end.

(** Arguments are separated by blanks; the text ends with a zero unit. *)
Fixpoint argv_arguments (fuel : nat) (s : list unit16) : list (list unit16) :=
  match fuel, s with
  | S fuel, u :: r =>
      if (u =? 32)%Z then argv_arguments fuel r
      else if (u =? 0)%Z then []
      else let '(a, rest) := argv_argument 0 false [] s in a :: argv_arguments fuel rest
  | _, _ => []
  end.

(** [argv[0]] is the text between the first two quotes. *)
Definition argv (s : list unit16) : list (list unit16) :=
  match s with
  | 34%Z :: r =>
      let exe := take_while (λ u, negb (u =? 34)%Z) r in
      exe :: argv_arguments (S (length s)) (drop (S (length exe)) r)
  | _ => []
  end.
End argv.

(** Reading a block: zero-terminated strings up to an empty one, each split at
    its first equals sign. *)
Definition decode_entry (s : list unit16) : list unit16 * list unit16 :=
  let key := take_while (λ u, negb (u =? 61)%Z) s in (key, drop (S (length key)) s).
Fixpoint decode_block (fuel : nat) (s : list unit16) : list (list unit16 * list unit16) :=
  match fuel with
  | O => []
  | S fuel =>
      let e := take_while (λ u, negb (u =? 0)%Z) s in
      match e with
      | [] => []
      | _ => decode_entry e :: decode_block fuel (drop (S (length e)) s)
      end
  end.

Definition fits (limit : Z) (l : list unit16) : bool := (Z.of_nat (length l) <=? limit)%Z.

(** What a body computes: a text, when it fits the limit and a condition holds. *)
Definition bounded (limit : Z) (ok : bool) (l : list unit16) : encoded :=
  if ok && fits limit l then Ok l else invalid.

Definition upper_key (e : entry) : string := to_ascii_uppercase e.1.

Definition key_le (x y : entry) : Prop := String.leb (upper_key x) (upper_key y) = true.

Definition block_text (ordered : list entry) : list unit16 :=
  concat (map entry_units ordered) ++ (if bool_decide (ordered = []) then [0%Z] else []) ++ [0%Z].

(** ** Lemmas *)

Lemma bounded_ok limit ok l r :
  bounded limit ok l = Ok r ↔ ok = true ∧ r = l ∧ (Z.of_nat (length r) ≤ limit)%Z.
Proof.
  unfold bounded, fits. destruct ok; cbn [andb]; [|by split; [|intros [? _]]].
  destruct (Z.leb_spec (Z.of_nat (length l)) limit); split; try done.
  - by intros [= <-].
  - by intros (_ & -> & _).
  - intros (_ & -> & ?). lia.
Qed.

Lemma bounded_returns limit ok l : returns (bounded limit ok l).
Proof. unfold bounded. by destruct (_ && _). Qed.

Lemma append_bounded output u count limit :
  (0 ≤ count)%Z → (limit ≤ USIZE_MAX)%Z →
  append output u count limit = bounded limit true (output ++ repeat u (Z.to_nat count)).
Proof.
  intros Hc Hl. unfold append, bounded, fits, checked_add. cbn [andb].
  rewrite length_app, repeat_length. case_bool_decide as Hu.
  - replace (Z.of_nat (length output + Z.to_nat count)) with (Z.of_nat (length output) + count)%Z by lia.
    done.
  - rewrite (proj2 (Z.leb_gt _ _)); [done|lia].
Qed.

(** A text that does not fit cannot be completed to one that does. *)
Lemma obind_bounded {A} limit ok l (k : list unit16 → outcome unit A) (r : outcome unit A) :
  (ok = true → fits limit l = true → k l = r) →
  (ok && fits limit l = false → r = invalid) →
  obind (bounded limit ok l) k = r.
Proof. unfold bounded. destruct ok; cbn; [destruct (fits _ _)|]; cbn; intros H1 H2; symmetry; auto using eq_sym. Qed.

Lemma fits_app limit l1 l2 : fits limit (l1 ++ l2) = true → fits limit l1 = true.
Proof. unfold fits. rewrite length_app, !Z.leb_le. lia. Qed.

Lemma fits_app_false limit l1 l2 : fits limit l1 = false → fits limit (l1 ++ l2) = false.
Proof.
  intros Hf. destruct (fits limit (l1 ++ l2)) eqn:E; [|done]. apply fits_app in E. congruence.
Qed.

Lemma append_then {A} output u count limit (k : list unit16 → outcome unit A) ok l (f : list unit16 → outcome unit A) :
  (0 ≤ count)%Z → (limit ≤ USIZE_MAX)%Z →
  (fits limit (output ++ repeat u (Z.to_nat count)) = false → f l = invalid) →
  (fits limit (output ++ repeat u (Z.to_nat count)) = true →
     k (output ++ repeat u (Z.to_nat count)) = f l) →
  ok = true → (let? o := append output u count limit in k o) = f l.
Proof.
  intros Hc Hl Hf Hk _. rewrite append_bounded by done.
  apply obind_bounded; cbn [andb]; [by intros _; apply Hk|done].
Qed.

Lemma bounded_overflow limit ok l1 l2 : fits limit l1 = false → bounded limit ok (l1 ++ l2) = invalid.
Proof. intros Hf. unfold bounded. by rewrite fits_app_false, andb_false_r. Qed.

Lemma length_quoted n arg : n ≤ length (quoted n arg).
Proof.
  revert n. induction arg as [|u r IH]; intros n; cbn [quoted]; [rewrite repeat_length; lia|].
  destruct (u =? 92)%Z; [specialize (IH (S n)); lia|].
  destruct (u =? 34)%Z; rewrite length_app, repeat_length; lia.
Qed.

Notation no_zero l := (negb (existsb (λ u, u =? 0)%Z l)).

Section command.
Notation L := MAX_COMMAND_UNITS.

Lemma L_small : (L ≤ USIZE_MAX)%Z.
Proof. unfold L, USIZE_MAX. lia. Qed.

(** Appending when the result is the bounded text [l]. *)
Lemma append_to output u count (k : list unit16 → encoded) ok l :
  (0 ≤ count)%Z → (∃ l', l = output ++ repeat u (Z.to_nat count) ++ l') →
  (fits L (output ++ repeat u (Z.to_nat count)) = true →
     k (output ++ repeat u (Z.to_nat count)) = bounded L ok l) →
  (let? o := append output u count L in k o) = bounded L ok l.
Proof.
  intros Hc [l' ->] Hk. rewrite append_bounded by (done || apply L_small).
  apply obind_bounded; cbn [andb]; [by intros _|].
  intros Hf. rewrite app_assoc. by apply bounded_overflow.
Qed.

Lemma append_last output u count ok :
  (0 ≤ count)%Z → ok = true →
  append output u count L = bounded L ok (output ++ repeat u (Z.to_nat count)).
Proof. intros Hc ->. by rewrite append_bounded by (done || apply L_small). Qed.

Lemma overflow_long ok output (n : Z) l :
  (USIZE_MAX < n)%Z → (n ≤ Z.of_nat (length l))%Z → bounded L ok (output ++ l) = invalid.
Proof.
  intros Hn Hl. unfold bounded, fits. rewrite (proj2 (Z.leb_gt _ _)), andb_false_r; [done|].
  rewrite length_app. pose proof L_small. lia.
Qed.

Definition finish_argument (st : list unit16 * Z) : encoded :=
  let '(output, slashes) := st in
  let? count := match checked_mul USIZE_MAX slashes 2 with Some n => Ok n | None => invalid end in
  let? output := append output 92 count L in
  append output 34 1 L.

(** Backslashes and the unit they precede, then the rest. *)
Lemma append_unit_then output u count n r ok (k : list unit16 * Z → encoded) :
  (0 ≤ count)%Z → Z.to_nat count = n →
  (∀ o, o = (output ++ repeat 92%Z n) ++ [u] →
     k (o, 0%Z) = bounded L ok (o ++ quoted 0 r ++ [34%Z])) →
  (let? st := (let? o := append output 92 count L in let? o := append o u 1 L in Ok (o, 0%Z)) in k st)
  = bounded L ok (output ++ (repeat 92%Z n ++ u :: quoted 0 r) ++ [34%Z]).
Proof.
  intros Hc <- Hk. rewrite obind_assoc. apply append_to; [done| |].
  { exists (u :: quoted 0 r ++ [34%Z]). by rewrite <- !app_assoc. }
  intros _. rewrite obind_assoc. apply append_to; [done| |].
  { exists (quoted 0 r ++ [34%Z]). cbn. by rewrite <- !app_assoc. }
  intros _. cbn [obind]. rewrite Hk by done. f_equal. by rewrite <- !app_assoc.
Qed.

Lemma append_unit_loop output n arg :
  (let? st := fold_try append_unit (output, Z.of_nat n) arg in finish_argument st)
  = bounded L (no_zero arg) (output ++ quoted n arg ++ [34%Z]).
Proof.
  revert output n. induction arg as [|u r IH]; intros output n; cbn [fold_try].
  - cbn [obind finish_argument existsb negb quoted]. unfold checked_mul. case_bool_decide as Hm.
    + cbn [obind]. apply append_to; [lia| |].
      * exists [34%Z]. repeat f_equal. lia.
      * intros _. rewrite (append_last _ _ _ true) by (lia || done). rewrite <- app_assoc.
        do 3 f_equal. f_equal. lia.
    + cbn [obind]. rewrite (overflow_long _ _ (Z.of_nat n * 2)); [done|lia|].
      rewrite length_app, repeat_length. lia.
  - cbn [existsb quoted]. unfold append_unit at 1.
    destruct (Z.eqb_spec u 0) as [->|Hu]; [done|]. cbn [orb].
    destruct (Z.eqb_spec u 92) as [->|H92].
    + unfold checked_add. case_bool_decide.
      * cbn [obind]. replace (Z.of_nat n + 1)%Z with (Z.of_nat (S n)) by lia. apply IH.
      * cbn [obind]. rewrite (overflow_long _ _ (Z.of_nat n + 1)); [done|lia|].
        rewrite length_app. pose proof (length_quoted (S n) r). lia.
    + destruct (Z.eqb_spec u 34) as [->|H34].
      * unfold checked_mul, checked_add.
        assert (Hlong : (USIZE_MAX < Z.of_nat n * 2 + 1)%Z →
          bounded L (no_zero r) (output ++ (repeat 92%Z (2 * n + 1) ++ 34%Z :: quoted 0 r) ++ [34%Z])
          = invalid).
        { intros Hl. apply (overflow_long _ _ (Z.of_nat n * 2 + 1)); [done|].
          rewrite !length_app, repeat_length. lia. }
        case_bool_decide; [|cbn [obind]; rewrite Hlong; [done|lia]].
        case_bool_decide; [|cbn [obind]; rewrite Hlong; [done|lia]]. cbn [obind].
        rewrite obind_assoc.
        apply (append_unit_then _ _ _ _ _ _ (λ st, obind (fold_try append_unit st r) finish_argument));
          [lia|lia|].
        intros o _. apply (IH o 0).
      * cbn [obind]. rewrite obind_assoc.
        apply (append_unit_then _ _ _ _ _ _ (λ st, obind (fold_try append_unit st r) finish_argument));
          [lia|lia|].
        intros o _. apply (IH o 0).
Qed.
Lemma append_argument_bounded output arg :
  append_argument output arg = bounded L (no_zero arg) (output ++ quoted_argument arg).
Proof.
  unfold append_argument, quoted_argument. apply append_to; [done| |].
  { exists (34%Z :: quoted 0 arg ++ [34%Z]). done. }
  intros _. apply append_to; [done| |].
  { exists (quoted 0 arg ++ [34%Z]). cbn. by rewrite <- !app_assoc. }
  intros _. etransitivity; [apply (append_unit_loop _ 0 arg)|]. f_equal. cbn.
  by rewrite <- !app_assoc.
Qed.

Lemma fold_bounded {A} (f : list unit16 → A → encoded) (ok : A → bool) (text : A → list unit16) limit
    output l :
  (∀ o x, fits limit o = true → f o x = bounded limit (ok x) (o ++ text x)) →
  fits limit output = true →
  fold_try f output l = bounded limit (forallb ok l) (output ++ concat (map text l)).
Proof.
  intros Hf. revert output. induction l as [|x l IH]; intros output Ho; cbn [fold_try forallb map concat].
  - unfold bounded. by rewrite app_nil_r, Ho.
  - rewrite Hf by done. apply obind_bounded.
    + intros -> Hfit. rewrite IH by done. by rewrite <- app_assoc.
    + rewrite app_assoc. intros [->|Hn]%andb_false_iff; [done|]. by apply bounded_overflow.
Qed.

Lemma bounded_then limit ok0 l0 (k : list unit16 → encoded) ok l :
  (∃ l', l = l0 ++ l') → (ok0 = false → ok = false) →
  (ok0 = true → fits limit l0 = true → k l0 = bounded limit ok l) →
  obind (bounded limit ok0 l0) k = bounded limit ok l.
Proof.
  intros [l' ->] Hok Hk. apply obind_bounded; [done|].
  intros [Hf|Hn]%andb_false_iff; [by rewrite Hok|by apply bounded_overflow].
Qed.

Lemma append_units output l limit :
  (limit ≤ USIZE_MAX)%Z → fits limit output = true →
  fold_try (λ output unit, append output unit 1 limit) output l
  = bounded limit true (output ++ l).
Proof.
  intros Hl Hfit. rewrite (fold_bounded _ (λ _, true) (λ u, [u]) limit);
    [|intros; by apply append_bounded|done].
  f_equal; [by apply forallb_forall|]. f_equal. clear. induction l; cbn; congruence.
Qed.

(** The encoding in closed form: it is the text, when the inputs are legal and
    the text with its terminator fits. *)
Lemma windows_command_line_bounded exe args :
  windows_command_line exe args =
  bounded L (negb (bool_decide (exe = []) || existsb (λ u, (u =? 0) || (u =? 34))%Z exe)
             && forallb (λ arg, no_zero arg) args)
    (command_text exe args ++ [0%Z]).
Proof.
  unfold windows_command_line, command_text. destruct (_ || _) eqn:Eg; [done|]. cbn [negb andb].
  apply append_to; [done| |]. { eexists. cbn. by rewrite <- !app_assoc. }
  intros Hfit. rewrite append_units by (done || apply L_small).
  apply bounded_then; [eexists; cbn; by rewrite <- !app_assoc|done|intros _ Hexe].
  rewrite append_bounded by (done || apply L_small).
  apply bounded_then; [eexists; cbn; by rewrite <- !app_assoc|done|intros _ Hq].
  rewrite (fold_bounded _ (λ arg, no_zero arg) quoted_argument L)
    by (done || (intros; apply append_argument_bounded)).
  apply bounded_then; [eexists; cbn; by rewrite <- !app_assoc|done|intros -> Hargs].
  rewrite append_bounded by (done || apply L_small). f_equal. cbn. by rewrite <- !app_assoc.
Qed.
End command.

(** ** The command line is read back *)

Section argv_facts.
Context (doubled : bool).
Notation scan := (argv_argument doubled).

Lemma scan_slashes n k inside acc s : scan n inside acc (repeat 92%Z k ++ s) = scan (n + k) inside acc s.
Proof.
  revert n. induction k as [|k IH]; intros n; cbn [repeat app]; [by rewrite Nat.add_0_r|].
  cbn [argv_argument]. cbn. rewrite IH. f_equal. lia.
Qed.

Lemma half_double n : (2 * n) / 2 = n ∧ (2 * n + 1) / 2 = n ∧
  Nat.even (2 * n) = true ∧ Nat.even (2 * n + 1) = false.
Proof.
  split_and!.
  - rewrite Nat.mul_comm. by apply Nat.div_mul.
  - symmetry. apply (Nat.div_unique _ 2 n 1); lia.
  - by apply Nat.even_mul.
  - by rewrite Nat.even_add, Nat.even_mul.
Qed.

(** The scan of a quoted argument, up to the unit that follows it. *)
Lemma scan_quoted n acc arg c rest :
  no_zero arg = true → c = 32%Z ∨ c = 0%Z →
  scan 0 true acc (quoted n arg ++ 34%Z :: c :: rest) = (acc ++ repeat 92%Z n ++ arg, c :: rest).
Proof.
  intros Hz Hc. destruct (half_double n) as (E1 & E2 & E3 & E4).
  revert n acc E1 E2 E3 E4. induction arg as [|u r IH]; intros n acc E1 E2 E3 E4; cbn [quoted].
  - rewrite scan_slashes. cbn [argv_argument Nat.add].
    change (34 =? 92)%Z with false. change (34 =? 34)%Z with true. cbn iota. rewrite E3, E1.
    assert (Hc34 : (c =? 34)%Z = false) by (apply Z.eqb_neq; lia).
    rewrite Hc34, andb_false_r. cbn [negb argv_argument].
    assert (Hc92 : (c =? 92)%Z = false) by (apply Z.eqb_neq; lia). rewrite Hc92.
    assert (Hend : (c =? 0)%Z || true && (c =? 32)%Z = true)
      by (destruct Hc as [-> | ->]; done).
    rewrite Hend. cbn [repeat]. by rewrite !app_nil_r.
  - cbn [existsb negb] in Hz. apply negb_true_iff, orb_false_iff in Hz as [Hu Hz].
    specialize (IH (proj2 (negb_true_iff _) Hz)).
    destruct (Z.eqb_spec u 92) as [->|H92].
    + destruct (half_double (S n)) as (F1 & F2 & F3 & F4). rewrite IH by done.
      f_equal. f_equal. cbn [repeat]. by rewrite repeat_cons, <- app_assoc.
    + destruct (half_double 0) as (F1 & F2 & F3 & F4).
      destruct (Z.eqb_spec u 34) as [->|H34]; rewrite <- app_assoc, scan_slashes;
        cbn [app argv_argument Nat.add].
      * change (34 =? 92)%Z with false. change (34 =? 34)%Z with true. cbn iota.
        rewrite E4, E2, IH by done. cbn [repeat app]. by rewrite <- !app_assoc.
      * rewrite (proj2 (Z.eqb_neq _ _) H92), (proj2 (Z.eqb_neq _ _) H34), Hu. cbn [negb andb orb].
        rewrite IH by done. cbn [repeat app]. by rewrite <- !app_assoc.
Qed.

Lemma argv_arguments_quoted fuel args :
  forallb (λ arg, no_zero arg) args = true →
  length (concat (map quoted_argument args) ++ [0%Z]) < fuel →
  argv_arguments doubled fuel (concat (map quoted_argument args) ++ [0%Z]) = args.
Proof.
  revert fuel. induction args as [|arg args IH]; intros fuel Hz Hf.
  - cbn in *. destruct fuel as [|fuel]; [lia|done].
  - cbn [forallb] in Hz. apply andb_true_iff in Hz as [Ha Hz].
    cbn [map concat] in *. unfold quoted_argument at 1. unfold quoted_argument at 1 in Hf.
    rewrite <- !app_assoc in *. cbn [app] in *. rewrite !length_cons, !length_app in Hf.
    destruct fuel as [|[|fuel]]; [lia|lia|]. cbn [argv_arguments].
    change (32 =? 32)%Z with true. cbn iota. change (34 =? 32)%Z with false.
    change (34 =? 0)%Z with false. cbn iota.
    assert (Hnext : ∃ c rest, concat (map quoted_argument args) ++ [0%Z] = c :: rest ∧
      (c = 32%Z ∨ c = 0%Z)).
    { destruct args; cbn; eauto. }
    destruct Hnext as (c & rest & Heq & Hc). cbn [length app] in Hf. rewrite length_app in Hf.
    rewrite Heq in *. cbn [argv_argument]. change (34 =? 92)%Z with false.
    change (34 =? 34)%Z with true. cbn iota. cbn [Nat.even].
    destruct (quoted 0 arg ++ 34%Z :: c :: rest) as [|v r] eqn:Eq; [by destruct (quoted 0 arg)|].
    cbn [andb]. rewrite <- Eq. change (0 / 2) with 0. cbn [repeat app negb].
    rewrite scan_quoted by done. cbn [repeat app]. f_equal. apply IH; [done|].
    rewrite <- Heq, length_app. lia.
Qed.

Lemma argv_command_text exe args :
  existsb (λ u, (u =? 0) || (u =? 34))%Z exe = false →
  forallb (λ arg, no_zero arg) args = true →
  argv doubled (command_text exe args ++ [0%Z]) = exe :: args.
Proof.
  intros He Ha. unfold argv, command_text. cbn [app]. rewrite <- !app_assoc. cbn [app].
  rewrite take_while_app; [|apply forallb_true|done].
  - f_equal. rewrite drop_app_ge by lia. replace (S (length exe) - length exe) with 1 by lia.
    cbn [drop]. apply argv_arguments_quoted; [done|]. cbn. rewrite !length_app. cbn. rewrite ?length_app. cbn. lia.
  - intros u Hu. rewrite existsb_false in He. specialize (He u Hu).
    apply orb_false_iff in He as [_ ->]. done.
Qed.
End argv_facts.

(** ** The environment block in closed form *)

Lemma string_lt_trans s t u :
  String.compare s t = Lt → String.compare t u = Lt → String.compare s u = Lt.
Proof.
  revert t u. induction s as [|a s IH]; intros [|b t] [|c u]; cbn; try done.
  unfold Ascii.compare.
  destruct (N.compare_spec (N_of_ascii a) (N_of_ascii b)) as [E1|E1|E1]; [|intros _|done];
    destruct (N.compare_spec (N_of_ascii b) (N_of_ascii c)) as [E2|E2|E2]; try done;
    try (intros; rewrite (proj2 (N.compare_lt_iff _ _)); [done|lia]).
  rewrite E1, E2, N.compare_refl. apply IH.
Qed.

Lemma string_leb_lt s t : String.leb s t = true ↔ s = t ∨ String.compare s t = Lt.
Proof.
  unfold String.leb. destruct (String.compare s t) eqn:E; split; try done.
  - left. by apply String.compare_eq_iff.
  - by right.
  - intros [->|]; [|done]. exfalso. pose proof (String.compare_antisym t t) as Ha.
    rewrite E in Ha. done.
Qed.

#[export] Instance key_le_trans : Transitive key_le.
Proof.
  intros x y z. unfold key_le. rewrite !string_leb_lt. intros [->|Hxy] [<-|Hyz]; auto.
  right. by eapply string_lt_trans.
Qed.

Lemma insert_entry_perm e l : insert_entry e l ≡ₚ e :: l.
Proof.
  induction l as [|x l IH]; cbn; [done|]. destruct (String.leb _ _); [done|]. rewrite IH. constructor.
Qed.

Lemma sort_entries_perm l : sort_entries l ≡ₚ l.
Proof. induction l as [|e l IH]; cbn; [done|]. by rewrite insert_entry_perm, IH. Qed.

Lemma insert_entry_sorted e l : Sorted key_le l → Sorted key_le (insert_entry e l).
Proof.
  induction 1 as [|x l Hs IH Hx]; cbn; [by repeat constructor|].
  destruct (String.leb _ _) eqn:E; [by repeat constructor|]. constructor; [done|].
  assert (Hex : key_le x e).
  { unfold key_le, upper_key. destruct (String.leb_total (to_ascii_uppercase x.1) (to_ascii_uppercase e.1));
      [done|congruence]. }
  destruct l as [|y l]; cbn; [by constructor|]. destruct (String.leb _ (to_ascii_uppercase y.1)); constructor; [done|].
  by inversion Hx.
Qed.

Lemma sort_entries_sorted l : Sorted key_le (sort_entries l).
Proof. induction l; cbn; [constructor|]. by apply insert_entry_sorted. Qed.

(** On a sorted list adjacent duplicates are all duplicates. *)
Lemma adjacent_duplicate_ok l :
  Sorted key_le l → adjacent_duplicate l = false ↔ NoDup (map upper_key l).
Proof.
  intros Hs%Sorted_StronglySorted; [|apply key_le_trans].
  induction Hs as [|x l Hs IH Hx]; [split; [constructor|done]|].
  destruct l as [|y l]; [split; [intros; apply NoDup_singleton|done]|].
  change (adjacent_duplicate (x :: y :: l)) with
    (bool_decide (upper_key x = upper_key y) || adjacent_duplicate (y :: l)).
  rewrite orb_false_iff, IH, bool_decide_eq_false. cbn [map]. rewrite (NoDup_cons (upper_key x)).
  apply and_iff; [|done]. rewrite elem_of_cons. split; [|tauto].
  intros Hne [?|Hin]; [done|]. apply elem_of_map in Hin as (z & Hz & Ez).
  inversion Hx as [|? ? Hxy Hxl]; subst. inversion Hs as [|? ? _ Hyl]; subst.
  rewrite Forall_forall in Hyl. specialize (Hyl z Hz).
  unfold key_le in Hxy, Hyl. rewrite Ez in *. apply Hne.
  by apply String.leb_antisym.
Qed.

Lemma windows_environment_block_bounded entries :
  windows_environment_block entries =
  bounded MAX_ENVIRONMENT_UNITS
    (forallb valid_entry entries && bool_decide (NoDup (map upper_key entries)))
    (block_text (sort_entries entries)).
Proof.
  unfold windows_environment_block. destruct (forallb valid_entry entries); [cbn [negb andb]|done].
  set (ordered := sort_entries entries).
  assert (Hd : adjacent_duplicate ordered = negb (bool_decide (NoDup (map upper_key entries)))).
  { pose proof (adjacent_duplicate_ok ordered (sort_entries_sorted entries)) as Ha.
    assert (Hp : map upper_key ordered ≡ₚ map upper_key entries)
      by apply (fmap_Permutation upper_key), sort_entries_perm.
    rewrite (NoDup_Permutation_proper _ _ Hp) in Ha.
    case_bool_decide as E; cbn; [by apply Ha|]. apply not_false_iff_true. by rewrite Ha. }
  rewrite Hd. case_bool_decide; cbn [negb]; [|done].
  assert (HL : (MAX_ENVIRONMENT_UNITS ≤ USIZE_MAX)%Z) by (unfold MAX_ENVIRONMENT_UNITS, USIZE_MAX; lia).
  rewrite (fold_bounded _ (λ _, true) entry_units MAX_ENVIRONMENT_UNITS);
    [|intros; by apply append_units|done].
  rewrite (proj2 (forallb_forall (λ _, true) ordered)) by done. cbn [app].
  apply bounded_then; [by eexists|done|intros _ Hfit].
  destruct ordered as [|e l] eqn:Eo.
  - cbn [map concat]. rewrite bool_decide_true by done.
    rewrite append_bounded by done. by vm_compute.
  - rewrite !bool_decide_false by (done || by destruct e as [[] ?]). cbn [obind].
    by rewrite append_bounded.
Qed.

(** ** The block is read back *)

Lemma key_units_plain key c :
  forallb key_byte (String.list_ascii_of_string key) = true → (c = 0%Z ∨ c = 61%Z) →
  c ∉ encode_utf16 key.
Proof.
  intros Hk Hc Hin. apply elem_of_map in Hin as (b & Hb & ->).
  rewrite forallb_true in Hk. specialize (Hk b Hb). revert Hk. unfold key_byte, ascii_alphanumeric.
  cbv zeta. rewrite !orb_true_iff, !andb_true_iff, !N.leb_le, bool_decide_eq_true.
  intros [Hk | ->]; [lia|]. destruct Hc; vm_compute in H; done.
Qed.

Lemma take_while_key (c : Z) l x : c ∉ l → take_while (λ u, negb (u =? c)%Z) (l ++ c :: x) = l.
Proof.
  intros Hc. apply take_while_app; [|by rewrite Z.eqb_refl].
  apply forallb_true. intros u Hu. apply negb_true_iff, Z.eqb_neq. by intros ->.
Qed.

Lemma drop_length_cons {A} (l : list A) x r : drop (S (length l)) (l ++ x :: r) = r.
Proof. rewrite drop_app_ge by lia. by replace (S (length l) - length l) with 1 by lia. Qed.

Lemma valid_entry_parts e :
  valid_entry e = true →
  e.1 ≠ EmptyString ∧ forallb key_byte (String.list_ascii_of_string e.1) = true ∧ 0%Z ∉ e.2.
Proof.
  unfold valid_entry. rewrite !andb_true_iff, !negb_true_iff, bool_decide_eq_false.
  intros [[He ?] ?]. split_and!; try done. by destruct e.1.
Qed.

Lemma decode_block_entries fuel ordered rest :
  forallb valid_entry ordered = true → length ordered < fuel →
  decode_block fuel (concat (map entry_units ordered) ++ 0%Z :: rest)
  = map (λ e, (encode_utf16 e.1, e.2)) ordered.
Proof.
  revert fuel. induction ordered as [|e l IH]; intros [|fuel] Hv Hf; cbn [length] in Hf; try lia.
  - done.
  - cbn [forallb] in Hv. apply andb_true_iff in Hv as [He Hv].
    apply valid_entry_parts in He as (Hne & Hk & Hz).
    cbn [map concat]. unfold entry_units at 1. cbn [decode_block].
    set (rest' := concat (map entry_units l) ++ 0%Z :: rest).
    replace ((_ ++ concat _) ++ 0%Z :: rest) with ((encode_utf16 e.1 ++ 61%Z :: e.2) ++ 0%Z :: rest')
      by (unfold rest'; rewrite <- !app_assoc; cbn [app]; by rewrite <- ?app_assoc).
    rewrite take_while_key, drop_length_cons.
    + destruct (encode_utf16 e.1 ++ 61%Z :: e.2) as [|c s] eqn:Es; [by destruct (encode_utf16 e.1)|].
      rewrite <- Es. unfold decode_entry.
      rewrite take_while_key by (apply key_units_plain; auto).
      rewrite drop_length_cons. f_equal. apply IH; [done|lia].
    + intros [Hin|[Hin|Hin]%elem_of_cons]%elem_of_app; [|done|done].
      revert Hin. apply key_units_plain; auto.
Qed.

Lemma decode_block_text entries :
  forallb valid_entry entries = true →
  decode_block (S (length entries)) (block_text (sort_entries entries))
  = map (λ e, (encode_utf16 e.1, e.2)) (sort_entries entries).
Proof.
  intros Hv. unfold block_text.
  assert (Hv' : forallb valid_entry (sort_entries entries) = true).
  { apply forallb_true. intros e He. rewrite forallb_true in Hv. apply Hv.
    by rewrite (sort_entries_perm entries) in He. }
  assert (Hlen : length (sort_entries entries) = length entries)
    by apply Permutation_length, sort_entries_perm.
  case_bool_decide as E; cbn [app].
  - rewrite E. rewrite E in Hlen. destruct (length entries); done.
  - apply decode_block_entries; [done|lia].
Qed.
