(* ===== verification/ProcessEnv.v ===== *)
(** * The environment and the sandbox of adapter processes

    Models [crates/bastet-core/src/process_environment.rs]: a child starts from
    a cleared environment and inherits the variables of a fixed list.  A
    [Command] is the part of [std::process::Command] the code touches: whether
    the inherited environment is cleared, and the variables set explicitly.

    The Module [Sandbox] models [crates/bastet-daemon/src/sandbox.rs] and
    [sandbox_linux.rs]: the command that confines an agent to a scope, and, to
    say what it grants, how the enforcers read it. *)
From S2P Require Import Prelude LineDecoder WinEncoding.

Definition ALLOWED_ENVIRONMENT_KEYS : list string :=
  [ "PATH"; "PATHEXT"; "COMSPEC"; "SYSTEMROOT"; "WINDIR";
    "HOME"; "USERPROFILE"; "HOMEDRIVE"; "HOMEPATH"; "APPDATA"; "LOCALAPPDATA";
    "TMPDIR"; "TMP"; "TEMP"; "LANG"; "LC_ALL"; "LC_CTYPE" ].

(** How the platform compares the names of variables: an accepted name is ASCII
    on Windows, where [Command] ignores its case. *)
Definition env_key (windows : bool) (key : string) : string :=
  if windows then to_ascii_uppercase key else key.

(** The variables set explicitly, by compared name. *)
Record Command := {
  cmd_cleared : bool;
  cmd_env : gmap string string;
}.

(** [env_clear] also forgets the variables set before. *)
Definition env_clear (command : Command) : Command :=
  {| cmd_cleared := true; cmd_env := ∅ |}.
Definition env (windows : bool) (command : Command) (key value : string) : Command :=
  {| cmd_cleared := command.(cmd_cleared);
     cmd_env := <[env_key windows key := value]> command.(cmd_env) |}.

(** The two bodies of [allowed_key]: Windows ignores ASCII case. *)
Definition allowed_key (windows : bool) (key : string) : bool :=
  if windows then
    existsb (λ candidate,
        bool_decide (to_ascii_uppercase key = to_ascii_uppercase candidate))
      ALLOWED_ENVIRONMENT_KEYS
  else existsb (λ candidate, bool_decide (key = candidate)) ALLOWED_ENVIRONMENT_KEYS.

Definition configure_adapter_process_environment_from (windows : bool) (command : Command)
    (inherited : list (string * string)) : Command :=
  fold_left (λ command '(key, value),
      if allowed_key windows key then env windows command key value else command)
    inherited (env_clear command).

(** ** Specification *)

(** What the child sees: the explicit variables over the parent's, unless cleared. *)
Definition child_environment (parent : gmap string string) (command : Command)
    : gmap string string :=
  command.(cmd_env) ∪ (if command.(cmd_cleared) then ∅ else parent).

(** The inherited variables that pass, by compared name. *)
Definition passed (windows : bool) (inherited : list (string * string)) : list (string * string) :=
  map (λ p, (env_key windows p.1, p.2)) (List.filter (λ p, allowed_key windows p.1) inherited).

(** ** Lemmas *)

Lemma configure_fold windows command inherited :
  let c := fold_left (λ command '(key, value),
      if allowed_key windows key then env windows command key value else command)
      inherited command in
  c.(cmd_cleared) = command.(cmd_cleared) ∧
  c.(cmd_env) = collect_map (passed windows inherited) ∪ command.(cmd_env).
Proof.
  cbv zeta. unfold collect_map, passed. revert command.
  induction inherited as [|[key v] l IH]; intros command; cbn [fold_left List.filter fst map].
  { split; [done|]. cbn. by rewrite (left_id_L ∅ (∪)). }
  destruct (allowed_key windows key) eqn:Ea; [|apply IH].
  destruct (IH (env windows command key v)) as [Hc Hk]. split; [done|]. rewrite Hk.
  cbn [map fst snd]. rewrite reverse_cons, list_to_map_app. cbn [cmd_env env list_to_map foldr fst snd].
  by rewrite <- (assoc_L (∪)), <- insert_union_l, (left_id_L ∅ (∪)).
Qed.

Lemma allowed_env_key windows key :
  allowed_key windows key = true → env_key windows key ∈ ALLOWED_ENVIRONMENT_KEYS.
Proof.
  unfold allowed_key, env_key. destruct windows; rewrite existsb_true;
    intros (c & Hc & E%bool_decide_eq_true); rewrite E; [|done].
  assert (Hall : forallb (λ c, bool_decide (to_ascii_uppercase c ∈ ALLOWED_ENVIRONMENT_KEYS))
                   ALLOWED_ENVIRONMENT_KEYS = true) by done.
  rewrite forallb_true in Hall. by apply (bool_decide_eq_true_1 _), Hall.
Qed.

Module Sandbox.

Inductive SandboxPlatform := MacosSeatbelt | LinuxBubblewrap | WindowsAppContainer.

Record SandboxProfile := {
  sp_workspace_root : string;
  sp_read_only_roots : list string;
  sp_allow_workspace_write : bool;
  sp_allow_network : bool;
}.

Inductive SandboxError :=
| NonAbsoluteWorkspace
| UnsafeWorkspace
| EnforcerUnavailable (name : string).

(** The part of [std::process::Command] that is used. *)
Record Launch := {
  la_program : string;
  la_arguments : list string;
  la_directory : string;
}.

(** ** Paths

    [std::path] on Unix: a path is its bytes.  These work on a path from its end. *)
Definition slash : ascii := "/".

(** [Components::as_path]: trailing separators and components [.] do not count. *)
Fixpoint trim_back (r : list ascii) : list ascii :=
  match r with
  | a :: r1 =>
      if Ascii.eqb a slash then match r1 with [] => r | _ :: _ => trim_back r1 end
      else if Ascii.eqb a "." then
        match r1 with b :: _ => if Ascii.eqb b slash then trim_back r1 else r | [] => r end
      else r
  | [] => []
  end.
Fixpoint drop_component (r : list ascii) : list ascii :=
  match r with
  | a :: r1 => if Ascii.eqb a slash then r else drop_component r1
  | [] => []
  end.
(** [Path::parent] *)
Definition parent (path : string) : option string :=
  match trim_back (reverse (String.list_ascii_of_string path)) with
  | [] => None
  | [a] => if Ascii.eqb a slash then None else Some EmptyString
  | r => Some (String.string_of_list_ascii (reverse (trim_back (drop_component r))))
  end.

(** [Path::ancestors]: a parent is shorter. *)
Fixpoint ancestors_from (fuel : nat) (path : string) : list string :=
  path :: match fuel, parent path with
          | S fuel, Some above => ancestors_from fuel above
          | _, _ => []
          end.
Definition ancestors (path : string) : list string := ancestors_from (String.length path) path.

Definition is_absolute (path : string) : bool :=
  match path with String a _ => Ascii.eqb a slash | EmptyString => false end.

(** ** Profiles *)

Definition quote_char : ascii := "034".
Definition backslash : ascii := "092".
Definition forbidden (a : ascii) : bool :=
  Ascii.eqb a "000" || Ascii.eqb a "010" || Ascii.eqb a "013" || Ascii.eqb a quote_char.

Section profile.
Context (canonicalize : string → option string) (is_file : string → bool).
Context (self : SandboxProfile).

Definition read_paths : list string := sp_workspace_root self :: sp_read_only_roots self.

Definition unsafe (path : string) : bool :=
  bool_decide (parent path = None)
  || match canonicalize path with
     | Some resolved => bool_decide (parent resolved = None)
     | None => false
     end
  || existsb (String.eqb "..") (split_at slash path)
  || negb (from_utf8 (String.list_ascii_of_string path))
  || negb (all_chars (λ a, negb (forbidden a)) path).

Definition validate : outcome SandboxError unit :=
  fail_if existsb (λ path, negb (is_absolute path)) read_paths with NonAbsoluteWorkspace;;
  fail_if existsb unsafe read_paths with UnsafeWorkspace;;
  Ok tt.

Definition quoted (before path : string) : string :=
  before +:+ String quote_char (path +:+ String quote_char "))").

Definition read_rules (root : string) : string :=
  quoted " (allow file-read* (subpath " root
  +:+ fold_right (λ above rest, quoted " (allow file-read* (literal " above +:+ rest) EmptyString
        (tail (ancestors root)).
Definition macos_profile : string :=
  "(version 1) (deny default) (allow process*) (allow sysctl-read) (allow mach-lookup)"
  +:+ fold_right (λ root rest, read_rules root +:+ rest) EmptyString read_paths
  +:+ (if sp_allow_workspace_write self
       then quoted " (allow file-write* (subpath " (sp_workspace_root self) else EmptyString)
  +:+ (if sp_allow_network self then " (allow network*)" else EmptyString).

Definition require_executable (path name : string) : outcome SandboxError unit :=
  fail_if negb (is_file path) with EnforcerUnavailable name;; Ok tt.

(** [sandbox_linux::launch_command] *)
Definition linux_command (executable : string) : Launch :=
  {| la_program := "/usr/bin/bwrap";
     la_arguments :=
       ["--unshare-user"; "--die-with-parent"; "--new-session"; "--unshare-pid"; "--unshare-ipc";
        "--unshare-uts"]
       ++ concat (map (λ root, ["--ro-bind"; root; root]) (sp_read_only_roots self))
       ++ [if sp_allow_workspace_write self then "--bind" else "--ro-bind";
           sp_workspace_root self; sp_workspace_root self]
       ++ (if sp_allow_network self then [] else ["--unshare-net"])
       ++ ["--"; executable];
     la_directory := sp_workspace_root self |}.

(** The command before the arguments and the directory are set. *)
Definition platform_command (platform : SandboxPlatform) (executable : string)
    : outcome SandboxError Launch :=
  match platform with
  | MacosSeatbelt =>
      fail_if existsb (λ path, negb (all_chars (λ a, negb (Ascii.eqb a backslash)) path)) read_paths
        with UnsafeWorkspace;;
      require_executable "/usr/bin/sandbox-exec" "sandbox-exec" ?;
      Ok {| la_program := "/usr/bin/sandbox-exec";
            la_arguments := ["-p"; macos_profile; "--"; executable];
            la_directory := EmptyString |}
  | LinuxBubblewrap =>
      require_executable "/usr/bin/bwrap" "bubblewrap" ?;
      Ok (linux_command executable)
  | WindowsAppContainer => Err (EnforcerUnavailable "Windows AppContainer broker")
  end.

Definition launch_command (platform : SandboxPlatform) (executable : string)
    (arguments : list string) : outcome SandboxError Launch :=
  validate ?;
  let? command := platform_command platform executable in
  Ok {| la_program := la_program command; la_arguments := la_arguments command ++ arguments;
        la_directory := sp_workspace_root self |}.

End profile.

(** ** What the enforcers read

    The profile language of Seatbelt is Scheme: lists of words and of texts in
    quotes, in which a backslash takes the next character as it is. *)
Inductive token := Open | Close | Word (w : string) | Quoted (s : string).
#[export] Instance token_eq_dec : EqDecision token.
Proof. solve_decision. Defined.
Inductive lexer := Between | InWord (r : list ascii) | InQuotes (r : list ascii).

Definition back (r : list ascii) : string := String.string_of_list_ascii (reverse r).
Definition ended (mode : lexer) (rest : list token) : list token :=
  match mode with InWord r => Word (back r) :: rest | _ => rest end.

Fixpoint lex (mode : lexer) (l : list ascii) : option (list token) :=
  match l with
  | [] => match mode with InQuotes _ => None | _ => Some (ended mode []) end
  | a :: l1 =>
      match mode with
      | InQuotes r =>
          if Ascii.eqb a quote_char then rest ← lex Between l1; Some (Quoted (back r) :: rest)
          else if Ascii.eqb a backslash then
            match l1 with b :: l2 => lex (InQuotes (b :: r)) l2 | [] => None end
          else lex (InQuotes (a :: r)) l1
      | _ =>
          if Ascii.eqb a " " then rest ← lex Between l1; Some (ended mode rest)
          else if Ascii.eqb a "(" then rest ← lex Between l1; Some (ended mode (Open :: rest))
          else if Ascii.eqb a ")" then rest ← lex Between l1; Some (ended mode (Close :: rest))
          else if Ascii.eqb a quote_char then rest ← lex (InQuotes []) l1; Some (ended mode rest)
          else lex (InWord match mode with InWord r => a :: r | _ => [a] end) l1
      end
  end.

(** What a confined process may do beside what every agent may. *)
Record scope := {
  sc_reads : list string;
  sc_passages : list string;
  sc_writes : list string;
  sc_network : bool;
  sc_command : list string;
}.
Definition nothing (command : list string) : scope :=
  {| sc_reads := []; sc_passages := []; sc_writes := []; sc_network := false; sc_command := command |}.
Definition reading (path : string) (s : scope) : scope :=
  {| sc_reads := path :: sc_reads s; sc_passages := sc_passages s; sc_writes := sc_writes s;
     sc_network := sc_network s; sc_command := sc_command s |}.
Definition passing (path : string) (s : scope) : scope :=
  {| sc_reads := sc_reads s; sc_passages := path :: sc_passages s; sc_writes := sc_writes s;
     sc_network := sc_network s; sc_command := sc_command s |}.
Definition writing (path : string) (s : scope) : scope :=
  {| sc_reads := sc_reads s; sc_passages := sc_passages s; sc_writes := path :: sc_writes s;
     sc_network := sc_network s; sc_command := sc_command s |}.
Definition network (allowed : bool) (s : scope) : scope :=
  {| sc_reads := sc_reads s; sc_passages := sc_passages s; sc_writes := sc_writes s;
     sc_network := allowed; sc_command := sc_command s |}.

(** One rule after the other; any other rule is not understood. *)
Fixpoint seatbelt_rules (command : list string) (tokens : list token) : option scope :=
  match tokens with
  | [] => Some (nothing command)
  | Open :: Word allow :: Word operation :: Close :: rest =>
      if String.eqb allow "allow" && String.eqb operation "network*"
      then network true <$> seatbelt_rules command rest else None
  | Open :: Word allow :: Word operation :: Open :: Word filter :: Quoted path :: Close :: Close :: rest =>
      if negb (String.eqb allow "allow") then None else
      if String.eqb operation "file-read*" && String.eqb filter "subpath"
      then reading path <$> seatbelt_rules command rest else
      if String.eqb operation "file-read*" && String.eqb filter "literal"
      then passing path <$> seatbelt_rules command rest else
      if String.eqb operation "file-write*" && String.eqb filter "subpath"
      then writing path <$> seatbelt_rules command rest else None
  | _ => None
  end.
Definition seatbelt_preamble : list token :=
  [Open; Word "version"; Word "1"; Close; Open; Word "deny"; Word "default"; Close;
   Open; Word "allow"; Word "process*"; Close; Open; Word "allow"; Word "sysctl-read"; Close;
   Open; Word "allow"; Word "mach-lookup"; Close].
(** [sandbox-exec -p profile -- command] *)
Definition seatbelt (arguments : list string) : option scope :=
  match arguments with
  | option :: profile :: separator :: command =>
      if negb (String.eqb option "-p" && String.eqb separator "--") then None else
      tokens ← lex Between (String.list_ascii_of_string profile);
      if bool_decide (take 20 tokens = seatbelt_preamble)
      then seatbelt_rules command (drop 20 tokens) else None
  | _ => None
  end.

(** [bwrap]: options up to the separator; mounts are named by source and
    destination, and the network is shared unless an option says otherwise. *)
Fixpoint bubblewrap (arguments : list string) : option scope :=
  match arguments with
  | [] => None
  | option :: rest =>
      if String.eqb option "--" then Some (network true (nothing rest)) else
      if String.eqb option "--unshare-net" then network false <$> bubblewrap rest else
      if existsb (String.eqb option)
           ["--unshare-user"; "--die-with-parent"; "--new-session"; "--unshare-pid";
            "--unshare-ipc"; "--unshare-uts"] then bubblewrap rest else
      match rest with
      | source :: destination :: rest =>
          if negb (String.eqb source destination) then None else
          if String.eqb option "--ro-bind" then reading source <$> bubblewrap rest else
          if String.eqb option "--bind" then writing source ∘ reading source <$> bubblewrap rest
          else None
      | _ => None
      end
  end.

Definition enforced (command : Launch) : option scope :=
  if String.eqb (la_program command) "/usr/bin/sandbox-exec" then seatbelt (la_arguments command) else
  if String.eqb (la_program command) "/usr/bin/bwrap" then bubblewrap (la_arguments command) else None.

(** ** Reading a profile back *)

Lemma list_ascii_append s s' :
  String.list_ascii_of_string (s +:+ s') = String.list_ascii_of_string s ++ String.list_ascii_of_string s'.
Proof.
  induction s as [|a s IH]; [done|].
  change (a :: String.list_ascii_of_string (s +:+ s') = a :: (String.list_ascii_of_string s ++ String.list_ascii_of_string s')).
  by rewrite IH.
Qed.
Lemma all_chars_forall p s :
  all_chars p s = true ↔ Forall (λ a, p a = true) (String.list_ascii_of_string s).
Proof.
  induction s as [|a s IH]; cbn; [done|]. by rewrite andb_true_iff, Forall_cons, IH.
Qed.

(** Characters that mean themselves between quotes. *)
Definition literal (a : ascii) : bool := negb (Ascii.eqb a quote_char) && negb (Ascii.eqb a backslash).

Lemma lex_quoted l r rest :
  Forall (λ a, literal a = true) l →
  lex (InQuotes r) (l ++ quote_char :: rest) =
    (λ tokens, Quoted (back (reverse l ++ r)) :: tokens) <$> lex Between rest.
Proof.
  intros Hl. revert r. induction Hl as [|a l [Hq Hb]%andb_true_iff Hl IH]; intros r.
  - cbn [app lex]. by destruct (lex Between rest).
  - apply negb_true_iff in Hq, Hb. cbn [app lex]. rewrite Hq, Hb, IH, reverse_cons. by rewrite <- app_assoc.
Qed.
Lemma back_string s : back (reverse (String.list_ascii_of_string s) ++ []) = s.
Proof. unfold back. by rewrite app_nil_r, reverse_involutive, String.string_of_list_ascii_of_string. Qed.

(** A part of a profile, and what it grants. *)
Definition part (s : string) (f : scope → scope) : Prop :=
  ∃ tokens, (∀ rest, lex Between (String.list_ascii_of_string s ++ rest) = app tokens <$> lex Between rest) ∧
    ∀ command rest, seatbelt_rules command (tokens ++ rest) = f <$> seatbelt_rules command rest.

Lemma part_empty : part EmptyString id.
Proof. exists []. split; intros; cbn; by rewrite option_fmap_id. Qed.
Lemma part_app s f s' f' : part s f → part s' f' → part (s +:+ s') (f ∘ f').
Proof.
  intros (t & Hl & Hr) (t' & Hl' & Hr'). exists (t ++ t'). split.
  - intros rest. rewrite list_ascii_append, <- app_assoc, Hl, Hl', <- option_fmap_compose.
    apply option_fmap_ext. intros tokens. cbn. by rewrite app_assoc.
  - intros command rest. rewrite <- app_assoc, Hr, Hr'. by rewrite <- option_fmap_compose.
Qed.
Lemma part_fold {A} (g : A → string) (f : A → scope → scope) l :
  (∀ x, x ∈ l → part (g x) (f x)) →
  part (fold_right (λ x rest, g x +:+ rest) EmptyString l) (λ s, fold_right f s l).
Proof.
  induction l as [|x l IH]; intros Hg; [apply part_empty|].
  apply (part_app (g x) (f x)); [apply Hg; left|]. apply IH. intros y Hy. apply Hg. by right.
Qed.

Lemma part_quoted before path f tokens :
  Forall (λ a, literal a = true) (String.list_ascii_of_string path) →
  (∀ rest, lex Between (String.list_ascii_of_string before ++ quote_char :: rest) =
     app tokens <$> lex (InQuotes []) rest) →
  (∀ command rest, seatbelt_rules command (tokens ++ Quoted path :: Close :: Close :: rest) =
     f <$> seatbelt_rules command rest) →
  part (quoted before path) f.
Proof.
  intros Hp Hl Hr. exists (tokens ++ [Quoted path; Close; Close]). split.
  - intros rest. unfold quoted. rewrite list_ascii_append. cbn [String.list_ascii_of_string].
    rewrite list_ascii_append. rewrite <- app_assoc. cbn [app]. rewrite Hl, <- app_assoc. cbn [app String.list_ascii_of_string].
    rewrite lex_quoted, back_string by done. rewrite <- option_fmap_compose.
    change (lex Between (")"%char :: ")"%char :: rest)) with
      (rest ← (rest ← lex Between rest; Some (ended Between (Close :: rest))); Some (ended Between (Close :: rest))).
    destruct (lex Between rest); cbn; [|done]. by rewrite <- app_assoc.
  - intros command rest. rewrite <- app_assoc. apply Hr.
Qed.

(** *** Ancestors *)

Lemma trim_back_forall (P : ascii → Prop) r : Forall P r → Forall P (trim_back r).
Proof.
  induction 1 as [|a r Ha Hr IH]; cbn; [done|].
  destruct (Ascii.eqb a slash); [destruct r; [by constructor|done]|].
  destruct (Ascii.eqb a "."); [|by constructor]. destruct r as [|b r]; [by constructor|].
  destruct (Ascii.eqb b slash); [done|by constructor].
Qed.
Lemma drop_component_forall (P : ascii → Prop) r : Forall P r → Forall P (drop_component r).
Proof. induction 1; cbn; [done|]. destruct (Ascii.eqb _ _); [by constructor|done]. Qed.
Lemma trim_back_length r : length (trim_back r) ≤ length r.
Proof.
  induction r as [|a r IH]; cbn; [lia|]. destruct (Ascii.eqb a slash); [destruct r; cbn in *; lia|].
  destruct (Ascii.eqb a "."); [|done]. destruct r as [|b r]; [done|].
  destruct (Ascii.eqb b slash); cbn in *; lia.
Qed.
Lemma drop_component_length r : length (drop_component r) ≤ length r.
Proof. induction r as [|a r IH]; cbn; [done|]. destruct (Ascii.eqb _ _); cbn; lia. Qed.

(** What is left of a path that ends in a component is not empty of it. *)
Lemma trim_back_head r a r' : trim_back r = a :: r' → Ascii.eqb a slash = true → r' = [].
Proof.
  revert a r'. induction r as [|b r IH]; intros a r'; cbn; [done|].
  destruct (Ascii.eqb b slash) eqn:Eb.
  { destruct r as [|c r]; [by intros [= <- <-]|apply IH]. }
  destruct (Ascii.eqb b "."); [destruct r as [|c r]|]; try (intros [= <- <-]; congruence).
  destruct (Ascii.eqb c slash); [apply IH|]. intros [= <- <-]. congruence.
Qed.

Lemma parent_chars p path above :
  all_chars p path = true → parent path = Some above → all_chars p above = true.
Proof.
  rewrite !all_chars_forall. intros Hp. unfold parent.
  assert (Hr : Forall (λ a, p a = true) (trim_back (reverse (String.list_ascii_of_string path))))
    by by apply trim_back_forall, Forall_reverse.
  destruct (trim_back _) as [|a [|b r]]; [done|destruct (Ascii.eqb a slash); [done|by intros [= <-]]|].
  intros [= <-]. rewrite String.list_ascii_of_string_of_list_ascii.
  exact (proj2 (Forall_reverse _ _) (trim_back_forall _ _ (drop_component_forall _ (a :: b :: r) Hr))).
Qed.
Lemma length_list_ascii s : length (String.list_ascii_of_string s) = String.length s.
Proof. induction s as [|a s IH]; cbn; [done|]. by rewrite IH. Qed.
Lemma parent_shorter path above :
  parent path = Some above → String.length above < String.length path.
Proof.
  unfold parent. rewrite <- !length_list_ascii.
  pose proof (trim_back_length (reverse (String.list_ascii_of_string path))) as Hl.
  rewrite length_reverse in Hl.
  destruct (trim_back (reverse _)) as [|a [|b r]] eqn:E; [done| |].
  { destruct (Ascii.eqb a slash); [done|]. intros [= <-]. cbn in *. lia. }
  intros [= <-]. rewrite String.list_ascii_of_string_of_list_ascii, length_reverse.
  destruct (Ascii.eqb a slash) eqn:Ea; [by discriminate (trim_back_head _ _ _ E Ea)|].
  change (length (trim_back (drop_component (b :: r))) < length (String.list_ascii_of_string path)).
  pose proof (trim_back_length (drop_component (b :: r))). pose proof (drop_component_length (b :: r)).
  cbn [length] in *. lia.
Qed.

Lemma ancestors_from_enough n m path :
  String.length path ≤ n → String.length path ≤ m → ancestors_from n path = ancestors_from m path.
Proof.
  revert m path. induction n as [|n IH]; intros m path Hn Hm.
  - destruct m as [|m]; [done|]. cbn. destruct (parent path) as [above|] eqn:E; [|done].
    apply parent_shorter in E. lia.
  - destruct m as [|m]; cbn; (destruct (parent path) as [above|] eqn:E; [apply parent_shorter in E|done]);
      [lia|]. f_equal. apply IH; lia.
Qed.
(** The bound suffices. *)
Lemma ancestors_equation path :
  ancestors path = path :: match parent path with Some above => ancestors above | None => [] end.
Proof.
  unfold ancestors. destruct (String.length path) as [|n] eqn:El; cbn.
  - destruct (parent path) as [above|] eqn:E; [|done]. apply parent_shorter in E. lia.
  - destruct (parent path) as [above|] eqn:E; [|done]. f_equal.
    apply parent_shorter in E. apply ancestors_from_enough; lia.
Qed.
Lemma ancestors_chars p path above :
  all_chars p path = true → above ∈ ancestors path → all_chars p above = true.
Proof.
  unfold ancestors. generalize (String.length path). intros n. revert path.
  induction n as [|n IH]; intros path Hp; cbn.
  - by intros ->%list_elem_of_singleton.
  - intros [->|Ha]%elem_of_cons; [done|]. destruct (parent path) as [up|] eqn:E; [|set_solver].
    eapply IH; [|exact Ha]. by eapply parent_chars.
Qed.

(** *** What a profile and a list of options grant *)

Definition grants_root (root : string) (s : scope) : scope :=
  reading root (fold_right passing s (tail (ancestors root))).

Lemma elem_of_tail {A} (x : A) l : x ∈ tail l → x ∈ l.
Proof. destruct l; [done|]. cbn. by right. Qed.

Lemma part_root root :
  all_chars literal root = true → part (read_rules root) (grants_root root).
Proof.
  intros Hr. unfold read_rules. apply (part_app _ (reading root) _ (λ s, fold_right passing s _)).
  - eapply (part_quoted _ _ _ [Open; Word "allow"; Word "file-read*"; Open; Word "subpath"]);
      [by apply all_chars_forall| |by intros].
    intros rest. cbn. by destruct (lex (InQuotes []) rest).
  - apply part_fold. intros above Ha%elem_of_tail. apply (ancestors_chars _ _ _ Hr), all_chars_forall in Ha.
    eapply (part_quoted _ _ _ [Open; Word "allow"; Word "file-read*"; Open; Word "literal"]);
      [done| |by intros].
    intros rest. cbn. by destruct (lex (InQuotes []) rest).
Qed.

Section grants.
Context (self : SandboxProfile).

Definition granted (command : list string) (passages : list string) : scope :=
  {| sc_reads := read_paths self; sc_passages := passages;
     sc_writes := if sp_allow_workspace_write self then [sp_workspace_root self] else [];
     sc_network := sp_allow_network self; sc_command := command |}.

Lemma fold_passing l s : fold_right passing s l =
  {| sc_reads := sc_reads s; sc_passages := l ++ sc_passages s; sc_writes := sc_writes s;
     sc_network := sc_network s; sc_command := sc_command s |}.
Proof. induction l as [|x l IH]; cbn; [by destruct s|]. by rewrite IH. Qed.
Lemma fold_roots l s : fold_right grants_root s l =
  {| sc_reads := l ++ sc_reads s;
     sc_passages := concat (map (λ root, tail (ancestors root)) l) ++ sc_passages s;
     sc_writes := sc_writes s; sc_network := sc_network s; sc_command := sc_command s |}.
Proof.
  induction l as [|x l IH]; cbn [fold_right]; [by destruct s|]. rewrite IH. unfold grants_root.
  rewrite fold_passing. unfold reading. cbn. by rewrite app_assoc.
Qed.

Lemma lex_preamble l :
  lex Between (String.list_ascii_of_string
    "(version 1) (deny default) (allow process*) (allow sysctl-read) (allow mach-lookup)" ++ l) =
  app seatbelt_preamble <$> lex Between l.
Proof. cbn. by destruct (lex Between l). Qed.

Lemma seatbelt_reads command :
  Forall (λ path, all_chars literal path = true) (read_paths self) →
  seatbelt ("-p" :: macos_profile self :: "--" :: command) =
    Some (granted command (concat (map (λ root, tail (ancestors root)) (read_paths self)))).
Proof.
  intros Hp. assert (Hpart : part (fold_right (λ root rest, read_rules root +:+ rest) EmptyString (read_paths self)
      +:+ (if sp_allow_workspace_write self
           then quoted " (allow file-write* (subpath " (sp_workspace_root self) else EmptyString)
      +:+ (if sp_allow_network self then " (allow network*)" else EmptyString))
    ((λ s, fold_right grants_root s (read_paths self)) ∘
     ((if sp_allow_workspace_write self then writing (sp_workspace_root self) else id) ∘
      (if sp_allow_network self then network true else id)))).
  { apply part_app; [|apply part_app].
    - apply part_fold. intros root Hr. apply part_root. by eapply Forall_forall in Hp.
    - destruct (sp_allow_workspace_write self); [|apply part_empty].
      eapply (part_quoted _ _ _ [Open; Word "allow"; Word "file-write*"; Open; Word "subpath"]);
        [apply all_chars_forall; by inversion Hp| |by intros].
      intros rest. cbn. by destruct (lex (InQuotes []) rest).
    - destruct (sp_allow_network self); [|apply part_empty].
      exists [Open; Word "allow"; Word "network*"; Close]. split; [|by intros].
      intros rest. cbn. by destruct (lex Between rest). }
  destruct Hpart as (tokens & Hl & Hr). specialize (Hl []). specialize (Hr command []).
  rewrite app_nil_r in Hl, Hr. unfold seatbelt, macos_profile. rewrite list_ascii_append, lex_preamble.
  cbn [String.eqb Ascii.eqb Bool.eqb andb negb]. rewrite Hl. cbn [lex ended fmap option_fmap option_map mbind option_bind].
  rewrite app_nil_r. change (take 20 (seatbelt_preamble ++ tokens)) with seatbelt_preamble.
  rewrite bool_decide_true by done. change (drop 20 (seatbelt_preamble ++ tokens)) with tokens.
  rewrite Hr. cbn [seatbelt_rules fmap option_fmap option_map]. f_equal. cbn [compose].
  rewrite fold_roots. unfold granted.
  destruct (sp_allow_workspace_write self), (sp_allow_network self); cbn; by rewrite ?app_nil_r.
Qed.

Lemma fold_reading l s : fold_right reading s l =
  {| sc_reads := l ++ sc_reads s; sc_passages := sc_passages s; sc_writes := sc_writes s;
     sc_network := sc_network s; sc_command := sc_command s |}.
Proof. induction l as [|x l IH]; cbn; [by destruct s|]. by rewrite IH. Qed.
Lemma bubblewrap_binds roots rest :
  bubblewrap (concat (map (λ root, ["--ro-bind"; root; root]) roots) ++ rest) =
    (λ s, fold_right reading s roots) <$> bubblewrap rest.
Proof.
  induction roots as [|root roots IH]; cbn; [by rewrite option_fmap_id|].
  rewrite String.eqb_refl. cbn. rewrite IH. by rewrite <- option_fmap_compose.
Qed.
Lemma bubblewrap_reads executable arguments :
  bubblewrap (la_arguments (linux_command self executable) ++ arguments) =
    Some {| sc_reads := sp_read_only_roots self ++ [sp_workspace_root self]; sc_passages := [];
            sc_writes := if sp_allow_workspace_write self then [sp_workspace_root self] else [];
            sc_network := sp_allow_network self; sc_command := executable :: arguments |}.
Proof.
  cbn. rewrite <- !app_assoc, bubblewrap_binds.
  destruct (sp_allow_workspace_write self), (sp_allow_network self);
    cbn; rewrite String.eqb_refl; cbn; by rewrite fold_reading.
Qed.

(** *** What a validated profile is *)

(** A directory that may be granted: not the root of the file system, under
    its name or another, and not written by way of another directory. *)
Definition grantable (canonicalize : string → option string) (path : string) : Prop :=
  is_absolute path = true ∧ parent path ≠ None ∧
  (∀ resolved, canonicalize path = Some resolved → parent resolved ≠ None) ∧
  ".." ∉ split_at slash path.

Lemma safe_path canonicalize path :
  unsafe canonicalize path = false ↔
  parent path ≠ None ∧ (∀ resolved, canonicalize path = Some resolved → parent resolved ≠ None) ∧
  ".." ∉ split_at slash path ∧ from_utf8 (String.list_ascii_of_string path) = true ∧
  all_chars (λ a, negb (forbidden a)) path = true.
Proof.
  unfold unsafe. rewrite !orb_false_iff, !negb_false_iff, bool_decide_eq_false.
  assert (Hd : existsb (String.eqb "..") (split_at slash path) = false ↔ ".." ∉ split_at slash path).
  { rewrite <- not_true_iff_false, existsb_true. setoid_rewrite String.eqb_eq. naive_solver. }
  rewrite Hd. destruct (canonicalize path) as [resolved|]; [rewrite bool_decide_eq_false|]; naive_solver.
Qed.

Lemma validate_Ok canonicalize :
  validate canonicalize self = Ok tt ↔
  Forall (λ path, is_absolute path = true ∧ unsafe canonicalize path = false) (read_paths self).
Proof.
  unfold validate. rewrite Forall_forall.
  destruct (existsb (λ path, negb (is_absolute path)) (read_paths self)) eqn:Ea.
  { split; [done|]. apply existsb_true in Ea as (path & Hp & Hn%negb_true_iff).
    intros Hall. destruct (Hall path Hp). congruence. }
  destruct (existsb (unsafe canonicalize) (read_paths self)) eqn:Eu.
  { split; [done|]. apply existsb_true in Eu as (path & Hp & Hn).
    intros Hall. destruct (Hall path Hp). congruence. }
  split; [intros _ path Hp|done]. rewrite existsb_false in Ea, Eu.
  split; [by apply negb_false_iff, Ea|by apply Eu].
Qed.
Lemma validate_grantable canonicalize :
  validate canonicalize self = Ok tt →
  Forall (λ path, grantable canonicalize path ∧ all_chars (λ a, negb (forbidden a)) path = true)
    (read_paths self).
Proof.
  intros Hv%validate_Ok. eapply Forall_impl; [exact Hv|].
  intros path [Ha (? & ? & ? & _ & ?)%safe_path]. done.
Qed.

Lemma literal_path path :
  all_chars (λ a, negb (forbidden a)) path = true →
  all_chars (λ a, negb (Ascii.eqb a backslash)) path = true → all_chars literal path = true.
Proof.
  rewrite !all_chars_forall. intros Hf Hb. eapply Forall_impl; [exact (proj2 (Forall_and _ _) (conj Hf Hb))|].
  intros a [Ha Hb']. unfold literal. rewrite Hb', andb_true_r. unfold forbidden in Ha.
  rewrite !negb_orb, !andb_true_iff in Ha. tauto.
Qed.

(** The command of a platform, as its enforcer reads it with the arguments. *)
Lemma platform_command_Ok canonicalize is_file platform executable arguments directory command :
  validate canonicalize self = Ok tt →
  platform_command is_file self platform executable = Ok command →
  is_file (la_program command) = true ∧ platform ≠ WindowsAppContainer ∧
  ∃ s, enforced {| la_program := la_program command; la_arguments := la_arguments command ++ arguments;
                   la_directory := directory |} = Some s ∧
    sc_reads s ≡ₚ read_paths self ∧
    sc_writes s = (if sp_allow_workspace_write self then [sp_workspace_root self] else []) ∧
    sc_network s = sp_allow_network self ∧ sc_command s = executable :: arguments ∧
    ∀ path, path ∈ sc_passages s → ∃ root, root ∈ read_paths self ∧ path ∈ tail (ancestors root).
Proof.
  intros Hv%validate_grantable. unfold platform_command, require_executable.
  destruct platform; [|destruct (is_file "/usr/bin/bwrap") eqn:Ef; cbn [negb]; [|done]|done].
  - destruct (existsb (λ path, negb (all_chars _ path)) (read_paths self)) eqn:Eb; [done|].
    destruct (is_file "/usr/bin/sandbox-exec") eqn:Ef; cbn [negb obind]; [|done]. intros [= <-].
    split_and!; [done..|]. eexists (granted (executable :: arguments) (concat _)).
    split; [|split_and!; [done..|]].
    + cbn [enforced la_program la_arguments]. apply (seatbelt_reads (executable :: arguments)).
      rewrite existsb_false in Eb. rewrite Forall_forall in Hv |- *. intros path Hp.
      apply literal_path; [by apply Hv|]. by apply negb_false_iff, Eb.
    + intros path Hp. cbn [sc_passages granted] in Hp. apply list_elem_of_In, in_concat in Hp as (l & Hl & Hp).
      apply in_map_iff in Hl as (root & <- & Hr). exists root. by rewrite !list_elem_of_In.
  - intros [= <-]. split_and!; [done..|]. eexists.
    split; [exact (bubblewrap_reads executable arguments)|]. split_and!; [|done..|set_solver].
    cbn [sc_reads]. apply Permutation_app_comm.
Qed.

End grants.

End Sandbox.
