(* ===== verification/Workspace.v ===== *)
(** * Workspace evidence

    Models [crates/bastet-core/src/workspace.rs]: a bounded snapshot of the
    files below a directory, and the receipt that says how many of them a run
    has changed.  The file system the scan reads is a tree; a directory or a
    file that cannot be read has no contents in it. *)
From S2P Require Import Prelude.

Definition MAX_FILES : nat := 10000.
Definition MAX_TOTAL_BYTES : Z := 256 * 1024 * 1024.
Definition U64 : Z := 2 ^ 64 - 1.

Inductive WorkspaceEvidenceError := InvalidRoot | SymbolicLink | LimitExceeded | Io.

(** A directory entry: what [file_type], [metadata], [read_dir] and reading the
    file answer. *)
Inductive fs_node :=
| FFile (metadata_len : option Z) (content : option string)
| FDir (entries : option (list (string * fs_node)))
| FSymlink
| FOther.

(** A path relative to the root, as its components. *)
Notation path := (list string).

Record WorkspaceSnapshot := {
  wsn_root : string;
  wsn_files : gmap path string;
}.

(** [entries.sort_by_key(file_name)]; the sort is stable. *)
Section sorting.
Context {A : Type}.
Fixpoint insert_named (e : string * A) (l : list (string * A)) : list (string * A) :=
  match l with
  | [] => [e]
  | x :: r => if String.leb e.1 x.1 then e :: l else x :: insert_named e r
  end.
Definition sort_named (l : list (string * A)) : list (string * A) := foldr insert_named [] l.
End sorting.

Section capture.
Context `{Digest}.

Notation scan_state := (gmap path string * Z)%type.
Notation scan := (outcome WorkspaceEvidenceError scan_state).

(** The part of the loop body after the tests for links and directories. *)
Definition capture_file (metadata_len : option Z) (content : option string) (p : path)
    (st : scan_state) : scan :=
  let '(files, total_bytes) := st in
  fail_if MAX_FILES <=? size files with LimitExceeded;;
  let? metadata_len := ok_or metadata_len Io in
  let? total_bytes :=
    ok_or (match checked_add U64 total_bytes metadata_len with
           | Some bytes => if (bytes <=? MAX_TOTAL_BYTES)%Z then Some bytes else None
           | None => None
           end) LimitExceeded in
  let? content := ok_or content Io in
  Ok (<[p := sha256 content]> files, total_bytes).

(** [capture_directory] on the entry at [p]; a directory's entries are visited
    in the order of their names. *)
Fixpoint capture_node (node : fs_node) (p : path) (st : scan_state) : scan :=
  match node with
  | FSymlink => Err SymbolicLink
  | FDir None => Err Io
  | FDir (Some entries) =>
      fold_try (λ st '(name, visit), visit (p ++ [name]) st) st
        (sort_named (map (λ e, (e.1, capture_node e.2)) entries))
  | FFile metadata_len content => capture_file metadata_len content p st
  | FOther => Err LimitExceeded
  end.

(** [is_absolute] and [is_dir] of the root, and the directory found there. *)
Definition capture (root : string) (absolute : bool) (tree : fs_node)
    : outcome WorkspaceEvidenceError WorkspaceSnapshot :=
  let is_dir := match tree with FDir _ => true | _ => false end in
  fail_if negb absolute || negb is_dir with InvalidRoot;;
  let? (files, _) := capture_node tree [] (∅, 0%Z) in
  Ok {| wsn_root := root; wsn_files := files |}.

(** [json!({..}).to_string()] renders the number of changed files. *)
Context (receipt_json : nat → string).

Definition changed_files (before after : gmap path string) : nat :=
  length (List.filter (λ '(p, digest), negb (bool_decide (after !! p = Some digest)))
            (map_to_list before))
  + length (List.filter (λ '(p, _), negb (bool_decide (is_Some (before !! p))))
              (map_to_list after)).

Definition write_receipt (self after : WorkspaceSnapshot)
    : outcome WorkspaceEvidenceError (option string) :=
  fail_if negb (bool_decide (self.(wsn_root) = after.(wsn_root))) with InvalidRoot;;
  let changed_files := changed_files self.(wsn_files) after.(wsn_files) in
  if changed_files =? 0 then Ok None else Ok (Some (receipt_json changed_files)).

(** ** Specification *)

(** The entries that are no directory, and unreadable directories, with their
    paths, in the order of the visit. *)
Fixpoint leaves (node : fs_node) (p : path) : list (path * fs_node) :=
  match node with
  | FDir (Some entries) =>
      concat (map (λ '(name, sub), sub (p ++ [name]))
        (sort_named (map (λ e, (e.1, leaves e.2)) entries)))
  | _ => [(p, node)]
  end.

(** A tree whose leaves are all readable files. *)
Definition readable (l : path * fs_node) : bool :=
  match l.2 with FFile (Some _) (Some _) => true | _ => false end.
Definition leaf_len (l : path * fs_node) : Z := match l.2 with FFile (Some n) _ => n | _ => 0%Z end.
Definition leaf_digest (l : path * fs_node) : path * string :=
  (l.1, match l.2 with FFile _ (Some c) => sha256 c | _ => EmptyString end).
Definition total_len (ls : list (path * fs_node)) : Z := foldr (λ l acc, leaf_len l + acc)%Z 0%Z ls.

(** Names in a directory are distinct and lengths are lengths. *)
Inductive well_formed : fs_node → Prop :=
| wf_file n c : (0 ≤ n ≤ U64)%Z → well_formed (FFile (Some n) c)
| wf_no_metadata c : well_formed (FFile None c)
| wf_unreadable : well_formed (FDir None)
| wf_dir entries : NoDup entries.*1 → Forall (λ e, well_formed e.2) entries →
    well_formed (FDir (Some entries))
| wf_link : well_formed FSymlink
| wf_other : well_formed FOther.

(** The visit of a tree is a loop over its leaves. *)
Definition visit_leaf (st : scan_state) (l : path * fs_node) : scan := capture_node l.2 l.1 st.

Definition is_leaf (l : path * fs_node) : bool :=
  match l.2 with FDir (Some _) => false | _ => true end.

(** ** Lemmas *)

Lemma fs_node_ind' (P : fs_node → Prop) :
  (∀ n c, P (FFile n c)) → P (FDir None) →
  (∀ entries, Forall (λ e, P e.2) entries → P (FDir (Some entries))) →
  P FSymlink → P FOther → ∀ node, P node.
Proof.
  intros Hf Hn Hd Hl Ho. fix IH 1. intros [n c|[entries|]| |]; [apply Hf| |apply Hn|apply Hl|apply Ho].
  apply Hd. induction entries as [|[name node] entries IHe]; constructor; [apply IH|apply IHe].
Qed.

Lemma insert_named_map {A B} (f : A → B) e l :
  map (λ x, (x.1, f x.2)) (insert_named e l) = insert_named (e.1, f e.2) (map (λ x, (x.1, f x.2)) l).
Proof.
  induction l as [|x l IH]; cbn; [done|]. destruct (String.leb _ _); cbn; [done|]. by rewrite IH.
Qed.

Lemma sort_named_map {A B} (f : A → B) l :
  sort_named (map (λ x, (x.1, f x.2)) l) = map (λ x, (x.1, f x.2)) (sort_named l).
Proof.
  unfold sort_named. induction l as [|e l IH]; cbn; [done|]. by rewrite IH, insert_named_map.
Qed.

Lemma insert_named_perm {A} (e : string * A) l : insert_named e l ≡ₚ e :: l.
Proof.
  induction l as [|x r IH]; cbn; [done|]. destruct (String.leb _ _); [done|]. rewrite IH. constructor.
Qed.

Lemma sort_named_perm {A} (l : list (string * A)) : sort_named l ≡ₚ l.
Proof. induction l as [|e l IH]; cbn; [done|]. by rewrite insert_named_perm, IH. Qed.

Lemma capture_node_leaves node p st :
  capture_node node p st = fold_try visit_leaf st (leaves node p).
Proof.
  revert p st. induction node as [n c| |entries IH| |] using fs_node_ind'; intros p st;
    cbn [leaves fold_try]; unfold visit_leaf; cbn [fst snd];
    try (destruct (capture_node _ _ _); done).
  cbn [capture_node]. rewrite !sort_named_map, map_map.
  assert (IH' : Forall (λ e, ∀ p st, capture_node e.2 p st = fold_try visit_leaf st (leaves e.2 p))
                  (sort_named entries)) by (by rewrite (sort_named_perm entries)).
  clear IH. revert st. induction IH' as [|e l He _ IHl]; intros st; cbn; [done|].
  rewrite fold_try_app, <- He. by destruct (capture_node _ _ _); cbn.
Qed.

Lemma leaves_are_leaves node p : forallb is_leaf (leaves node p) = true.
Proof.
  revert p. induction node as [n c| |entries IH| |] using fs_node_ind'; intros p; try done.
  cbn [leaves]. rewrite sort_named_map, map_map. apply forallb_true. intros l Hl.
  rewrite list_elem_of_In in Hl. apply in_concat in Hl as (ls & Hls & Hin).
  apply in_map_iff in Hls as ([name sub] & <- & Hsub). rewrite Forall_forall in IH.
  apply list_elem_of_In in Hsub. rewrite (sort_named_perm entries) in Hsub.
  specialize (IH _ Hsub (p ++ [name])). rewrite forallb_true in IH. apply IH.
  by apply list_elem_of_In.
Qed.

(** A leaf is accepted when it is a readable file within the limits. *)
Lemma visit_leaf_ok files total p n st' :
  is_leaf (p, n) = true → (0 ≤ leaf_len (p, n))%Z → (0 ≤ total)%Z →
  visit_leaf (files, total) (p, n) = Ok st' ↔
  readable (p, n) = true ∧ S (size files) ≤ MAX_FILES ∧
  (total + leaf_len (p, n) ≤ MAX_TOTAL_BYTES)%Z ∧
  st' = (<[p := (leaf_digest (p, n)).2]> files, (total + leaf_len (p, n))%Z).
Proof.
  unfold visit_leaf. destruct n as [[len|] [c|]|[entries|]| |]; cbn [capture_node fst snd]; intros Hl Hn Ht;
    try (split; [done|intros [? _]; done]).
  - unfold capture_file. rewrite fail_if_ok, Nat.leb_gt. cbn [ok_or obind]. rewrite obind_ok.
    setoid_rewrite ok_or_ok. unfold checked_add, leaf_len, leaf_digest in *. cbn [fst snd obind ok_or] in *.
    unfold MAX_TOTAL_BYTES, U64 in *. case_bool_decide; [|split; [by intros (_ & x & [=] & _)|lia]].
    destruct (Z.leb_spec (total + len) (256 * 1024 * 1024)); [|split; [by intros (_ & x & [=] & _)|lia]].
    split.
    + intros (? & x & [= <-] & [= <-]). split_and!; [done|lia|lia|done].
    + intros (_ & ? & _ & ->). split; [lia|]. by eexists.
  - split; [|by intros [? _]]. unfold capture_file. rewrite fail_if_ok. cbn [ok_or obind].
    rewrite obind_ok. by intros (_ & x & _ & [=]).
  - split; [|by intros [? _]]. unfold capture_file. rewrite fail_if_ok. by intros (_ & [=]).
  - split; [|by intros [? _]]. unfold capture_file. rewrite fail_if_ok. by intros (_ & [=]).
Qed.

Lemma total_len_nonneg (ls : list (path * fs_node)) : Forall (λ l, 0 ≤ leaf_len l)%Z ls → (0 ≤ total_len ls)%Z.
Proof. unfold total_len. induction 1; cbn in *; lia. Qed.

Lemma union_insert_leaf (p : path) (n : fs_node) (ls : list (path * fs_node)) (files : gmap path string) :
  p ∉ ls.*1 →
  list_to_map (map leaf_digest ls) ∪ <[p := (leaf_digest (p, n)).2]> files
  = list_to_map (map leaf_digest ((p, n) :: ls)) ∪ files.
Proof.
  intros Hp. cbn [map list_to_map foldr fst snd leaf_digest].
  rewrite <- insert_union_r, insert_union_l; [done|].
  apply not_elem_of_list_to_map. intros Hin. apply Hp.
  apply list_elem_of_fmap in Hin as (x & -> & Hx). apply elem_of_map in Hx as (l & Hlm & ->).
  apply list_elem_of_fmap. by exists l.
Qed.

(** The loop over leaves with distinct paths accepts exactly the readable files
    within the limits, and records each. *)
Lemma visit_leaves_ok ls files total files' total' :
  forallb is_leaf ls = true → Forall (λ l, 0 ≤ leaf_len l)%Z ls → NoDup ls.*1 →
  (∀ p, p ∈ ls.*1 → files !! p = None) →
  (0 ≤ total ≤ MAX_TOTAL_BYTES)%Z →
  fold_try visit_leaf (files, total) ls = Ok (files', total') ↔
  forallb readable ls = true ∧ (ls = [] ∨ size files + length ls ≤ MAX_FILES) ∧
  (total + total_len ls ≤ MAX_TOTAL_BYTES)%Z ∧
  files' = list_to_map (map leaf_digest ls) ∪ files ∧ total' = (total + total_len ls)%Z.
Proof.
  revert files total. induction ls as [|[p n] ls IH]; intros files total Hl Hn Hnd Hnew Ht.
  - cbn. rewrite (left_id_L ∅ (∪)), Z.add_0_r. split.
    + intros [= -> ->]. split_and!; try done; [by left|lia].
    + by intros (_ & _ & _ & -> & ->).
  - cbn [forallb fold_try] in *. apply andb_true_iff in Hl as [Hl0 Hl].
    apply Forall_cons in Hn as [Hn0 Hn]. apply NoDup_cons in Hnd as [Hp Hnd]. cbn in Hp.
    rewrite obind_ok. setoid_rewrite (λ st', visit_leaf_ok files total p n st' Hl0 Hn0 (proj1 Ht)).
    assert (Hsize : size (<[p := (leaf_digest (p, n)).2]> files) = S (size files))
      by (apply map_size_insert_None, Hnew; left).
    assert (Hrest : ∀ q, q ∈ ls.*1 → <[p := (leaf_digest (p, n)).2]> files !! q = None).
    { intros q Hq. rewrite lookup_insert_ne; [apply Hnew; by right|]. by intros ->. }
    assert (Htot : total_len ((p, n) :: ls) = (leaf_len (p, n) + total_len ls)%Z) by done.
    pose proof (total_len_nonneg _ Hn). rewrite andb_true_iff, Htot, <- union_insert_leaf by done. split.
    + intros (a & (Hr & Hs & Hle & ->) & Hrec). apply IH in Hrec; [|done..|lia].
      destruct Hrec as (? & Hsz & ? & -> & ->). split_and!; [done|done| |lia|done|lia].
      right. cbn [length]. destruct Hsz as [->|Hsz]; [cbn [length]; lia|rewrite Hsize in Hsz; lia].
    + intros ([Hr Hrs] & Hsz & Hle & -> & ->). destruct Hsz as [?|Hsz]; [done|]. cbn [length] in Hsz.
      eexists. split; [split_and!; [done|lia|lia|done]|]. apply IH; [done..|lia|].
      split_and!; [done|right; lia|lia|done|lia].
Qed.

Lemma leaves_dir entries p :
  leaves (FDir (Some entries)) p
  = concat (map (λ e, leaves e.2 (p ++ [e.1])) (sort_named entries)).
Proof. cbn [leaves]. by rewrite sort_named_map, map_map. Qed.

Lemma leaves_prefix node p l : l ∈ leaves node p → ∃ q, l.1 = p ++ q.
Proof.
  revert p. induction node as [n c| |entries IH| |] using fs_node_ind'; intros p;
    try (intros ->%list_elem_of_singleton; exists []; by rewrite app_nil_r).
  rewrite leaves_dir, list_elem_of_In, in_concat. intros (ls & Hls & Hin).
  apply in_map_iff in Hls as (e & <- & He). apply list_elem_of_In in He, Hin.
  rewrite (sort_named_perm entries) in He. rewrite Forall_forall in IH.
  destruct (IH e He _ Hin) as [q ->]. exists (e.1 :: q). by rewrite <- app_assoc.
Qed.

Lemma leaves_well_formed node p :
  well_formed node → NoDup (leaves node p).*1 ∧ Forall (λ l, 0 ≤ leaf_len l)%Z (leaves node p).
Proof.
  revert p. induction node as [n c| |entries IH| |] using fs_node_ind'; intros p Hw;
    try (split; [apply NoDup_singleton|apply Forall_singleton; inversion Hw; cbn; lia]).
  rewrite leaves_dir. inversion Hw as [| | |? Hnd Hsub| |]; subst.
  assert (Hnd' : NoDup (sort_named entries).*1) by by rewrite (sort_named_perm entries).
  assert (Hall : Forall (λ e, ∀ p, NoDup (leaves e.2 p).*1 ∧
      Forall (λ l, 0 ≤ leaf_len l)%Z (leaves e.2 p)) (sort_named entries)).
  { rewrite (sort_named_perm entries). rewrite Forall_forall in *. intros e He q.
    apply IH; auto. }
  clear IH Hnd Hsub Hw. induction (sort_named entries) as [|e l IHl]; [by split; constructor|].
  apply Forall_cons in Hall as [He Hall]. apply NoDup_cons in Hnd' as [Hn Hnd'].
  destruct (IHl Hnd' Hall) as [Hd Hl], (He (p ++ [e.1])) as [Hed Hel]. cbn [map concat].
  rewrite fmap_app. split; [|by apply Forall_app]. apply NoDup_app. split_and!; [done| |done].
  intros q Hq Hq'. apply list_elem_of_fmap in Hq as (x & -> & Hx).
  apply leaves_prefix in Hx as [r Er]. apply list_elem_of_fmap in Hq' as (y & Ey & Hy).
  rewrite list_elem_of_In, in_concat in Hy. destruct Hy as (ls & Hls & Hy).
  apply in_map_iff in Hls as (e' & <- & He'). apply list_elem_of_In in He', Hy.
  apply leaves_prefix in Hy as [r' Er']. rewrite Er, Er', <- !app_assoc in Ey.
  apply app_inv_head in Ey. simplify_eq/=. apply Hn, list_elem_of_fmap. by exists e'.
Qed.

(** Counting the changes. *)
Lemma changed_files_0 (before after : gmap path string) :
  changed_files before after = 0 ↔ before = after.
Proof.
  unfold changed_files. rewrite Nat.eq_add_0, !length_zero_iff_nil. split.
  - intros [Hb Ha]. apply map_eq. intros p.
    destruct (before !! p) as [d|] eqn:Eb; symmetry.
    + destruct (decide (after !! p = Some d)) as [|Hne]; [done|exfalso].
      eapply (not_elem_of_nil (p, d)). rewrite <- Hb. apply elem_of_filter_bool.
      rewrite elem_of_map_to_list. by rewrite bool_decide_false.
    + apply eq_None_not_Some. intros [d Ed].
      eapply (not_elem_of_nil (p, d)). rewrite <- Ha. apply elem_of_filter_bool.
      rewrite elem_of_map_to_list, Eb. by rewrite bool_decide_false by apply is_Some_None.
  - intros ->. split; apply elem_of_nil_inv; intros [p d] [Hin Hp]%elem_of_filter_bool;
      apply elem_of_map_to_list in Hin; rewrite Hin in Hp; by rewrite bool_decide_true in Hp.
Qed.

End capture.
