(* ===== verification/Graph.v ===== *)
(** * Workflow graphs and their validation

    Models the first part of [crates/bastet-core/src/graph.rs]: the graph data,
    [WorkflowGraph::validate] with its depth-first cycle search [visit], and
    [validate_research_join].  The main theorem is an equivalence: [validate]
    returns [Ok] exactly on the graphs that satisfy the declarative [wf_graph];
    [Cycle] is reported exactly for the cyclic ones, and the search always
    returns within a fuel of one more than the number of nodes. *)
From stdpp Require Import relations.
From S2P Require Import Prelude Policy Identity.

Inductive GraphNodeKind := Research | Join | Document.

Record GraphNode := {
  gn_id : GraphNodeId;
  gn_kind : GraphNodeKind;
  gn_role_id : RoleId;
  gn_title : string;
  gn_needs : list GraphNodeId;
}.

Record WorkflowGraph := {
  wg_decision_baseline_id : DecisionBaselineId;
  wg_nodes : list GraphNode;
}.

Inductive GraphError :=
| DuplicateNode | EmptyTitle | InvalidDependency | Cycle | InvalidResearchJoin
| InvalidExecution | InvalidOutput.

#[export] Instance GraphNodeKind_eq_dec : EqDecision GraphNodeKind.
Proof. solve_decision. Defined.
#[export] Instance GraphNode_eq_dec : EqDecision GraphNode.
Proof. solve_decision. Defined.
#[export] Instance GraphError_eq_dec : EqDecision GraphError.
Proof. solve_decision. Defined.

Definition node_ids (graph : WorkflowGraph) : list GraphNodeId :=
  map gn_id graph.(wg_nodes).

(** [self.nodes.iter().find(|node| node.id == id)]. *)
Definition find_node (graph : WorkflowGraph) (id : GraphNodeId) : option GraphNode :=
  List.find (λ node, bool_decide (node.(gn_id) = id)) graph.(wg_nodes).

(** The two hash sets of the search, [visiting] and [visited]. *)
Notation visit_state := (gset GraphNodeId * gset GraphNodeId)%type.

Fixpoint visit (fuel : nat) (graph : WorkflowGraph) (st : visit_state) (id : GraphNodeId)
    : outcome GraphError visit_state :=
  match fuel with
  | O => Diverge
  | S fuel =>
      let '(visiting, visited) := st in
      if bool_decide (id ∈ visited) then Ok (visiting, visited) else
      fail_if bool_decide (id ∈ visiting) with Cycle;;
      let visiting := {[id]} ∪ visiting in
      let? node := ok_or (find_node graph id) InvalidDependency in
      let? (visiting, visited) :=
        fold_try (visit fuel graph) (visiting, visited) node.(gn_needs) in
      Ok (visiting ∖ {[id]}, {[id]} ∪ visited)
  end.

Definition validate_research_join (graph : WorkflowGraph) : outcome GraphError unit :=
  let research :=
    List.filter (λ node, bool_decide (node.(gn_kind) = Research)) graph.(wg_nodes) in
  let joins := List.filter (λ node, bool_decide (node.(gn_kind) = Join)) graph.(wg_nodes) in
  fail_if negb (length research =? 2) || negb (length joins =? 1) with InvalidResearchJoin;;
  let research_ids := collect_set (map gn_id research) in
  let? join := expect (head joins) in
  let join_needs := collect_set join.(gn_needs) in
  fail_if bool_decide (join_needs ≠ research_ids)
          || existsb (λ node, negb (bool_decide (node.(gn_needs) = []))) research
    with InvalidResearchJoin;;
  Ok tt.

(** The recursion depth of [visit] is bounded by the number of nodes. *)
Definition visit_fuel (graph : WorkflowGraph) : nat := S (length graph.(wg_nodes)).

Definition validate_graph (graph : WorkflowGraph) : outcome GraphError unit :=
  let ids := collect_set (node_ids graph) in
  fail_if negb (size ids =? length graph.(wg_nodes)) with DuplicateNode;;
  for_each (λ node,
      fail_if blank node.(gn_title) with EmptyTitle;;
      fail_if existsb (λ dependency, bool_decide (dependency = node.(gn_id))
                                     || negb (bool_decide (dependency ∈ ids)))
                      node.(gn_needs)
        with InvalidDependency;;
      Ok tt) graph.(wg_nodes) ?;
  fold_try (visit (visit_fuel graph) graph) (∅, ∅) (node_ids graph) ?;
  validate_research_join graph.

(** ** Specification *)

(** [a] needs [b]. *)
Definition depends (graph : WorkflowGraph) (a b : GraphNodeId) : Prop :=
  ∃ node, find_node graph a = Some node ∧ b ∈ node.(gn_needs).

Definition cyclic (graph : WorkflowGraph) : Prop := ∃ a, tc (depends graph) a a.

(** Every dependency names another node of the graph. *)
Definition closed_needs (graph : WorkflowGraph) : Prop :=
  ∀ node d, node ∈ graph.(wg_nodes) → d ∈ node.(gn_needs) →
    d ≠ node.(gn_id) ∧ d ∈ node_ids graph.

(** Two research branches without dependencies and one join of exactly both. *)
Definition research_join (graph : WorkflowGraph) : Prop :=
  ∃ left right join,
    List.filter (λ node, bool_decide (node.(gn_kind) = Research)) graph.(wg_nodes)
      = [left; right] ∧
    List.filter (λ node, bool_decide (node.(gn_kind) = Join)) graph.(wg_nodes) = [join] ∧
    (∀ d, d ∈ join.(gn_needs) ↔ d = left.(gn_id) ∨ d = right.(gn_id)) ∧
    left.(gn_needs) = [] ∧ right.(gn_needs) = [].

Record wf_graph (graph : WorkflowGraph) : Prop := {
  wf_nodup : NoDup (node_ids graph);
  wf_titles : ∀ node, node ∈ graph.(wg_nodes) → blank node.(gn_title) = false;
  wf_needs : closed_needs graph;
  wf_acyclic : ¬ cyclic graph;
  wf_join : research_join graph;
}.

(** ** The cycle search *)

Lemma find_node_Some graph id node :
  find_node graph id = Some node → node ∈ graph.(wg_nodes) ∧ node.(gn_id) = id.
Proof. apply find_key_Some. Qed.

Lemma elem_of_node_ids graph id :
  id ∈ node_ids graph ↔ ∃ node, node ∈ graph.(wg_nodes) ∧ node.(gn_id) = id.
Proof. unfold node_ids. rewrite elem_of_map. firstorder congruence. Qed.

Lemma find_node_is_Some graph id : is_Some (find_node graph id) ↔ id ∈ node_ids graph.
Proof.
  unfold find_node. rewrite find_is_Some, elem_of_node_ids.
  split; intros (n & ? & H); exists n; rewrite bool_decide_eq_true in *; eauto.
Qed.

Lemma find_node_unique graph node :
  NoDup (node_ids graph) → node ∈ graph.(wg_nodes) →
  find_node graph node.(gn_id) = Some node.
Proof. intros. by apply (find_key gn_id). Qed.

Section visit.
Context (graph : WorkflowGraph).
Context (Hclosed : closed_needs graph).
Notation dep := (depends graph).
Notation ids := (collect_set (node_ids graph)).

(** No infinite chain of needs starts at the node. *)
Notation grounded := (Acc (λ b a, dep a b)).
Notation all_grounded s := (∀ v, v ∈ (s : gset GraphNodeId) → grounded v).

Definition visit_post (st : visit_state) (targets : list GraphNodeId)
    (r : outcome GraphError visit_state) : Prop :=
  match r with
  | Ok (visiting', visited') =>
      visiting' = st.1 ∧ st.2 ⊆ visited' ∧ (∀ t, t ∈ targets → t ∈ visited') ∧
      (all_grounded st.2 → all_grounded visited')
  | Err e => e = Cycle ∧ cyclic graph
  | _ => False
  end.

Definition visit_pre (fuel : nat) (visiting : gset GraphNodeId) (id : GraphNodeId) : Prop :=
  id ∈ node_ids graph ∧ visiting ⊆ ids ∧ (∀ a, a ∈ visiting → tc dep a id) ∧
  size (ids ∖ visiting) < fuel.

Lemma fold_visit_post fuel targets st :
  (∀ st' id, visit_pre fuel st'.1 id → visit_post st' [id] (visit fuel graph st' id)) →
  (∀ t, t ∈ targets → visit_pre fuel st.1 t) →
  visit_post st targets (fold_try (visit fuel graph) st targets).
Proof.
  intros Hvisit. revert st. induction targets as [|t targets IH]; intros [vi vd] Hpre; simpl.
  { split_and!; [done|done|by intros t ?%elem_of_nil|done]. }
  assert (Ht := Hvisit (vi, vd) t (Hpre t ltac:(left))).
  destruct (visit fuel graph (vi, vd) t) as [[vi1 vd1]| | |]; [|exact Ht..].
  destruct Ht as (-> & Hsub & Hin & Hg).
  cbn [obind fst snd] in *. specialize (IH (vi, vd1) (λ t' Ht', Hpre t' ltac:(by right))).
  destruct (fold_try _ _ _) as [[vi2 vd2]| | |]; [|exact IH..].
  destruct IH as (-> & Hsub2 & Hin2 & Hg2).
  split_and!; [done|exact (transitivity Hsub Hsub2)| |intros H0; exact (Hg2 (Hg H0))].
  intros u [->|Hu]%elem_of_cons; [|exact (Hin2 u Hu)]. apply Hsub2, Hin. left.
Qed.

Lemma visit_pre_step fuel visiting id node d :
  visit_pre (S fuel) visiting id → id ∉ visiting → find_node graph id = Some node →
  d ∈ node.(gn_needs) → visit_pre fuel ({[id]} ∪ visiting) d.
Proof.
  intros (Hid & Hsub & Hpath & Hsize) Hnew Hfind Hd.
  pose proof (find_node_Some _ _ _ Hfind) as [Hnode <-].
  assert (Hdep : dep (gn_id node) d) by (exists node; done).
  destruct (Hclosed node d Hnode Hd) as [_ Hdin].
  assert (gn_id node ∈ ids) by by apply elem_of_collect_set.
  split_and!; [done|set_solver| |].
  - intros a [->%elem_of_singleton|Ha]%elem_of_union; [by apply tc_once|].
    eapply tc_r; eauto.
  - assert (Hlt : size (ids ∖ ({[gn_id node]} ∪ visiting)) < size (ids ∖ visiting)).
    { apply subset_size. split; [set_solver|]. intros Hc. specialize (Hc (gn_id node)). set_solver. }
    lia.
Qed.

Lemma visit_correct fuel st id :
  visit_pre fuel st.1 id → visit_post st [id] (visit fuel graph st id).
Proof.
  revert st id. induction fuel as [|fuel IH]; intros [vi vd] id Hpre; [destruct Hpre; lia|].
  simpl in *. case_bool_decide as Hvd; [set_solver|].
  case_bool_decide as Hvi.
  { simpl. split; [done|]. exists id. by apply Hpre. }
  assert (Hin := proj1 Hpre). apply find_node_is_Some in Hin as [node Hnode].
  rewrite Hnode. simpl.
  pose proof (fold_visit_post fuel (gn_needs node) ({[id]} ∪ vi, vd) IH) as Hfold.
  specialize (Hfold ltac:(eauto using visit_pre_step)).
  destruct (fold_try _ _ _) as [[vi' vd']| | |]; [|exact Hfold..].
  destruct Hfold as (-> & Hsub & Hneeds & Hg). cbn [obind visit_post fst snd] in *. split_and!.
  - clear -Hvi. set_solver.
  - clear -Hsub. set_solver.
  - clear. set_solver.
  - intros H0 v [->%elem_of_singleton|Hv]%elem_of_union; [|by apply Hg].
    constructor. intros b (n & Hn & Hb). simplify_eq. apply Hg; auto.
Qed.

Lemma grounded_not_cyclic a : grounded a → ¬ tc dep a a.
Proof.
  assert (Hstep : ∀ x, Acc (λ b a, tc dep a b) x → ¬ tc dep x x).
  { intros x Hx. induction Hx as [x _ IH]. intros Hc. by apply (IH x Hc). }
  intros Ha. apply Hstep. induction Ha as [x Hx IH]. constructor. intros b Hb.
  assert (∃ y, dep x y ∧ rtc dep y b) as (y & Hxy & Hyb).
  { destruct Hb as [x y ?|x y z ? ?]; eauto using rtc_refl, tc_rtc. }
  specialize (IH y Hxy). apply rtc_tc in Hyb as [->|Hyb]; [done|].
  by apply IH.
Qed.

Lemma visit_pre_init t : t ∈ node_ids graph → visit_pre (visit_fuel graph) ∅ t.
Proof.
  intros Ht. split_and!; [done|set_solver..|].
  unfold visit_fuel. rewrite difference_empty_L.
  pose proof (length_collect_set_le (node_ids graph)) as Hle.
  unfold node_ids at 2 in Hle. rewrite length_map in Hle. lia.
Qed.

(** The search over all nodes: [Ok] exactly on acyclic graphs, [Cycle] on the
    others, and no other outcome. *)
Lemma search_correct :
  match fold_try (visit (visit_fuel graph) graph) (∅, ∅) (node_ids graph) with
  | Ok _ => ¬ cyclic graph
  | Err e => e = Cycle ∧ cyclic graph
  | _ => False
  end.
Proof.
  pose proof (fold_visit_post (visit_fuel graph) (node_ids graph) (∅, ∅)
                (visit_correct (visit_fuel graph))) as H.
  destruct (fold_try _ _ _) as [[vi vd]|e| |]; simpl in H.
  - destruct (H visit_pre_init) as (_ & _ & Hall & Hg).
    intros [a Ha]. apply (grounded_not_cyclic a); [|done].
    apply Hg; [intros v Hv; exfalso; exact (not_elem_of_empty (C:=gset GraphNodeId) v Hv)|]. apply Hall.
    assert (∃ b, dep a b) as (b & node & Hn & _). { by inversion Ha; subst; eexists. }
    apply find_node_is_Some. eauto.
  - by apply H, visit_pre_init.
  - apply H, visit_pre_init.
  - apply H, visit_pre_init.
Qed.
End visit.

(** In an acyclic graph with closed needs, no chain of needs is infinite. *)
Lemma acyclic_grounded graph a :
  closed_needs graph → ¬ cyclic graph → a ∈ node_ids graph →
  Acc (λ b a, depends graph a b) a.
Proof.
  intros Hc Hac Ha.
  pose proof (fold_visit_post graph (visit_fuel graph) (node_ids graph) (∅, ∅)
                (visit_correct graph Hc (visit_fuel graph)) (visit_pre_init graph Hc)) as Hp.
  destruct (fold_try _ _ _) as [[vi vd]|e| |]; [|by destruct Hp..].
  destruct Hp as (_ & _ & Hall & Hg). apply Hg; [|by apply Hall].
  intros v Hv; exfalso; exact (not_elem_of_empty (C:=gset GraphNodeId) v Hv).
Qed.

(** ** Guards of [validate] *)

Lemma length_two {A} (l : list A) : length l = 2 ↔ ∃ x y, l = [x; y].
Proof.
  split; [|by intros (? & ? & ->)]. destruct l as [|x [|y [|]]]; intros [=]; eauto.
Qed.

Lemma length_one {A} (l : list A) : length l = 1 ↔ ∃ x, l = [x].
Proof. split; [|by intros (? & ->)]. destruct l as [|x [|]]; intros [=]; eauto. Qed.

Lemma validate_research_join_ok graph :
  validate_research_join graph = Ok tt ↔ research_join graph.
Proof.
  unfold validate_research_join, research_join.
  set (R := List.filter (λ node, bool_decide (gn_kind node = Research)) (wg_nodes graph)).
  set (J := List.filter (λ node, bool_decide (gn_kind node = Join)) (wg_nodes graph)).
  rewrite fail_if_ok, orb_false_iff, !negb_false_iff, !Nat.eqb_eq, length_two, length_one.
  split.
  - intros [[(l & r & ->) [j ->]] H]. cbn [expect head obind] in H.
    rewrite fail_if_ok, orb_false_iff, bool_decide_eq_false, existsb_false in H.
    destruct H as [[Hset Hneeds] _]. apply dec_stable in Hset.
    assert (Hn : ∀ n, n ∈ [l; r] → gn_needs n = []).
    { intros n Hin. specialize (Hneeds n Hin).
      by rewrite negb_false_iff, bool_decide_eq_true in Hneeds. }
    exists l, r, j. split_and!; [done|done| |apply Hn; set_solver..].
    intros d. rewrite <- elem_of_collect_set, Hset, elem_of_collect_set. simpl. set_solver.
  - intros (l & r & j & -> & -> & Hj & Hl & Hr). split; [eauto|]. cbn [expect head obind].
    rewrite fail_if_ok, orb_false_iff, bool_decide_eq_false, existsb_false.
    split_and!; [|intros n Hin|done].
    + intros H. apply H, set_eq. intros d. rewrite !elem_of_collect_set, Hj. simpl. set_solver.
    + rewrite negb_false_iff, bool_decide_eq_true.
      apply elem_of_cons in Hin as [->|Hin%list_elem_of_singleton]; [done|by subst].
Qed.

Lemma node_checks_ok graph :
  Forall (λ node,
      (fail_if blank node.(gn_title) with EmptyTitle;;
       fail_if existsb (λ dependency, bool_decide (dependency = node.(gn_id))
                 || negb (bool_decide (dependency ∈ collect_set (node_ids graph))))
                 node.(gn_needs)
         with InvalidDependency;;
       Ok tt) = Ok tt) graph.(wg_nodes)
  ↔ (∀ node, node ∈ graph.(wg_nodes) → blank node.(gn_title) = false) ∧ closed_needs graph.
Proof.
  rewrite Forall_forall. split.
  - intros H. split.
    + intros node Hn. specialize (H node Hn). rewrite fail_if_ok in H. by destruct H.
    + intros node d Hn Hd. specialize (H node Hn).
      rewrite !fail_if_ok, existsb_false in H. destruct H as (_ & H & _).
      specialize (H d Hd). rewrite orb_false_iff, negb_false_iff, bool_decide_eq_true,
        bool_decide_eq_false, elem_of_collect_set in H. done.
  - intros [Ht Hc] node Hn. rewrite !fail_if_ok, existsb_false.
    split_and!; [by apply Ht|intros d Hd|done]. destruct (Hc node d Hn Hd).
    by rewrite orb_false_iff, negb_false_iff, bool_decide_eq_true, bool_decide_eq_false,
      elem_of_collect_set.
Qed.

Lemma distinct_ids_ok graph :
  negb (size (collect_set (node_ids graph)) =? length graph.(wg_nodes)) = false
  ↔ NoDup (node_ids graph).
Proof.
  rewrite negb_false_iff, Nat.eqb_eq, <- size_collect_set. unfold node_ids.
  by rewrite length_map.
Qed.

Lemma validate_graph_ok graph : validate_graph graph = Ok tt ↔ wf_graph graph.
Proof.
  unfold validate_graph. rewrite fail_if_ok, distinct_ids_ok, obind_ok, ex_unit, for_each_ok,
    node_checks_ok, obind_ok.
  split.
  - intros (Hd & (Ht & Hc) & st & Hv & Hj). pose proof (search_correct graph Hc) as Hs.
    rewrite Hv in Hs. apply validate_research_join_ok in Hj. by constructor.
  - intros [Hd Ht Hc Ha Hj]. split_and!; [done..|]. pose proof (search_correct graph Hc) as Hs.
    destruct (fold_try _ _ _) as [st|e| |]; [|by destruct Hs..]. exists st.
    by rewrite validate_research_join_ok.
Qed.

Lemma validate_graph_returns graph : returns (validate_graph graph).
Proof.
  unfold validate_graph. apply returns_fail_if. intros _. apply returns_obind; [solve_returns|].
  intros [] H. rewrite for_each_ok, node_checks_ok in H. destruct H as [_ Hc].
  apply returns_obind.
  - pose proof (search_correct graph Hc) as Hs. by destruct (fold_try _ _ _).
  - intros st _. unfold validate_research_join. apply returns_fail_if. intros Hj.
    rewrite orb_false_iff, !negb_false_iff, !Nat.eqb_eq in Hj. destruct Hj as [_ Hj].
    apply length_one in Hj as [j ->]. cbn. by destruct (_ || _).
Qed.
#[export] Hint Resolve validate_graph_returns : bastet.

(** [Cycle] is reported exactly for graphs whose nodes pass the earlier guards
    and whose needs are cyclic. *)
Lemma validate_graph_cycle graph :
  validate_graph graph = Err Cycle ↔
  NoDup (node_ids graph) ∧
  (∀ node, node ∈ graph.(wg_nodes) → blank node.(gn_title) = false) ∧
  closed_needs graph ∧ cyclic graph.
Proof.
  unfold validate_graph.
  destruct (negb _) eqn:Hd.
  { split; [done|]. intros [H _]. apply distinct_ids_ok in H. congruence. }
  apply distinct_ids_ok in Hd.
  match goal with |- obind ?m _ = _ ↔ _ => destruct m as [[]|e| |] eqn:Hn end.
  - pose proof Hn as Hc. rewrite for_each_ok, node_checks_ok in Hc. destruct Hc as [Ht Hc].
    pose proof (search_correct graph Hc) as Hs. cbn [obind].
    destruct (fold_try _ _ _) as [st|e| |]; [|by destruct Hs; subst; cbn; intuition|done..].
    cbn [obind]. split; [|by intros (_ & _ & _ & ?)]. intros Hj. exfalso.
    unfold validate_research_join in Hj. repeat case_match; simplify_eq.
    destruct (head _); simpl in Hj; repeat case_match; simplify_eq.
  - cbn. split.
    + intros [=->]. exfalso. clear -Hn. generalize (collect_set (node_ids graph)) as ids, Hn.
      clear Hn. intros ids. induction (wg_nodes graph) as [|n l IH]; simpl; [done|].
      destruct (blank _); [done|]. by destruct (existsb _ (gn_needs n)).
    + intros (_ & Ht & Hc & _). exfalso.
      assert (Hf := proj2 (node_checks_ok graph) (conj Ht Hc)).
      rewrite <- for_each_ok with (u := tt) in Hf. congruence.
  - exfalso. assert (Hr : returns (@Panic GraphError unit)) by (rewrite <- Hn; solve_returns). done.
  - exfalso. assert (Hr : returns (@Diverge GraphError unit)) by (rewrite <- Hn; solve_returns). done.
Qed.
