(* ===== verification/Execution.v ===== *)
(** * Graph execution

    Models [GraphNodeOutput] and [GraphExecution] of
    [crates/bastet-core/src/graph.rs]: the per-node state machine with its
    claims, approval staging, terminal results, retry and restart, and the two
    fixed-point loops [block_dependents] and [retry_failed].

    A [&mut self] method is a function from the execution to its successor.
    Methods whose errors all precede the first assignment return an [outcome]
    of the new execution; [claim_ready] and [retry_failed], which can fail
    after they have assigned, return the execution they leave behind next to
    their result.  [Arguments] in braces are the digest of the [sha2] crate. *)
From S2P Require Import Prelude Policy Identity Graph.

Inductive GraphNodeState :=
| Pending | AwaitingApproval | Running | Succeeded | Failed | Cancelled | Blocked | Uncertain.

Record GraphNodeExecution := {
  ne_node_id : GraphNodeId;
  ne_state : GraphNodeState;
  ne_owner : option string;
  ne_revision : Z;
  ne_run_id : option RunId;
  ne_failure : option AdapterFailure;
}.

Definition MAX_NODE_OUTPUT_BYTES : Z := 256 * 1024.

Record GraphNodeOutput := {
  no_node_id : GraphNodeId;
  no_run_id : RunId;
  no_content_hash : string;
  no_markdown : string;
}.

Record GraphExecution := {
  ge_id : GraphRunId;
  ge_graph : WorkflowGraph;
  ge_nodes : list GraphNodeExecution;
  ge_outputs : list GraphNodeOutput;
  ge_restarted_from_execution_id : option GraphRunId;
  ge_revision : Z;
}.

#[export] Instance GraphNodeState_eq_dec : EqDecision GraphNodeState.
Proof. solve_decision. Defined.
#[export] Instance GraphNodeExecution_eq_dec : EqDecision GraphNodeExecution.
Proof. solve_decision. Defined.
#[export] Instance GraphNodeOutput_eq_dec : EqDecision GraphNodeOutput.
Proof. solve_decision. Defined.

(** Assignments through [&mut self]. *)
Definition set_nodes (self : GraphExecution) (nodes : list GraphNodeExecution) : GraphExecution :=
  {| ge_id := self.(ge_id); ge_graph := self.(ge_graph); ge_nodes := nodes;
     ge_outputs := self.(ge_outputs);
     ge_restarted_from_execution_id := self.(ge_restarted_from_execution_id);
     ge_revision := self.(ge_revision) |}.
Definition set_outputs (self : GraphExecution) (outputs : list GraphNodeOutput) : GraphExecution :=
  {| ge_id := self.(ge_id); ge_graph := self.(ge_graph); ge_nodes := self.(ge_nodes);
     ge_outputs := outputs;
     ge_restarted_from_execution_id := self.(ge_restarted_from_execution_id);
     ge_revision := self.(ge_revision) |}.
(** [self.revision += 1]. *)
Definition bump (self : GraphExecution) : GraphExecution :=
  {| ge_id := self.(ge_id); ge_graph := self.(ge_graph); ge_nodes := self.(ge_nodes);
     ge_outputs := self.(ge_outputs);
     ge_restarted_from_execution_id := self.(ge_restarted_from_execution_id);
     ge_revision := u64_incr self.(ge_revision) |}.

(** The closures [|node| node.node_id == node_id] and the state tests. *)
Definition has_id (id : GraphNodeId) (n : GraphNodeExecution) : bool :=
  bool_decide (n.(ne_node_id) = id).
Definition in_state (s : GraphNodeState) (n : GraphNodeExecution) : bool :=
  bool_decide (n.(ne_state) = s).
Definition find_execution (self : GraphExecution) (id : GraphNodeId)
    : option GraphNodeExecution :=
  List.find (has_id id) self.(ge_nodes).
Definition execution_ids (nodes : list GraphNodeExecution) : list GraphNodeId :=
  map ne_node_id nodes.
(** [node_id -> state], collected in iteration order. *)
Definition state_map (nodes : list GraphNodeExecution) : gmap GraphNodeId GraphNodeState :=
  collect_map (map (λ n, (n.(ne_node_id), n.(ne_state))) nodes).

(** ** Node outputs *)

Section outputs.
Context `{Digest}.

Definition output_hash (content : string) : string := content_digest content.

Definition output_create (node_id : GraphNodeId) (run_id : RunId) (markdown : string)
    : outcome GraphError GraphNodeOutput :=
  fail_if blank markdown || (MAX_NODE_OUTPUT_BYTES <? str_len markdown)%Z with InvalidOutput;;
  Ok {| no_node_id := node_id; no_run_id := run_id;
        no_content_hash := output_hash markdown; no_markdown := markdown |}.

Definition output_validate (self : GraphNodeOutput) : outcome GraphError unit :=
  fail_if blank self.(no_markdown)
          || (MAX_NODE_OUTPUT_BYTES <? str_len self.(no_markdown))%Z
          || negb (bool_decide (self.(no_content_hash) = output_hash self.(no_markdown)))
    with InvalidOutput;;
  Ok tt.

End outputs.

Definition execution_state_is_valid (execution : GraphNodeExecution) : bool :=
  let has_owner := match execution.(ne_owner) with
                   | Some owner => negb (blank owner)
                   | None => false
                   end in
  let owner_is_none := bool_decide (execution.(ne_owner) = None) in
  match execution.(ne_state) with
  | Pending | Blocked => owner_is_none
  | AwaitingApproval =>
      has_owner && bool_decide (is_Some execution.(ne_run_id))
      && bool_decide (execution.(ne_failure) = None)
  | Running => bool_decide (is_Some execution.(ne_owner))
  | Succeeded | Failed | Cancelled => bool_decide (is_Some execution.(ne_owner))
  | Uncertain => owner_is_none
  end.

(** [GraphExecution::start] *)
Definition pending_node (node : GraphNode) : GraphNodeExecution :=
  {| ne_node_id := node.(gn_id); ne_state := Pending; ne_owner := None; ne_revision := 0;
     ne_run_id := None; ne_failure := None |}.

Definition start (id : GraphRunId) (graph : WorkflowGraph) : outcome GraphError GraphExecution :=
  validate_graph graph ?;
  Ok {| ge_id := id; ge_graph := graph; ge_nodes := map pending_node graph.(wg_nodes);
        ge_outputs := []; ge_restarted_from_execution_id := None; ge_revision := 0 |}.

Section validate.
Context `{Digest}.

Definition validate_execution (self : GraphExecution) : outcome GraphError unit :=
  validate_graph self.(ge_graph) ?;
  fail_if negb (length self.(ge_nodes) =? length self.(ge_graph).(wg_nodes))
          || negb (size (collect_set (execution_ids self.(ge_nodes)))
                   =? length self.(ge_nodes))
          || existsb (λ execution,
                 negb (existsb (λ node, bool_decide (node.(gn_id) = execution.(ne_node_id)))
                               self.(ge_graph).(wg_nodes))
                 || negb (execution_state_is_valid execution)) self.(ge_nodes)
    with InvalidExecution;;
  let output_runs := collect_set (map no_run_id self.(ge_outputs)) in
  fail_if negb (size output_runs =? length self.(ge_outputs))
          || existsb (λ output,
                 negb (is_ok (output_validate output))
                 || negb (existsb (λ node, bool_decide (node.(gn_id) = output.(no_node_id)))
                                  self.(ge_graph).(wg_nodes))) self.(ge_outputs)
    with InvalidOutput;;
  Ok tt.

Definition find_output (self : GraphExecution) (node_id : GraphNodeId) : option GraphNodeOutput :=
  let current_run_id :=
    match find_execution self node_id with
    | Some node => node.(ne_run_id)
    | None => None
    end in
  match current_run_id with
  | Some run_id =>
      List.find (λ output, bool_decide (output.(no_node_id) = node_id)
                           && bool_decide (output.(no_run_id) = run_id)) self.(ge_outputs)
  | None =>
      List.find (λ output, bool_decide (output.(no_node_id) = node_id))
                (reverse self.(ge_outputs))
  end.

Definition restart_as (self : GraphExecution) (id : GraphRunId)
    : outcome GraphError GraphExecution :=
  validate_execution self ?;
  fail_if existsb (λ node, negb (in_state Succeeded node)) self.(ge_nodes)
          || forallb (λ node, bool_decide (is_Some (find_output self node.(ne_node_id))))
                     self.(ge_nodes)
    with InvalidOutput;;
  let? restarted := start id self.(ge_graph) in
  Ok {| ge_id := restarted.(ge_id); ge_graph := restarted.(ge_graph);
        ge_nodes := restarted.(ge_nodes); ge_outputs := restarted.(ge_outputs);
        ge_restarted_from_execution_id := Some self.(ge_id);
        ge_revision := restarted.(ge_revision) |}.

Definition record_output (self : GraphExecution) (output : GraphNodeOutput)
    : outcome GraphError GraphExecution :=
  output_validate output ?;
  fail_if existsb (λ existing, bool_decide (existing.(no_run_id) = output.(no_run_id)))
                  self.(ge_outputs)
          || match find_execution self output.(no_node_id) with
             | None => true
             | Some node =>
                 negb (in_state Succeeded node || in_state Failed node)
                 || match node.(ne_run_id) with
                    | Some run_id => negb (bool_decide (run_id = output.(no_run_id)))
                    | None => false
                    end
             end
    with InvalidOutput;;
  Ok (set_outputs self (self.(ge_outputs) ++ [output])).

End validate.

(** ** Restart reconciliation *)

Definition to_uncertain (n : GraphNodeExecution) : GraphNodeExecution :=
  {| ne_node_id := n.(ne_node_id); ne_state := Uncertain; ne_owner := None;
     ne_revision := u64_incr n.(ne_revision); ne_run_id := None; ne_failure := None |}.

Definition reconcile_after_restart (self : GraphExecution) : GraphExecution * nat :=
  let changed := length (List.filter (in_state Running) self.(ge_nodes)) in
  let self' := set_nodes self
    (map (λ n, if in_state Running n then to_uncertain n else n) self.(ge_nodes)) in
  (if 0 <? changed then bump self' else self', changed).

(** ** Claims *)

(** [node.needs.iter().all(|d| states.get(d) == Some(&Succeeded))] *)
Definition needs_succeeded (states : gmap GraphNodeId GraphNodeState) (node : GraphNode) : bool :=
  forallb (λ d, bool_decide (states !! d = Some Succeeded)) node.(gn_needs).

Definition claimed_by (owner : string) (n : GraphNodeExecution) : GraphNodeExecution :=
  {| ne_node_id := n.(ne_node_id); ne_state := Running; ne_owner := Some owner;
     ne_revision := u64_incr n.(ne_revision); ne_run_id := n.(ne_run_id); ne_failure := None |}.

(** The loop of [claim_ready]: the executions as it leaves them, and the
    claimed ids or the error that ended it. *)
Fixpoint claim_loop (graph : WorkflowGraph) (states : gmap GraphNodeId GraphNodeState)
    (owner : string) (limit : Z) (claimed : list GraphNodeId)
    (nodes : list GraphNodeExecution)
    : list GraphNodeExecution * outcome GraphError (list GraphNodeId) :=
  match nodes with
  | [] => ([], Ok claimed)
  | execution :: rest =>
      if bool_decide (Z.of_nat (length claimed) = limit) || negb (in_state Pending execution) then
        let '(rest', r) := claim_loop graph states owner limit claimed rest in
        (execution :: rest', r)
      else
        match find_node graph execution.(ne_node_id) with
        | None => (execution :: rest, Err InvalidExecution)
        | Some node =>
            if needs_succeeded states node then
              let '(rest', r) :=
                claim_loop graph states owner limit (claimed ++ [execution.(ne_node_id)]) rest in
              (claimed_by owner execution :: rest', r)
            else
              let '(rest', r) := claim_loop graph states owner limit claimed rest in
              (execution :: rest', r)
        end
  end.

Definition claim_ready (self : GraphExecution) (owner : string) (limit : Z)
    : GraphExecution * outcome GraphError (list GraphNodeId) :=
  if blank owner || bool_decide (limit = 0%Z) then (self, Err InvalidExecution) else
  let states := state_map self.(ge_nodes) in
  let '(nodes, r) := claim_loop self.(ge_graph) states owner limit [] self.(ge_nodes) in
  let self' := set_nodes self nodes in
  match r with
  | Ok claimed => (if bool_decide (claimed = []) then self' else bump self', Ok claimed)
  | _ => (self', r)
  end.

Definition claim_node (self : GraphExecution) (node_id : GraphNodeId) (owner : string)
    : outcome GraphError GraphExecution :=
  fail_if blank owner with InvalidExecution;;
  let states := state_map self.(ge_nodes) in
  let? definition := ok_or (find_node self.(ge_graph) node_id) InvalidExecution in
  fail_if negb (needs_succeeded states definition) with InvalidExecution;;
  let? execution := ok_or (find_execution self node_id) InvalidExecution in
  fail_if negb (in_state Pending execution) with InvalidExecution;;
  Ok (bump (set_nodes self (update_first (has_id node_id) (claimed_by owner) self.(ge_nodes)))).

(** ** Approval staging *)

Definition dependencies_succeeded (self : GraphExecution) (node_id : GraphNodeId)
    : outcome GraphError bool :=
  let? definition := ok_or (find_node self.(ge_graph) node_id) InvalidExecution in
  Ok (forallb (λ dependency,
        existsb (λ execution, has_id dependency execution && in_state Succeeded execution)
                self.(ge_nodes)) definition.(gn_needs)).

Definition run_id_is_in_use (self : GraphExecution) (run_id : RunId) : bool :=
  existsb (λ node, bool_decide (node.(ne_run_id) = Some run_id)) self.(ge_nodes)
  || existsb (λ output, bool_decide (output.(no_run_id) = run_id)) self.(ge_outputs).

Definition staged_as (owner : string) (run_id : RunId) (n : GraphNodeExecution)
    : GraphNodeExecution :=
  {| ne_node_id := n.(ne_node_id); ne_state := AwaitingApproval; ne_owner := Some owner;
     ne_revision := u64_incr n.(ne_revision); ne_run_id := Some run_id; ne_failure := None |}.

Definition stage_node (self : GraphExecution) (node_id : GraphNodeId) (owner : string)
    (run_id : RunId) : outcome GraphError GraphExecution :=
  fail_if blank owner || run_id_is_in_use self run_id with InvalidExecution;;
  let? succeeded := dependencies_succeeded self node_id in
  fail_if negb succeeded with InvalidExecution;;
  let? execution := ok_or (find_execution self node_id) InvalidExecution in
  fail_if negb (in_state Pending execution)
          || bool_decide (is_Some execution.(ne_owner))
          || bool_decide (is_Some execution.(ne_run_id))
    with InvalidExecution;;
  Ok (bump (set_nodes self
        (update_first (has_id node_id) (staged_as owner run_id) self.(ge_nodes)))).

Definition activated (n : GraphNodeExecution) : GraphNodeExecution :=
  {| ne_node_id := n.(ne_node_id); ne_state := Running; ne_owner := n.(ne_owner);
     ne_revision := u64_incr n.(ne_revision); ne_run_id := n.(ne_run_id);
     ne_failure := n.(ne_failure) |}.

Definition activate_staged_node (self : GraphExecution) (node_id : GraphNodeId) (owner : string)
    (run_id : RunId) : outcome GraphError GraphExecution :=
  let? execution := ok_or (find_execution self node_id) InvalidExecution in
  fail_if negb (in_state AwaitingApproval execution)
          || negb (bool_decide (execution.(ne_owner) = Some owner))
          || negb (bool_decide (execution.(ne_run_id) = Some run_id))
    with InvalidExecution;;
  Ok (bump (set_nodes self (update_first (has_id node_id) activated self.(ge_nodes)))).

(** ** Blocking the dependents of a failed node *)

Definition blocked_node (n : GraphNodeExecution) : GraphNodeExecution :=
  {| ne_node_id := n.(ne_node_id); ne_state := Blocked; ne_owner := n.(ne_owner);
     ne_revision := u64_incr n.(ne_revision); ne_run_id := n.(ne_run_id);
     ne_failure := n.(ne_failure) |}.

(** [if let Some(execution) = find(..) { if execution.state == Pending { .. } }] *)
Definition block_execution (id : GraphNodeId) (nodes : list GraphNodeExecution)
    : list GraphNodeExecution :=
  update_first (has_id id) (λ n, if in_state Pending n then blocked_node n else n) nodes.

(** One iteration of the [for] loop over the graph's nodes; the state is
    [blocked], the executions and [changed]. *)
Notation block_state := (gset GraphNodeId * list GraphNodeExecution * bool)%type.
Definition block_visit (st : block_state) (node : GraphNode) : block_state :=
  let '(blocked, nodes, changed) := st in
  if existsb (λ dependency, bool_decide (dependency ∈ blocked)) node.(gn_needs)
     && negb (bool_decide (node.(gn_id) ∈ blocked))
  then ({[node.(gn_id)]} ∪ blocked, block_execution node.(gn_id) nodes, true)
  else (blocked, nodes, changed).

Fixpoint block_loop (fuel : nat) (graph : WorkflowGraph) (blocked : gset GraphNodeId)
    (nodes : list GraphNodeExecution) : outcome GraphError (list GraphNodeExecution) :=
  match fuel with
  | O => Diverge
  | S fuel =>
      let '(blocked, nodes, changed) :=
        fold_left block_visit graph.(wg_nodes) (blocked, nodes, false) in
      if negb changed then Ok nodes else block_loop fuel graph blocked nodes
  end.

(** Every pass but the last adds a node of the graph to [blocked]. *)
Definition block_dependents (self : GraphExecution) (failed : GraphNodeId)
    : outcome GraphError GraphExecution :=
  let? nodes := block_loop (S (length self.(ge_graph).(wg_nodes))) self.(ge_graph)
                  {[failed]} self.(ge_nodes) in
  Ok (set_nodes self nodes).

Definition cancelled_stage (n : GraphNodeExecution) : GraphNodeExecution :=
  {| ne_node_id := n.(ne_node_id); ne_state := Cancelled; ne_owner := n.(ne_owner);
     ne_revision := u64_incr n.(ne_revision); ne_run_id := n.(ne_run_id); ne_failure := None |}.

Definition cancel_staged_node (self : GraphExecution) (node_id : GraphNodeId) (owner : string)
    (run_id : RunId) : outcome GraphError GraphExecution :=
  let? execution := ok_or (find_execution self node_id) InvalidExecution in
  fail_if negb (in_state AwaitingApproval execution)
          || negb (bool_decide (execution.(ne_owner) = Some owner))
          || negb (bool_decide (execution.(ne_run_id) = Some run_id))
    with InvalidExecution;;
  block_dependents
    (bump (set_nodes self (update_first (has_id node_id) cancelled_stage self.(ge_nodes))))
    node_id.

(** ** Runs and their results *)

Definition bound_to (run_id : RunId) (n : GraphNodeExecution) : GraphNodeExecution :=
  {| ne_node_id := n.(ne_node_id); ne_state := n.(ne_state); ne_owner := n.(ne_owner);
     ne_revision := n.(ne_revision); ne_run_id := Some run_id; ne_failure := n.(ne_failure) |}.

Definition bind_run (self : GraphExecution) (node_id : GraphNodeId) (owner : string)
    (run_id : RunId) : outcome GraphError GraphExecution :=
  let? execution := ok_or (find_execution self node_id) InvalidExecution in
  fail_if negb (in_state Running execution)
          || negb (bool_decide (execution.(ne_owner) = Some owner))
          || bool_decide (is_Some execution.(ne_run_id))
    with InvalidExecution;;
  Ok (set_nodes self (update_first (has_id node_id) (bound_to run_id) self.(ge_nodes))).

Definition completed (succeeded : bool) (n : GraphNodeExecution) : GraphNodeExecution :=
  {| ne_node_id := n.(ne_node_id); ne_state := if succeeded then Succeeded else Failed;
     ne_owner := n.(ne_owner); ne_revision := u64_incr n.(ne_revision);
     ne_run_id := n.(ne_run_id); ne_failure := None |}.

Definition complete (self : GraphExecution) (node_id : GraphNodeId) (owner : string)
    (succeeded : bool) : outcome GraphError GraphExecution :=
  let? execution := ok_or (find_execution self node_id) InvalidExecution in
  fail_if negb (in_state Running execution)
          || negb (bool_decide (execution.(ne_owner) = Some owner))
    with InvalidExecution;;
  let self' := bump (set_nodes self
    (update_first (has_id node_id) (completed succeeded) self.(ge_nodes))) in
  if negb succeeded then block_dependents self' node_id else Ok self'.

(** The [matches!] tests of [finish_terminal]. *)
Definition is_terminal (state : GraphNodeState) : bool :=
  match state with
  | Succeeded | Failed | Cancelled | Blocked | Uncertain => true
  | _ => false
  end.
Definition keeps_owner (state : GraphNodeState) : bool :=
  match state with Succeeded | Failed | Cancelled => true | _ => false end.
Definition is_dead_end (state : GraphNodeState) : bool :=
  match state with Failed | Cancelled | Blocked => true | _ => false end.

Definition finished (owner : string) (state : GraphNodeState) (failure : option AdapterFailure)
    (n : GraphNodeExecution) : GraphNodeExecution :=
  {| ne_node_id := n.(ne_node_id); ne_state := state;
     ne_owner := if keeps_owner state then Some owner else None;
     ne_revision := u64_incr n.(ne_revision); ne_run_id := n.(ne_run_id);
     ne_failure := failure |}.

Definition finish_terminal (self : GraphExecution) (node_id : GraphNodeId) (owner : string)
    (state : GraphNodeState) (failure : option AdapterFailure)
    : outcome GraphError GraphExecution :=
  fail_if negb (is_terminal state) with InvalidExecution;;
  let? execution := ok_or (find_execution self node_id) InvalidExecution in
  fail_if negb (in_state Running execution)
          || negb (bool_decide (execution.(ne_owner) = Some owner))
    with InvalidExecution;;
  let self' := bump (set_nodes self
    (update_first (has_id node_id) (finished owner state failure) self.(ge_nodes))) in
  if is_dead_end state then block_dependents self' node_id else Ok self'.

(** ** Retry *)

Definition reopened_node (n : GraphNodeExecution) : GraphNodeExecution :=
  {| ne_node_id := n.(ne_node_id); ne_state := Pending; ne_owner := None;
     ne_revision := u64_incr n.(ne_revision); ne_run_id := None; ne_failure := None |}.

(** The ids one round of the loop collects: blocked nodes none of whose
    dependencies is failed, cancelled or blocked. *)
Definition still_blocked (states : gmap GraphNodeId GraphNodeState) (node : GraphNode) : bool :=
  existsb (λ dependency, match states !! dependency with
                         | Some s => is_dead_end s
                         | None => false
                         end) node.(gn_needs).
Definition reopenable (graph : WorkflowGraph) (nodes : list GraphNodeExecution)
    : list GraphNodeId :=
  let states := state_map nodes in
  map gn_id (List.filter (λ definition,
      bool_decide (states !! definition.(gn_id) = Some Blocked)
      && negb (still_blocked states definition)) graph.(wg_nodes)).

Fixpoint reopen_all (nodes : list GraphNodeExecution) (ids : list GraphNodeId)
    : list GraphNodeExecution * outcome GraphError unit :=
  match ids with
  | [] => (nodes, Ok tt)
  | id :: rest =>
      match List.find (has_id id) nodes with
      | None => (nodes, Err InvalidExecution)
      | Some _ => reopen_all (update_first (has_id id) reopened_node nodes) rest
      end
  end.

Fixpoint retry_loop (fuel : nat) (graph : WorkflowGraph) (nodes : list GraphNodeExecution)
    : list GraphNodeExecution * outcome GraphError unit :=
  match fuel with
  | O => (nodes, Diverge)
  | S fuel =>
      match reopenable graph nodes with
      | [] => (nodes, Ok tt)
      | reopened =>
          match reopen_all nodes reopened with
          | (nodes, Ok _) => retry_loop fuel graph nodes
          | other => other
          end
      end
  end.

(** Every round but the last turns a blocked node into a pending one. *)
Definition retry_failed (self : GraphExecution) (node_id : GraphNodeId)
    : GraphExecution * outcome GraphError unit :=
  match find_execution self node_id with
  | None => (self, Err InvalidExecution)
  | Some execution =>
      if negb (in_state Failed execution) then (self, Err InvalidExecution) else
      let nodes := update_first (has_id node_id) reopened_node self.(ge_nodes) in
      match retry_loop (S (length nodes)) self.(ge_graph) nodes with
      | (nodes, Ok _) => (bump (set_nodes self nodes), Ok tt)
      | (nodes, r) => (set_nodes self nodes, r)
      end
  end.

(** ** The operations together *)

Inductive exec_op :=
| ClaimReady (owner : string) (limit : Z)
| ClaimNode (node_id : GraphNodeId) (owner : string)
| StageNode (node_id : GraphNodeId) (owner : string) (run_id : RunId)
| ActivateStaged (node_id : GraphNodeId) (owner : string) (run_id : RunId)
| CancelStaged (node_id : GraphNodeId) (owner : string) (run_id : RunId)
| BindRun (node_id : GraphNodeId) (owner : string) (run_id : RunId)
| Complete (node_id : GraphNodeId) (owner : string) (succeeded : bool)
| FinishTerminal (node_id : GraphNodeId) (owner : string) (state : GraphNodeState)
    (failure : option AdapterFailure)
| RetryFailed (node_id : GraphNodeId)
| RecordOutput (output : GraphNodeOutput)
| ReconcileAfterRestart.

(** The execution an operation leaves behind, whatever it returned. *)
Definition settle (self : GraphExecution) (r : outcome GraphError GraphExecution)
    : GraphExecution :=
  match r with Ok self' => self' | _ => self end.

Definition apply_op `{Digest} (self : GraphExecution) (op : exec_op) : GraphExecution :=
  match op with
  | ClaimReady owner limit => (claim_ready self owner limit).1
  | ClaimNode id owner => settle self (claim_node self id owner)
  | StageNode id owner run => settle self (stage_node self id owner run)
  | ActivateStaged id owner run => settle self (activate_staged_node self id owner run)
  | CancelStaged id owner run => settle self (cancel_staged_node self id owner run)
  | BindRun id owner run => settle self (bind_run self id owner run)
  | Complete id owner ok => settle self (complete self id owner ok)
  | FinishTerminal id owner state failure =>
      settle self (finish_terminal self id owner state failure)
  | RetryFailed id => (retry_failed self id).1
  | RecordOutput output => settle self (record_output self output)
  | ReconcileAfterRestart => (reconcile_after_restart self).1
  end.
