(* ===== verification/ExecutionFacts.v ===== *)
(** * Graph execution: specification and proofs

    The abstract state machine of one graph node, [node_step], and the proof
    that every operation of Execution.v refines it ([apply_op_refines]); the
    validity invariant; the exact effect of the two fixed-point loops; and what
    follows for reachable executions: no node is launched before its
    dependencies succeeded, approval staging is left only by its own owner and
    run, and an execution without failures always has a node to claim. *)
From stdpp Require Import relations.
From S2P Require Import Prelude Policy Identity Graph Execution.

(** ** Specification *)

Section spec.
Context `{Digest}.

(** What [GraphExecution::validate] promises. *)
Record valid_exec (e : GraphExecution) : Prop := {
  ve_graph : wf_graph e.(ge_graph);
  ve_length : length e.(ge_nodes) = length e.(ge_graph).(wg_nodes);
  ve_nodup : NoDup (execution_ids e.(ge_nodes));
  ve_known : ∀ n, n ∈ e.(ge_nodes) → n.(ne_node_id) ∈ node_ids e.(ge_graph);
  ve_states : ∀ n, n ∈ e.(ge_nodes) → execution_state_is_valid n = true;
  ve_runs : NoDup (map no_run_id e.(ge_outputs));
  ve_outputs : ∀ o, o ∈ e.(ge_outputs) →
    output_validate o = Ok tt ∧ o.(no_node_id) ∈ node_ids e.(ge_graph);
}.

(** Every dependency of the node is recorded as succeeded. *)
Definition succeeded_in (nodes : list GraphNodeExecution) (id : GraphNodeId) : Prop :=
  ∃ m, m ∈ nodes ∧ m.(ne_node_id) = id ∧ m.(ne_state) = Succeeded.
Definition ready (e : GraphExecution) (id : GraphNodeId) : Prop :=
  ∃ node, find_node e.(ge_graph) id = Some node ∧
    ∀ d, d ∈ node.(gn_needs) → succeeded_in e.(ge_nodes) d.

(** The operations that declare a node dead, and the node. *)
Inductive kills : exec_op → GraphNodeId → Prop :=
| kills_cancel id owner run : kills (CancelStaged id owner run) id
| kills_complete id owner : kills (Complete id owner false) id
| kills_finish id owner state failure :
    is_dead_end state = true → kills (FinishTerminal id owner state failure) id.

(** One operation seen from one node: the transitions of the state machine,
    with the operation that may cause each and its guards. *)
Inductive node_step (e : GraphExecution) :
    exec_op → GraphNodeExecution → GraphNodeExecution → Prop :=
| ns_keep op n : node_step e op n n
| ns_claim_ready owner limit n :
    n.(ne_state) = Pending → ready e n.(ne_node_id) → blank owner = false →
    node_step e (ClaimReady owner limit) n (claimed_by owner n)
| ns_claim_node owner n :
    n.(ne_state) = Pending → ready e n.(ne_node_id) → blank owner = false →
    node_step e (ClaimNode n.(ne_node_id) owner) n (claimed_by owner n)
| ns_stage owner run n :
    n.(ne_state) = Pending → ready e n.(ne_node_id) → blank owner = false →
    run_id_is_in_use e run = false →
    node_step e (StageNode n.(ne_node_id) owner run) n (staged_as owner run n)
| ns_activate owner run n :
    n.(ne_state) = AwaitingApproval → n.(ne_owner) = Some owner → n.(ne_run_id) = Some run →
    node_step e (ActivateStaged n.(ne_node_id) owner run) n (activated n)
| ns_cancel owner run n :
    n.(ne_state) = AwaitingApproval → n.(ne_owner) = Some owner → n.(ne_run_id) = Some run →
    node_step e (CancelStaged n.(ne_node_id) owner run) n (cancelled_stage n)
| ns_bind owner run n :
    n.(ne_state) = Running → n.(ne_owner) = Some owner → n.(ne_run_id) = None →
    node_step e (BindRun n.(ne_node_id) owner run) n (bound_to run n)
| ns_complete owner ok n :
    n.(ne_state) = Running → n.(ne_owner) = Some owner →
    node_step e (Complete n.(ne_node_id) owner ok) n (completed ok n)
| ns_finish owner state failure n :
    n.(ne_state) = Running → n.(ne_owner) = Some owner → is_terminal state = true →
    node_step e (FinishTerminal n.(ne_node_id) owner state failure) n (finished owner state failure n)
| ns_block op id n :
    n.(ne_state) = Pending → kills op id → tc (depends e.(ge_graph)) n.(ne_node_id) id →
    node_step e op n (blocked_node n)
| ns_retry n :
    n.(ne_state) = Failed → node_step e (RetryFailed n.(ne_node_id)) n (reopened_node n)
| ns_reopen id n :
    n.(ne_state) = Blocked → node_step e (RetryFailed id) n (reopened_node n)
| ns_reconcile n :
    n.(ne_state) = Running → node_step e ReconcileAfterRestart n (to_uncertain n).

(** A limit the caller passes is a [usize]. *)
Definition op_in_range (op : exec_op) : Prop :=
  match op with ClaimReady _ limit => (0 ≤ limit)%Z | _ => True end.

(** Executions reachable from a start by any sequence of operations. *)
Inductive reachable : GraphExecution → Prop :=
| reach_start id graph e : start id graph = Ok e → reachable e
| reach_op e op : reachable e → op_in_range op → reachable (apply_op e op).

Definition launched (n : GraphNodeExecution) : Prop :=
  n.(ne_state) ≠ Pending ∧ n.(ne_state) ≠ Blocked.

(** A node that has left the queue has all its dependencies succeeded. *)
Definition launches_ordered (e : GraphExecution) : Prop :=
  ∀ n, n ∈ e.(ge_nodes) → launched n → ready e n.(ne_node_id).

End spec.

(** ** Lookup and update *)

Lemma in_state_true s n : in_state s n = true ↔ n.(ne_state) = s.
Proof. apply bool_decide_eq_true. Qed.
Lemma in_state_false s n : in_state s n = false ↔ n.(ne_state) ≠ s.
Proof. apply bool_decide_eq_false. Qed.
#[export] Hint Rewrite in_state_true in_state_false negb_true_iff negb_false_iff
  orb_false_iff andb_true_iff @bool_decide_eq_true @bool_decide_eq_false : bastet_bool.

Lemma find_execution_Some e id n :
  find_execution e id = Some n → n ∈ e.(ge_nodes) ∧ n.(ne_node_id) = id.
Proof. apply find_key_Some. Qed.

Lemma NoDup_execution_ids_cons n nodes :
  NoDup (execution_ids (n :: nodes)) →
  n.(ne_node_id) ∉ execution_ids nodes ∧ NoDup (execution_ids nodes).
Proof. intros H. apply (NoDup_cons n.(ne_node_id) (execution_ids nodes)), H. Qed.

Lemma elem_of_execution_ids nodes id :
  id ∈ execution_ids nodes ↔ ∃ n, n ∈ nodes ∧ n.(ne_node_id) = id.
Proof. unfold execution_ids. rewrite elem_of_map. firstorder congruence. Qed.

Lemma state_map_lookup nodes id s :
  NoDup (execution_ids nodes) →
  state_map nodes !! id = Some s ↔
  ∃ n, n ∈ nodes ∧ n.(ne_node_id) = id ∧ n.(ne_state) = s.
Proof.
  intros Hn. unfold state_map. rewrite lookup_collect_map.
  - rewrite elem_of_map. firstorder congruence.
  - replace (_.*1) with (execution_ids nodes); [done|].
    unfold execution_ids. induction nodes as [|n l IH]; simpl; [done|]. f_equal.
    apply IH. by apply NoDup_cons in Hn as [_ ?].
Qed.

Lemma state_map_node nodes n :
  NoDup (execution_ids nodes) → n ∈ nodes →
  state_map nodes !! n.(ne_node_id) = Some n.(ne_state).
Proof. intros. apply state_map_lookup; eauto. Qed.

Lemma needs_succeeded_ready e id node :
  NoDup (execution_ids e.(ge_nodes)) → find_node e.(ge_graph) id = Some node →
  needs_succeeded (state_map e.(ge_nodes)) node = true ↔ ready e id.
Proof.
  intros Hnd Hnode. unfold needs_succeeded, ready. rewrite forallb_true. split.
  - intros Hall. exists node. split; [done|]. intros d Hd. specialize (Hall d Hd).
    by apply bool_decide_eq_true, state_map_lookup in Hall.
  - intros (node' & ? & Hall) d Hd. simplify_eq.
    by apply bool_decide_eq_true, state_map_lookup, Hall.
Qed.

Lemma dependencies_succeeded_ok e id b :
  dependencies_succeeded e id = Ok b → (b = true ↔ ready e id).
Proof.
  unfold dependencies_succeeded, ready. intros Hd. ok_inv. rewrite forallb_true. split.
  - intros Hall. eexists. split; [eassumption|]. intros d Hin. specialize (Hall d Hin).
    apply existsb_true in Hall as (m & Hm & Hb). unfold has_id in Hb.
    autorewrite with bastet_bool in Hb. exists m. naive_solver.
  - intros (node & ? & Hall) d Hin. simplify_eq. destruct (Hall d Hin) as (m & ? & ? & ?).
    apply existsb_true. exists m. unfold has_id. autorewrite with bastet_bool. done.
Qed.

Section valid.
Context `{Digest}.

Lemma validate_execution_ok e : validate_execution e = Ok tt ↔ valid_exec e.
Proof.
  assert (Hin : ∀ id, existsb (λ node, bool_decide (gn_id node = id)) (wg_nodes (ge_graph e)) = true
                 ↔ id ∈ node_ids (ge_graph e)).
  { intros id. rewrite existsb_true, elem_of_node_ids. by setoid_rewrite bool_decide_eq_true. }
  assert (Hids : length (ge_nodes e) = length (execution_ids (ge_nodes e)))
    by (unfold execution_ids; by rewrite length_map).
  assert (Houts : length (ge_outputs e) = length (map no_run_id (ge_outputs e)))
    by by rewrite length_map.
  unfold validate_execution. autorewrite with bastet_ok.
  rewrite validate_graph_ok, !orb_false_iff, !negb_false_iff, !Nat.eqb_eq, !existsb_false.
  rewrite Hids at 2. rewrite Houts, !size_collect_set. split.
  - intros (Hg & ((Hl & Hnd) & Hnodes) & (Hruns & Hout) & _). constructor; auto.
    + intros n Hn. specialize (Hnodes n Hn).
      rewrite orb_false_iff, !negb_false_iff, Hin in Hnodes. apply Hnodes.
    + intros n Hn. specialize (Hnodes n Hn).
      rewrite orb_false_iff, !negb_false_iff in Hnodes. apply Hnodes.
    + intros o Ho. specialize (Hout o Ho).
      rewrite orb_false_iff, !negb_false_iff, Hin in Hout. destruct Hout as [Hok ?].
      split; [|done]. by destruct (output_validate o) as [[]| | |].
  - intros [Hg Hl Hnd Hk Hs Hr Ho]. split_and!; try done.
    + intros n Hn. rewrite orb_false_iff, !negb_false_iff, Hin. auto.
    + intros o Hi. rewrite orb_false_iff, !negb_false_iff, Hin.
      destruct (Ho o Hi) as [-> ?]. done.
Qed.

Lemma validate_execution_returns e : returns (validate_execution e).
Proof. unfold validate_execution. cbv zeta. solve_returns. Qed.

Lemma start_valid id graph e : start id graph = Ok e → valid_exec e.
Proof.
  unfold start. intros Hs. ok_inv. match goal with H : validate_graph _ = _ |- _ => apply validate_graph_ok in H end.
  assert (Hids : execution_ids (map pending_node (wg_nodes graph)) = node_ids graph).
  { unfold execution_ids, node_ids. rewrite map_map. done. }
  constructor; simpl; [done|by rewrite length_map|by rewrite Hids; apply wf_nodup| | |constructor|].
  - intros n Hn. rewrite <- Hids. apply elem_of_execution_ids. eauto.
  - intros n Hn. apply elem_of_map in Hn as (node & _ & ->). done.
  - by intros o ?%elem_of_nil.
Qed.

End valid.
#[export] Hint Resolve validate_execution_returns : bastet.

(** ** The loop of [block_dependents] *)

Section block.
Context (graph : WorkflowGraph) (Hgraph : NoDup (node_ids graph)).
Context (failed : GraphNodeId).
Context (nodes0 : list GraphNodeExecution) (Hnodes0 : NoDup (execution_ids nodes0)).
Notation dep := (depends graph).

(** The executions once the ids of [s] have been visited. *)
Definition mark (s : gset GraphNodeId) (n : GraphNodeExecution) : GraphNodeExecution :=
  if in_state Pending n && bool_decide (n.(ne_node_id) ∈ s) then blocked_node n else n.

Lemma mark_id s n : ne_node_id (mark s n) = ne_node_id n.
Proof. unfold mark. by destruct (_ && _). Qed.

Lemma block_execution_mark id s :
  block_execution id (map (mark s) nodes0) = map (mark ({[id]} ∪ s)) nodes0.
Proof.
  unfold block_execution, has_id. rewrite (update_first_map ne_node_id).
  - rewrite map_map. apply map_ext. intros n. rewrite mark_id. unfold mark.
    destruct (in_state Pending n) eqn:Ep; simpl.
    + case_bool_decide; case_bool_decide; case_bool_decide; simpl; rewrite ?Ep; set_solver.
    + case_bool_decide; [by rewrite Ep|done].
  - replace (map ne_node_id (map (mark s) nodes0)) with (execution_ids nodes0); [done|].
    unfold execution_ids. rewrite map_map. apply map_ext. intros n. by rewrite mark_id.
Qed.

(** What holds of [blocked] and the executions between iterations. *)
Definition block_inv (blocked : gset GraphNodeId) (nodes : list GraphNodeExecution) : Prop :=
  failed ∈ blocked ∧ (∀ b, b ∈ blocked → rtc dep b failed) ∧
  nodes = map (mark (blocked ∖ {[failed]})) nodes0.

Lemma block_inv_add blocked nodes node :
  block_inv blocked nodes → node ∈ graph.(wg_nodes) →
  (∃ d, d ∈ node.(gn_needs) ∧ d ∈ blocked) → node.(gn_id) ∉ blocked →
  block_inv ({[node.(gn_id)]} ∪ blocked) (block_execution node.(gn_id) nodes).
Proof.
  intros (Hf & Hr & ->) Hn (d & Hd & Hdb) Hnew. split_and!.
  - set_solver.
  - intros b [->%elem_of_singleton|?]%elem_of_union; [|by apply Hr].
    eapply rtc_l; [|by apply Hr]. exists node. split; [|done]. by apply find_node_unique.
  - rewrite block_execution_mark. f_equal. f_equal. apply set_eq. intros x.
    destruct (decide (x = gn_id node)) as [->|]; set_solver.
Qed.

Lemma block_pass l blocked nodes c :
  (∀ node, node ∈ l → node ∈ graph.(wg_nodes)) → block_inv blocked nodes →
  let '(blocked', nodes', c') := fold_left block_visit l (blocked, nodes, c) in
  block_inv blocked' nodes' ∧ blocked ⊆ blocked' ∧
  (c' = false → c = false ∧ blocked' = blocked ∧
     ∀ node d, node ∈ l → d ∈ node.(gn_needs) → d ∈ blocked → node.(gn_id) ∈ blocked) ∧
  (c' = true → c = true ∨
     ∃ x, x ∈ blocked' ∧ x ∉ blocked ∧ x ∈ node_ids graph).
Proof.
  revert blocked nodes c. induction l as [|node l IH]; intros blocked nodes c Hl Hinv.
  { simpl. split_and!; [done|done|intros ->; split_and!; [done|done|]|by left].
    by intros node d ?%elem_of_nil. }
  cbn [fold_left]. unfold block_visit at 2.
  destruct (existsb _ _ && _) eqn:E.
  - apply andb_true_iff in E as [Hd Hnew]. apply existsb_true in Hd as (d & Hd & Hdb).
    apply bool_decide_eq_true in Hdb. rewrite negb_true_iff, bool_decide_eq_false in Hnew.
    specialize (IH ({[gn_id node]} ∪ blocked) (block_execution (gn_id node) nodes) true).
    destruct (fold_left _ _ _) as [[b' n'] c'].
    destruct IH as (Hinv' & Hsub & Hc & _); [set_solver|apply block_inv_add; set_solver|].
    split_and!; [done|set_solver|by intros [? _]%Hc|]. intros _. right. exists (gn_id node).
    split_and!; [set_solver|done|]. apply elem_of_node_ids. exists node. set_solver.
  - specialize (IH blocked nodes c). destruct (fold_left _ _ _) as [[b' n'] c'].
    destruct IH as (Hinv' & Hsub & Hc & Ht); [set_solver|done|].
    split_and!; [done|done| |done]. intros Hf. destruct (Hc Hf) as (? & ? & Hcl).
    split_and!; [done|done|]. intros m d [->|Hm]%elem_of_cons Hd Hdb; [|by eapply Hcl].
    apply andb_false_iff in E as [E|E].
    + rewrite existsb_false in E. specialize (E d Hd). by rewrite bool_decide_eq_false in E.
    + by rewrite negb_false_iff, bool_decide_eq_true in E.
Qed.

(** A set closed under reverse dependencies contains all transitive dependents. *)
Lemma block_closed (blocked : gset GraphNodeId) :
  failed ∈ blocked →
  (∀ node d, node ∈ graph.(wg_nodes) → d ∈ node.(gn_needs) → d ∈ blocked →
     node.(gn_id) ∈ blocked) →
  ∀ b, rtc dep b failed → b ∈ blocked.
Proof.
  intros Hf Hcl b Hb. induction Hb as [|x y z [node [Hn Hy]] _ IH]; [done|].
  apply find_node_Some in Hn as [Hn <-]. eauto.
Qed.

Lemma block_loop_correct fuel blocked nodes :
  block_inv blocked nodes → size (collect_set (node_ids graph) ∖ blocked) < fuel →
  ∃ blocked', block_loop fuel graph blocked nodes
      = Ok (map (mark (blocked' ∖ {[failed]})) nodes0) ∧
    ∀ b, b ∈ blocked' ↔ rtc dep b failed.
Proof.
  revert blocked nodes. induction fuel as [|fuel IH]; intros blocked nodes Hinv Hfuel; [lia|].
  cbn [block_loop].
  pose proof (block_pass (wg_nodes graph) blocked nodes false ltac:(done) Hinv) as Hpass.
  destruct (fold_left _ _ _) as [[blocked' nodes'] changed].
  destruct Hpass as (Hinv' & Hsub & Hstop & Hgo). destruct changed; simpl.
  - apply IH; [done|]. destruct (Hgo eq_refl) as [|(x & Hx & Hnew & Hid)]; [done|].
    apply (elem_of_collect_set (node_ids graph)) in Hid.
    assert (size (collect_set (node_ids graph) ∖ blocked')
            < size (collect_set (node_ids graph) ∖ blocked)); [|lia].
    apply subset_size. split; [set_solver|]. intros Hc. specialize (Hc x). set_solver.
  - destruct (Hstop eq_refl) as (_ & -> & Hcl). destruct Hinv' as (Hf & Hr & ->).
    exists blocked. split; [done|]. intros b. split; [by apply Hr|].
    by apply block_closed.
Qed.

(** [block_dependents] always returns, and turns exactly the pending
    transitive dependents of the failed node into blocked ones. *)
Lemma block_dependents_correct (e : GraphExecution) :
  e.(ge_graph) = graph → e.(ge_nodes) = nodes0 → (¬ tc dep failed failed) →
  ∃ s : gset GraphNodeId,
    block_dependents e failed = Ok (set_nodes e (map (mark s) nodes0)) ∧
    ∀ b, b ∈ s ↔ tc dep b failed.
Proof.
  intros Hg Hn Hac. unfold block_dependents. rewrite Hg, Hn.
  destruct (block_loop_correct (S (length (wg_nodes graph))) {[failed]} nodes0)
    as (s & Hs & Hmem).
  - split_and!; [set_solver| |].
    + intros b ->%elem_of_singleton. done.
    + replace ({[failed]} ∖ {[failed]}) with (∅ : gset GraphNodeId) by set_solver.
      rewrite <- (map_id nodes0) at 1. apply map_ext. intros n. unfold mark.
      by rewrite (bool_decide_false (_ ∈ ∅)) by set_solver; rewrite andb_false_r.
  - pose proof (length_collect_set_le (node_ids graph)) as Hle.
    unfold node_ids at 2 in Hle. rewrite length_map in Hle.
    assert (size (collect_set (node_ids graph) ∖ {[failed]}) ≤ size (collect_set (node_ids graph)));
      [|lia]. apply subseteq_size. set_solver.
  - rewrite Hs. exists (s ∖ {[failed]}). split; [done|]. intros b.
    rewrite elem_of_difference, Hmem, not_elem_of_singleton. split.
    + intros [Hb Hne]. apply rtc_tc in Hb as [?|?]; done.
    + intros Hb. split; [by apply tc_rtc|]. by intros ->.
Qed.

End block.

(** ** The loop of [claim_ready] *)

Section claim.
Context (graph : WorkflowGraph) (states : gmap GraphNodeId GraphNodeState).
Context (owner : string) (limit : Z).

(** A pending node whose dependencies have all succeeded. *)
Definition eligible (n : GraphNodeExecution) : bool :=
  in_state Pending n &&
  match find_node graph n.(ne_node_id) with
  | Some node => needs_succeeded states node
  | None => false
  end.

Definition claim_mark (ids : list GraphNodeId) (n : GraphNodeExecution) : GraphNodeExecution :=
  if bool_decide (n.(ne_node_id) ∈ ids) then claimed_by owner n else n.

Lemma map_claim_mark_nil nodes : map (claim_mark []) nodes = nodes.
Proof.
  rewrite <- (map_id nodes) at 2. apply map_ext. intros n. unfold claim_mark.
  by rewrite bool_decide_false by apply not_elem_of_nil.
Qed.

Lemma claim_mark_cons x ids nodes :
  x ∉ execution_ids nodes → map (claim_mark (x :: ids)) nodes = map (claim_mark ids) nodes.
Proof.
  intros Hx. apply map_ext_in. intros n Hn. apply list_elem_of_In in Hn. unfold claim_mark.
  assert (ne_node_id n ≠ x) by (intros <-; apply Hx, elem_of_execution_ids; eauto).
  rewrite (bool_decide_ext (ne_node_id n ∈ x :: ids) (ne_node_id n ∈ ids)); [done|].
  rewrite elem_of_cons. naive_solver.
Qed.

(** The nodes claimed are the first eligible ones, up to the limit. *)
Lemma claim_loop_correct claimed nodes :
  NoDup (execution_ids nodes) →
  (∀ n, n ∈ nodes → n.(ne_node_id) ∈ node_ids graph) →
  (Z.of_nat (length claimed) ≤ limit)%Z →
  let ids := take (Z.to_nat limit - length claimed)
                  (execution_ids (List.filter eligible nodes)) in
  claim_loop graph states owner limit claimed nodes
  = (map (claim_mark ids) nodes, Ok (claimed ++ ids)).
Proof.
  revert claimed. induction nodes as [|n nodes IH]; intros claimed Hnd Hknown Hlim; simpl.
  { by rewrite take_nil, app_nil_r. }
  apply NoDup_execution_ids_cons in Hnd as [Hn Hnd].
  assert (Hknown' : ∀ n', n' ∈ nodes → ne_node_id n' ∈ node_ids graph)
    by (intros; apply Hknown; by right).
  assert (Hskip : ∀ ids (c : list GraphNodeId), (∀ i, i ∈ ids → i ∈ execution_ids nodes) →
    (let '(rest', r) := (map (claim_mark ids) nodes, @Ok GraphError _ c) in (n :: rest', r))
    = (claim_mark ids n :: map (claim_mark ids) nodes, Ok c)).
  { intros ids c Hids. unfold claim_mark at 2. rewrite bool_decide_false; [done|]. auto. }
  assert (Hsub : ∀ k i, i ∈ take k (execution_ids (List.filter eligible nodes)) →
                   i ∈ execution_ids nodes).
  { intros k i Hi%elem_of_take. destruct Hi as (j & Hi & _).
    apply list_elem_of_lookup_2, elem_of_execution_ids in Hi as (m & Hm & <-).
    apply elem_of_execution_ids. exists m.
    by apply elem_of_filter_bool in Hm as [? _]. }
  destruct (Z.eq_dec (Z.of_nat (length claimed)) limit) as [Heq|Hne].
  { rewrite bool_decide_true by done. simpl. rewrite (IH claimed) by auto.
    replace (Z.to_nat limit - length claimed) with 0 by lia.
    rewrite !take_0, map_claim_mark_nil. done. }
  rewrite bool_decide_false by done. simpl.
  destruct (in_state Pending n) eqn:Ep; simpl.
  - destruct (proj2 (find_node_is_Some graph (ne_node_id n))) as [node Hnode];
      [apply Hknown; left|].
    assert (eligible n = needs_succeeded states node) as ->
      by (unfold eligible; by rewrite Ep, Hnode).
    rewrite Hnode.
    destruct (needs_succeeded states node) eqn:Es; simpl.
    + rewrite (IH (claimed ++ [ne_node_id n])) by (rewrite ?length_app; simpl; auto; lia).
      rewrite length_app. simpl length.
      replace (Z.to_nat limit - length claimed)
        with (S (Z.to_nat limit - (length claimed + 1))) by lia.
      cbn [take execution_ids map]. rewrite claim_mark_cons by done. unfold claim_mark at 2.
      rewrite bool_decide_true by left. by rewrite <- app_assoc.
    + rewrite (IH claimed) by auto. apply Hskip. intros. by eapply Hsub.
  - assert (eligible n = false) as -> by (unfold eligible; by rewrite Ep). rewrite (IH claimed) by auto.
    apply Hskip. intros. by eapply Hsub.
Qed.

End claim.

(** ** The loop of [retry_failed] *)

Section retry.
Context (graph : WorkflowGraph) (Hgraph : NoDup (node_ids graph)).

Definition reopen_mark (ids : list GraphNodeId) (n : GraphNodeExecution) : GraphNodeExecution :=
  if bool_decide (n.(ne_node_id) ∈ ids) then reopened_node n else n.

Lemma execution_ids_map (f : GraphNodeExecution → GraphNodeExecution) nodes :
  (∀ n, ne_node_id (f n) = ne_node_id n) → execution_ids (map f nodes) = execution_ids nodes.
Proof. intros Hf. unfold execution_ids. rewrite map_map. by apply map_ext. Qed.

Lemma reopen_mark_id ids n : ne_node_id (reopen_mark ids n) = ne_node_id n.
Proof. unfold reopen_mark. by case_bool_decide. Qed.

Lemma reopen_all_correct nodes ids :
  NoDup (execution_ids nodes) → NoDup ids → (∀ i, i ∈ ids → i ∈ execution_ids nodes) →
  reopen_all nodes ids = (map (reopen_mark ids) nodes, Ok tt).
Proof.
  revert nodes. induction ids as [|id ids IH]; intros nodes Hnd Hids Hin; simpl.
  { f_equal. rewrite <- (map_id nodes) at 1. apply map_ext. intros n. unfold reopen_mark.
    by rewrite bool_decide_false by apply not_elem_of_nil. }
  apply NoDup_cons in Hids as [Hid Hids].
  destruct (List.find (has_id id) nodes) as [m|] eqn:Ef.
  - assert (Eu : update_first (has_id id) reopened_node nodes = map (reopen_mark [id]) nodes).
    { unfold has_id. rewrite (update_first_map ne_node_id) by done. apply map_ext. intros n.
      unfold reopen_mark. by rewrite (bool_decide_ext _ _ (list_elem_of_singleton _ _)). }
    rewrite Eu, IH; [|by rewrite execution_ids_map by apply reopen_mark_id|done|].
    + f_equal. rewrite map_map. apply map_ext. intros n. unfold reopen_mark at 1.
      rewrite reopen_mark_id. unfold reopen_mark.
      rewrite (bool_decide_ext _ _ (list_elem_of_singleton (ne_node_id n) id)).
      rewrite (bool_decide_ext _ _ (elem_of_cons ids (ne_node_id n) id)).
      repeat case_bool_decide; try done; naive_solver.
    + intros i Hi. rewrite execution_ids_map by apply reopen_mark_id. apply Hin. by right.
  - exfalso. destruct (proj1 (elem_of_execution_ids nodes id) (Hin id ltac:(left))) as (n & Hn & E).
    rewrite find_None_elem in Ef. specialize (Ef n Hn). unfold has_id in Ef.
    by rewrite bool_decide_eq_false in Ef.
Qed.

Lemma elem_of_reopenable nodes id :
  NoDup (execution_ids nodes) → id ∈ reopenable graph nodes →
  ∃ n, n ∈ nodes ∧ n.(ne_node_id) = id ∧ n.(ne_state) = Blocked.
Proof.
  intros Hnd Hid. unfold reopenable in Hid. apply elem_of_map in Hid as (node & Hn & ->).
  rewrite elem_of_filter_bool, andb_true_iff, bool_decide_eq_true in Hn.
  destruct Hn as (_ & Hs & _). by apply state_map_lookup in Hs.
Qed.

Lemma NoDup_reopenable nodes : NoDup (reopenable graph nodes).
Proof.
  unfold reopenable. unfold node_ids in Hgraph. induction (wg_nodes graph) as [|x l IH]; simpl.
  - constructor.
  - apply NoDup_cons in Hgraph as [Hx Hl]. destruct (_ && _); simpl; [|auto].
    constructor; [|auto]. intros Hin. apply Hx. apply elem_of_map in Hin as (y & Hy & E).
    apply elem_of_filter_bool in Hy as [Hy _]. apply elem_of_map. by exists y.
Qed.

Definition blocked_count (nodes : list GraphNodeExecution) : nat :=
  length (List.filter (in_state Blocked) nodes).

Lemma blocked_count_reopen ids nodes :
  blocked_count (map (reopen_mark ids) nodes) ≤ blocked_count nodes ∧
  ((∃ n, n ∈ nodes ∧ n.(ne_node_id) ∈ ids ∧ n.(ne_state) = Blocked) →
   blocked_count (map (reopen_mark ids) nodes) < blocked_count nodes).
Proof.
  unfold blocked_count. induction nodes as [|x l [IHle IHlt]]; simpl.
  { split; [done|]. by intros (n & ?%elem_of_nil & _). }
  assert (Ex : in_state Blocked (reopen_mark ids x) = in_state Blocked x
               ∧ (ne_state x = Blocked → ne_node_id x ∉ ids)
               ∨ in_state Blocked (reopen_mark ids x) = false ∧ ne_node_id x ∈ ids).
  { unfold reopen_mark. case_bool_decide; [right|left]; auto. }
  destruct Ex as [[-> Hx]|[-> Hx]].
  - destruct (in_state Blocked x); simpl; split; try lia; intros (n & [->|Hn]%elem_of_cons & Hi & Hb);
      try (by destruct (Hx Hb)); assert (Hlt := IHlt ltac:(eauto)); lia.
  - destruct (in_state Blocked x) eqn:Eb; simpl; split; try lia.
    intros (n & [->|Hn]%elem_of_cons & Hi & Hb); [|by apply IHlt; eauto].
    by apply in_state_false in Eb.
Qed.

(** A blocked node may have been reopened; nothing else changes. *)
Definition reopen_rel (n n' : GraphNodeExecution) : Prop :=
  n' = n ∨ n.(ne_state) = Blocked ∧ n' = reopened_node n.

(** The loop terminates, and stops at a state with nothing left to reopen. *)
Lemma retry_loop_correct fuel nodes :
  NoDup (execution_ids nodes) → blocked_count nodes < fuel →
  ∃ nodes', retry_loop fuel graph nodes = (nodes', Ok tt) ∧
    Forall2 reopen_rel nodes nodes' ∧ reopenable graph nodes' = [].
Proof.
  revert nodes. induction fuel as [|fuel IH]; intros nodes Hnd Hfuel; [lia|].
  cbn [retry_loop]. destruct (reopenable graph nodes) as [|id ids] eqn:Er.
  { exists nodes. split_and!; [done| |done].
    apply Forall2_diag. by left. }
  assert (Hb : ∀ i, i ∈ id :: ids → ∃ n, n ∈ nodes ∧ ne_node_id n = i ∧ ne_state n = Blocked).
  { intros i. rewrite <- Er. by apply elem_of_reopenable. }
  rewrite reopen_all_correct; [|done|rewrite <- Er; apply NoDup_reopenable|].
  2:{ intros i Hi. destruct (Hb i Hi) as (n & ? & ? & _). apply elem_of_execution_ids. eauto. }
  destruct (IH (map (reopen_mark (id :: ids)) nodes)) as (nodes' & -> & Hrel & Hdone).
  - by rewrite execution_ids_map by apply reopen_mark_id.
  - destruct (blocked_count_reopen (id :: ids) nodes) as [_ Hlt].
    destruct (Hb id ltac:(left)) as (n & ? & Hni & ?).
    specialize (Hlt ltac:(exists n; rewrite Hni; split_and!; [done|left|done])). lia.
  - exists nodes'. split_and!; [done| |done].
    apply (proj1 (Forall2_map_l _ (reopen_mark (id :: ids)) _ _)) in Hrel.
    apply (Forall2_impl_elem _ _ _ _ Hrel).
    intros n n' Hn Hnn. unfold reopen_rel, reopen_mark in Hnn.
    case_bool_decide as Hid; [|done]. right.
    destruct (Hb _ Hid) as (m & Hm & Em & Hmb).
    rewrite <- (NoDup_map_key ne_node_id nodes m n) by done. split; [done|].
    destruct Hnn as [->|[? _]]; [|done]. f_equal. by apply (NoDup_map_key ne_node_id nodes).
Qed.

End retry.

(** ** Refinement of the per-node state machine *)

Section refine.
Context `{Digest}.

Lemma execution_ids_update id f nodes :
  (∀ n, ne_node_id (f n) = ne_node_id n) →
  execution_ids (update_first (has_id id) f nodes) = execution_ids nodes.
Proof. intros Hf. apply map_update_first. auto. Qed.

(** Assigning through [find] refines the state machine when the assignment is
    one of its steps. *)
Lemma refine_update e op id f n :
  find_execution e id = Some n → node_step e op n (f n) →
  Forall2 (node_step e op) e.(ge_nodes) (update_first (has_id id) f e.(ge_nodes)).
Proof.
  intros Hn Hstep. apply Forall2_update_first; [by constructor|].
  intros x Hx. unfold find_execution in Hn. by simplify_eq.
Qed.

(** The same with [block_dependents] behind it. *)
Lemma refine_block e op id f n :
  valid_exec e → find_execution e id = Some n → node_step e op n (f n) → kills op id →
  ne_state (f n) ≠ Pending → (∀ m, ne_node_id (f m) = ne_node_id m) →
  ∃ e', block_dependents (bump (set_nodes e (update_first (has_id id) f e.(ge_nodes)))) id
      = Ok e' ∧
    e' = set_nodes (bump e) e'.(ge_nodes) ∧
    Forall2 (node_step e op) e.(ge_nodes) e'.(ge_nodes).
Proof.
  intros Hv Hn Hstep Hk Hnp Hid. destruct (ve_graph _ Hv) as [Hnd _ _ Hac _].
  destruct (block_dependents_correct (ge_graph e) Hnd id
      (update_first (has_id id) f (ge_nodes e))
      ltac:(rewrite execution_ids_update; [apply Hv|done])
      (bump (set_nodes e (update_first (has_id id) f (ge_nodes e)))))
    as (s & Hs & Hmem); [done|done|intros Hc; apply Hac; by exists id|].
  eexists. split; [exact Hs|]. split; [done|]. cbn [ge_nodes set_nodes].
  apply Forall2_map_r, Forall2_update_first.
  - intros x. unfold mark. destruct (in_state Pending x) eqn:Ep; [|by constructor].
    cbn [andb]. case_bool_decide as Hx; [|by constructor].
    apply in_state_true in Ep. apply Hmem in Hx. by eapply ns_block.
  - intros x Hx. unfold find_execution in Hn. simplify_eq. unfold mark.
    apply in_state_false in Hnp. by rewrite Hnp.
Qed.

Lemma claim_ready_correct e owner limit :
  valid_exec e → (0 ≤ limit)%Z → blank owner = false → limit ≠ 0%Z →
  let ids := take (Z.to_nat limit) (execution_ids
      (List.filter (eligible e.(ge_graph) (state_map e.(ge_nodes))) e.(ge_nodes))) in
  claim_ready e owner limit
  = (let e' := set_nodes e (map (claim_mark owner ids) e.(ge_nodes)) in
     if bool_decide (ids = []) then e' else bump e', Ok ids).
Proof.
  intros Hv Hlim Ho Hne ids. unfold claim_ready. rewrite Ho, bool_decide_false by done.
  cbn [orb]. rewrite claim_loop_correct; [|apply Hv|apply Hv|done].
  cbn [length app]. by rewrite Nat.sub_0_r.
Qed.

Lemma eligible_ready e n :
  valid_exec e → n ∈ e.(ge_nodes) →
  eligible e.(ge_graph) (state_map e.(ge_nodes)) n = true ↔
  n.(ne_state) = Pending ∧ ready e n.(ne_node_id).
Proof.
  intros Hv Hn. unfold eligible. rewrite andb_true_iff, in_state_true.
  destruct (proj2 (find_node_is_Some (ge_graph e) (ne_node_id n)) (ve_known _ Hv n Hn))
    as [node Hnode]. rewrite Hnode.
  by rewrite (needs_succeeded_ready e _ _ (ve_nodup _ Hv) Hnode).
Qed.

Lemma refine_claim_ready e owner limit :
  valid_exec e → (0 ≤ limit)%Z →
  Forall2 (node_step e (ClaimReady owner limit)) e.(ge_nodes)
    (claim_ready e owner limit).1.(ge_nodes).
Proof.
  intros Hv Hlim. destruct (blank owner || bool_decide (limit = 0%Z)) eqn:Eb.
  { unfold claim_ready. rewrite Eb. apply Forall2_diag. by constructor. }
  apply orb_false_iff in Eb as [Ho Hl]. apply bool_decide_eq_false in Hl.
  rewrite claim_ready_correct by done. set (ids := take _ _).
  enough (Hm : Forall2 (node_step e (ClaimReady owner limit)) (ge_nodes e)
                 (map (claim_mark owner ids) (ge_nodes e)))
    by (cbv zeta; destruct (bool_decide (ids = [])); exact Hm).
  apply Forall2_map_r, Forall2_diag. intros n Hn. unfold claim_mark.
  case_bool_decide as Hid; [|by constructor].
  apply elem_of_take in Hid as (j & Hj & _). apply list_elem_of_lookup_2 in Hj.
  apply elem_of_execution_ids in Hj as (m & Hm & Em).
  apply elem_of_filter_bool in Hm as [Hm Hel].
  rewrite (NoDup_map_key ne_node_id (ge_nodes e) m n) in Hel by (done || apply Hv).
  apply eligible_ready in Hel as [? ?]; [|done|done]. by constructor.
Qed.

Lemma retry_failed_correct e id n :
  valid_exec e → find_execution e id = Some n → n.(ne_state) = Failed →
  ∃ nodes, retry_failed e id = (bump (set_nodes e nodes), Ok tt) ∧
    Forall2 reopen_rel (update_first (has_id id) reopened_node e.(ge_nodes)) nodes ∧
    reopenable e.(ge_graph) nodes = [].
Proof.
  intros Hv Hn Hs. unfold retry_failed. rewrite Hn, (proj2 (in_state_true _ _) Hs).
  cbn [negb]. set (nodes1 := update_first _ _ _).
  destruct (retry_loop_correct (ge_graph e) (wf_nodup _ (ve_graph _ Hv))
              (S (length nodes1)) nodes1) as (nodes & -> & Hrel & Hdone).
  - unfold nodes1. rewrite execution_ids_update; [apply Hv|done].
  - unfold blocked_count. rewrite Nat.lt_succ_r. apply filter_length_le.
  - exists nodes. done.
Qed.

Lemma refine_retry e id :
  valid_exec e →
  Forall2 (node_step e (RetryFailed id)) e.(ge_nodes) (retry_failed e id).1.(ge_nodes).
Proof.
  intros Hv. destruct (find_execution e id) as [n|] eqn:Hn.
  2:{ unfold retry_failed. rewrite Hn. apply Forall2_diag. by constructor. }
  destruct (in_state Failed n) eqn:Es.
  2:{ unfold retry_failed. rewrite Hn, Es. apply Forall2_diag. by constructor. }
  apply in_state_true in Es.
  destruct (retry_failed_correct e id n Hv Hn Es) as (nodes & -> & Hrel & _). cbn.
  apply find_execution_Some in Hn as Hn'. destruct Hn' as [Hin <-].
  eapply (Forall2_compose (λ x y, y = x ∨ x = n ∧ y = reopened_node x)); [|exact Hrel|].
  { apply Forall2_update_first; [by left|]. intros x Hx. right.
    unfold find_execution in Hn. by simplify_eq. }
  intros x y z [->|[-> ->]] [->|[Hb ->]]; [by constructor|by apply ns_reopen|by apply ns_retry|].
  done.
Qed.

Lemma settle_refines e op r :
  (∀ e', r = Ok e' → Forall2 (node_step e op) e.(ge_nodes) e'.(ge_nodes)) →
  Forall2 (node_step e op) e.(ge_nodes) (settle e r).(ge_nodes).
Proof.
  intros Hok. destruct r; cbn [settle]; auto; apply Forall2_diag; by constructor.
Qed.

(** Reads the guards of an operation off [op = Ok e'] and names the node found. *)
Ltac node_found :=
  ok_inv; bool_prop;
  repeat match goal with
  | H : in_state _ _ = true |- _ => apply in_state_true in H
  | H : ¬ is_Some _ |- _ => apply eq_None_not_Some in H
  end;
  match goal with
  | Hn : find_execution ?e ?id = Some ?n |- _ =>
      destruct (find_execution_Some _ _ _ Hn) as [_ Hid]; subst id
  end.

Lemma claim_node_refines e id owner e' :
  valid_exec e → claim_node e id owner = Ok e' →
  Forall2 (node_step e (ClaimNode id owner)) e.(ge_nodes) e'.(ge_nodes).
Proof.
  intros Hv E. unfold claim_node in E. node_found.
  eapply refine_update; [done|]. apply ns_claim_node; [done| |done].
  by eapply needs_succeeded_ready; [apply Hv|..].
Qed.

Lemma stage_node_refines e id owner run e' :
  stage_node e id owner run = Ok e' →
  Forall2 (node_step e (StageNode id owner run)) e.(ge_nodes) e'.(ge_nodes).
Proof.
  intros E. unfold stage_node in E. node_found.
  eapply refine_update; [done|]. apply ns_stage; [done| |done|done].
  by eapply dependencies_succeeded_ok.
Qed.

Lemma activate_refines e id owner run e' :
  activate_staged_node e id owner run = Ok e' →
  Forall2 (node_step e (ActivateStaged id owner run)) e.(ge_nodes) e'.(ge_nodes).
Proof.
  intros E. unfold activate_staged_node in E. node_found.
  eapply refine_update; [done|]. by apply ns_activate.
Qed.

Lemma bind_run_refines e id owner run e' :
  bind_run e id owner run = Ok e' →
  Forall2 (node_step e (BindRun id owner run)) e.(ge_nodes) e'.(ge_nodes).
Proof.
  intros E. unfold bind_run in E. node_found.
  eapply refine_update; [done|]. by apply ns_bind.
Qed.

Lemma cancel_staged_refines e id owner run e' :
  valid_exec e → cancel_staged_node e id owner run = Ok e' →
  Forall2 (node_step e (CancelStaged id owner run)) e.(ge_nodes) e'.(ge_nodes).
Proof.
  intros Hv E. unfold cancel_staged_node in E. node_found.
  edestruct refine_block as (e'' & Hb & _ & Href); [done|done|by apply ns_cancel|constructor|done|done|].
  rewrite Hb in E. by simplify_eq.
Qed.

Lemma complete_refines e id owner ok e' :
  valid_exec e → complete e id owner ok = Ok e' →
  Forall2 (node_step e (Complete id owner ok)) e.(ge_nodes) e'.(ge_nodes).
Proof.
  intros Hv E. unfold complete in E. node_found. destruct ok; cbn [negb] in E.
  - simplify_eq. eapply refine_update; [done|]. by apply ns_complete.
  - edestruct refine_block as (e'' & Hb & _ & Href);
      [done|done|by apply ns_complete|constructor|done|done|].
    rewrite Hb in E. by simplify_eq.
Qed.

Lemma finish_refines e id owner state failure e' :
  valid_exec e → finish_terminal e id owner state failure = Ok e' →
  Forall2 (node_step e (FinishTerminal id owner state failure)) e.(ge_nodes) e'.(ge_nodes).
Proof.
  intros Hv E. unfold finish_terminal in E. node_found.
  destruct (is_dead_end state) eqn:Ed.
  - edestruct refine_block as (e'' & Hb & _ & Href);
      [done|done|by apply ns_finish|by constructor|by destruct state|done|].
    rewrite Hb in E. by simplify_eq.
  - simplify_eq. eapply refine_update; [done|]. by apply ns_finish.
Qed.

Lemma reconcile_refines e :
  Forall2 (node_step e ReconcileAfterRestart) e.(ge_nodes)
    (reconcile_after_restart e).1.(ge_nodes).
Proof.
  unfold reconcile_after_restart. cbn [fst].
  enough (Hm : Forall2 (node_step e ReconcileAfterRestart) (ge_nodes e)
            (map (λ n, if in_state Running n then to_uncertain n else n) (ge_nodes e)))
    by by destruct (0 <? _).
  apply Forall2_map_r, Forall2_diag. intros n _. destruct (in_state Running n) eqn:E.
  - apply in_state_true in E. by constructor.
  - by constructor.
Qed.

(** Every operation, whatever it returns, moves every node by a step of the
    state machine. *)
Lemma apply_op_refines e op :
  valid_exec e → op_in_range op →
  Forall2 (node_step e op) e.(ge_nodes) (apply_op e op).(ge_nodes).
Proof.
  intros Hv Hr. destruct op; cbn [apply_op];
    try (apply settle_refines; intros e' E).
  - by apply refine_claim_ready.
  - by eapply claim_node_refines.
  - by eapply stage_node_refines.
  - by eapply activate_refines.
  - by eapply cancel_staged_refines.
  - by eapply bind_run_refines.
  - by eapply complete_refines.
  - by eapply finish_refines.
  - by apply refine_retry.
  - unfold record_output in E. ok_inv. cbn. apply Forall2_diag. by constructor.
  - by apply reconcile_refines.
Qed.

End refine.

(** ** Effects outside the nodes *)

Section frame.
Context `{Digest}.

Definition same_frame (e e' : GraphExecution) : Prop :=
  e'.(ge_id) = e.(ge_id) ∧ e'.(ge_graph) = e.(ge_graph) ∧
  e'.(ge_restarted_from_execution_id) = e.(ge_restarted_from_execution_id).

Lemma block_dependents_frame e id e' :
  block_dependents e id = Ok e' → same_frame e e' ∧ ge_outputs e' = ge_outputs e.
Proof. unfold block_dependents. intros E. ok_inv. done. Qed.

Lemma settle_frame (P : GraphExecution → Prop) e r :
  P e → (∀ e', r = Ok e' → P e') → P (settle e r).
Proof. intros He Hr. destruct r; cbn; auto. Qed.

Lemma claim_ready_frame e owner limit :
  same_frame e (claim_ready e owner limit).1 ∧
  ge_outputs (claim_ready e owner limit).1 = ge_outputs e.
Proof.
  unfold claim_ready. destruct (_ || _); [done|].
  destruct (claim_loop _ _ _ _ _ _) as [nodes [claimed| | |]]; cbn; [|done..].
  by destruct (bool_decide _).
Qed.

Lemma retry_failed_frame e id :
  same_frame e (retry_failed e id).1 ∧ ge_outputs (retry_failed e id).1 = ge_outputs e.
Proof.
  unfold retry_failed. destruct (find_execution e id); [|done]. destruct (negb _); [done|].
  by destruct (retry_loop _ _ _) as [nodes [| | |]].
Qed.

(** Operations keep the graph and the identity, and append at most one output. *)
Lemma apply_op_frame e op :
  same_frame e (apply_op e op) ∧
  (ge_outputs (apply_op e op) = ge_outputs e ∨
   ∃ o, op = RecordOutput o ∧ record_output e o = Ok (apply_op e op) ∧
        ge_outputs (apply_op e op) = ge_outputs e ++ [o]).
Proof.
  assert (Hleft : ∀ e', same_frame e e' ∧ ge_outputs e' = ge_outputs e →
    same_frame e e' ∧ (ge_outputs e' = ge_outputs e ∨
      ∃ o, op = RecordOutput o ∧ record_output e o = Ok e' ∧
        ge_outputs e' = ge_outputs e ++ [o])) by (intros e' [? ?]; auto).
  destruct op; cbn [apply_op]; try (apply settle_frame; [by apply Hleft|intros e' E]).
  - apply Hleft, claim_ready_frame.
  - unfold claim_node in E. ok_inv. by apply Hleft.
  - unfold stage_node in E. ok_inv. by apply Hleft.
  - unfold activate_staged_node in E. ok_inv. by apply Hleft.
  - unfold cancel_staged_node in E. repeat ok_step. apply block_dependents_frame in E. by apply Hleft.
  - unfold bind_run in E. ok_inv. by apply Hleft.
  - unfold complete in E. repeat ok_step. apply Hleft. destruct (negb succeeded).
    + by apply block_dependents_frame in E.
    + by simplify_eq.
  - unfold finish_terminal in E. repeat ok_step. apply Hleft. destruct (is_dead_end state).
    + by apply block_dependents_frame in E.
    + by simplify_eq.
  - apply Hleft, retry_failed_frame.
  - split.
    + unfold record_output in E. by ok_inv.
    + right. exists output. split_and!; [done|done|]. unfold record_output in E. by ok_inv.
  - apply Hleft. unfold reconcile_after_restart. cbn. by repeat case_match.
Qed.

End frame.

(** ** The validity invariant *)

Section invariant.
Context `{Digest}.

Lemma node_step_id e op n n' : node_step e op n n' → ne_node_id n' = ne_node_id n.
Proof. by destruct 1. Qed.

Lemma node_step_valid e op n n' :
  node_step e op n n' → execution_state_is_valid n = true → execution_state_is_valid n' = true.
Proof.
  assert (Hrun : ∀ m o, ne_owner m = Some o → bool_decide (is_Some (ne_owner m)) = true)
    by (intros m o ->; by apply bool_decide_eq_true).
  intros Hs. inversion Hs; subst; intros Hn; try done; unfold execution_state_is_valid in *;
    cbn in *; try (by rewrite bool_decide_eq_true; eauto).
  - by match goal with Hb : blank _ = false |- _ => rewrite Hb end.
  - match goal with Hb : ne_state n = Running |- _ => rewrite Hb end. eauto.
  - match goal with |- context [if ?ok then Succeeded else Failed] => destruct ok end; eauto.
  - by match goal with |- context [keeps_owner ?state] => destruct state end.
  - by match goal with Hb : ne_state n = Pending |- _ => rewrite Hb in Hn end.
Qed.

Lemma Forall2_execution_ids e op nodes nodes' :
  Forall2 (node_step e op) nodes nodes' → execution_ids nodes' = execution_ids nodes.
Proof.
  induction 1 as [|n n' l l' Hs _ IH]; [done|]. unfold execution_ids in *. cbn.
  f_equal; [by eapply node_step_id|done].
Qed.

Lemma Forall2_elem_r {A B} (R : A → B → Prop) l k y :
  Forall2 R l k → y ∈ k → ∃ x, x ∈ l ∧ R x y.
Proof.
  induction 1 as [|a b l k Hab _ IH]; [by intros ?%elem_of_nil|].
  intros [->|Hy]%elem_of_cons; [exists a; split; [left|done]|].
  destruct (IH Hy) as (x & ? & ?). exists x. split; [by right|done].
Qed.

Lemma Forall2_elem_l {A B} (R : A → B → Prop) l k x :
  Forall2 R l k → x ∈ l → ∃ y, y ∈ k ∧ R x y.
Proof.
  induction 1 as [|a b l k Hab _ IH]; [by intros ?%elem_of_nil|].
  intros [->|Hx]%elem_of_cons; [exists b; split; [left|done]|].
  destruct (IH Hx) as (y & ? & ?). exists y. split; [by right|done].
Qed.

Lemma record_output_valid e o e' :
  valid_exec e → record_output e o = Ok e' → valid_exec e'.
Proof.
  intros Hv E. unfold record_output in E. ok_inv. bool_prop.
  destruct (find_execution e (no_node_id o)) as [n|] eqn:Hn; [|done].
  destruct Hv as [Hg Hl Hnd Hk Hs Hr Ho]. constructor; cbn; auto.
  - rewrite map_app. cbn. apply NoDup_app. split_and!; [done| |apply NoDup_singleton].
    intros r Hr' ->%list_elem_of_singleton. apply elem_of_map in Hr' as (o' & Ho' & Er).
    match goal with Hx : existsb _ _ = false |- _ =>
      rewrite existsb_false in Hx; specialize (Hx o' Ho'); apply bool_decide_eq_false in Hx end.
    congruence.
  - intros o' [?| ->%list_elem_of_singleton]%elem_of_app; [auto|]. split; [done|].
    apply find_execution_Some in Hn as [Hn <-]. auto.
Qed.

Lemma apply_op_valid e op : valid_exec e → op_in_range op → valid_exec (apply_op e op).
Proof.
  intros Hv Hr. pose proof (apply_op_refines e op Hv Hr) as Href.
  destruct (apply_op_frame e op) as [(Hid & Hg & _) [Hout|(o & _ & Ho & _)]];
    [|by eapply record_output_valid].
  pose proof (Forall2_execution_ids _ _ _ _ Href) as Hids.
  destruct Hv as [Hwf Hl Hnd Hk Hs Hruns Ho]. constructor; rewrite ?Hg, ?Hout, ?Hids; auto.
  - by rewrite <- (Forall2_length _ _ _ Href).
  - intros n' Hn'. destruct (Forall2_elem_r _ _ _ _ Href Hn') as (n & Hn & Hst).
    rewrite (node_step_id _ _ _ _ Hst). auto.
  - intros n' Hn'. destruct (Forall2_elem_r _ _ _ _ Href Hn') as (n & Hn & Hst).
    eapply node_step_valid; eauto.
Qed.

Lemma reachable_is_valid e : reachable e → valid_exec e.
Proof. induction 1; [by eapply start_valid|by apply apply_op_valid]. Qed.

End invariant.

(** ** Runs of the state machine *)

Section runs.
Context `{Digest}.

Lemma ready_mono e op d :
  valid_exec e → op_in_range op → succeeded_in e.(ge_nodes) d →
  succeeded_in (apply_op e op).(ge_nodes) d.
Proof.
  intros Hv Hr (m & Hm & Hid & Hs).
  destruct (Forall2_elem_l _ _ _ _ (apply_op_refines e op Hv Hr) Hm) as (m' & Hm' & Hst).
  exists m'. split_and!; [done|by rewrite (node_step_id _ _ _ _ Hst)|].
  inversion Hst; subst; congruence.
Qed.

Lemma launch_step e op n n' :
  node_step e op n n' → launched n' → launched n ∨ ready e n.(ne_node_id).
Proof.
  unfold launched. intros Hst [Hp Hb].
  inversion Hst; subst; cbn in *; auto; left; split; congruence.
Qed.

Lemma launches_ordered_op e op :
  valid_exec e → op_in_range op → launches_ordered e → launches_ordered (apply_op e op).
Proof.
  intros Hv Hr Ho n' Hn' Hl.
  destruct (Forall2_elem_r _ _ _ _ (apply_op_refines e op Hv Hr) Hn') as (n & Hn & Hst).
  rewrite (node_step_id _ _ _ _ Hst).
  assert (Hready : ready e (ne_node_id n))
    by (destruct (launch_step _ _ _ _ Hst Hl); [by apply Ho|done]).
  destruct Hready as (node & Hnode & Hneeds).
  destruct (apply_op_frame e op) as [(_ & Hg & _) _].
  exists node. rewrite Hg. split; [done|]. intros d Hd. apply ready_mono; auto.
Qed.

(** Node ids of the graph and of the executions are the same set. *)
Lemma valid_exec_ids e id :
  valid_exec e → id ∈ node_ids e.(ge_graph) → id ∈ execution_ids e.(ge_nodes).
Proof.
  intros [Hg Hl Hnd Hk _ _ _]. rewrite !list_elem_of_In.
  apply (NoDup_length_incl (l := execution_ids (ge_nodes e)) (l' := node_ids (ge_graph e))).
  - by apply NoDup_ListNoDup.
  - unfold execution_ids, node_ids. rewrite !length_map. lia.
  - intros i. rewrite <- !list_elem_of_In, elem_of_execution_ids. intros (n & ? & <-). auto.
Qed.

(** Among pending and succeeded nodes, following unmet needs ends at a node
    that is ready. *)
Lemma exists_ready e id :
  valid_exec e →
  (∀ n, n ∈ e.(ge_nodes) → n.(ne_state) = Pending ∨ n.(ne_state) = Succeeded) →
  (∃ n, n ∈ e.(ge_nodes) ∧ n.(ne_node_id) = id ∧ n.(ne_state) = Pending) →
  ∃ n, n ∈ e.(ge_nodes) ∧ n.(ne_state) = Pending ∧ ready e n.(ne_node_id).
Proof.
  intros Hv Hall (n0 & Hn0 & Hid & Hs0). destruct (ve_graph _ Hv) as [Hnd _ Hc Hac _].
  assert (Hin : id ∈ node_ids (ge_graph e)) by (rewrite <- Hid; by apply Hv).
  pose proof (acyclic_grounded _ id Hc Hac Hin) as Hacc.
  revert n0 Hn0 Hid Hs0. clear Hin. induction Hacc as [id _ IH]. intros n Hn Hid Hs.
  destruct (find_node (ge_graph e) id) as [node|] eqn:Hnode.
  2:{ exfalso. apply (ve_known _ Hv) in Hn as Hk. rewrite Hid in Hk.
      apply find_node_is_Some in Hk. rewrite Hnode in Hk. by destruct Hk. }
  destruct (decide (Forall (λ d, state_map (ge_nodes e) !! d = Some Succeeded) (gn_needs node)))
    as [Hd|Hd].
  - exists n. split_and!; [done|done|]. rewrite Hid. exists node. split; [done|].
    rewrite Forall_forall in Hd. intros d Hin. apply (state_map_lookup _ _ _ (ve_nodup _ Hv)).
    auto.
  - apply not_Forall_Exists in Hd; [|apply _]. apply Exists_exists in Hd as (d & Hd & Hns).
    cbn in Hns. destruct (find_node_Some _ _ _ Hnode) as [Hgn <-].
    destruct (Hc node d Hgn Hd) as [_ Hdin].
    apply valid_exec_ids, elem_of_execution_ids in Hdin as (m & Hm & Em); [|done].
    apply (IH d) with m; [by exists node|done|done|].
    destruct (Hall m Hm) as [|Hms]; [done|]. exfalso. apply Hns.
    apply (state_map_lookup _ _ _ (ve_nodup _ Hv)). eauto.
Qed.

End runs.
