(* ===== verification/M3.v ===== *)
(** * The office state

    Models [crates/bastet-core/src/m3.rs]: the catalogs of offices, meetings and
    deliverables together with the graph executions, and [M3State::validate],
    which checks the references between them. *)
From S2P Require Import Prelude Policy Identity Catalog Office Meeting Deliverable Graph.
From S2P Require Import Execution ExecutionFacts.

Record M3Catalog := {
  m3_office : OfficeCatalog;
  m3_meetings : MeetingCatalog;
  m3_deliverables : DeliverableCatalog;
}.

Record M3State := {
  ms_catalog : M3Catalog;
  ms_graph_executions : list GraphExecution;
}.

Inductive M3Error :=
| OfficeE (e : OfficeError)
| MeetingE (e : MeetingError)
| GraphE (e : GraphError)
| DeliverableE (e : DeliverableError)
| MissingDecisionBaseline
| MissingRole
| MissingDeliverableReference
| DuplicateGraphExecution.

Section validation.
Context `{Digest}.

(** The loop over the executions; it collects [graph_nodes]. *)
Definition validate_graph_execution (identity : IdentityCatalog)
    (baselines : gset DecisionBaselineId) (graph_nodes : gset GraphNodeId)
    (execution : GraphExecution) : outcome M3Error (gset GraphNodeId) :=
  map_err GraphE (validate_execution execution) ?;
  fail_if negb (bool_decide (execution.(ge_graph).(wg_decision_baseline_id) ∈ baselines))
    with MissingDecisionBaseline;;
  fold_try (λ graph_nodes node,
      fail_if negb (existsb (λ role, bool_decide (role.(rl_metadata).(em_id) = node.(gn_role_id)))
                      identity.(ic_roles))
        with MissingRole;;
      Ok ({[node.(gn_id)]} ∪ graph_nodes)) graph_nodes execution.(ge_graph).(wg_nodes).

(** The closure of [has_invalid_source_receipt]. *)
Definition invalid_source_receipt (executions : list GraphExecution) (version : DocumentVersion)
    : bool :=
  match version.(dv_source_execution_id), version.(dv_source_join_node_id),
        version.(dv_source_join_output_hash) with
  | Some execution_id, Some join_node_id, Some join_hash =>
      match List.find (λ execution, bool_decide (execution.(ge_id) = execution_id)) executions with
      | None => true
      | Some execution =>
          match List.find (λ node, bool_decide (node.(gn_id) = join_node_id)
                                   && bool_decide (node.(gn_kind) = Join))
                  execution.(ge_graph).(wg_nodes) with
          | None => true
          | Some join_node =>
              let source_ids := collect_set version.(dv_source_node_ids) in
              bool_decide (source_ids ≠ collect_set join_node.(gn_needs))
              || existsb (λ node_id,
                     bool_decide (find_output execution node_id = None)
                     || match find_node execution.(ge_graph) node_id with
                        | None => true
                        | Some node => negb (bool_decide (node.(gn_kind) = Research))
                        end) join_node.(gn_needs)
              || match find_output execution join_node_id with
                 | None => true
                 | Some output => negb (bool_decide (output.(no_content_hash) = join_hash))
                 end
          end
      end
  | execution_id, join_node_id, join_hash =>
      bool_decide (is_Some execution_id) || bool_decide (is_Some join_node_id)
      || bool_decide (is_Some join_hash)
  end.

Definition validate_m3 (self : M3State) (identity : IdentityCatalog) : outcome M3Error unit :=
  map_err (λ _, MissingDeliverableReference) (validate_catalog identity) ?;
  map_err OfficeE (validate_office self.(ms_catalog).(m3_office) identity) ?;
  map_err MeetingE (validate_meetings self.(ms_catalog).(m3_meetings) identity
                      self.(ms_catalog).(m3_office)) ?;
  map_err DeliverableE (validate_deliverables self.(ms_catalog).(m3_deliverables)) ?;
  let graph_ids := collect_set (map ge_id self.(ms_graph_executions)) in
  fail_if negb (size graph_ids =? length self.(ms_graph_executions))
    with DuplicateGraphExecution;;
  let baselines := collect_set (map (λ baseline, baseline.(db_metadata).(em_id))
                     self.(ms_catalog).(m3_meetings).(mc_decision_baselines)) in
  let? graph_nodes :=
    fold_try (validate_graph_execution identity baselines) ∅ self.(ms_graph_executions) in
  let project_ids := collect_set (map (λ p, p.(pj_metadata).(em_id)) identity.(ic_projects)) in
  let run_ids := collect_set (map (λ run, run.(rn_metadata).(em_id)) identity.(ic_runs)) in
  fail_if existsb (λ output, negb (bool_decide (output.(no_run_id) ∈ run_ids)))
            (concat (map ge_outputs self.(ms_graph_executions)))
    with MissingDeliverableReference;;
  let documents := self.(ms_catalog).(m3_deliverables).(dc_documents) in
  let artifact_versions := collect_set (concat (map (λ d, map dv_id d.(da_versions)) documents)) in
  let has_invalid_source_receipt :=
    existsb (invalid_source_receipt self.(ms_graph_executions))
      (concat (map da_versions documents)) in
  fail_if existsb (λ document,
              negb (bool_decide (document.(da_project_id) ∈ project_ids))
              || existsb (λ node, negb (bool_decide (node ∈ graph_nodes)))
                   (concat (map dv_source_node_ids document.(da_versions)))) documents
          || has_invalid_source_receipt
          || existsb (λ cost,
              negb (bool_decide (cost.(cl_project_id) ∈ project_ids))
              || negb (bool_decide (cost.(cl_run_id) ∈ run_ids))
              || negb (bool_decide (cost.(cl_node_id) ∈ graph_nodes)))
               self.(ms_catalog).(m3_deliverables).(dc_costs)
          || existsb (λ delivery,
              negb (bool_decide (delivery.(kd_project_id) ∈ project_ids))
              || negb (bool_decide (delivery.(kd_artifact_version_id) ∈ artifact_versions)))
               self.(ms_catalog).(m3_deliverables).(dc_knowledge_deliveries)
    with MissingDeliverableReference;;
  Ok tt.

End validation.

(** ** Specification *)

Section spec.
Context `{Digest}.

Definition execution_refers (c : IdentityCatalog) (mc : MeetingCatalog) (e : GraphExecution)
    : Prop :=
  valid_exec e ∧
  (∃ b, b ∈ mc.(mc_decision_baselines) ∧
        b.(db_metadata).(em_id) = e.(ge_graph).(wg_decision_baseline_id)) ∧
  (∀ node, node ∈ e.(ge_graph).(wg_nodes) → node.(gn_role_id) ∈ role_ids c) ∧
  (∀ o, o ∈ e.(ge_outputs) → o.(no_run_id) ∈ run_ids c).

(** The node belongs to the graph of some execution. *)
Definition known_node (s : M3State) (id : GraphNodeId) : Prop :=
  ∃ e, e ∈ s.(ms_graph_executions) ∧ id ∈ node_ids e.(ge_graph).

(** A document version with a receipt is the join of the research outputs of
    one recorded execution, and carries the hash of that join's output. *)
Definition receipt_holds (s : M3State) (v : DocumentVersion) : Prop :=
  (v.(dv_source_execution_id) = None ∧ v.(dv_source_join_node_id) = None ∧
   v.(dv_source_join_output_hash) = None) ∨
  ∃ e join output,
    e ∈ s.(ms_graph_executions) ∧ v.(dv_source_execution_id) = Some e.(ge_id) ∧
    join ∈ e.(ge_graph).(wg_nodes) ∧ join.(gn_kind) = Join ∧
    v.(dv_source_join_node_id) = Some join.(gn_id) ∧
    (∀ n, n ∈ v.(dv_source_node_ids) ↔ n ∈ join.(gn_needs)) ∧
    (∀ n, n ∈ join.(gn_needs) → is_Some (find_output e n) ∧
       ∃ node, node ∈ e.(ge_graph).(wg_nodes) ∧ node.(gn_id) = n ∧ node.(gn_kind) = Research) ∧
    find_output e join.(gn_id) = Some output ∧
    v.(dv_source_join_output_hash) = Some output.(no_content_hash).

Record valid_m3 (s : M3State) (c : IdentityCatalog) : Prop := {
  vs_catalog : valid_catalog c;
  vs_office : valid_office s.(ms_catalog).(m3_office) c;
  vs_meetings : valid_meetings s.(ms_catalog).(m3_meetings) c s.(ms_catalog).(m3_office);
  vs_deliverables : valid_deliverables s.(ms_catalog).(m3_deliverables);
  vs_distinct : NoDup (map ge_id s.(ms_graph_executions));
  vs_executions : Forall (execution_refers c s.(ms_catalog).(m3_meetings))
                    s.(ms_graph_executions);
  vs_documents : ∀ d, d ∈ s.(ms_catalog).(m3_deliverables).(dc_documents) →
    d.(da_project_id) ∈ project_ids c ∧
    ∀ v, v ∈ d.(da_versions) → receipt_holds s v ∧
      ∀ n, n ∈ v.(dv_source_node_ids) → known_node s n;
  vs_costs : ∀ k, k ∈ s.(ms_catalog).(m3_deliverables).(dc_costs) →
    k.(cl_project_id) ∈ project_ids c ∧ k.(cl_run_id) ∈ run_ids c ∧ known_node s k.(cl_node_id);
  vs_deliveries : ∀ k, k ∈ s.(ms_catalog).(m3_deliverables).(dc_knowledge_deliveries) →
    k.(kd_project_id) ∈ project_ids c;
}.

End spec.

(** ** Lemmas *)

#[local] Hint Rewrite ex_unit @fail_if_ok @for_each_ok @map_err_ok orb_false_iff
  negb_false_iff @bool_decide_eq_true @bool_decide_eq_false Nat.eqb_eq : m3.

Section facts.
Context `{Digest}.

Lemma validate_graph_execution_ok c baselines nodes e nodes' :
  validate_graph_execution c baselines nodes e = Ok nodes' ↔
  valid_exec e ∧ e.(ge_graph).(wg_decision_baseline_id) ∈ baselines ∧
  (∀ node, node ∈ e.(ge_graph).(wg_nodes) → node.(gn_role_id) ∈ role_ids c) ∧
  nodes' = collect_set (node_ids e.(ge_graph)) ∪ nodes.
Proof.
  unfold validate_graph_execution. rewrite obind_ok, ex_unit, map_err_ok, validate_execution_ok.
  rewrite fail_if_ok, negb_false_iff, bool_decide_eq_true. apply and_iff; [done|].
  apply and_iff; [done|]. unfold node_ids, role_ids, collect_set. revert nodes.
  induction (wg_nodes (ge_graph e)) as [|n l IH]; intros nodes; cbn [fold_try map list_to_set].
  - split; [intros [= ->]|intros (_ & ->)]; [split; [set_solver|]|f_equal]; set_solver.
  - rewrite obind_ok. setoid_rewrite fail_if_ok. setoid_rewrite IH.
    setoid_rewrite negb_false_iff.
    setoid_rewrite (existsb_key (λ role, em_id (rl_metadata role))). split.
    + intros (s & (Hr & [= <-]) & Hl & ->). split; [|set_solver].
      intros node [->|?]%elem_of_cons; auto.
    + intros (Hr & ->). eexists. split; [split; [apply Hr; left|done]|].
      split; [intros; apply Hr; by right|set_solver].
Qed.

Lemma validate_executions_ok c baselines nodes l nodes' :
  fold_try (validate_graph_execution c baselines) nodes l = Ok nodes' ↔
  Forall (λ e, valid_exec e ∧ e.(ge_graph).(wg_decision_baseline_id) ∈ baselines ∧
    (∀ node, node ∈ e.(ge_graph).(wg_nodes) → node.(gn_role_id) ∈ role_ids c)) l ∧
  nodes' = collect_set (concat (map (λ e, node_ids e.(ge_graph)) l)) ∪ nodes.
Proof.
  unfold collect_set. revert nodes.
  induction l as [|e l IH]; intros nodes; cbn [fold_try map concat].
  - cbn. split; [intros [= ->]|intros (_ & ->)]; [split; [done|]|f_equal]; set_solver.
  - rewrite obind_ok, Forall_cons, list_to_set_app_L. setoid_rewrite IH.
    setoid_rewrite validate_graph_execution_ok. unfold collect_set. split.
    + intros (s & (? & ? & ? & ->) & ? & ->). split_and!; try done. set_solver.
    + intros (((? & ? & ?) & ?) & ->). eexists. split_and!; try done. set_solver.
Qed.

Lemma elem_of_concat_map {A B} (f : A → list B) l y :
  y ∈ concat (map f l) ↔ ∃ x, x ∈ l ∧ y ∈ f x.
Proof.
  rewrite list_elem_of_In, in_concat. setoid_rewrite in_map_iff.
  setoid_rewrite list_elem_of_In. firstorder (subst; eauto).
Qed.

Lemma invalid_source_receipt_ok s v :
  NoDup (map ge_id s.(ms_graph_executions)) →
  Forall valid_exec s.(ms_graph_executions) →
  invalid_source_receipt s.(ms_graph_executions) v = false ↔ receipt_holds s v.
Proof.
  intros Hids Hval. rewrite Forall_forall in Hval. unfold invalid_source_receipt, receipt_holds.
  destruct (dv_source_execution_id v) as [ex|], (dv_source_join_node_id v) as [jn|],
    (dv_source_join_output_hash v) as [jh|]; cbn [bool_decide];
    try (split; [done|]; intros [[? [? ?]]|(? & ? & ? & _ & ? & _ & _ & ? & _ & _ & _ & ?)];
      congruence).
  2:{ split; [by left|done]. }
  split.
  - intros Hf. right.
    destruct (List.find _ (ms_graph_executions s)) as [e|] eqn:Ee; [|done].
    apply (find_key_Some ge_id) in Ee as [He <-].
    destruct (List.find _ (wg_nodes _)) as [join|] eqn:Ej; [|done].
    apply find_Some_elem in Ej as [Hj Hjb].
    apply andb_true_iff in Hjb as [<-%bool_decide_eq_true Hk%bool_decide_eq_true].
    destruct (find_output e (gn_id join)) as [o|] eqn:Eo; [|by rewrite orb_true_r in Hf].
    autorewrite with m3 in Hf. destruct Hf as [[Hset Hneeds] Hout].
    apply dec_stable in Hset. rewrite existsb_false in Hneeds.
    exists e, join, o. split_and!; try done; [| |by rewrite Hout].
    + intros n. rewrite <- !elem_of_collect_set, Hset. done.
    + intros n Hn. specialize (Hneeds n Hn). autorewrite with m3 in Hneeds.
      destruct Hneeds as [Ho Hr]. rewrite <- not_eq_None_Some. split; [done|].
      destruct (find_node (ge_graph e) n) as [node|] eqn:En; [|done].
      apply find_node_Some in En as [? ?]. autorewrite with m3 in Hr. eauto.
  - intros [[? ?]|(e & join & o & He & [= ->] & Hj & Hk & [= ->] & Hset & Hneeds & Ho & [= ->])];
      [done|].
    rewrite (find_key ge_id _ _ e) by done.
    destruct (List.find _ (wg_nodes _)) as [join'|] eqn:Ej.
    + apply find_Some_elem in Ej as [Hj' Hjb]. bool_prop.
      assert (join' = join) as ->.
      { apply (NoDup_map_key gn_id (wg_nodes (ge_graph e))); [|done..].
        apply (wf_nodup _ (ve_graph _ (Hval e He))). }
      rewrite Ho. autorewrite with m3. split_and!; [|apply existsb_false|done].
      * intros Hne. apply Hne, set_eq. intros n. by rewrite !elem_of_collect_set.
      * intros n Hn. destruct (Hneeds n Hn) as ([o' Eo] & node & Hnode & <- & Hr).
        rewrite Eo, (find_node_unique (ge_graph e)).
        -- by rewrite Hr.
        -- apply (wf_nodup _ (ve_graph _ (Hval e He))).
        -- done.
    + rewrite find_None_elem in Ej. specialize (Ej join Hj).
      by rewrite !bool_decide_true in Ej by done.
Qed.

Lemma elem_of_known_nodes s id :
  id ∈ collect_set (concat (map (λ e, node_ids e.(ge_graph)) s.(ms_graph_executions))) ∪ ∅ ↔
  known_node s id.
Proof.
  rewrite elem_of_union, elem_of_collect_set, elem_of_concat_map. unfold known_node. set_solver.
Qed.

Lemma validate_m3_ok s c : validate_m3 s c = Ok tt ↔ valid_m3 s c.
Proof.
  unfold validate_m3. cbv zeta. repeat setoid_rewrite obind_ok. repeat setoid_rewrite ex_unit.
  repeat setoid_rewrite map_err_ok. rewrite validate_catalog_ok, validate_office_ok,
    validate_meetings_ok, validate_deliverables_ok, fail_if_ok, negb_false_iff, Nat.eqb_eq.
  assert (Hd : size (collect_set (map ge_id (ms_graph_executions s)))
               = length (ms_graph_executions s) ↔ NoDup (map ge_id (ms_graph_executions s))).
  { rewrite <- size_collect_set, length_map. done. }
  rewrite Hd, obind_ok. clear Hd. setoid_rewrite validate_executions_ok.
  repeat setoid_rewrite fail_if_ok.
  repeat setoid_rewrite orb_false_iff. repeat setoid_rewrite existsb_false.
  repeat setoid_rewrite orb_false_iff. repeat setoid_rewrite negb_false_iff.
  repeat setoid_rewrite bool_decide_eq_true. repeat setoid_rewrite elem_of_collect_set.
  repeat setoid_rewrite existsb_false. repeat setoid_rewrite elem_of_concat_map.
  setoid_rewrite negb_false_iff. setoid_rewrite bool_decide_eq_true. split.
  - intros (Hc & Ho & Hm & Hd & Hnd & a & (Hex & ->) & Hruns & (((Hdoc & Hrec) & Hcost) & Hdel) & _).
    repeat setoid_rewrite elem_of_known_nodes in Hdoc.
    repeat setoid_rewrite elem_of_known_nodes in Hcost. rewrite Forall_forall in Hex.
    split; try done.
    + rewrite Forall_forall. intros e He. destruct (Hex e He) as (Hv & Hb & Hr).
      apply elem_of_map in Hb as (b & ? & ?). split_and!; eauto.
    + intros d Hind. destruct (Hdoc d Hind) as [Hp Hn]. split; [done|]. intros v Hv. split.
      * apply invalid_source_receipt_ok; [done| |eauto].
        apply Forall_forall. intros e He. apply (Hex e He).
      * intros n Hnv. apply Hn. eauto.
    + intros k Hk. destruct (Hcost k Hk) as [[? ?] ?]. done.
    + intros k Hk. by destruct (Hdel k Hk).
  - intros [Hc Ho Hm Hd Hnd Hex Hdoc Hcost Hdel]. rewrite Forall_forall in Hex.
    split_and!; try done. eexists. split; [split; [|done]|].
    + apply Forall_forall. intros e He. destruct (Hex e He) as (Hv & (b & ? & <-) & Hr & _).
      split_and!; [done| |done]. apply elem_of_map. eauto.
    + repeat setoid_rewrite elem_of_known_nodes. split_and!; try done.
      * intros o (e & He & Hoe). by apply (Hex e He).
      * intros d Hind. destruct (Hdoc d Hind) as [Hp Hv]. split; [done|].
        intros n (v & Hvd & Hn). by eapply Hv.
      * intros v (d & Hind & Hv). apply invalid_source_receipt_ok; [done| |by eapply Hdoc].
        apply Forall_forall. intros e He. apply (Hex e He).
      * intros k Hk. by destruct (Hcost k Hk) as (? & ? & ?).
      * intros k Hk. split; [by apply Hdel|].
        pose proof (vdc_deliveries _ Hd) as Hvd. rewrite Forall_forall in Hvd.
        destruct (vd_accepted _ _ (Hvd k Hk)) as (d & v & ? & ? & <- & _).
        exists d. split; [done|]. apply elem_of_map. eauto.
Qed.

Lemma validate_m3_returns s c : returns (validate_m3 s c).
Proof.
  unfold validate_m3, validate_graph_execution. cbv zeta. solve_returns.
Qed.
End facts.
