(* ===== verification/Mvp.v ===== *)
(** * The first-run workflow

    Models [crates/bastet-core/src/mvp.rs]: [MvpDraft::prepare], which builds a
    project with two research roles, an integrator and a meeting that awaits a
    decision; [accept_mvp_decision], which turns the decision into a baseline
    and a started graph; and the drafts' validation.

    The identifiers drawn by [XId::new()] are arguments, gathered in records;
    the theorems assume that those drawn by one call are distinct. *)
From S2P Require Import Prelude Policy Identity Catalog Office Meeting Deliverable Graph.
From S2P Require Import Execution ExecutionFacts M3.

Record MvpDraft := {
  mv_identity : IdentityCatalog;
  mv_m3 : M3Catalog;
  mv_project_id : ProjectId;
  mv_meeting_id : MeetingId;
  mv_research_role_ids : RoleId * RoleId;
  mv_integrator_role_id : RoleId;
}.

Inductive MvpError := InvalidProject | InvalidDraft | NotAwaitingDecision.

(** The identifiers [prepare] draws, in the order of the code. *)
Record mvp_ids := {
  mi_project : ProjectId;
  mi_meeting : MeetingId;
  mi_room : RoomId;
  mi_left_role : RoleId;
  mi_right_role : RoleId;
  mi_integrator_role : RoleId;
  mi_codex_provider : AgentProviderId;
  mi_agy_provider : AgentProviderId;
  mi_openai_provider : ModelProviderId;
  mi_agy_model_provider : ModelProviderId;
  mi_codex_model : ModelId;
  mi_agy_model : ModelId;
  mi_codex_agent : AgentInstanceId;
  mi_agy_agent : AgentInstanceId;
  mi_assignments : PetAssignmentId * PetAssignmentId * PetAssignmentId;
}.

(** The identifiers an accepted decision draws. *)
Record decision_ids := {
  di_baseline : DecisionBaselineId;
  di_left : GraphNodeId;
  di_right : GraphNodeId;
  di_execution : GraphRunId;
  di_join : GraphNodeId;
}.

Definition metadata {k} (id : stable_id k) : EntityMetadata k :=
  {| em_id := id; em_revision := 0; em_created_at := "locally-created";
     em_updated_at := "locally-created";
     em_provenance := {| pv_source_kind := "local_user"; pv_source_id := "mvp_vertical_slice";
                         pv_recorded_by := "bastet-workstation" |};
     em_lifecycle := Active |}.

Definition policy (layer : PolicyLayer) (level : PermissionLevel) : ScopedPolicy :=
  {| sp_layer := layer;
     sp_ceiling := {| pc_filesystem := level; pc_network := level; pc_process := level;
                      pc_device := Deny; pc_credential := Deny;
                      pc_persistent_approval := false |} |}.

Definition assignment (id : PetAssignmentId) (project_id : ProjectId) (role_id : RoleId)
    (agent_instance_id : AgentInstanceId) (pet_profile_id : PetProfileId) : PetAssignment :=
  {| pa_metadata := metadata id; pa_project_id := project_id; pa_role_id := role_id;
     pa_agent_instance_id := agent_instance_id; pa_pet_profile_id := pet_profile_id |}.

Definition builtin_pet_profile : PetProfile :=
  {| pp_metadata :=
       {| em_id := id_of_byte 0xBA; em_revision := 0; em_created_at := "locally-created";
          em_updated_at := "locally-created";
          em_provenance := {| pv_source_kind := "first_party"; pv_source_id := "bastet-cat-v1";
                              pv_recorded_by := "bastet-workstation" |};
          em_lifecycle := Active |};
     pp_name := "Bastet Cat"; pp_version := 1;
     pp_states := map (λ state,
       {| ps_state_key := state;
          ps_asset_ref := String.append "builtin://bastet-cat/" state;
          ps_accessible_label_key := String.append "pet.state." state |}) REQUIRED_PET_STATES |}.

Section draft.
(** [Path::is_dir] asks the file system. *)
Context (is_dir : string → bool).

(** [Path::is_absolute] on Unix. *)
Definition is_absolute (path : string) : bool :=
  match path with String "/" _ => true | _ => false end.

Definition reasoning : list string := ["low"; "medium"; "high"].

Definition draft_identity (ids : mvp_ids) (project_name workspace_root codex_model agy_model : string)
    : IdentityCatalog :=
  let role_policy := policy RoleOrAgent Use in
  {| ic_agent_providers :=
       [ {| ap_metadata := metadata ids.(mi_codex_provider); ap_adapter_kind := "codex_cli";
            ap_display_name := "Codex CLI" |};
         {| ap_metadata := metadata ids.(mi_agy_provider); ap_adapter_kind := "agy_cli";
            ap_display_name := "Agy CLI" |} ];
     ic_model_providers :=
       [ {| mp_metadata := metadata ids.(mi_openai_provider); mp_provider_key := "openai";
            mp_display_name := "OpenAI" |};
         {| mp_metadata := metadata ids.(mi_agy_model_provider); mp_provider_key := "agy";
            mp_display_name := "Agy" |} ];
     ic_models :=
       [ {| md_metadata := metadata ids.(mi_codex_model);
            md_model_provider_id := ids.(mi_openai_provider);
            md_provider_model_id := trim codex_model; md_reasoning_controls := reasoning |};
         {| md_metadata := metadata ids.(mi_agy_model);
            md_model_provider_id := ids.(mi_agy_model_provider);
            md_provider_model_id := trim agy_model; md_reasoning_controls := reasoning |} ];
     ic_agent_instances :=
       [ {| ai_metadata := metadata ids.(mi_codex_agent);
            ai_agent_provider_id := ids.(mi_codex_provider); ai_account_id := None;
            ai_default_model_id := Some ids.(mi_codex_model) |};
         {| ai_metadata := metadata ids.(mi_agy_agent);
            ai_agent_provider_id := ids.(mi_agy_provider); ai_account_id := None;
            ai_default_model_id := Some ids.(mi_agy_model) |} ];
     ic_projects :=
       [ {| pj_metadata := metadata ids.(mi_project); pj_name := trim project_name;
            pj_workspace_root := workspace_root; pj_policy := policy ProjectLayer Use |} ];
     ic_roles :=
       [ {| rl_metadata := metadata ids.(mi_left_role); rl_name := "Research A";
            rl_responsibilities := ["independent research branch A"]; rl_policy := role_policy |};
         {| rl_metadata := metadata ids.(mi_right_role); rl_name := "Research B";
            rl_responsibilities := ["independent research branch B"]; rl_policy := role_policy |};
         {| rl_metadata := metadata ids.(mi_integrator_role); rl_name := "Document Integrator";
            rl_responsibilities := ["join evidence into a versioned document"];
            rl_policy := role_policy |} ];
     ic_credential_references := []; ic_accounts := []; ic_sessions := []; ic_runs := [] |}.

Definition draft_office (ids : mvp_ids) : OfficeCatalog :=
  let pet := builtin_pet_profile in
  let '(a1, a2, a3) := ids.(mi_assignments) in
  {| oc_pet_profiles := [pet];
     oc_pet_assignments :=
       [ assignment a1 ids.(mi_project) ids.(mi_left_role) ids.(mi_codex_agent)
           pet.(pp_metadata).(em_id);
         assignment a2 ids.(mi_project) ids.(mi_right_role) ids.(mi_agy_agent)
           pet.(pp_metadata).(em_id);
         assignment a3 ids.(mi_project) ids.(mi_integrator_role) ids.(mi_codex_agent)
           pet.(pp_metadata).(em_id) ];
     oc_rooms :=
       [ {| rm_metadata := metadata ids.(mi_room); rm_project_id := ids.(mi_project);
            rm_name := "Project Room"; rm_capacity := 12 |} ] |}.

Definition draft_meetings (ids : mvp_ids) : MeetingCatalog :=
  {| mc_meetings :=
       [ {| mt_metadata := metadata ids.(mi_meeting); mt_project_id := ids.(mi_project);
            mt_room_id := ids.(mi_room);
            mt_participant_role_ids :=
              [ids.(mi_left_role); ids.(mi_right_role); ids.(mi_integrator_role)];
            mt_max_rounds := 3;
            mt_rounds :=
              [ {| mr_index := 1;
                   mr_summary := "Two independent research branches followed by one explicit document join." |} ];
            mt_state := AwaitingDecision |} ];
     mc_decision_baselines := [] |}.

(** The draft [prepare] assembles. *)
Definition initial_draft (ids : mvp_ids)
    (project_name workspace_root codex_model agy_model : string) : MvpDraft :=
  {| mv_identity := draft_identity ids project_name workspace_root codex_model agy_model;
     mv_m3 := {| m3_office := draft_office ids; m3_meetings := draft_meetings ids;
                 m3_deliverables := {| dc_documents := []; dc_costs := [];
                                       dc_knowledge_deliveries := [] |} |};
     mv_project_id := ids.(mi_project);
     mv_meeting_id := ids.(mi_meeting);
     mv_research_role_ids := (ids.(mi_left_role), ids.(mi_right_role));
     mv_integrator_role_id := ids.(mi_integrator_role) |}.

Section operations.
Context `{Digest}.

Definition validate_draft (self : MvpDraft) : outcome MvpError unit :=
  map_err (λ _, InvalidDraft) (validate_catalog self.(mv_identity)) ?;
  map_err (λ _, InvalidDraft) (validate_office self.(mv_m3).(m3_office) self.(mv_identity)) ?;
  map_err (λ _, InvalidDraft) (validate_meetings self.(mv_m3).(m3_meetings) self.(mv_identity)
                                 self.(mv_m3).(m3_office)) ?;
  Ok tt.

Definition prepare_draft (ids : mvp_ids)
    (project_name workspace_root codex_model agy_model : string) : outcome MvpError MvpDraft :=
  fail_if blank project_name || negb (is_absolute workspace_root)
          || negb (is_dir workspace_root) || blank codex_model || blank agy_model
    with InvalidProject;;
  let draft := initial_draft ids project_name workspace_root codex_model agy_model in
  validate_draft draft ?;
  Ok draft.

Definition decision_graph (ids : decision_ids) (left_role right_role integrator_role : RoleId)
    : WorkflowGraph :=
  {| wg_decision_baseline_id := ids.(di_baseline);
     wg_nodes :=
       [ {| gn_id := ids.(di_left); gn_kind := Research; gn_role_id := left_role;
            gn_title := "Independent research A"; gn_needs := [] |};
         {| gn_id := ids.(di_right); gn_kind := Research; gn_role_id := right_role;
            gn_title := "Independent research B"; gn_needs := [] |};
         {| gn_id := ids.(di_join); gn_kind := Join; gn_role_id := integrator_role;
            gn_title := "Join research into document";
            gn_needs := [ids.(di_left); ids.(di_right)] |} ] |}.

Definition set_state (state : MeetingState) (m : ProjectMeeting) : ProjectMeeting :=
  {| mt_metadata := m.(mt_metadata); mt_project_id := m.(mt_project_id);
     mt_room_id := m.(mt_room_id); mt_participant_role_ids := m.(mt_participant_role_ids);
     mt_max_rounds := m.(mt_max_rounds); mt_rounds := m.(mt_rounds); mt_state := state |}.

(** Returns the catalog it leaves behind next to its result. *)
Definition accept_mvp_decision (ids : decision_ids) (m3 : M3Catalog) (identity : IdentityCatalog)
    (meeting_id : MeetingId) (content actor accepted_at : string)
    : M3Catalog * outcome MvpError GraphExecution :=
  match List.find (λ meeting, bool_decide (meeting.(mt_metadata).(em_id) = meeting_id))
          m3.(m3_meetings).(mc_meetings) with
  | None => (m3, Err InvalidDraft)
  | Some meeting =>
      if negb (bool_decide (meeting.(mt_state) = AwaitingDecision))
      then (m3, Err NotAwaitingDecision) else
      match meeting.(mt_participant_role_ids) with
      | [left_role; right_role; integrator_role] =>
          if existsb (λ role_id,
                 negb (existsb (λ role, bool_decide (role.(rl_metadata).(em_id) = role_id))
                         identity.(ic_roles))) [left_role; right_role; integrator_role]
          then (m3, Err InvalidDraft) else
          match baseline_create (metadata ids.(di_baseline)) meeting_id content actor accepted_at with
          | Ok baseline =>
              let meetings :=
                {| mc_meetings :=
                     update_first (λ meeting,
                         bool_decide (meeting.(mt_metadata).(em_id) = meeting_id))
                       (set_state Accepted) m3.(m3_meetings).(mc_meetings);
                   mc_decision_baselines :=
                     m3.(m3_meetings).(mc_decision_baselines) ++ [baseline] |} in
              ({| m3_office := m3.(m3_office); m3_meetings := meetings;
                  m3_deliverables := m3.(m3_deliverables) |},
               map_err (λ _, InvalidDraft)
                 (start ids.(di_execution)
                    (decision_graph ids left_role right_role integrator_role)))
          | _ => (m3, Err InvalidDraft)
          end
      | _ => (m3, Err InvalidDraft)
      end
  end.

Definition accept_decision (ids : decision_ids) (self : MvpDraft)
    (content actor accepted_at : string) : MvpDraft * outcome MvpError GraphExecution :=
  match validate_draft self with
  | Ok _ =>
      let '(m3, r) := accept_mvp_decision ids self.(mv_m3) self.(mv_identity)
                        self.(mv_meeting_id) content actor accepted_at in
      ({| mv_identity := self.(mv_identity); mv_m3 := m3; mv_project_id := self.(mv_project_id);
          mv_meeting_id := self.(mv_meeting_id);
          mv_research_role_ids := self.(mv_research_role_ids);
          mv_integrator_role_id := self.(mv_integrator_role_id) |}, r)
  | Err e => (self, Err e)
  | Panic => (self, Panic)
  | Diverge => (self, Diverge)
  end.

End operations.
End draft.

(** ** Specification *)

(** What drawing the identifiers at random gives. *)
Definition distinct_mvp_ids (ids : mvp_ids) : Prop :=
  NoDup [ids.(mi_left_role); ids.(mi_right_role); ids.(mi_integrator_role)] ∧
  ids.(mi_codex_provider) ≠ ids.(mi_agy_provider) ∧
  ids.(mi_openai_provider) ≠ ids.(mi_agy_model_provider) ∧
  ids.(mi_codex_model) ≠ ids.(mi_agy_model) ∧
  ids.(mi_codex_agent) ≠ ids.(mi_agy_agent) ∧
  NoDup [ids.(mi_assignments).1.1; ids.(mi_assignments).1.2; ids.(mi_assignments).2].

Definition distinct_decision_ids (ids : decision_ids) : Prop :=
  NoDup [ids.(di_left); ids.(di_right); ids.(di_join)].

(** ** Lemmas *)

Lemma recorded_metadata {k} (id : stable_id k) : recorded (metadata id).
Proof. repeat split. Qed.

Lemma NoDup_2 {A} (x y : A) : x ≠ y → NoDup [x; y].
Proof. intros. repeat constructor; set_solver. Qed.

Lemma absolute_not_blank root : is_absolute root = true → blank root = false.
Proof.
  intros Ha. apply (visible_not_blank "/"%char); [done|].
  destruct root as [|a root]; [done|]. cbn in *.
  destruct a as [[] [] [] [] [] [] [] []]; try done. left.
Qed.

Lemma draft_identity_valid ids name root codex agy :
  distinct_mvp_ids ids → blank name = false → is_absolute root = true →
  blank codex = false → blank agy = false →
  valid_catalog (draft_identity ids name root codex agy).
Proof.
  intros (Hr & Hp & Hm & Hd & Ha & _) Hname Hroot Hcodex Hagy. split; cbn;
    repeat (apply Forall_cons; split); try apply Forall_nil; try exact I.
  - unfold distinct_ids. cbn. split_and!; cbn; try apply NoDup_nil; try exact I;
      try apply NoDup_singleton; try done; by apply NoDup_2.
  - by split_and!.
  - by split_and!.
  - by split_and!.
  - by split_and!.
  - split; [split; [apply recorded_metadata|]|cbn; set_solver]. unfold filled. cbn [md_provider_model_id]. by rewrite blank_trim.
  - split; [split; [apply recorded_metadata|]|cbn; set_solver]. unfold filled. cbn [md_provider_model_id]. by rewrite blank_trim.
  - split; [apply recorded_metadata|]. split_and!; cbn; [set_solver|done|]. intros m [= <-]. set_solver.
  - split; [apply recorded_metadata|]. split_and!; cbn; [set_solver|done|]. intros m [= <-]. set_solver.
  - split_and!; [apply recorded_metadata| | |done]; unfold filled; cbn [pj_name pj_workspace_root]; [by rewrite blank_trim|].
    by apply absolute_not_blank.
  - by split_and!.
  - by split_and!.
  - by split_and!.
Qed.

Lemma builtin_pet_profile_valid : valid_profile builtin_pet_profile.
Proof. apply validate_profile_ok. by vm_compute. Qed.

Lemma draft_office_valid ids name root codex agy :
  distinct_mvp_ids ids → valid_office (draft_office ids) (draft_identity ids name root codex agy).
Proof.
  intros (Hr & _ & _ & _ & _ & Ha). unfold draft_office.
  destruct (mi_assignments ids) as [[a1 a2] a3]. cbn in Ha. split; cbn.
  - apply NoDup_singleton.
  - done.
  - apply NoDup_singleton.
  - apply Forall_singleton, builtin_pet_profile_valid.
  - repeat (apply Forall_cons; split); try exact I; cbn; repeat apply conj;
      first [by left | by right; left | by right; right; left].
  - assert (Inj (=) (=) (pair (B:=RoleId) (mi_project ids))) by by intros ? ? [= ->].
    exact (NoDup_fmap_2 (pair (mi_project ids)) _ Hr).
  - apply Forall_singleton. cbn. split_and!; [done|done|by left].
Qed.

Section facts.
Context `{Digest}.

Lemma draft_meetings_valid ids name root codex agy state :
  distinct_mvp_ids ids →
  valid_meeting (draft_identity ids name root codex agy) (draft_office ids)
    {| mt_metadata := metadata ids.(mi_meeting); mt_project_id := ids.(mi_project);
       mt_room_id := ids.(mi_room);
       mt_participant_role_ids :=
         [ids.(mi_left_role); ids.(mi_right_role); ids.(mi_integrator_role)];
       mt_max_rounds := 3;
       mt_rounds :=
         [ {| mr_index := 1;
              mr_summary := "Two independent research branches followed by one explicit document join." |} ];
       mt_state := state |}.
Proof.
  intros (Hr & _). unfold draft_office. destruct (mi_assignments ids) as [[a1 a2] a3].
  split; cbn; try done; try lia.
  - eexists. split; [by left|done].
  - unfold MAX_MEETING_PARTICIPANTS. lia.
  - intros i r Hi. destruct i as [|i]; [|done]. cbn in Hi. simplify_eq. done.
Qed.

Lemma initial_draft_valid ids name root codex agy :
  distinct_mvp_ids ids → blank name = false → is_absolute root = true →
  blank codex = false → blank agy = false →
  validate_draft (initial_draft ids name root codex agy) = Ok tt.
Proof.
  intros. unfold validate_draft, initial_draft. cbn [mv_identity mv_m3 m3_office m3_meetings].
  rewrite (proj2 (validate_catalog_ok _)) by by apply draft_identity_valid.
  rewrite (proj2 (validate_office_ok _ _)) by by apply draft_office_valid.
  rewrite (proj2 (validate_meetings_ok _ _ _)); [done|]. split; cbn.
  - by apply Forall_singleton, draft_meetings_valid.
  - by apply Forall_nil_2.
  - apply NoDup_nil_2.
Qed.

(** [prepare] fails on its guards alone: the draft it builds always validates. *)
Lemma prepare_draft_ok is_dir ids name root codex agy :
  distinct_mvp_ids ids →
  prepare_draft is_dir ids name root codex agy =
  if blank name || negb (is_absolute root) || negb (is_dir root) || blank codex || blank agy
  then Err InvalidProject
  else Ok (initial_draft ids name root codex agy).
Proof.
  intros Hids. unfold prepare_draft. destruct (_ || _) eqn:Eg; [done|]. bool_prop.
  by rewrite initial_draft_valid.
Qed.

Lemma decision_graph_depends ids left right integrator a b :
  depends (decision_graph ids left right integrator) a b →
  a = ids.(di_join) ∧ (b = ids.(di_left) ∨ b = ids.(di_right)).
Proof.
  intros (node & Hnode & Hb). apply find_node_Some in Hnode as [Hin <-]. cbn in Hin.
  rewrite !elem_of_cons, elem_of_nil in Hin. destruct Hin as [->|[->|[->|[]]]]; cbn in *;
    rewrite ?elem_of_cons, ?elem_of_nil in Hb; naive_solver.
Qed.

Lemma decision_graph_wf ids left right integrator :
  distinct_decision_ids ids → wf_graph (decision_graph ids left right integrator).
Proof.
  intros Hd. assert (Hneq : ids.(di_left) ≠ ids.(di_join) ∧ ids.(di_right) ≠ ids.(di_join)).
  { revert Hd. unfold distinct_decision_ids. rewrite !NoDup_cons. set_solver. }
  split.
  - exact Hd.
  - intros node Hin. cbn in Hin. rewrite !elem_of_cons, elem_of_nil in Hin.
    by destruct Hin as [->|[->|[->|[]]]].
  - intros node d Hin Hn. cbn in Hin. rewrite !elem_of_cons, elem_of_nil in Hin. cbn.
    destruct Hin as [->|[->|[->|[]]]]; set_solver.
  - intros [a Ha]. assert (Hstep : ∃ b, depends (decision_graph ids left right integrator) a b ∧
      (b = a ∨ ∃ c, depends (decision_graph ids left right integrator) b c)).
    { inversion Ha as [x y Hs|x y z Hs Ht]; subst; [by eauto|]. exists y. split; [done|]. right.
      inversion Ht; eauto. }
    destruct Hstep as (b & Hab & Hb). apply decision_graph_depends in Hab as [-> Hb'].
    destruct Hb as [->|[c Hbc]]; [naive_solver|].
    apply decision_graph_depends in Hbc as [Hbj _]. naive_solver.
  - eexists _, _, _. split_and!; try done. intros d. cbn. set_solver.
Qed.

(** The three outcomes of a decision, given that the drawn node ids differ. *)
Lemma accept_mvp_decision_cases ids m3 identity meeting_id content actor at_ :
  distinct_decision_ids ids →
  let r := accept_mvp_decision ids m3 identity meeting_id content actor at_ in
  (∃ e, r.2 = Err e) ∧ r.1 = m3 ∨
  ∃ meeting left right integrator baseline e,
    meeting_of m3.(m3_meetings) meeting_id meeting ∧
    meeting.(mt_state) = AwaitingDecision ∧
    meeting.(mt_participant_role_ids) = [left; right; integrator] ∧
    (∀ r, r ∈ [left; right; integrator] → r ∈ role_ids identity) ∧
    baseline_create (metadata ids.(di_baseline)) meeting_id content actor at_ = Ok baseline ∧
    start ids.(di_execution) (decision_graph ids left right integrator) = Ok e ∧
    r = ({| m3_office := m3.(m3_office);
            m3_meetings :=
              {| mc_meetings := update_first (λ m, bool_decide (m.(mt_metadata).(em_id) = meeting_id))
                   (set_state Accepted) m3.(m3_meetings).(mc_meetings);
                 mc_decision_baselines := m3.(m3_meetings).(mc_decision_baselines) ++ [baseline] |};
            m3_deliverables := m3.(m3_deliverables) |}, Ok e).
Proof.
  intros Hd. unfold accept_mvp_decision, meeting_of. cbv zeta.
  destruct (List.find _ _) as [meeting|] eqn:Em; [|left; eauto].
  destruct (negb (bool_decide (mt_state meeting = AwaitingDecision))) eqn:Es; [left; eauto|].
  destruct (mt_participant_role_ids meeting) as [|l [|r [|i [|]]]] eqn:Ep; try (left; by eauto).
  destruct (existsb _ [l; r; i]) eqn:Er; [left; eauto|].
  destruct (baseline_create _ _ _ _ _) as [b| | |] eqn:Eb; try (left; by eauto).
  right. pose proof (decision_graph_wf ids l r i Hd) as Hwf. apply validate_graph_ok in Hwf.
  unfold start. rewrite Hwf. cbn [obind map_err].
  exists meeting, l, r, i, b. eexists. rewrite existsb_false in Er. bool_prop.
  split_and!; try done; [|by rewrite Hwf].
  intros role Hin. specialize (Er role Hin). apply negb_false_iff in Er.
  by apply (existsb_key (λ r, em_id (rl_metadata r))) in Er.
Qed.

Lemma accept_prepared ids dids is_dir name root codex agy draft content actor at_ :
  distinct_mvp_ids ids → distinct_decision_ids dids →
  prepare_draft is_dir ids name root codex agy = Ok draft →
  blank content = false → blank actor = false → blank at_ = false →
  ∃ draft' e, accept_decision dids draft content actor at_ = (draft', Ok e) ∧
    valid_m3 {| ms_catalog := draft'.(mv_m3); ms_graph_executions := [e] |} draft'.(mv_identity).
Proof.
  intros Hids Hdids Hprep Hc Ha Hat.
  rewrite prepare_draft_ok in Hprep by done. destruct (_ || _) eqn:Eg; [done|].
  bool_prop. injection Hprep as <-. unfold accept_decision.
  rewrite initial_draft_valid by done. unfold initial_draft, accept_mvp_decision.
  cbn [mv_identity mv_m3 mv_meeting_id m3_meetings mc_meetings draft_meetings List.find].
  rewrite bool_decide_true by done. cbn [mt_state mt_participant_role_ids].
  rewrite bool_decide_true by done. cbn [negb].
  destruct (existsb _ [_; _; _]) eqn:Er.
  { exfalso. apply existsb_true in Er as (r & Hr & Hn). apply negb_true_iff in Hn.
    apply (existsb_key_false (λ r, em_id (rl_metadata r))) in Hn. by apply Hn. }
  unfold baseline_create. rewrite Hc, Ha, Hat. cbn [orb].
  set (graph := decision_graph _ _ _ _).
  assert (Hwf : wf_graph graph) by by apply decision_graph_wf.
  assert (Hs : start (di_execution dids) graph = Ok
    {| ge_id := di_execution dids; ge_graph := graph; ge_nodes := map pending_node (wg_nodes graph);
       ge_outputs := []; ge_restarted_from_execution_id := None; ge_revision := 0 |})
    by (unfold start; by rewrite (proj2 (validate_graph_ok graph) Hwf)).
  rewrite Hs. cbn [map_err]. eexists _, _. split; [done|].
  apply start_valid in Hs. cbn [update_first]. rewrite bool_decide_true by done.
  split; cbn [ms_catalog ms_graph_executions m3_office m3_meetings m3_deliverables mv_m3 mv_identity].
  - by apply draft_identity_valid.
  - by apply draft_office_valid.
  - split; cbn [mc_meetings mc_decision_baselines].
    + by apply Forall_singleton, draft_meetings_valid.
    + apply Forall_singleton. split; cbn; [done|done|]. eexists. split.
      * unfold meeting_of. cbn. by rewrite bool_decide_true.
      * by right.
    + apply NoDup_singleton.
  - split; by apply Forall_nil_2.
  - apply NoDup_singleton.
  - apply Forall_singleton. split_and!; [done| | |]; cbn.
    + eexists. split; [by left|done].
    + intros node Hin. rewrite !elem_of_cons, elem_of_nil in Hin. unfold role_ids. cbn.
      destruct Hin as [->|[->|[->|[]]]]; cbn; [by left|by right; left|by right; right; left].
    + intros o []%elem_of_nil.
  - intros d []%elem_of_nil.
  - intros d []%elem_of_nil.
  - intros d []%elem_of_nil.
Qed.
End facts.
