(* ===== verification/Adapter.v ===== *)
(** * What the adapters share

    The adapters turn what a coding agent prints, as JSON, into normalized
    events.  This file holds the JSON values of [serde_json], a monad for methods
    with [&mut self], and the contract of a source of events, from which its consequences for a whole run
    are derived once for both adapters. *)
From Corelib Require Import Floats.SpecFloat.
From S2P Require Import Prelude Identity.

Definition AGENT_ADAPTER_CONTRACT_VERSION : Z := 1.

(** ** [serde_json]

    Its values and their accessors, which the program calls and does not
    define: [as_object] gives the entries of an object, as a map with string
    keys, and the [json!] macro builds values. *)
Class Json := {
  Value : Type;
  as_str : Value → option string;
  as_u64 : Value → option Z;
  as_i64 : Value → option Z;
  as_array : Value → option (list Value);
  as_object : Value → option (gmap string Value);
  json_string : string → Value;
  json_number : Z → Value;
  json_bool : bool → Value;
  json_null : Value;
  json_array : list Value → Value;
  json_object : gmap string Value → Value;
  value_to_string : Value → string;
  value_from_str : string → option Value;
}.

Section json.
Context `{Json}.

(** [Value::get] with a string. *)
Definition value_get (v : Value) (key : string) : option Value :=
  match as_object v with Some m => m !! key | None => None end.
Definition json_entries (l : list (string * Value)) : Value :=
  json_object (list_to_map l).

End json.

(** [value.filter(|value| !value.trim().is_empty())] on optional text. *)
Definition visible (o : option string) : option string :=
  match o with Some s => if blank s then None else Some s | None => None end.
Definition option_blank (o : option string) : bool :=
  match o with Some s => blank s | None => false end.

(** Appends when the result fits, and tells whether it did. *)
Definition append_if_within_limit (target addition : string) (limit : Z) : option string :=
  match checked_add USIZE_MAX (str_len target) (str_len addition) with
  | Some length => if (length <=? limit)%Z then Some (target +:+ addition) else None
  | None => None
  end.

(** ** Methods with [&mut self]

    A method takes the state and gives the one it leaves next to its result, so
    that what a failing method has assigned is kept. *)
Definition self (S E A : Type) : Type := S → S * outcome E A.

#[export] Instance self_ret {S E} : MRet (self S E) := λ _ a s, (s, Ok a).
#[export] Instance self_bind {S E} : MBind (self S E) := λ _ _ k m s,
  match m s with
  | (s, Ok a) => k a s
  | (s, Err e) => (s, Err e)
  | (s, Panic) => (s, Panic)
  | (s, Diverge) => (s, Diverge)
  end.

Definition sget {S E} : self S E S := λ s, (s, Ok s).
Definition smodify {S E} (f : S → S) : self S E unit := λ s, (f s, Ok tt).
Definition slift {S E A} (o : outcome E A) : self S E A := λ s, (s, o).
(** A method of a part of [self], with [map_err]. *)
Definition zoom {S T E F A} (get : S → T) (set : T → S → S) (f : E → F) (m : self T E A)
    : self S F A := λ s, let '(t, r) := m (get s) in (set t s, map_err f r).

Notation "'refuse' b 'with' e ';;' k" := (if (b : bool) then slift (Err e) else k)
  (at level 199, b at level 99, e at level 99, k at level 199) : rust_scope.

(** Executes a method as far as it is known. *)
Ltac unself :=
  repeat match goal with
  | |- context [@mbind ?M (@self_bind ?S ?E)] =>
      change (@mbind M (@self_bind S E)) with (@self_bind S E)
  | |- context [@mret ?M (@self_ret ?S ?E)] =>
      change (@mret M (@self_ret S E)) with (@self_ret S E)
  end;
  unfold self_bind, self_ret, sget, smodify, slift, zoom; cbn.

Lemma bind_ok {S E A B} (m : self S E A) (k : A → self S E B) s b :
  ((m ≫= k) s).2 = Ok b → ∃ a s1, m s = (s1, Ok a) ∧ (k a s1).2 = Ok b.
Proof. unself. destruct (m s) as [s1 [a| | |]]; try done. by exists a, s1. Qed.

(** Membership in a table. *)
Ltac in_table := apply list_elem_of_In; cbn; tauto.

(** ** Sources of events *)

Definition terminal_state (s : NormalizedRunState) : bool :=
  match s with
  | RunCancelled | RunFailed | RunSucceeded | RunUncertain => true
  | _ => false
  end.

(** The stream of a run: each of its methods emits at most one event. *)
Class EventSource (S Op : Type) := {
  src_step : Op → S → S * option NormalizedAdapterEvent;
  src_run : S → RunId;
  src_next : S → Z;
  src_closed : S → bool;
  src_ok : S → Prop;
}.

(** The contract, in the states there are: an event carries the run and the next
    number, none follows the end, and an event of a terminal state is the end. *)
Class EventSourceLaws (S Op : Type) `{EventSource S Op} := {
  src_keeps op s s' o : src_ok s → src_step op s = (s', o) →
    src_ok s' ∧ src_run s' = src_run s ∧ (src_closed s = true → src_closed s' = true);
  src_silent op s s' : src_ok s → src_step op s = (s', None) →
    src_next s' = src_next s ∨ src_closed s' = true;
  src_emits op s s' e : src_ok s → src_step op s = (s', Some e) →
    src_closed s = false ∧ src_next s' = (src_next s + 1)%Z ∧
    ev_sequence e = src_next s ∧ (src_next s ≤ U64_MAX)%Z ∧ ev_run_id e = src_run s ∧
    ev_contract_version e = AGENT_ADAPTER_CONTRACT_VERSION ∧ blank (ev_occurred_at e) = false ∧
    (terminal_state (ev_state e) = true → src_closed s' = true);
}.

Section source.
Context {S Op} `{EventSourceLaws S Op}.

(** Any methods in any order, and the events they emit. *)
Fixpoint src_run_ops (ops : list Op) (s : S) : S * list NormalizedAdapterEvent :=
  match ops with
  | [] => (s, [])
  | op :: ops =>
      let '(s, o) := src_step op s in
      let '(s, es) := src_run_ops ops s in
      (s, match o with Some e => e :: es | None => es end)
  end.

(** Numbered from [n] on, of one run, and nothing after a terminal state. *)
Inductive reported (run : RunId) : Z → list NormalizedAdapterEvent → Prop :=
| reported_nil n : reported run n []
| reported_cons n e es :
    ev_run_id e = run → ev_sequence e = n → (n ≤ U64_MAX)%Z →
    ev_contract_version e = AGENT_ADAPTER_CONTRACT_VERSION → blank (ev_occurred_at e) = false →
    (terminal_state (ev_state e) = true → es = []) →
    reported run (n + 1) es → reported run n (e :: es).

Lemma src_closed_silent ops s :
  src_ok s → src_closed s = true → (src_run_ops ops s).2 = [].
Proof.
  revert s. induction ops as [|op ops IH]; intros s Ho Hs; cbn; [done|].
  destruct (src_step op s) as [s' o] eqn:E. pose proof E as Hk.
  apply src_keeps in Hk as (Ho' & _ & Hc); [|done].
  specialize (IH s' Ho' (Hc Hs)). destruct (src_run_ops ops s'); cbn in *. subst.
  destruct o; [|done]. apply src_emits in E as [Hf _]; [congruence|done].
Qed.

Lemma src_reported ops s :
  src_ok s → reported (src_run s) (src_next s) (src_run_ops ops s).2.
Proof.
  revert s. induction ops as [|op ops IH]; intros s Ho; cbn; [constructor|].
  destruct (src_step op s) as [s' o] eqn:E. destruct (src_keeps _ _ _ _ Ho E) as (Ho' & Hr & _).
  specialize (IH s' Ho'). pose proof (src_closed_silent ops s' Ho') as Hz.
  destruct (src_run_ops ops s') as [s'' es]; cbn in *. rewrite Hr in IH.
  destruct o as [e|].
  - apply src_emits in E as (_ & Hn & ? & ? & ? & ? & ? & Ht); [|done]. rewrite Hn in IH.
    constructor; auto.
  - destruct (src_silent _ _ _ Ho E) as [<-|Hc]; [done|]. rewrite (Hz Hc). constructor.
Qed.

Lemma reported_app run n es1 es2 :
  reported run n (es1 ++ es2) → reported run (n + Z.of_nat (length es1)) es2.
Proof.
  revert n. induction es1 as [|e es1 IH]; intros n Hr; [by rewrite Z.add_0_r|].
  rewrite length_cons, Nat2Z.inj_succ, <- Z.add_1_l, Z.add_assoc. apply IH. by inversion Hr.
Qed.

End source.

(** ** Collected answers *)

Fixpoint texts (l : list string) : string :=
  match l with [] => "" | s :: l => s +:+ texts l end.

(** All the texts when they fit, nothing when they do not. *)
Definition collected (limit : Z) (l : list string) (output : string) (overflowed : bool) : Prop :=
  if (str_len (texts l) <=? limit)%Z then output = texts l ∧ overflowed = false
  else output = "" ∧ overflowed = true.

Lemma str_len_app s t : str_len (s +:+ t) = (str_len s + str_len t)%Z.
Proof.
  unfold str_len. induction s as [|a s IH]; [done|].
  change (String.length (String a s +:+ t)) with (S (String.length (s +:+ t))).
  cbn [String.length]. lia.
Qed.
Lemma append_assoc (s t u : string) : (s +:+ t) +:+ u = s +:+ t +:+ u.
Proof.
  induction s as [|a s IH]; [done|]. change (String a ((s +:+ t) +:+ u) = String a (s +:+ t +:+ u)).
  by rewrite IH.
Qed.
Lemma append_empty (s : string) : s +:+ "" = s.
Proof. induction s as [|a s IH]; [done|]. change (String a (s +:+ "") = String a s). by rewrite IH. Qed.
Lemma texts_snoc l s : texts (l ++ [s]) = texts l +:+ s.
Proof.
  induction l as [|t l IH]; cbn [texts app]; [by rewrite append_empty|]. by rewrite IH, append_assoc.
Qed.
Lemma str_len_nonneg s : (0 ≤ str_len s)%Z.
Proof. unfold str_len. lia. Qed.

Lemma collected_nil limit : (0 ≤ limit)%Z → collected limit [] "" false.
Proof.
  intros Hl. unfold collected. change (str_len (texts [])) with 0%Z.
  by destruct (Z.leb_spec 0 limit); [|lia].
Qed.
Lemma collected_open limit l output text :
  (limit ≤ USIZE_MAX)%Z → collected limit l output false →
  match append_if_within_limit output text limit with
  | Some output' => collected limit (l ++ [text]) output' false
  | None => collected limit (l ++ [text]) "" true
  end.
Proof.
  intros Hl. unfold collected. destruct (Z.leb_spec (str_len (texts l)) limit); [|intros [_ ?]; done].
  intros [-> _]. rewrite texts_snoc, str_len_app. unfold append_if_within_limit, checked_add.
  case_bool_decide; [|by rewrite (proj2 (Z.leb_gt _ _)) by lia].
  by destruct (Z.leb_spec (str_len (texts l) + str_len text) limit).
Qed.
Lemma collected_overflowed limit l output text :
  collected limit l output true → collected limit (l ++ [text]) output true.
Proof.
  unfold collected. destruct (Z.leb_spec (str_len (texts l)) limit); [intros [_ ?]; done|].
  intros [-> _]. rewrite texts_snoc, str_len_app. pose proof (str_len_nonneg text).
  by rewrite (proj2 (Z.leb_gt _ _)) by lia.
Qed.
Lemma collected_bounded limit l output overflowed :
  (0 ≤ limit)%Z → collected limit l output overflowed → (str_len output ≤ limit)%Z.
Proof.
  intros Hl. unfold collected. destruct (Z.leb_spec (str_len (texts l)) limit); [by intros [-> _]|].
  by intros [-> _].
Qed.
