(* ===== verification/CodexCommands.v ===== *)
(** * The commands of the Codex CLI

    Models [bastet-adapter-codex/src/lib.rs]: finding the executable, asking it for
    its version, its health and its login.  A run of the executable is a parameter
    ([CommandRunner]), and so are the files. *)
From S2P Require Import Prelude Policy Identity LineDecoder Adapter.

Definition ADAPTER_KIND : string := "codex_cli".

Record CommandOutput := { co_success : bool; co_stdout : string; co_stderr : string }.

Inductive AuthenticationMethod := ChatGpt | ApiKey | AccessToken | WorkloadIdentity.

Record DiscoveryReport := {
  dr_adapter_kind : string; dr_executable : string; dr_evidence_class : EvidenceClass }.
Record VersionReport := {
  vr_adapter_kind : string; vr_version : string; vr_evidence_class : EvidenceClass }.
Record DoctorReport := {
  do_adapter_kind : string;
  do_schema_version : Z;
  do_codex_version : string;
  do_overall_status : string;
  do_check_count : nat;
  do_evidence_class : EvidenceClass;
}.
Record AuthenticationStatus := {
  as_adapter_kind : string;
  as_authenticated : bool;
  as_method : option AuthenticationMethod;
  as_evidence_class : EvidenceClass;
}.

Inductive CodexAdapterError :=
| CaBinaryMissing | CaSpawn | CaCommandFailed | CaNonUtf8Output | CaProtocolDrift.

(** [std::str::from_utf8] *)
Definition utf8_text {E} (bytes : string) (e : E) : outcome E string :=
  if from_utf8 (String.list_ascii_of_string bytes) then Ok bytes else Err e.

Definition valid_version (value : string) : bool :=
  negb (is_empty value)
  && forallb (λ part, negb (is_empty part) && all_chars ascii_digit part) (split_at "." value).

(** [find_on_path]: the directories of the path in order. *)
Definition find_on_path (windows : bool) (is_file : string → bool) (path : option (list string))
    : option string :=
  directories ← path;
  find_map (λ directory,
    find_map (λ name, let candidate := directory +:+ "/" +:+ name in
                      if is_file candidate then Some candidate else None)
      (if windows then ["codex.exe"; "codex.cmd"] else ["codex"])) directories.

Section adapter.
Context `{Json} (is_file : string → bool).
(** [CommandRunner::run] with the arguments; [None] is an error of starting it. *)
Context (run : string → list string → option CommandOutput).
Context (executable : string).

Definition discover : outcome CodexAdapterError DiscoveryReport :=
  if negb (is_file executable) then Err CaBinaryMissing else
  Ok {| dr_adapter_kind := ADAPTER_KIND; dr_executable := executable;
        dr_evidence_class := LocallyMeasured |}.

Definition version : outcome CodexAdapterError VersionReport :=
  let? _ := discover in
  let? output := ok_or (run executable ["--version"]) CaSpawn in
  if negb (co_success output) then Err CaCommandFailed else
  let? stdout := utf8_text (co_stdout output) CaNonUtf8Output in
  let? version := ok_or (str_strip_prefix "codex-cli " (trim stdout)) CaProtocolDrift in
  if valid_version version
  then Ok {| vr_adapter_kind := ADAPTER_KIND; vr_version := version;
             vr_evidence_class := ProviderReported |}
  else Err CaProtocolDrift.

(** The fields that [DoctorWire] takes from the object. *)
Definition doctor_wire (stdout : string) : option (Z * string * string * list Value) :=
  wire ← value_from_str stdout;
  schema_version ← value_get wire "schemaVersion" ≫= as_u64;
  codex_version ← value_get wire "codexVersion" ≫= as_str;
  overall_status ← value_get wire "overallStatus" ≫= as_str;
  checks ← value_get wire "checks" ≫= as_array;
  Some (schema_version, codex_version, overall_status, checks).

Definition doctor : outcome CodexAdapterError DoctorReport :=
  let? _ := discover in
  let? output := ok_or (run executable ["doctor"; "--json"]) CaSpawn in
  let? stdout := utf8_text (co_stdout output) CaNonUtf8Output in
  let? (schema_version, codex_version, overall_status, checks) :=
    ok_or (doctor_wire stdout) CaProtocolDrift in
  if (schema_version =? 0)%Z || negb (valid_version codex_version) || blank overall_status
  then Err CaProtocolDrift else
  Ok {| do_adapter_kind := ADAPTER_KIND; do_schema_version := schema_version;
        do_codex_version := codex_version; do_overall_status := overall_status;
        do_check_count := length checks; do_evidence_class := ProviderReported |}.

Definition login_method (success : bool) (stdout stderr : string)
    : outcome CodexAdapterError (option AuthenticationMethod) :=
  if String.eqb stdout "Logged in using ChatGPT" then Ok (Some ChatGpt) else
  if String.eqb stdout "Logged in using an API key" then Ok (Some ApiKey) else
  if String.eqb stdout "Logged in using an access token" then Ok (Some AccessToken) else
  if String.eqb stdout "Logged in using workload identity" then Ok (Some WorkloadIdentity) else
  if negb success && (String.eqb stdout "Not logged in" || String.eqb stderr "Not logged in")
  then Ok None else Err CaProtocolDrift.

Definition authentication_status : outcome CodexAdapterError AuthenticationStatus :=
  let? _ := discover in
  let? output := ok_or (run executable ["login"; "status"]) CaSpawn in
  let? stdout := utf8_text (co_stdout output) CaNonUtf8Output in
  let? stderr := utf8_text (co_stderr output) CaNonUtf8Output in
  let? method := login_method (co_success output) (trim stdout) (trim stderr) in
  Ok {| as_adapter_kind := ADAPTER_KIND; as_authenticated := bool_decide (is_Some method);
        as_method := method; as_evidence_class := ProviderReported |}.

Definition capabilities : AdapterCapabilities :=
  {| ac_operations := [Discover; Version; Doctor; InspectAuthentication; ListModels; Start; Attach;
                       Status; Wait; Cancel; ExportUsage];
     ac_reasoning_controls := [];
     ac_supports_read_only := true; ac_supports_write := true; ac_supports_resume := true;
     ac_supports_structured_events := true |}.

End adapter.
