(* ===== verification/AgyCommands.v ===== *)
(** * The commands of the Agy CLI

    Models [bastet-adapter-agy/src/lib.rs]: finding the executable, asking it for
    its version and its models, and what the list of models is read back as. *)
From S2P Require Import Prelude Policy Identity LineDecoder WinEncoding Adapter.
From S2P Require Import CodexCommands.

Definition ADAPTER_KIND : string := "agy_cli".

Record ModelDescriptor := { md_id : string; md_display_name : string }.

Inductive AgyAdapterError :=
| AaBinaryMissing | AaSpawn | AaCommandFailed | AaNonUtf8Output | AaProtocolDrift.

Definition parse_single_line (bytes : string) : outcome AgyAdapterError string :=
  let? text := utf8_text bytes AaNonUtf8Output in
  let line := match lines text with
              | line :: _ => if is_empty (trim line) then None else Some (trim line)
              | [] => None
              end in
  if existsb (λ line, negb (blank line)) (tail (lines text)) then Err AaProtocolDrift else
  ok_or line AaProtocolDrift.

Definition valid_version (value : string) : bool :=
  let parts := split_at "." value in
  bool_decide (length parts = 3)
  && forallb (λ part, negb (is_empty part) && all_chars ascii_digit part) parts.

Definition model_id_byte (byte : ascii) : bool :=
  ascii_alphanumeric byte || Ascii.eqb byte "-" || Ascii.eqb byte "_" || Ascii.eqb byte "."
  || Ascii.eqb byte "/".
Definition valid_model_id (value : string) : bool :=
  negb (is_empty value) && (str_len value <=? 128)%Z && all_chars model_id_byte value.

(** The loop over the lines that are not empty. *)
Fixpoint read_models (models : list ModelDescriptor) (rest : list string)
    : outcome AgyAdapterError (list ModelDescriptor) :=
  match rest with
  | [] => Ok models
  | line :: rest =>
      if String.eqb line "Fetching available models..." then read_models models rest else
      let? (id, display_name) := ok_or (split_once "009" line) AaProtocolDrift in
      if negb (valid_model_id id) || blank display_name then Err AaProtocolDrift else
      read_models (models ++ [{| md_id := id; md_display_name := trim display_name |}]) rest
  end.
Definition models_of (stdout : string) : outcome AgyAdapterError (list ModelDescriptor) :=
  let? models := read_models []
    (List.filter (λ line, negb (is_empty line)) (map trim (lines stdout))) in
  if bool_decide (length models = 0) then Err AaProtocolDrift else Ok models.

Section adapter.
Context (is_file : string → bool) (run : string → list string → option CommandOutput).
Context (executable : string).

Definition discover : outcome AgyAdapterError DiscoveryReport :=
  if negb (is_file executable) then Err AaBinaryMissing else
  Ok {| dr_adapter_kind := ADAPTER_KIND; dr_executable := executable;
        dr_evidence_class := LocallyMeasured |}.

Definition run_command (arguments : list string) : outcome AgyAdapterError CommandOutput :=
  let? output := ok_or (run executable arguments) AaSpawn in
  if negb (co_success output) then Err AaCommandFailed else Ok output.

Definition version : outcome AgyAdapterError VersionReport :=
  let? _ := discover in
  let? output := run_command ["--version"] in
  let? version := parse_single_line (co_stdout output) in
  if negb (valid_version version) then Err AaProtocolDrift else
  Ok {| vr_adapter_kind := ADAPTER_KIND; vr_version := version;
        vr_evidence_class := ProviderReported |}.

Definition list_models : outcome AgyAdapterError (list ModelDescriptor) :=
  let? _ := discover in
  let? output := run_command ["models"] in
  let? stdout := utf8_text (co_stdout output) AaNonUtf8Output in
  models_of stdout.

Definition capabilities : AdapterCapabilities :=
  {| ac_operations := [Discover; Version; ListModels; Start; Attach; Status; Wait; Cancel; ExportUsage];
     ac_reasoning_controls := ["low"; "medium"; "high"];
     ac_supports_read_only := true; ac_supports_write := true; ac_supports_resume := true;
     ac_supports_structured_events := true |}.

End adapter.

(** ** What a list of models is read back as *)

(** A row of the list, and the model that it tells. *)
Definition tells (row : string) (m : ModelDescriptor) : Prop :=
  ∃ name, split_once "009" row = Some (md_id m, name) ∧ md_display_name m = trim name ∧
    valid_model_id (md_id m) = true ∧ blank name = false.
Definition rows_of (stdout : string) : list string :=
  List.filter (λ line, negb (String.eqb line "Fetching available models..."))
    (List.filter (λ line, negb (is_empty line)) (map trim (lines stdout))).

Lemma read_models_ok rest : ∀ models ms,
  read_models models rest = Ok ms ↔
  ∃ read, ms = models ++ read ∧
    Forall2 tells (List.filter (λ line, negb (String.eqb line "Fetching available models...")) rest) read.
Proof.
  induction rest as [|line rest IH]; intros models ms; cbn [read_models List.filter].
  { split; [intros [= <-]; exists []; by rewrite app_nil_r|].
    intros (read & -> & ->%Forall2_nil_inv_l). by rewrite app_nil_r. }
  destruct (String.eqb line _) eqn:El; cbn [negb]; [apply IH|].
  destruct (split_once _ line) as [[id name]|] eqn:Es; cbn [ok_or obind].
  2: { split; [done|]. intros (read & _ & (m & l & (n & E & _) & _)%Forall2_cons_inv_l). congruence. }
  destruct (negb (valid_model_id id) || blank name) eqn:Ev.
  { split; [done|]. intros (read & _ & (m & l & (n & E & _ & Hv & Hb) & _)%Forall2_cons_inv_l).
    assert (id = md_id m ∧ name = n) as [-> ->] by (split; congruence). by rewrite Hv, Hb in Ev. }
  apply orb_false_iff in Ev as [Hv%negb_false_iff Hb]. rewrite IH. split.
  - intros (read & -> & Hr). eexists. rewrite <- app_assoc. split; [reflexivity|].
    constructor; [|done]. by exists name.
  - intros (read & -> & (m & l & (n & E & Hn & _) & Hl & ->)%Forall2_cons_inv_l).
    exists l. split; [|done]. rewrite <- app_assoc. cbn. do 2 f_equal.
    destruct m as [i d]. cbn in *. congruence.
Qed.

(** Every row tells one model, in order, or the whole list is refused. *)
Lemma models_of_ok stdout ms :
  models_of stdout = Ok ms ↔ ms ≠ [] ∧ Forall2 tells (rows_of stdout) ms.
Proof.
  unfold models_of, rows_of. set (rest := List.filter _ (map _ _)). split.
  - destruct (read_models [] rest) as [read|e| |] eqn:E; cbn; try done.
    apply read_models_ok in E as (read' & -> & Hr). case_bool_decide as Hl; [done|].
    intros [= <-]. split; [|exact Hr]. by intros ->.
  - intros [Hne Hf]. assert (E : read_models [] rest = Ok ms) by (apply read_models_ok; by exists ms).
    rewrite E. cbn. rewrite bool_decide_false; [done|]. by destruct ms.
Qed.
