(* ===== verification/ProcessChild.v ===== *)
(** * An owned child process

    Models [crates/bastet-core/src/process_child.rs] on a Unix host other than
    macOS: the one place where a child is signalled and reaped.  What the probes,
    the signal to the group and the wait answer is a schedule; the signals and
    the wait are recorded as effects. *)
From S2P Require Import Prelude Adapter.

(** [libc::kill(-pid, SIGKILL)], [child.kill()] and [child.wait()]. *)
Inductive child_effect := KillGroup (pid : Z) | KillChild (pid : Z) | Reap (pid : Z).

Record Child := {
  cd_pid : Z;
  cd_stdin : bool;
  cd_stdout : bool;
}.

Record OwnedAdapterChild := {
  oc_child : option Child;
  oc_cleanup_failed : bool;
  oc_effects : list child_effect;
}.

(** [exited_without_reaping]: the leader has exited; it has not, and whether the
    deadline is ahead; [EINTR]; [ECHILD]; another error. *)
Inductive exit_probe :=
| Exited
| StillRunning (before_deadline : bool)
| ProbeInterrupted
| NoChild
| ProbeFailed.

Inductive group_answer := GroupKilled | NoSuchProcess | GroupError.

(** What a call of [shutdown] observes. *)
Record shutdown_schedule := {
  sh_probes : list exit_probe;
  sh_group : group_answer;
  sh_wait : bool;
}.

Definition I32_MAX : Z := 2 ^ 31 - 1.

Definition own_child (pid : Z) : OwnedAdapterChild :=
  {| oc_child := Some {| cd_pid := pid; cd_stdin := true; cd_stdout := true |};
     oc_cleanup_failed := false; oc_effects := [] |}.

Definition set_child (v : option Child) (s : OwnedAdapterChild) : OwnedAdapterChild :=
  {| oc_child := v; oc_cleanup_failed := oc_cleanup_failed s; oc_effects := oc_effects s |}.
Definition effect (e : child_effect) (s : OwnedAdapterChild) : OwnedAdapterChild :=
  {| oc_child := oc_child s; oc_cleanup_failed := oc_cleanup_failed s;
     oc_effects := oc_effects s ++ [e] |}.
Definition set_cleanup_failed (v : bool) (s : OwnedAdapterChild) : OwnedAdapterChild :=
  {| oc_child := oc_child s; oc_cleanup_failed := v; oc_effects := oc_effects s |}.

Definition without_stdin (c : Child) : Child :=
  {| cd_pid := cd_pid c; cd_stdin := false; cd_stdout := cd_stdout c |}.
Definition without_stdout (c : Child) : Child :=
  {| cd_pid := cd_pid c; cd_stdin := cd_stdin c; cd_stdout := false |}.

Notation method := (self OwnedAdapterChild unit).

(** The pipe, when it was there. *)
Definition take_stdin : method bool :=
  self ← sget;
  smodify (set_child (without_stdin <$> oc_child self)) ;;
  mret (match oc_child self with Some c => cd_stdin c | None => false end).
Definition take_stdout : method bool :=
  self ← sget;
  smodify (set_child (without_stdout <$> oc_child self)) ;;
  mret (match oc_child self with Some c => cd_stdout c | None => false end).

(** The loop over the probes: [Ok] leaves it to signal the group, [Err] is the
    foreign reaper. *)
Fixpoint await_exit (probes : list exit_probe) : outcome unit unit :=
  match probes with
  | [] => Diverge
  | Exited :: _ => Ok tt
  | StillRunning true :: probes => await_exit probes
  | StillRunning false :: _ => Ok tt
  | ProbeInterrupted :: probes => await_exit probes
  | NoChild :: _ => Err tt
  | ProbeFailed :: _ => Ok tt
  end.

Definition shutdown_inner (schedule : shutdown_schedule) : method unit :=
  self ← sget;
  match oc_child self with
  | None => mret tt
  | Some child =>
      smodify (set_child (Some (without_stdin child))) ;;
      (if is_err (await_exit (sh_probes schedule)) then smodify (set_child None) else mret tt) ;;
      slift (await_exit (sh_probes schedule)) ;;
      refuse (I32_MAX <? cd_pid child)%Z with tt;;
      refuse (cd_pid child <=? 1)%Z with tt;;
      smodify (effect (KillGroup (cd_pid child))) ;;
      smodify (effect (KillChild (cd_pid child))) ;;
      smodify (effect (Reap (cd_pid child))) ;;
      smodify (set_child None) ;;
      refuse match sh_group schedule with GroupError => true | _ => false end with tt;;
      refuse negb (sh_wait schedule) with tt;;
      mret tt
  end.

Definition shutdown (schedule : shutdown_schedule) : method unit := λ s,
  if oc_cleanup_failed s then (s, Err tt) else
  let '(s, result) := shutdown_inner schedule s in
  (set_cleanup_failed (is_err result) s, result).

(** ** Lemmas *)

(** Calls of [shutdown], the one of [Drop] included, in any number. *)
Fixpoint shutdowns (schedules : list shutdown_schedule) (s : OwnedAdapterChild)
    : OwnedAdapterChild * list (outcome unit unit) :=
  match schedules with
  | [] => (s, [])
  | x :: schedules =>
      let '(s, r) := shutdown x s in
      let '(s, rs) := shutdowns schedules s in (s, r :: rs)
  end.

(** Nothing was done yet, or the child was signalled and awaited. *)
Definition ended_effects (pid : Z) : list child_effect := [KillGroup pid; KillChild pid; Reap pid].
Definition owned (pid : Z) (s : OwnedAdapterChild) : Prop :=
  (oc_effects s = [] ∧ (∀ c, oc_child s = Some c → cd_pid c = pid) ∧
   (oc_child s = None → oc_cleanup_failed s = true)) ∨
  (oc_effects s = ended_effects pid ∧ (1 < pid ≤ I32_MAX)%Z ∧ oc_child s = None).

(** What a call leaves of a child, by its result. *)
Definition left_by (r : outcome unit unit) (s : OwnedAdapterChild) : Prop :=
  match r with
  | Ok _ => oc_cleanup_failed s = false ∧ oc_child s = None
  | Err _ => oc_cleanup_failed s = true
  | _ => True
  end.

(** The child is still there: it is the one that was spawned. *)
Local Ltac unsignalled :=
  intros [= <- <-]; split; [left; cbn; split_and!; [done| |done]|done];
  first [done | by intros ? [= <-]].

Lemma shutdown_owned schedule pid s s' r :
  owned pid s → shutdown schedule s = (s', r) → owned pid s' ∧ left_by r s'.
Proof.
  unfold shutdown. intros Ho. destruct (oc_cleanup_failed s) eqn:Ef; [intros [= <- <-]; by split|].
  unfold shutdown_inner. unself. destruct (oc_child s) as [c|] eqn:Ec; cbn.
  2:{ intros [= <- <-]. destruct Ho as [(_ & _ & Hn)|(He & Hp & _)]; [specialize (Hn Ec); congruence|].
      split; [right; cbn; split_and!; try done; lia|done]. }
  destruct Ho as [(He & Hp & _)|(_ & _ & ?)]; [|congruence].
  specialize (Hp c Ec). destruct (await_exit _) as [[]|[]| |]; cbn; try unsignalled.
  rewrite Hp. destruct (Z.ltb_spec I32_MAX pid); [unsignalled|].
  destruct (Z.leb_spec pid 1); [unsignalled|].
  destruct (sh_group schedule), (sh_wait schedule); cbn; intros [= <- <-];
    (split; [right; cbn; rewrite He; split_and!; try done; lia|done]).
Qed.

Lemma shutdown_left schedule s s' r : shutdown schedule s = (s', r) → left_by r s'.
Proof.
  unfold shutdown. destruct (oc_cleanup_failed s) eqn:Ef; [by intros [= <- <-]|].
  unfold shutdown_inner. unself. destruct (oc_child s) as [c|] eqn:Ec; cbn; [|by intros [= <- <-]].
  destruct (await_exit _) as [[]|[]| |]; cbn; try by intros [= <- <-].
  destruct (_ <? _)%Z; [by intros [= <- <-]|]. destruct (_ <=? _)%Z; [by intros [= <- <-]|].
  by destruct (sh_group schedule), (sh_wait schedule); intros [= <- <-].
Qed.

(** What is settled stays as it is. *)
Lemma shutdown_again schedule s :
  (oc_cleanup_failed s = true → shutdown schedule s = (s, Err tt)) ∧
  (oc_cleanup_failed s = false → oc_child s = None → shutdown schedule s = (s, Ok tt)).
Proof.
  unfold shutdown. split; [by intros ->|]. intros Hf Hc. rewrite Hf. unfold shutdown_inner. unself.
  rewrite Hc. cbn. unfold set_cleanup_failed. destruct s. cbn in *. by subst.
Qed.

Lemma shutdowns_settled r schedules s :
  returns r → left_by r s → shutdowns schedules s = (s, replicate (length schedules) r).
Proof.
  intros Hr Hl. induction schedules as [|x schedules IH]; cbn; [done|].
  destruct r as [[]|[]| |]; try done; cbn in Hl.
  - destruct Hl. rewrite (proj2 (shutdown_again x s)) by done. by rewrite IH.
  - rewrite (proj1 (shutdown_again x s)) by done. by rewrite IH.
Qed.

Lemma shutdowns_owned schedules pid s s' rs :
  owned pid s → shutdowns schedules s = (s', rs) → owned pid s'.
Proof.
  revert s s' rs. induction schedules as [|x schedules IH]; cbn; intros s s' rs Ho; [by intros [= <- <-]|].
  destruct (shutdown x s) as [s1 r1] eqn:E1. destruct (shutdowns schedules s1) as [s2 rs2] eqn:E2.
  intros [= <- <-]. eapply IH; [|done]. by eapply shutdown_owned.
Qed.

Lemma own_child_owned pid : owned pid (own_child pid).
Proof. left. split_and!; try done. by intros ? [= <-]. Qed.
