(* ===== verification/CodexLifecycle.v ===== *)
(** * The life cycle of a Codex run

    Models [bastet-adapter-codex/src/lifecycle.rs]: the normalizer that turns
    notifications of the app server into numbered events, and the stream of one
    turn, which ends at most once. *)
From S2P Require Import Prelude Identity Adapter.

Inductive LifecycleError := LifecycleDrift | SequenceOverflow.

Record NormalizedCodexEvent := {
  nc_event : NormalizedAdapterEvent;
  nc_failure : option AdapterFailure;
}.

Record CodexEventNormalizer := {
  cn_run_id : RunId;
  cn_next_sequence : Z;
}.

Record CodexRunStream := {
  cs_provider_turn_id : string;
  cs_normalizer : CodexEventNormalizer;
  cs_terminal : bool;
}.

Definition normalizer_new (run_id : RunId) : CodexEventNormalizer :=
  {| cn_run_id := run_id; cn_next_sequence := 1 |}.

Definition set_normalizer (n : CodexEventNormalizer) (s : CodexRunStream) : CodexRunStream :=
  {| cs_provider_turn_id := cs_provider_turn_id s; cs_normalizer := n;
     cs_terminal := cs_terminal s |}.
Definition set_terminal (s : CodexRunStream) : CodexRunStream :=
  {| cs_provider_turn_id := cs_provider_turn_id s; cs_normalizer := cs_normalizer s;
     cs_terminal := true |}.

(** [to_ascii_lowercase] and [is_ascii_uppercase] *)
Definition ascii_upper (a : ascii) : bool :=
  let n := N_of_ascii a in ((65 <=? n) && (n <=? 90))%N.
Definition ascii_lower (a : ascii) : ascii :=
  if ascii_upper a then ascii_of_N (N_of_ascii a + 32) else a.
Fixpoint to_ascii_lowercase (s : string) : string :=
  match s with EmptyString => EmptyString | String a s => String (ascii_lower a) (to_ascii_lowercase s) end.

(** An underscore goes before each capital but a leading one. *)
Fixpoint snake_case_from (first : bool) (value : string) : string :=
  match value with
  | EmptyString => EmptyString
  | String a rest =>
      let tail := String (ascii_lower a) (snake_case_from false rest) in
      if ascii_upper a && negb first then String "_" tail else tail
  end.
Definition snake_case (value : string) : string := snake_case_from true value.

(** [format!("{state:?}")] *)
Definition state_debug (state : NormalizedRunState) : string :=
  match state with
  | RunStarting => "Starting" | RunRunning => "Running"
  | RunAwaitingApproval => "AwaitingApproval" | RunBlocked => "Blocked"
  | RunCancelling => "Cancelling" | RunCancelled => "Cancelled" | RunFailed => "Failed"
  | RunSucceeded => "Succeeded" | RunRecovering => "Recovering" | RunUncertain => "Uncertain"
  end.

Definition known_code (provider_code : string) : option string :=
  if existsb (String.eqb provider_code)
       ["ResponseStreamConnectionFailed"; "ResponseStreamDisconnected";
        "ResponseTooManyFailedAttempts"; "HttpConnectionFailed"; "ContextWindowExceeded";
        "BadRequest"; "Other"]
  then Some provider_code else None.

Definition map_failure (provider_code : string) : AdapterFailureKind * bool * option string :=
  if String.eqb provider_code "Unauthorized" then (Authentication, false, Some "Unauthorized")
  else if String.eqb provider_code "UsageLimitExceeded"
  then (Quota, true, Some "UsageLimitExceeded")
  else if String.eqb provider_code "SandboxError"
  then (PermissionDenied, false, Some "SandboxError")
  else if existsb (String.eqb provider_code)
       ["ResponseStreamConnectionFailed"; "ResponseStreamDisconnected";
        "ResponseTooManyFailedAttempts"; "HttpConnectionFailed"]
  then (Crashed, true, known_code provider_code)
  else if String.eqb provider_code "InternalServerError"
  then (Crashed, true, Some "InternalServerError")
  else if existsb (String.eqb provider_code) ["ContextWindowExceeded"; "BadRequest"; "Other"]
  then (UnknownFailure, false, known_code provider_code)
  else (UnknownFailure, false, None).

Definition failure (kind : AdapterFailureKind) (provider_code : option string)
    (retryable : bool) : AdapterFailure :=
  {| af_kind := kind;
     af_message_key :=
       match provider_code with
       | None => "codex.failure.unknown"
       | Some code => "codex.failure." +:+ snake_case code
       end;
     af_retryable := retryable;
     af_provider_code := provider_code;
     af_redacted_detail := None |}.

Section lifecycle.
Context `{Json}.

Record AppServerNotification := {
  no_method : string;
  no_params : Value;
}.

Definition turn (params : Value) : outcome LifecycleError (gmap string Value) :=
  match value_get params "turn" with
  | Some t => ok_or (as_object t) LifecycleDrift
  | None => Err LifecycleDrift
  end.

Definition required_string (object : gmap string Value) (key : string)
    : outcome LifecycleError string :=
  ok_or (visible (o ← object !! key; as_str o)) LifecycleDrift.

Definition failure_code (turn : gmap string Value) : option string :=
  error ← turn !! "error";
  info ← value_get error "codexErrorInfo";
  match as_str info with
  | Some code => Some code
  | None => t ← value_get info "type"; as_str t
  end.

Definition normalizer_event (state : NormalizedRunState) (event_type occurred_at : string)
    (evidence_class : EvidenceClass) (provider_event_id : option string) (payload : Value)
    (failure : option AdapterFailure)
    : self CodexEventNormalizer LifecycleError NormalizedCodexEvent :=
  refuse blank occurred_at with LifecycleDrift;;
  self ← sget;
  next ← slift (ok_or (checked_add U64_MAX (cn_next_sequence self) 1) SequenceOverflow);
  smodify (λ self, {| cn_run_id := cn_run_id self; cn_next_sequence := next |}) ;;
  mret {| nc_event :=
            {| ev_contract_version := AGENT_ADAPTER_CONTRACT_VERSION;
               ev_run_id := cn_run_id self; ev_sequence := cn_next_sequence self;
               ev_state := state; ev_event_type := event_type; ev_occurred_at := occurred_at;
               ev_evidence_class := evidence_class; ev_provider_event_id := provider_event_id;
               ev_redacted_payload_json := value_to_string payload |};
          nc_failure := failure |}.

Definition normalizer_cancellation_requested (occurred_at : string)
    : self CodexEventNormalizer LifecycleError NormalizedCodexEvent :=
  normalizer_event RunCancelling "codex.turn_interrupt_requested" occurred_at LocallyMeasured
    None (json_entries [("status", json_string "cancelling")]) None.

Definition normalizer_recovery_started (provider_thread_id occurred_at : string)
    : self CodexEventNormalizer LifecycleError NormalizedCodexEvent :=
  refuse blank provider_thread_id with LifecycleDrift;;
  normalizer_event RunRecovering "codex.thread_resume_requested" occurred_at LocallyMeasured
    (Some provider_thread_id)
    (json_entries [("thread_id", json_string provider_thread_id);
                   ("status", json_string "recovering")]) None.

Definition turn_started (params : Value) (occurred_at : string)
    : self CodexEventNormalizer LifecycleError NormalizedCodexEvent :=
  turn ← slift (turn params);
  turn_id ← slift (required_string turn "id");
  status ← slift (required_string turn "status");
  refuse negb (String.eqb status "inProgress") with LifecycleDrift;;
  normalizer_event RunRunning "codex.turn_started" occurred_at ProviderReported (Some turn_id)
    (json_entries [("turn_id", json_string turn_id); ("status", json_string "running")]) None.

(** What a completed turn means. *)
Definition completed_as (turn : gmap string Value) (provider_status : string)
    : outcome LifecycleError (NormalizedRunState * option AdapterFailure) :=
  if String.eqb provider_status "completed" then Ok (RunSucceeded, None)
  else if String.eqb provider_status "interrupted"
  then Ok (RunCancelled, Some (failure CancelledFailure (Some "Interrupted") false))
  else if String.eqb provider_status "failed" then
    let provider_code := default "Other" (failure_code turn) in
    let '(kind, retryable, safe_provider_code) := map_failure provider_code in
    Ok (RunFailed, Some (failure kind safe_provider_code retryable))
  else Err LifecycleDrift.

Definition turn_completed (params : Value) (occurred_at : string)
    : self CodexEventNormalizer LifecycleError NormalizedCodexEvent :=
  turn ← slift (turn params);
  turn_id ← slift (required_string turn "id");
  provider_status ← slift (required_string turn "status");
  '(state, failure) ← slift (completed_as turn provider_status);
  normalizer_event state "codex.turn_completed" occurred_at ProviderReported (Some turn_id)
    (json_entries [("turn_id", json_string turn_id); ("status", json_string provider_status)])
    failure.

Definition normalize_notification (method : string) (params : Value) (occurred_at : string)
    : self CodexEventNormalizer LifecycleError (option NormalizedCodexEvent) :=
  if String.eqb method "turn/started" then e ← turn_started params occurred_at; mret (Some e)
  else if String.eqb method "turn/completed"
  then e ← turn_completed params occurred_at; mret (Some e)
  else mret None.

(** ** The stream of a turn *)

Definition stream_new (run_id : RunId) (provider_turn_id : string)
    : outcome LifecycleError CodexRunStream :=
  fail_if blank provider_turn_id with LifecycleDrift;;
  Ok {| cs_provider_turn_id := provider_turn_id; cs_normalizer := normalizer_new run_id;
        cs_terminal := false |}.

Definition in_normalizer {A} (m : self CodexEventNormalizer LifecycleError A)
    : self CodexRunStream LifecycleError A := zoom cs_normalizer set_normalizer id m.

Definition stream_ingest (notification : AppServerNotification) (occurred_at : string)
    : self CodexRunStream LifecycleError (option NormalizedCodexEvent) :=
  if negb (String.eqb (no_method notification) "turn/started"
           || String.eqb (no_method notification) "turn/completed") then mret None else
  turn ← slift (turn (no_params notification));
  provider_turn_id ← slift (required_string turn "id");
  self ← sget;
  if negb (String.eqb provider_turn_id (cs_provider_turn_id self)) then mret None else
  refuse cs_terminal self with LifecycleDrift;;
  event ← in_normalizer (normalize_notification (no_method notification)
                           (no_params notification) occurred_at);
  (if String.eqb (no_method notification) "turn/completed" then smodify set_terminal
   else mret tt) ;;
  mret event.

Definition cancellation_requested (occurred_at : string)
    : self CodexRunStream LifecycleError NormalizedCodexEvent :=
  self ← sget;
  refuse cs_terminal self with LifecycleDrift;;
  in_normalizer (normalizer_cancellation_requested occurred_at).

Definition recovery_started (provider_thread_id occurred_at : string)
    : self CodexRunStream LifecycleError NormalizedCodexEvent :=
  self ← sget;
  refuse cs_terminal self with LifecycleDrift;;
  in_normalizer (normalizer_recovery_started provider_thread_id occurred_at).

Definition local_terminal (state : NormalizedRunState) (event_type occurred_at : string)
    (failure_kind : AdapterFailureKind) (message_key : string) (retryable : bool)
    : self CodexRunStream LifecycleError NormalizedCodexEvent :=
  self ← sget;
  refuse cs_terminal self with LifecycleDrift;;
  event ← in_normalizer (normalizer_event state event_type occurred_at LocallyMeasured None
    (json_entries [("status", json_string (to_ascii_lowercase (state_debug state)))])
    (Some {| af_kind := failure_kind; af_message_key := message_key; af_retryable := retryable;
             af_provider_code := None; af_redacted_detail := None |}));
  smodify set_terminal ;;
  mret event.

Definition deadline_exceeded (occurred_at : string)
    : self CodexRunStream LifecycleError NormalizedCodexEvent :=
  local_terminal RunFailed "codex.deadline_exceeded" occurred_at Timeout
    "codex.failure.timeout" true.

Definition transport_lost (occurred_at : string)
    : self CodexRunStream LifecycleError NormalizedCodexEvent :=
  local_terminal RunUncertain "codex.transport_lost" occurred_at Crashed
    "codex.failure.transport_lost" true.

End lifecycle.
