(* ===== verification/CodexFacts.v ===== *)
(** * The stream of a Codex run as a source of events

    The methods of CodexLifecycle.v satisfy the contract of Adapter.v, and what
    they report does not depend on the rest of a notification. *)
From S2P Require Import Prelude Identity Adapter CodexLifecycle.

Section lifecycle.
Context `{Json}.

(** An event with the next number and a state in [Q], or no change. *)
Definition numbers (Q : NormalizedRunState → Prop)
    (m : self CodexEventNormalizer LifecycleError NormalizedCodexEvent) : Prop :=
  ∀ n, match m n with
  | (n', Ok e) =>
      cn_run_id n' = cn_run_id n ∧ cn_next_sequence n' = (cn_next_sequence n + 1)%Z ∧
      ev_sequence (nc_event e) = cn_next_sequence n ∧ (cn_next_sequence n ≤ U64_MAX)%Z ∧
      ev_run_id (nc_event e) = cn_run_id n ∧
      ev_contract_version (nc_event e) = AGENT_ADAPTER_CONTRACT_VERSION ∧
      blank (ev_occurred_at (nc_event e)) = false ∧ Q (ev_state (nc_event e))
  | (n', Err _) => n' = n
  | _ => False
  end.

Lemma numbers_event st ty at_ ev id payload f : numbers (eq st) (normalizer_event st ty at_ ev id payload f).
Proof.
  intros n. unfold normalizer_event. destruct (blank at_) eqn:Hb; [done|]. unself.
  unfold checked_add. case_bool_decide; cbn; [|done]. split_and!; try done; lia.
Qed.
Lemma numbers_weaken Q R m : numbers Q m → (∀ s, Q s → R s) → numbers R m.
Proof. intros Hm HQ n. specialize (Hm n). destruct (m n) as [? [| | |]]; naive_solver. Qed.
Lemma numbers_refuse Q (b : bool) e m : numbers Q m → numbers Q (refuse b with e;; m).
Proof. intros Hm n. destruct b; [done|apply Hm]. Qed.
Lemma numbers_lift {A} Q (o : outcome LifecycleError A) (k : A → self _ _ _) :
  returns o → (∀ a, o = Ok a → numbers Q (k a)) → numbers Q (slift o ≫= k).
Proof. intros Ho Hk n. destruct o; unself; try done. by apply Hk. Qed.

Lemma turn_returns params : returns (turn params).
Proof. unfold turn. destruct (value_get _ _); [apply returns_ok_or|done]. Qed.
Lemma required_string_returns t key : returns (required_string t key).
Proof. apply returns_ok_or. Qed.
Lemma completed_as_returns t s : returns (completed_as t s).
Proof. unfold completed_as. repeat case_match; done. Qed.
Lemma completed_as_terminal t s r f : completed_as t s = Ok (r, f) → terminal_state r = true.
Proof. unfold completed_as. intros E. repeat case_match; simplify_eq; done. Qed.

Lemma numbers_turn_started params at_ : numbers (eq RunRunning) (turn_started params at_).
Proof.
  apply numbers_lift; [apply turn_returns|]. intros t _.
  apply numbers_lift; [apply required_string_returns|]. intros id _.
  apply numbers_lift; [apply required_string_returns|]. intros s _.
  apply numbers_refuse, numbers_event.
Qed.
Lemma numbers_turn_completed params at_ :
  numbers (λ s, terminal_state s = true) (turn_completed params at_).
Proof.
  apply numbers_lift; [apply turn_returns|]. intros t _.
  apply numbers_lift; [apply required_string_returns|]. intros id _.
  apply numbers_lift; [apply required_string_returns|]. intros s _.
  apply numbers_lift; [apply completed_as_returns|]. intros [r f] Hr.
  eapply numbers_weaken; [apply numbers_event|]. intros ? <-. by eapply completed_as_terminal.
Qed.

(** ** The methods of a stream *)

Inductive stream_op :=
| Ingest (notification : AppServerNotification) (occurred_at : string)
| CancellationRequested (occurred_at : string)
| RecoveryStarted (provider_thread_id occurred_at : string)
| DeadlineExceeded (occurred_at : string)
| TransportLost (occurred_at : string).

Definition some_event (r : CodexRunStream * outcome LifecycleError NormalizedCodexEvent)
    : CodexRunStream * option NormalizedCodexEvent :=
  (r.1, match r.2 with Ok e => Some e | _ => None end).
Definition stream_step (op : stream_op) (s : CodexRunStream)
    : CodexRunStream * option NormalizedCodexEvent :=
  match op with
  | Ingest n at_ =>
      let r := stream_ingest n at_ s in (r.1, match r.2 with Ok o => o | _ => None end)
  | CancellationRequested at_ => some_event (cancellation_requested at_ s)
  | RecoveryStarted id at_ => some_event (recovery_started id at_ s)
  | DeadlineExceeded at_ => some_event (deadline_exceeded at_ s)
  | TransportLost at_ => some_event (transport_lost at_ s)
  end.

#[export] Instance codex_source : EventSource CodexRunStream stream_op := {
  src_step op s := let r := stream_step op s in (r.1, nc_event <$> r.2);
  src_run s := cn_run_id (cs_normalizer s);
  src_next s := cn_next_sequence (cs_normalizer s);
  src_closed := cs_terminal;
  src_ok _ := True;
}.

(** What a method does to the stream: nothing, or one event. *)
Definition follows_stream (s s' : CodexRunStream) (o : option NormalizedCodexEvent) : Prop :=
  cs_provider_turn_id s' = cs_provider_turn_id s ∧
  match o with
  | None => s' = s
  | Some e =>
      cs_terminal s = false ∧ cs_terminal s' = terminal_state (ev_state (nc_event e)) ∧
      cn_run_id (cs_normalizer s') = cn_run_id (cs_normalizer s) ∧
      cn_next_sequence (cs_normalizer s') = (cn_next_sequence (cs_normalizer s) + 1)%Z ∧
      ev_sequence (nc_event e) = cn_next_sequence (cs_normalizer s) ∧
      (cn_next_sequence (cs_normalizer s) ≤ U64_MAX)%Z ∧
      ev_run_id (nc_event e) = cn_run_id (cs_normalizer s) ∧
      ev_contract_version (nc_event e) = AGENT_ADAPTER_CONTRACT_VERSION ∧
      blank (ev_occurred_at (nc_event e)) = false
  end.

Ltac close_event :=
  split_hyps; unfold follows_stream; cbn; split_and!; 
    first [done|congruence|match goal with H : _ = ev_state _ |- _ => by rewrite <- H end].

Lemma set_normalizer_same s : set_normalizer (cs_normalizer s) s = s.
Proof. by destruct s. Qed.

Lemma local_terminal_follows st ty at_ kind key retry s :
  terminal_state st = true →
  let r := some_event (local_terminal st ty at_ kind key retry s) in follows_stream s r.1 r.2.
Proof.
  intros Hst. unfold local_terminal, some_event, in_normalizer. unself.
  destruct (cs_terminal s) eqn:Ht; [done|].
  match goal with |- context [normalizer_event ?a ?b ?c ?d ?e ?p ?f] =>
    pose proof (numbers_event a b c d e p f (cs_normalizer s)) as Hn;
    destruct (normalizer_event a b c d e p f (cs_normalizer s)) as [n [x| | |]] end; try done; cbn in *.
  - close_event.
  - subst. unfold follows_stream. by rewrite set_normalizer_same.
Qed.

Lemma open_follows (m : self CodexEventNormalizer LifecycleError NormalizedCodexEvent) s :
  numbers (λ r, terminal_state r = false) m →
  let r := some_event ((self ← sget; refuse cs_terminal self with LifecycleDrift;;
                        in_normalizer m) s) in follows_stream s r.1 r.2.
Proof.
  intros Hm. unfold some_event, in_normalizer. unself.
  destruct (cs_terminal s) eqn:Ht; [done|]. specialize (Hm (cs_normalizer s)).
  destruct (m (cs_normalizer s)) as [n [x| | |]]; cbn in *; try done.
  - close_event.
  - subst. unfold follows_stream. by rewrite set_normalizer_same.
Qed.

Lemma stream_ingest_follows n at_ s :
  let r := stream_ingest n at_ s in
  follows_stream s r.1 (match r.2 with Ok o => o | _ => None end).
Proof.
  unfold stream_ingest. destruct (negb _) eqn:Hm; [done|]. unself.
  pose proof (turn_returns (no_params n)). destruct (turn (no_params n)) as [t| | |]; try done.
  cbn. pose proof (required_string_returns t "id").
  destruct (required_string t "id") as [id| | |]; try done. cbn.
  destruct (negb (String.eqb id _)); [done|]. destruct (cs_terminal s) eqn:Ht; [done|].
  unfold normalize_notification, in_normalizer. unself.
  destruct (String.eqb (no_method n) "turn/started") eqn:Hs.
  - apply String.eqb_eq in Hs. rewrite Hs. cbn.
    pose proof (numbers_turn_started (no_params n) at_ (cs_normalizer s)) as Hn.
    destruct (turn_started _ _ _) as [n' [x| | |]]; cbn in *; try done.
    + close_event.
    + subst. unfold follows_stream. by rewrite set_normalizer_same.
  - cbn in Hm. rewrite negb_false_iff in Hm. rewrite Hm.
    pose proof (numbers_turn_completed (no_params n) at_ (cs_normalizer s)) as Hn. cbn.
    destruct (turn_completed _ _ _) as [n' [x| | |]]; cbn in *; try done.
    + close_event.
    + subst. unfold follows_stream. by rewrite set_normalizer_same.
Qed.

Lemma stream_step_follows op s :
  follows_stream s (stream_step op s).1 (stream_step op s).2.
Proof.
  destruct op; cbn [stream_step].
  - apply stream_ingest_follows.
  - apply open_follows. eapply numbers_weaken; [apply numbers_event|]. by intros ? <-.
  - apply open_follows. apply numbers_refuse. eapply numbers_weaken; [apply numbers_event|].
    by intros ? <-.
  - by apply local_terminal_follows.
  - by apply local_terminal_follows.
Qed.

#[export] Instance codex_source_laws : EventSourceLaws CodexRunStream stream_op.
Proof.
  split.
  - intros op s s' o _ E. cbn in *. pose proof (stream_step_follows op s) as [_ Hf].
    injection E as <- _. destruct (stream_step op s) as [s1 [e|]]; cbn in *; [|by subst].
    split_hyps. split_and!; [done|done|congruence].
  - intros op s s' _ E. left. cbn in *. pose proof (stream_step_follows op s) as [_ Hf].
    injection E as <- Ho. destruct (stream_step op s) as [s1 [e|]]; cbn in *; by subst.
  - intros op s s' e _ E. cbn in *. pose proof (stream_step_follows op s) as [_ Hf].
    injection E as <- Ho. destruct (stream_step op s) as [s1 [x|]]; cbn in *; [|done].
    simplify_eq. split_hyps. split_and!; try done. intros. congruence.
Qed.

(** ** Redaction *)

(** The classes of failures that are told apart. *)
Definition failure_classes : list (AdapterFailureKind * bool * option string) :=
  [(Authentication, false, Some "Unauthorized"); (Quota, true, Some "UsageLimitExceeded");
   (PermissionDenied, false, Some "SandboxError");
   (Crashed, true, Some "ResponseStreamConnectionFailed");
   (Crashed, true, Some "ResponseStreamDisconnected");
   (Crashed, true, Some "ResponseTooManyFailedAttempts");
   (Crashed, true, Some "HttpConnectionFailed"); (Crashed, true, Some "InternalServerError");
   (UnknownFailure, false, Some "ContextWindowExceeded");
   (UnknownFailure, false, Some "BadRequest"); (UnknownFailure, false, Some "Other");
   (UnknownFailure, false, None)].

Lemma existsb_eqb c l : existsb (String.eqb c) l = true ↔ c ∈ l.
Proof.
  rewrite existsb_true. split; [intros (x & Hx & ->%String.eqb_eq); done|].
  intros Hc. exists c. by rewrite String.eqb_refl.
Qed.

(** One entry for each key in a list. *)
Ltac each_key H :=
  repeat (apply elem_of_cons in H as [->|H]; [in_table|]); by apply elem_of_nil in H.

Lemma map_failure_classes code : map_failure code ∈ failure_classes.
Proof.
  unfold map_failure. destruct (String.eqb code "Unauthorized"); [in_table|].
  destruct (String.eqb code "UsageLimitExceeded"); [in_table|].
  destruct (String.eqb code "SandboxError"); [in_table|].
  destruct (existsb _ _) eqn:E; [apply existsb_eqb in E; each_key E|clear E].
  destruct (String.eqb code "InternalServerError"); [in_table|].
  destruct (existsb _ _) eqn:E; [apply existsb_eqb in E; each_key E|in_table].
Qed.

(** The events that a notification can choose from, given the stream. *)
Definition codex_event (s : CodexRunStream) (occurred_at : string) (state : NormalizedRunState)
    (event_type status : string) (failure : option AdapterFailure) : NormalizedCodexEvent :=
  {| nc_event :=
       {| ev_contract_version := 1; ev_run_id := cn_run_id (cs_normalizer s);
          ev_sequence := cn_next_sequence (cs_normalizer s); ev_state := state;
          ev_event_type := event_type; ev_occurred_at := occurred_at;
          ev_evidence_class := ProviderReported;
          ev_provider_event_id := Some (cs_provider_turn_id s);
          ev_redacted_payload_json := value_to_string
            (json_entries [("turn_id", json_string (cs_provider_turn_id s));
                           ("status", json_string status)]) |};
     nc_failure := failure |}.
Definition codex_vocabulary (s : CodexRunStream) (occurred_at : string)
    : list NormalizedCodexEvent :=
  codex_event s occurred_at RunRunning "codex.turn_started" "running" None ::
  codex_event s occurred_at RunSucceeded "codex.turn_completed" "completed" None ::
  codex_event s occurred_at RunCancelled "codex.turn_completed" "interrupted"
    (Some (failure CancelledFailure (Some "Interrupted") false)) ::
  map (λ '(kind, retryable, code),
      codex_event s occurred_at RunFailed "codex.turn_completed" "failed"
        (Some (failure kind code retryable))) failure_classes.

Lemma completed_as_vocabulary s at_ t status r f :
  completed_as t status = Ok (r, f) →
  codex_event s at_ r "codex.turn_completed" status f ∈ codex_vocabulary s at_.
Proof.
  unfold completed_as. intros E.
  destruct (String.eqb_spec status "completed") as [->|_]; [simplify_eq; in_table|].
  destruct (String.eqb_spec status "interrupted") as [->|_]; [simplify_eq; in_table|].
  destruct (String.eqb_spec status "failed") as [->|_]; [|done].
  pose proof (map_failure_classes (default "Other" (failure_code t))) as Hc.
  destruct (map_failure _) as [[kind retry] code]. simplify_eq.
  unfold codex_vocabulary. do 3 right. apply elem_of_map. by eexists.
Qed.

Lemma normalizer_event_ok st ty at_ ev id payload f n n' e :
  normalizer_event st ty at_ ev id payload f n = (n', Ok e) →
  e = {| nc_event :=
           {| ev_contract_version := 1; ev_run_id := cn_run_id n;
              ev_sequence := cn_next_sequence n; ev_state := st; ev_event_type := ty;
              ev_occurred_at := at_; ev_evidence_class := ev; ev_provider_event_id := id;
              ev_redacted_payload_json := value_to_string payload |};
         nc_failure := f |}.
Proof.
  unfold normalizer_event. destruct (blank at_); [done|]. unself.
  unfold checked_add. case_bool_decide; cbn; [|done]. by intros [= _ <-].
Qed.

Lemma stream_ingest_vocabulary n at_ s s' e :
  stream_ingest n at_ s = (s', Ok (Some e)) → e ∈ codex_vocabulary s at_.
Proof.
  unfold stream_ingest. destruct (negb _); [done|]. unself.
  destruct (turn (no_params n)) as [t| | |] eqn:Ht; try done. cbn.
  destruct (required_string t "id") as [id| | |] eqn:Hid; try done. cbn.
  destruct (String.eqb_spec id (cs_provider_turn_id s)) as [->|]; [|done]. cbn.
  destruct (cs_terminal s); [done|].
  unfold normalize_notification, in_normalizer, turn_started, turn_completed. rewrite Ht. cbn.
  destruct (String.eqb (no_method n) "turn/started"); [|destruct (String.eqb _ _)]; unself; [| |done].
  all: rewrite ?Hid; cbn; destruct (required_string t "status") as [status| | |] eqn:Hs; try done; cbn.
  - destruct (negb _); unself; [done|].
    destruct (normalizer_event _ _ _ _ _ _ _ _) as [n' [x| | |]] eqn:Hn; try done. cbn.
    destruct (String.eqb _ _); intros [= _ <-]; apply normalizer_event_ok in Hn as ->; in_table.
  - destruct (completed_as t status) as [[r f]| | |] eqn:Hc; try done. cbn.
    destruct (normalizer_event _ _ _ _ _ _ _ _) as [n' [x| | |]] eqn:Hn; try done. cbn.
    intros [= _ <-]; apply normalizer_event_ok in Hn as ->;
      by eapply completed_as_vocabulary.
Qed.

End lifecycle.
