(* ===== verification/AgyStream.v ===== *)
(** * The stream of an Agy run

    Models [bastet-adapter-agy/src/stream.rs]: the lines an Agy process prints,
    as lifecycle events, costs, and the collected answer. *)
From Corelib Require Import Floats.SpecFloat.
From S2P Require Import Prelude Identity Deliverable Adapter CodexLifecycle.

Inductive AgyRunUpdate :=
| AgyLifecycle (event : NormalizedAdapterEvent) (failure : option AdapterFailure)
| AgyCost (cost : CostEvidence)
| AgyWriteReceipt (receipt : string).

Inductive AgyStreamError := AgyDrift | AgyClosed.

Record AgyRunStream := {
  as_run_id : RunId;
  as_sequence : Z;
  as_conversation_id : option string;
  as_expected_conversation_id : option string;
  as_initialized : bool;
  as_closed : bool;
  as_final_output : string;
  as_final_output_overflowed : bool;
}.

Definition agy_new (run_id : RunId) : AgyRunStream :=
  {| as_run_id := run_id; as_sequence := 0; as_conversation_id := None;
     as_expected_conversation_id := None; as_initialized := false; as_closed := false;
     as_final_output := ""; as_final_output_overflowed := false |}.

Definition agy_resuming (run_id : RunId) (conversation_id : string)
    : outcome AgyStreamError AgyRunStream :=
  fail_if blank conversation_id with AgyDrift;;
  Ok {| as_run_id := run_id; as_sequence := 0; as_conversation_id := None;
        as_expected_conversation_id := Some conversation_id; as_initialized := false;
        as_closed := false; as_final_output := ""; as_final_output_overflowed := false |}.

Definition set_sequence (n : Z) (s : AgyRunStream) : AgyRunStream :=
  {| as_run_id := as_run_id s; as_sequence := n; as_conversation_id := as_conversation_id s;
     as_expected_conversation_id := as_expected_conversation_id s;
     as_initialized := as_initialized s; as_closed := as_closed s;
     as_final_output := as_final_output s;
     as_final_output_overflowed := as_final_output_overflowed s |}.
Definition set_initialized (id : string) (s : AgyRunStream) : AgyRunStream :=
  {| as_run_id := as_run_id s; as_sequence := as_sequence s; as_conversation_id := Some id;
     as_expected_conversation_id := as_expected_conversation_id s; as_initialized := true;
     as_closed := as_closed s; as_final_output := as_final_output s;
     as_final_output_overflowed := as_final_output_overflowed s |}.
Definition set_closed (s : AgyRunStream) : AgyRunStream :=
  {| as_run_id := as_run_id s; as_sequence := as_sequence s;
     as_conversation_id := as_conversation_id s;
     as_expected_conversation_id := as_expected_conversation_id s;
     as_initialized := as_initialized s; as_closed := true;
     as_final_output := as_final_output s;
     as_final_output_overflowed := as_final_output_overflowed s |}.
Definition set_output (text : string) (overflowed : bool) (s : AgyRunStream) : AgyRunStream :=
  {| as_run_id := as_run_id s; as_sequence := as_sequence s;
     as_conversation_id := as_conversation_id s;
     as_expected_conversation_id := as_expected_conversation_id s;
     as_initialized := as_initialized s; as_closed := as_closed s;
     as_final_output := text; as_final_output_overflowed := overflowed |}.

Definition agy_final_output (self : AgyRunStream) : option string :=
  if negb (as_final_output_overflowed self) && negb (is_empty (as_final_output self))
  then Some (as_final_output self) else None.

Definition ADAPTER_PROVIDER : string := "agy_cli".
Definition MAX_FINAL_OUTPUT_BYTES : Z := 256 * 1024.

(** [str::contains] *)
Fixpoint contains (s pattern : string) : bool :=
  String.prefix pattern s ||
  match s with EmptyString => false | String _ s => contains s pattern end.

Definition classify_error (error : option string) : AdapterFailureKind :=
  match error with
  | None => UnknownFailure
  | Some error =>
      let lower := to_ascii_lowercase error in
      if contains lower "not logged in" || contains lower "authentication"
         || contains lower "unauthorized" then Authentication
      else if contains lower "quota" || contains lower "rate limit" then Quota
      else if contains lower "timed out" || contains lower "timeout" then Timeout
      else if contains lower "permission" then PermissionDenied
      else UnknownFailure
  end.

Definition agy_failure (kind : AdapterFailureKind) (message_key : string) (retryable : bool)
    : AdapterFailure :=
  {| af_kind := kind; af_message_key := message_key; af_retryable := retryable;
     af_provider_code := None; af_redacted_detail := None |}.

Section agy.
Context `{Json}.

Definition required_text_value (value : option Value) : outcome AgyStreamError string :=
  ok_or (visible (v ← value; as_str v)) AgyDrift.
Definition required_text (value : Value) (key : string) : outcome AgyStreamError string :=
  required_text_value (value_get value key).
Definition agy_required_u64 (value : option Value) : outcome AgyStreamError Z :=
  ok_or (v ← value; as_u64 v) AgyDrift.

Definition parse_usage (value : Value) : outcome AgyStreamError CostEvidence :=
  let? usage := ok_or (as_object value) AgyDrift in
  let? input_tokens := agy_required_u64 (usage !! "input_tokens") in
  let? output_tokens := agy_required_u64 (usage !! "output_tokens") in
  agy_required_u64 (usage !! "thinking_tokens") ?;
  agy_required_u64 (usage !! "cache_read_tokens") ?;
  let? total_tokens := agy_required_u64 (usage !! "total_tokens") in
  fail_if bool_decide (checked_add U64_MAX input_tokens output_tokens = None)
          || (total_tokens <? input_tokens + output_tokens)%Z with AgyDrift;;
  Ok {| ce_evidence_class := ProviderReported; ce_currency := None; ce_amount := None;
        ce_input_tokens := Some input_tokens; ce_output_tokens := Some output_tokens;
        ce_confidence := f32_one |}.

Notation method := (self AgyRunStream AgyStreamError).

Definition lifecycle_with_evidence (state : NormalizedRunState) (event_type occurred_at : string)
    (failure : option AdapterFailure) (evidence_class : EvidenceClass) : method AgyRunUpdate :=
  refuse blank occurred_at with AgyDrift;;
  self ← sget;
  sequence ← slift (ok_or (checked_add U64_MAX (as_sequence self) 1) AgyDrift);
  smodify (set_sequence sequence) ;;
  mret (AgyLifecycle
          {| ev_contract_version := AGENT_ADAPTER_CONTRACT_VERSION;
             ev_run_id := as_run_id self; ev_sequence := sequence; ev_state := state;
             ev_event_type := event_type; ev_occurred_at := occurred_at;
             ev_evidence_class := evidence_class; ev_provider_event_id := None;
             ev_redacted_payload_json :=
               value_to_string (json_entries [("provider", json_string ADAPTER_PROVIDER)]) |}
          failure).

Definition lifecycle (state : NormalizedRunState) (event_type occurred_at : string)
    (failure : option AdapterFailure) : method AgyRunUpdate :=
  lifecycle_with_evidence state event_type occurred_at failure ProviderReported.

Definition agy_local_terminal (state : NormalizedRunState) (event_type : string)
    (kind : AdapterFailureKind) (message_key occurred_at : string) : method AgyRunUpdate :=
  self ← sget;
  refuse as_closed self with AgyClosed;;
  smodify set_closed ;;
  lifecycle_with_evidence state event_type occurred_at
    (Some (agy_failure kind message_key (bool_decide (kind = Crashed)))) LocallyMeasured.

Definition agy_recovery_started (occurred_at : string) : method AgyRunUpdate :=
  self ← sget;
  refuse bool_decide (as_expected_conversation_id self = None) || as_initialized self
         || as_closed self with AgyDrift;;
  lifecycle_with_evidence RunRecovering "run.recovering" occurred_at None LocallyMeasured.

Definition cancellation_started (occurred_at : string) : method AgyRunUpdate :=
  self ← sget;
  refuse negb (as_initialized self) || as_closed self with AgyDrift;;
  lifecycle_with_evidence RunCancelling "run.cancelling" occurred_at None LocallyMeasured.

Definition cancelled (occurred_at : string) : method AgyRunUpdate :=
  agy_local_terminal RunCancelled "run.cancelled" CancelledFailure "adapter.agy.cancelled"
    occurred_at.
Definition timed_out (occurred_at : string) : method AgyRunUpdate :=
  agy_local_terminal RunFailed "run.timed_out" Timeout "adapter.agy.timed_out" occurred_at.
Definition crashed (occurred_at : string) : method AgyRunUpdate :=
  agy_local_terminal RunUncertain "run.crashed" Crashed "adapter.agy.crashed" occurred_at.

Definition consume_init (value : Value) (occurred_at : string) : method AgyRunUpdate :=
  self ← sget;
  refuse as_initialized self with AgyDrift;;
  conversation_id ← slift (required_text value "conversation_id");
  refuse match as_expected_conversation_id self with
         | Some expected => negb (String.eqb expected conversation_id)
         | None => false
         end with AgyDrift;;
  smodify (set_initialized conversation_id) ;;
  lifecycle RunRunning "run.started" occurred_at None.

Definition require_matching_conversation (actual : option Value) : method unit :=
  self ← sget;
  expected ← slift (ok_or (as_conversation_id self) AgyDrift);
  text ← slift (required_text_value actual);
  refuse negb (String.eqb text expected) with AgyDrift;;
  mret tt.

(** The text of an assistant's answer joins the output, or overflows it. *)
Definition collect_text (text : string) (self : AgyRunStream) : AgyRunStream :=
  if as_final_output_overflowed self then self else
  match append_if_within_limit (as_final_output self) text MAX_FINAL_OUTPUT_BYTES with
  | Some output => set_output output false self
  | None => set_output "" true self
  end.

Definition step_text (update : gmap string Value) : option string :=
  if bool_decide ((v ← update !! "step_type"; as_str v) = Some "agent_response")
  then v ← update !! "text_delta"; as_str v else None.

Definition consume_step (value : Value) : method (option AgyRunUpdate) :=
  update ← slift (ok_or (v ← value_get value "step_update"; as_object v) AgyDrift);
  require_matching_conversation (update !! "conversation_id") ;;
  smodify (λ self, match step_text update with
                   | Some text => collect_text text self
                   | None => self
                   end) ;;
  match update !! "usage" with
  | None => mret None
  | Some usage => cost ← slift (parse_usage usage); mret (Some (AgyCost cost))
  end.

Definition denied_actions (result : gmap string Value) : bool :=
  match (v ← result !! "denied_actions"; as_array v) with
  | Some actions => negb (bool_decide (actions = []))
  | None => false
  end.

(** The state, the name of the event and the failure of a status. *)
Definition result_of (result : gmap string Value) (final_output status : string)
    : outcome AgyStreamError (NormalizedRunState * string * option AdapterFailure) :=
  if String.eqb status "SUCCESS" && is_empty final_output && denied_actions result
  then Ok (RunFailed, "run.failed",
           Some (agy_failure PermissionDenied "adapter.agy.permission_denied" false))
  else if String.eqb status "SUCCESS" then Ok (RunSucceeded, "run.succeeded", None)
  else if String.eqb status "ERROR" then
    let kind := classify_error (v ← result !! "error"; as_str v) in
    Ok (RunFailed, "run.failed",
        Some (agy_failure kind "adapter.agy.failed"
                (bool_decide (kind = Quota) || bool_decide (kind = Timeout))))
  else if String.eqb status "CANCELED" || String.eqb status "INTERRUPTED"
  then Ok (RunCancelled, "run.cancelled",
           Some (agy_failure CancelledFailure "adapter.agy.cancelled" false))
  else if String.eqb status "INVALID"
  then Ok (RunFailed, "run.failed",
           Some (agy_failure MalformedOutput "adapter.agy.invalid_state" false))
  else if String.eqb status "WAITING" then Ok (RunBlocked, "run.blocked", None)
  else if String.eqb status "RUNNING" then Ok (RunUncertain, "run.uncertain", None)
  else Err AgyDrift.

(** The conversation of a result, which an error before the start may lack. *)
Definition require_result_conversation (result : gmap string Value) (status : string)
    : method unit :=
  self ← sget;
  match as_conversation_id self with
  | Some expected =>
      actual ← slift (required_text_value (result !! "conversation_id"));
      refuse negb (String.eqb actual expected) with AgyDrift;; mret tt
  | None => refuse negb (String.eqb status "ERROR") with AgyDrift;; mret tt
  end.

Definition consume_result (value : Value) (occurred_at : string) : method AgyRunUpdate :=
  result ← slift (ok_or (v ← value_get value "result"; as_object v) AgyDrift);
  status ← slift (required_text_value (result !! "status"));
  require_result_conversation result status ;;
  self ← sget;
  '(state, event_type, failure) ← slift (result_of result (as_final_output self) status);
  smodify set_closed ;;
  lifecycle state event_type occurred_at failure.

Definition consume_line (line : string) (occurred_at : string) : method (option AgyRunUpdate) :=
  self ← sget;
  refuse as_closed self with AgyClosed;;
  value ← slift (ok_or (value_from_str line) AgyDrift);
  let event := v ← value_get value "event"; as_str v in
  if bool_decide (event = Some "init")
  then u ← consume_init value occurred_at; mret (Some u)
  else if bool_decide (event = Some "step_update") then consume_step value
  else if bool_decide (event = Some "result")
  then u ← consume_result value occurred_at; mret (Some u)
  else slift (Err AgyDrift).

End agy.
