(* ===== verification/AgyFacts.v ===== *)
(** * The stream of an Agy run as a source of events

    The methods of AgyStream.v satisfy the contract of Adapter.v; what they
    report is one of a few events, and the collected answer is whole or absent. *)
From S2P Require Import Prelude Identity Deliverable Adapter CodexLifecycle AgyStream.

Section agy.
Context `{Json}.

Definition update_event (u : AgyRunUpdate) : option NormalizedAdapterEvent :=
  match u with AgyLifecycle e _ => Some e | _ => None end.

Inductive agy_op :=
| AgyLine (line occurred_at : string)
| AgyRecoveryStarted (occurred_at : string)
| AgyCancellationStarted (occurred_at : string)
| AgyCancelled (occurred_at : string)
| AgyTimedOut (occurred_at : string)
| AgyCrashed (occurred_at : string).

Definition some_update (r : AgyRunStream * outcome AgyStreamError AgyRunUpdate)
    : AgyRunStream * option AgyRunUpdate :=
  (r.1, match r.2 with Ok u => Some u | _ => None end).
Definition agy_step (op : agy_op) (s : AgyRunStream) : AgyRunStream * option AgyRunUpdate :=
  match op with
  | AgyLine line at_ =>
      let r := consume_line line at_ s in (r.1, match r.2 with Ok o => o | _ => None end)
  | AgyRecoveryStarted at_ => some_update (agy_recovery_started at_ s)
  | AgyCancellationStarted at_ => some_update (cancellation_started at_ s)
  | AgyCancelled at_ => some_update (cancelled at_ s)
  | AgyTimedOut at_ => some_update (timed_out at_ s)
  | AgyCrashed at_ => some_update (crashed at_ s)
  end.

#[export] Instance agy_source : EventSource AgyRunStream agy_op := {
  src_step op s := let r := agy_step op s in (r.1, r.2 ≫= update_event);
  src_run := as_run_id;
  src_next s := (as_sequence s + 1)%Z;
  src_closed := as_closed;
  src_ok _ := True;
}.

(** ** Events *)

Definition agy_event (s : AgyRunStream) (occurred_at : string) (state : NormalizedRunState)
    (event_type : string) (evidence : EvidenceClass) : NormalizedAdapterEvent :=
  {| ev_contract_version := 1; ev_run_id := as_run_id s; ev_sequence := as_sequence s + 1;
     ev_state := state; ev_event_type := event_type; ev_occurred_at := occurred_at;
     ev_evidence_class := evidence; ev_provider_event_id := None;
     ev_redacted_payload_json :=
       value_to_string (json_entries [("provider", json_string "agy_cli")]) |}.

(** The pairs of an event and a failure that a stream can report. *)
Definition agy_vocabulary (s : AgyRunStream) (occurred_at : string)
    : list (NormalizedAdapterEvent * option AdapterFailure) :=
  let failed kind key retry :=
    (agy_event s occurred_at RunFailed "run.failed" ProviderReported,
     Some (agy_failure kind key retry)) in
  [(agy_event s occurred_at RunRunning "run.started" ProviderReported, None);
   (agy_event s occurred_at RunSucceeded "run.succeeded" ProviderReported, None);
   (agy_event s occurred_at RunBlocked "run.blocked" ProviderReported, None);
   (agy_event s occurred_at RunUncertain "run.uncertain" ProviderReported, None);
   (agy_event s occurred_at RunCancelled "run.cancelled" ProviderReported,
    Some (agy_failure CancelledFailure "adapter.agy.cancelled" false));
   failed PermissionDenied "adapter.agy.permission_denied" false;
   failed MalformedOutput "adapter.agy.invalid_state" false;
   failed Authentication "adapter.agy.failed" false; failed Quota "adapter.agy.failed" true;
   failed Timeout "adapter.agy.failed" true;
   failed PermissionDenied "adapter.agy.failed" false;
   failed UnknownFailure "adapter.agy.failed" false].

Lemma classify_error_vocabulary s at_ error :
  let kind := classify_error error in
  (agy_event s at_ RunFailed "run.failed" ProviderReported,
   Some (agy_failure kind "adapter.agy.failed"
           (bool_decide (kind = Quota) || bool_decide (kind = Timeout)))) ∈ agy_vocabulary s at_.
Proof.
  unfold classify_error. destruct error; [|in_table]. cbv zeta.
  repeat (destruct (_ || _)%bool; [in_table|]). destruct (contains _ _); in_table.
Qed.

Lemma result_of_vocabulary s at_ result output status st ty f :
  result_of result output status = Ok (st, ty, f) →
  (agy_event s at_ st ty ProviderReported, f) ∈ agy_vocabulary s at_.
Proof.
  unfold result_of. intros E.
  destruct (_ && _ && _); [simplify_eq; in_table|].
  destruct (String.eqb status "SUCCESS"); [simplify_eq; in_table|].
  destruct (String.eqb status "ERROR"); [simplify_eq; apply classify_error_vocabulary|].
  repeat (destruct (_ || _)%bool; [simplify_eq; in_table|]).
  repeat (destruct (String.eqb status _); [simplify_eq; in_table|]). done.
Qed.

Lemma lifecycle_spec st ty at_ f ev s :
  match lifecycle_with_evidence st ty at_ f ev s with
  | (s', Ok u) => s' = set_sequence (as_sequence s + 1) s ∧
      u = AgyLifecycle (agy_event s at_ st ty ev) f ∧ blank at_ = false ∧
      (as_sequence s + 1 ≤ U64_MAX)%Z
  | (s', Err _) => s' = s
  | _ => False
  end.
Proof.
  unfold lifecycle_with_evidence. destruct (blank at_) eqn:Hb; [done|]. unself.
  unfold checked_add. case_bool_decide; cbn; [|done]. by split_and!.
Qed.

(** What a method does to the stream, events apart. *)
Definition follows_agy (s s' : AgyRunStream) (o : option NormalizedAdapterEvent) : Prop :=
  as_run_id s' = as_run_id s ∧ (as_closed s = true → as_closed s' = true) ∧
  match o with
  | None => as_sequence s' = as_sequence s
  | Some e =>
      as_closed s = false ∧ as_sequence s' = (as_sequence s + 1)%Z ∧
      ev_sequence e = (as_sequence s + 1)%Z ∧ (as_sequence s + 1 ≤ U64_MAX)%Z ∧
      ev_run_id e = as_run_id s ∧ ev_contract_version e = AGENT_ADAPTER_CONTRACT_VERSION ∧
      blank (ev_occurred_at e) = false ∧
      (terminal_state (ev_state e) = true → as_closed s' = true)
  end.

Ltac run_lifecycle :=
  unfold lifecycle;
  lazymatch goal with |- context [lifecycle_with_evidence ?st ?ty ?at_ ?f ?ev ?s] =>
    pose proof (lifecycle_spec st ty at_ f ev s);
    destruct (lifecycle_with_evidence st ty at_ f ev s) as [? [?| | |]]; try done; cbn in *;
    split_hyps; subst end.

Lemma local_terminal_follows_agy st ty kind key at_ s :
  let r := some_update (agy_local_terminal st ty kind key at_ s) in
  follows_agy s r.1 (r.2 ≫= update_event).
Proof.
  unfold agy_local_terminal, some_update. unself. destruct (as_closed s) eqn:Hc; [done|].
  run_lifecycle; unfold follows_agy; cbn; by split_and!.
Qed.

Lemma open_follows_agy (b : AgyRunStream → bool) e st ty at_ ev s :
  terminal_state st = false → (as_closed s = true → b s = true) →
  let r := some_update ((self ← sget; refuse b self with e;;
                         lifecycle_with_evidence st ty at_ None ev) s) in
  follows_agy s r.1 (r.2 ≫= update_event).
Proof.
  intros Hst Hb. unfold some_update. unself. destruct (b s) eqn:E; [done|].
  assert (Hc : as_closed s = false) by (destruct (as_closed s); naive_solver).
  run_lifecycle; unfold follows_agy; cbn; split_and!; try done; congruence.
Qed.

(** What a line does: the stream is open, and stays or ends with the event. *)
Definition line_follows (s : AgyRunStream) (at_ : string)
    (r : AgyRunStream * outcome AgyStreamError (option AgyRunUpdate)) : Prop :=
  follows_agy s r.1 (match r.2 with Ok o => o ≫= update_event | _ => None end) ∧
  match r.2 with
  | Ok (Some (AgyLifecycle e f)) => (e, f) ∈ agy_vocabulary s at_
  | Ok _ | Err _ => True
  | _ => False
  end.

Lemma refused_line s at_ e : line_follows s at_ (s, Err e).
Proof. done. Qed.

Lemma returned_text v : returns (required_text_value v).
Proof. apply returns_ok_or. Qed.

Ltac on_text :=
  lazymatch goal with |- context [required_text_value ?v] =>
    pose proof (returned_text v); destruct (required_text_value v); try done; cbn
  end.

Ltac on_guard :=
  lazymatch goal with |- context [if ?b then _ else _] => destruct b end.

Lemma consume_init_follows value at_ s :
  as_closed s = false →
  line_follows s at_ ((u ← consume_init value at_; mret (Some u)) s).
Proof.
  intros Hc. unfold consume_init, required_text. unself. destruct (as_initialized s); [done|].
  on_text.
  destruct (as_expected_conversation_id s) as [expected|]; [destruct (negb _); [done|]|].
  all: run_lifecycle;
    (split; [unfold follows_agy; cbn; by split_and!|cbn; first [done|in_table]]).
Qed.

Lemma parse_usage_returns v : returns (parse_usage v).
Proof. unfold parse_usage, agy_required_u64. solve_returns. Qed.

Lemma collect_text_keeps text s :
  as_run_id (collect_text text s) = as_run_id s ∧ as_closed (collect_text text s) = as_closed s ∧
  as_sequence (collect_text text s) = as_sequence s.
Proof.
  unfold collect_text. destruct (as_final_output_overflowed s); [done|].
  by destruct (append_if_within_limit _ _ _).
Qed.

Lemma consume_step_follows value at_ s : line_follows s at_ (consume_step value s).
Proof.
  unfold consume_step, require_matching_conversation. unself.
  destruct (value_get value "step_update" ≫= as_object) as [update|]; [|done]. cbn.
  destruct (as_conversation_id s) as [expected|]; [|done]. cbn. on_text.
  destruct (negb _); [done|].
  assert (Hk : let s' := match step_text update with Some t => collect_text t s | None => s end in
    as_run_id s' = as_run_id s ∧ as_closed s' = as_closed s ∧ as_sequence s' = as_sequence s)
    by (destruct (step_text update); [apply collect_text_keeps|done]).
  destruct Hk as (? & Hc & ?).
  destruct (update !! "usage") as [usage|]; unself;
    [pose proof (parse_usage_returns usage); destruct (parse_usage usage); try done; cbn|];
    (split; [|done]); unfold follows_agy; cbn; split_and!; try done; congruence.
Qed.

Lemma result_of_terminal result output status st ty f :
  result_of result output status = Ok (st, ty, f) → st = RunBlocked ∨ terminal_state st = true.
Proof. unfold result_of. intros E. repeat case_match; simplify_eq; auto. Qed.
Lemma result_of_returns result output status : returns (result_of result output status).
Proof. unfold result_of. repeat case_match; done. Qed.

Lemma require_result_conversation_same result status s :
  require_result_conversation result status s = (s, Ok tt) ∨
  ∃ e, require_result_conversation result status s = (s, Err e).
Proof.
  unfold require_result_conversation. unself.
  destruct (as_conversation_id s); [on_text|]; [on_guard|..|on_guard]; eauto.
Qed.

Lemma consume_result_follows value at_ s :
  as_closed s = false →
  line_follows s at_ ((u ← consume_result value at_; mret (Some u)) s).
Proof.
  intros Hc. unfold consume_result. unself.
  destruct (value_get value "result" ≫= as_object) as [result|]; [|done]. cbn. on_text.
  destruct (require_result_conversation_same result a s) as [->|[e ->]]; [cbn|done].
  pose proof (result_of_returns result (as_final_output s) a) as Hr.
  destruct (result_of result (as_final_output s) a) as [[[st ty] f]| | |] eqn:Ho; try done. cbn.
  pose proof (result_of_vocabulary s at_ _ _ _ _ _ _ Ho).
  run_lifecycle; (split; [unfold follows_agy; cbn; by split_and!|done]).
Qed.

Lemma consume_line_follows line at_ s : line_follows s at_ (consume_line line at_ s).
Proof.
  unfold consume_line, mbind at 1, self_bind at 1. cbn [sget].
  destruct (as_closed s) eqn:Hc; [done|].
  unfold mbind at 1, self_bind at 1, slift at 1.
  destruct (value_from_str line) as [value|]; [|done]. cbn [ok_or].
  case_bool_decide; [by apply consume_init_follows|].
  case_bool_decide; [by apply consume_step_follows|].
  case_bool_decide; [by apply consume_result_follows|done].
Qed.

Lemma agy_step_follows op s :
  follows_agy s (agy_step op s).1 ((agy_step op s).2 ≫= update_event).
Proof.
  destruct op; cbn [agy_step].
  - pose proof (consume_line_follows line occurred_at s) as [Hf _].
    by destruct (consume_line line occurred_at s) as [? [| | |]].
  - apply (open_follows_agy (λ s, bool_decide (as_expected_conversation_id s = None)
      || as_initialized s || as_closed s)); [done|]. intros ->. by rewrite orb_true_r.
  - apply (open_follows_agy (λ s, negb (as_initialized s) || as_closed s)); [done|].
    intros ->. by rewrite orb_true_r.
  - unfold cancelled, timed_out, crashed. exact (local_terminal_follows_agy _ _ _ _ _ s).
  - unfold cancelled, timed_out, crashed. exact (local_terminal_follows_agy _ _ _ _ _ s).
  - unfold cancelled, timed_out, crashed. exact (local_terminal_follows_agy _ _ _ _ _ s).
Qed.

#[export] Instance agy_source_laws : EventSourceLaws AgyRunStream agy_op.
Proof.
  split; cbn; intros op s s'; pose proof (agy_step_follows op s) as (Hr & Hc & Hf).
  - by intros o _ [= <- _].
  - intros _ [= <- Ho]. rewrite Ho in Hf. left. congruence.
  - intros e _ [= <- Ho]. rewrite Ho in Hf. split_hyps. split_and!; try done. congruence.
Qed.

(** ** The collected answer *)

(** The text that a line contributes to the answer: of a step of the agent's
    response in the conversation of the stream. *)
Definition line_text (line : string) (s : AgyRunStream) : option string :=
  if as_closed s then None else
  value ← value_from_str line;
  if bool_decide ((v ← value_get value "event"; as_str v) = Some "step_update") then
    update ← (v ← value_get value "step_update"; as_object v);
    id ← visible (v ← update !! "conversation_id"; as_str v);
    if bool_decide (as_conversation_id s = Some id) then step_text update else None
  else None.
Definition op_text (op : agy_op) (s : AgyRunStream) : option string :=
  match op with AgyLine line _ => line_text line s | _ => None end.

Definition same_output (s s' : AgyRunStream) : Prop :=
  as_final_output s' = as_final_output s ∧
  as_final_output_overflowed s' = as_final_output_overflowed s.
Definition output_after (s s' : AgyRunStream) (o : option string) : Prop :=
  same_output (match o with Some t => collect_text t s | None => s end) s'.

Lemma same_output_refl s : same_output s s.
Proof. done. Qed.

Lemma lifecycle_output st ty at_ f ev s :
  same_output s (lifecycle_with_evidence st ty at_ f ev s).1.
Proof.
  pose proof (lifecycle_spec st ty at_ f ev s).
  destruct (lifecycle_with_evidence st ty at_ f ev s) as [s' [| | |]]; try done; [|by subst].
  by destruct H0 as [-> _].
Qed.

Lemma consume_init_output value at_ s :
  same_output s ((u ← consume_init value at_; mret (Some u)) s).1.
Proof.
  unfold consume_init, required_text. unself. destruct (as_initialized s); [done|].
  on_text. destruct (as_expected_conversation_id s) as [expected|]; [destruct (negb _); [done|]|].
  all: unfold lifecycle; pose proof (lifecycle_output RunRunning "run.started" at_ None
    ProviderReported (set_initialized a s)); by destruct (lifecycle_with_evidence _ _ _ _ _ _) as [? []].
Qed.

Lemma consume_result_output value at_ s :
  same_output s ((u ← consume_result value at_; mret (Some u)) s).1.
Proof.
  unfold consume_result. unself.
  destruct (value_get value "result" ≫= as_object) as [result|]; [|done]. cbn. on_text.
  destruct (require_result_conversation_same result a s) as [->|[e ->]]; [cbn|done].
  destruct (result_of result (as_final_output s) a) as [[[st ty] f]| | |]; try done. cbn.
  unfold lifecycle; pose proof (lifecycle_output st ty at_ f ProviderReported (set_closed s));
    by destruct (lifecycle_with_evidence _ _ _ _ _ _) as [? []].
Qed.

Lemma visible_text v : required_text_value v = ok_or (visible (x ← v; as_str x)) AgyDrift.
Proof. done. Qed.

Lemma consume_step_output value s :
  output_after s (consume_step value s).1
    (update ← (v ← value_get value "step_update"; as_object v);
     id ← visible (v ← update !! "conversation_id"; as_str v);
     if bool_decide (as_conversation_id s = Some id) then step_text update else None).
Proof.
  unfold consume_step, require_matching_conversation. unself.
  destruct (value_get value "step_update" ≫= as_object) as [update|]; [|done]. cbn.
  rewrite visible_text.
  destruct (visible _) as [id|]; cbn; [|by destruct (as_conversation_id s)].
  destruct (as_conversation_id s) as [expected|]; cbn; [|by rewrite bool_decide_false].
  destruct (String.eqb_spec id expected) as [->|Hne]; cbn;
    [rewrite bool_decide_true by done|by rewrite bool_decide_false by congruence].
  by destruct (update !! "usage") as [usage|]; unself; [destruct (parse_usage usage)|].
Qed.

Lemma consume_line_output line at_ s :
  output_after s (consume_line line at_ s).1 (line_text line s).
Proof.
  unfold consume_line, line_text, mbind at 1, self_bind at 1. cbn [sget].
  destruct (as_closed s) eqn:Hc; [done|].
  unfold mbind at 1, self_bind at 1, slift at 1.
  destruct (value_from_str line) as [value|]; [|done]. cbn [ok_or mbind option_bind].
  repeat case_bool_decide; try congruence.
  - apply consume_init_output.
  - apply consume_step_output.
  - apply consume_result_output.
  - done.
Qed.

Lemma agy_step_output op s : output_after s (agy_step op s).1 (op_text op s).
Proof.
  destruct op; cbn [agy_step op_text].
  - pose proof (consume_line_output line occurred_at s).
    by destruct (consume_line line occurred_at s).
  - unfold agy_recovery_started. unself. destruct (_ || _ || _); [done|]. apply lifecycle_output.
  - unfold cancellation_started. unself. destruct (_ || _); [done|]. apply lifecycle_output.
  - unfold cancelled, agy_local_terminal. unself. destruct (as_closed s); [done|].
    apply (lifecycle_output _ _ _ _ _ (set_closed s)).
  - unfold timed_out, agy_local_terminal. unself. destruct (as_closed s); [done|].
    apply (lifecycle_output _ _ _ _ _ (set_closed s)).
  - unfold crashed, agy_local_terminal. unself. destruct (as_closed s); [done|].
    apply (lifecycle_output _ _ _ _ _ (set_closed s)).
Qed.

(** The texts of the answer, in the order of their lines. *)
Fixpoint answers (ops : list agy_op) (s : AgyRunStream) : list string :=
  match ops with
  | [] => []
  | op :: ops => option_list (op_text op s) ++ answers ops (agy_step op s).1
  end.

Definition output_is (l : list string) (s : AgyRunStream) : Prop :=
  collected MAX_FINAL_OUTPUT_BYTES l (as_final_output s) (as_final_output_overflowed s).

Lemma collect_text_is l text s : output_is l s → output_is (l ++ [text]) (collect_text text s).
Proof.
  unfold output_is, collect_text. destruct (as_final_output_overflowed s) eqn:Ho.
  - intros Hc. rewrite Ho. by apply collected_overflowed.
  - intros Hc. apply (collected_open _ _ _ text) in Hc; [|done].
    by destruct (append_if_within_limit _ _ _).
Qed.

Lemma answers_collected ops l s :
  output_is l s → output_is (l ++ answers ops s) (src_run_ops ops s).1.
Proof.
  revert l s. induction ops as [|op ops IH]; intros l s Hl; cbn; [by rewrite app_nil_r|].
  rewrite app_assoc. pose proof (agy_step_output op s) as [Ho Hf].
  specialize (IH (l ++ option_list (op_text op s)) (agy_step op s).1).
  destruct (src_run_ops ops _). apply IH. unfold output_is. rewrite Ho, Hf.
  destruct (op_text op s) as [t|]; cbn; [by apply collect_text_is|by rewrite app_nil_r].
Qed.

End agy.
