(* ===== verification/CodexEvidence.v ===== *)
(** * Evidence of a Codex run

    Models [bastet-adapter-codex/src/evidence.rs]: the notifications that prove a
    write or carry the token usage of a turn, without their content. *)
From Corelib Require Import Floats.SpecFloat.
From S2P Require Import Prelude Identity Deliverable Adapter CodexLifecycle.

Inductive EvidenceError := EvidenceDrift.

Inductive CodexRunEvidenceUpdate :=
| WriteReceipt (receipt : string)
| Cost (cost : CostEvidence).

Record CodexRunEvidence := {
  re_provider_thread_id : string;
  re_provider_turn_id : string;
}.

Definition evidence_new (provider_thread_id provider_turn_id : string)
    : outcome EvidenceError CodexRunEvidence :=
  fail_if blank provider_thread_id || blank provider_turn_id with EvidenceDrift;;
  Ok {| re_provider_thread_id := provider_thread_id; re_provider_turn_id := provider_turn_id |}.

Section evidence.
Context `{Json}.

Definition evidence_string (value : Value) (key : string) : outcome EvidenceError string :=
  ok_or (visible (v ← value_get value key; as_str v)) EvidenceDrift.
Definition evidence_u64 (value : Value) (key : string) : outcome EvidenceError Z :=
  ok_or (v ← value_get value key; as_u64 v) EvidenceDrift.

Definition valid_file_change (change : Value) : bool :=
  match as_object change with
  | None => false
  | Some change =>
      forallb (λ key, bool_decide (is_Some (visible (v ← change !! key; as_str v))))
        ["path"; "kind"; "diff"]
  end.

Definition matches_run (self : CodexRunEvidence) (params : Value) : outcome EvidenceError bool :=
  let? thread_id := evidence_string params "threadId" in
  let? turn_id := evidence_string params "turnId" in
  Ok (String.eqb thread_id (re_provider_thread_id self)
      && String.eqb turn_id (re_provider_turn_id self)).

Definition receipt (self : CodexRunEvidence) (evidence : string) : string :=
  value_to_string (json_entries [("evidence", json_string evidence);
                                 ("turn_id", json_string (re_provider_turn_id self))]).

Definition file_change_completed (self : CodexRunEvidence) (params : Value)
    : outcome EvidenceError (option CodexRunEvidenceUpdate) :=
  let? matching := matches_run self params in
  if negb matching then Ok None else
  let? item := ok_or (value_get params "item") EvidenceDrift in
  let? type := evidence_string item "type" in
  if negb (String.eqb type "fileChange") then Ok None else
  let? status := evidence_string item "status" in
  if String.eqb status "failed" || String.eqb status "declined" then Ok None else
  fail_if negb (String.eqb status "completed") with EvidenceDrift;;
  let? changes := ok_or (l ← (v ← value_get item "changes"; as_array v);
                         if bool_decide (l = []) then None else Some l) EvidenceDrift in
  fail_if existsb (λ change, negb (valid_file_change change)) changes with EvidenceDrift;;
  Ok (Some (WriteReceipt (receipt self "codex.item_file_change.completed"))).

Definition diff_updated (self : CodexRunEvidence) (params : Value)
    : outcome EvidenceError (option CodexRunEvidenceUpdate) :=
  let? matching := matches_run self params in
  if negb matching then Ok None else
  let? diff := evidence_string params "diff" in
  if is_empty diff then Ok None else
  Ok (Some (WriteReceipt (receipt self "codex.turn_diff.updated"))).

Definition token_usage_updated (self : CodexRunEvidence) (params : Value)
    : outcome EvidenceError (option CodexRunEvidenceUpdate) :=
  let? matching := matches_run self params in
  if negb matching then Ok None else
  let? last := ok_or (v ← value_get params "tokenUsage"; value_get v "last") EvidenceDrift in
  let? input_tokens := evidence_u64 last "inputTokens" in
  let? output_tokens := evidence_u64 last "outputTokens" in
  let? total_tokens := evidence_u64 last "totalTokens" in
  let? minimum_total := ok_or (checked_add U64_MAX input_tokens output_tokens) EvidenceDrift in
  fail_if (total_tokens <? minimum_total)%Z with EvidenceDrift;;
  Ok (Some (Cost {| ce_evidence_class := ProviderReported; ce_currency := None;
                    ce_amount := None; ce_input_tokens := Some input_tokens;
                    ce_output_tokens := Some output_tokens; ce_confidence := f32_one |})).

Definition evidence_ingest (self : CodexRunEvidence) (notification : AppServerNotification)
    : outcome EvidenceError (option CodexRunEvidenceUpdate) :=
  if String.eqb (no_method notification) "turn/diff/updated"
  then diff_updated self (no_params notification)
  else if String.eqb (no_method notification) "item/completed"
  then file_change_completed self (no_params notification)
  else if String.eqb (no_method notification) "thread/tokenUsage/updated"
  then token_usage_updated self (no_params notification)
  else Ok None.

(** ** What an update can be *)

(** A receipt names the kind of evidence and the turn; a cost is in numbers of
    tokens that add up, and in no currency. *)
Definition sound_update (self : CodexRunEvidence) (u : CodexRunEvidenceUpdate) : Prop :=
  match u with
  | WriteReceipt r =>
      r = receipt self "codex.item_file_change.completed" ∨
      r = receipt self "codex.turn_diff.updated"
  | Cost c =>
      ∃ i o : Z, c = {| ce_evidence_class := ProviderReported; ce_currency := None;
        ce_amount := None; ce_input_tokens := Some i; ce_output_tokens := Some o;
        ce_confidence := f32_one |} ∧ (i + o ≤ U64_MAX)%Z
  end.

Lemma evidence_ingest_returns self n : returns (evidence_ingest self n).
Proof.
  unfold evidence_ingest, diff_updated, file_change_completed, token_usage_updated, matches_run,
    evidence_string, evidence_u64. solve_returns.
Qed.

Lemma evidence_ingest_sound self n u : evidence_ingest self n = Ok (Some u) → sound_update self u.
Proof.
  unfold evidence_ingest, diff_updated, file_change_completed, token_usage_updated. intros E.
  repeat first [progress (ok_step; simplify_eq/=)|match goal with
    | H : (if ?b then _ else _) = Ok _ |- _ => destruct b; simplify_eq/= end]; auto.
  match goal with H : checked_add _ _ _ = Some _ |- _ =>
    unfold checked_add in H; case_bool_decide; [|done]; simplify_eq end.
  by do 2 eexists.
Qed.

End evidence.
