(* ===== verification/CodexServer.v ===== *)
(** * The Codex app server

    Models [bastet-adapter-codex/src/app_server.rs]: the calls of the JSON-RPC
    server over a transport, the collected answer of a turn, and the loops that
    wait for the next update of a run.

    The transport is an interface, the class [AppServerTransport], which
    CodexStdio.v implements; the theorems about the server hold for all of them.
    The structures that [serde] derives from a reply are parameters (the class
    [ServerWire]); paths are those of Unix.  The loops have fuel; a reading of the
    clock is the next of a list of observations. *)
From S2P Require Import Prelude Identity Adapter CodexLifecycle CodexEvidence.

Inductive TransportError :=
| TransportCancelled | Unavailable | TransportTimedOut | TransportDrift
| RemoteRejected (code : Z) (retryable : bool).
Inductive AppServerError := Transport (e : TransportError) | NotInitialized | ServerDrift.

#[export] Instance TransportError_eq_dec : EqDecision TransportError.
Proof. solve_decision. Defined.
#[export] Instance AppServerError_eq_dec : EqDecision AppServerError.
Proof. solve_decision. Defined.

Inductive ApprovalPolicy := Never | UnlessTrusted.
Inductive ThreadSandbox := ReadOnly | WorkspaceWrite.
Inductive TurnSandboxPolicy :=
| TurnReadOnly | TurnWorkspaceWrite (writable_roots : list string) (network_access : bool).

Record ThreadStartRequest := {
  ts_model : string;
  ts_cwd : string;
  ts_approval_policy : ApprovalPolicy;
  ts_sandbox : ThreadSandbox;
}.
Record TurnStartRequest := {
  tu_thread_id : string;
  tu_prompt : string;
  tu_cwd : string;
  tu_approval_policy : ApprovalPolicy;
  tu_sandbox_policy : TurnSandboxPolicy;
  tu_model : option string;
  tu_effort : option string;
}.
Record ThreadHandle := { th_thread_id : string; th_session_id : option string }.
Record TurnHandle := { tn_turn_id : string }.
Record ReasoningEffort := { ef_reasoning_effort : string; ef_description : string }.

(** [ModelWire] and [ModelDescriptor] have the same fields. *)
Record ModelDescriptor := {
  md_id : string;
  md_model : string;
  md_display_name : string;
  md_hidden : bool;
  md_default_reasoning_effort : option string;
  md_supported_reasoning_efforts : list ReasoningEffort;
  md_input_modalities : list string;
  md_supports_personality : bool;
  md_is_default : bool;
}.
Record ModelCatalogPage := { mc_models : list ModelDescriptor; mc_next_cursor : option string }.

(** ** Requirements on arguments and replies *)

Definition require_text (value : string) : outcome AppServerError unit :=
  fail_if blank value with ServerDrift;; Ok tt.
Definition is_absolute (path : string) : bool := String.prefix "/" path.
Definition require_absolute (path : string) : outcome AppServerError unit :=
  fail_if negb (is_absolute path) with ServerDrift;; Ok tt.
Definition validate_sandbox_policy (policy : TurnSandboxPolicy) : outcome AppServerError unit :=
  match policy with
  | TurnWorkspaceWrite writable_roots _ =>
      fail_if bool_decide (writable_roots = [])
              || existsb (λ path, negb (is_absolute path)) writable_roots with ServerDrift;;
      Ok tt
  | TurnReadOnly => Ok tt
  end.

Definition descriptor_try_from (wire : ModelDescriptor) : outcome AppServerError ModelDescriptor :=
  fail_if existsb blank [md_id wire; md_model wire; md_display_name wire]
          || option_blank (md_default_reasoning_effort wire)
          || existsb (λ e, blank (ef_reasoning_effort e) || blank (ef_description e))
               (md_supported_reasoning_efforts wire)
          || existsb blank (md_input_modalities wire) with ServerDrift;;
  Ok wire.

(** ** The answer of a turn *)

Record CodexFinalOutput := {
  fo_provider_thread_id : string;
  fo_provider_turn_id : string;
  fo_text : string;
  fo_overflowed : bool;
}.
Definition FINAL_OUTPUT_MAX_BYTES : Z := 256 * 1024.

Definition final_output_new (provider_thread_id provider_turn_id : string)
    : outcome AppServerError CodexFinalOutput :=
  require_text provider_thread_id ?;
  require_text provider_turn_id ?;
  Ok {| fo_provider_thread_id := provider_thread_id; fo_provider_turn_id := provider_turn_id;
        fo_text := ""; fo_overflowed := false |}.

Definition final_output (self : CodexFinalOutput) : option string :=
  if negb (fo_overflowed self) && negb (is_empty (fo_text self)) then Some (fo_text self) else None.

Definition set_text (text : string) (overflowed : bool) (self : CodexFinalOutput)
    : CodexFinalOutput :=
  {| fo_provider_thread_id := fo_provider_thread_id self;
     fo_provider_turn_id := fo_provider_turn_id self; fo_text := text;
     fo_overflowed := overflowed |}.

Definition collect_answer (text : string) (self : CodexFinalOutput) : CodexFinalOutput :=
  if fo_overflowed self then self else
  match append_if_within_limit (fo_text self) text FINAL_OUTPUT_MAX_BYTES with
  | Some output => set_text output false self
  | None => set_text "" true self
  end.

Section server.
Context `{Json}.

Definition required_value_string (value : Value) (key : string) : outcome AppServerError string :=
  ok_or (v ← value_get value key; as_str v) ServerDrift.

(** The text of a completed final answer of this turn. *)
Definition answer_text (self : CodexFinalOutput) (notification : AppServerNotification)
    : outcome AppServerError (option string) :=
  if negb (String.eqb (no_method notification) "item/completed") then Ok None else
  let params := no_params notification in
  let? thread_id := required_value_string params "threadId" in
  if negb (String.eqb thread_id (fo_provider_thread_id self)) then Ok None else
  let? turn_id := required_value_string params "turnId" in
  if negb (String.eqb turn_id (fo_provider_turn_id self)) then Ok None else
  let? item := ok_or (value_get params "item") ServerDrift in
  let? type := required_value_string item "type" in
  if negb (String.eqb type "agentMessage") then Ok None else
  if negb (bool_decide ((v ← value_get item "phase"; as_str v) = Some "final_answer"))
  then Ok None else
  let? text := ok_or (v ← value_get item "text"; as_str v) ServerDrift in
  Ok (Some text).

Definition output_ingest (notification : AppServerNotification)
    : self CodexFinalOutput AppServerError unit :=
  self ← sget;
  text ← slift (answer_text self notification);
  match text with
  | Some text => smodify (collect_answer text)
  | None => mret tt
  end.

(** ** The transport *)

Class AppServerTransport (T : Type) := {
  tr_request : string → Value → self T TransportError Value;
  tr_request_with_timeout : string → Value → Z → self T TransportError Value;
  tr_notify : string → Value → self T TransportError unit;
  tr_next_notification : self T TransportError AppServerNotification;
  tr_poll_notification : Z → self T TransportError (option AppServerNotification);
}.

(** [serde_json::from_value] of the structures of replies: the [thread] of a
    [ThreadResultWire], the [id] of a [TurnResultWire], a [ModelPageWire]. *)
Class ServerWire := {
  thread_wire : Value → option ThreadHandle;
  turn_wire : Value → option string;
  model_page_wire : Value → option ModelCatalogPage;
}.

Inductive CodexRunUpdate :=
| Lifecycle (event : NormalizedCodexEvent)
| Evidence (update : CodexRunEvidenceUpdate).

Record CodexAppServer (T : Type) := {
  sv_transport : T;
  sv_initialized : bool;
}.
#[global] Arguments sv_transport {T} c.
#[global] Arguments sv_initialized {T} c.
#[global] Arguments Build_CodexAppServer {T} _ _.

Context {T : Type} `{AppServerTransport T, ServerWire}.
Notation method := (self (CodexAppServer T) AppServerError).

Definition server_new (transport : T) : CodexAppServer T :=
  {| sv_transport := transport; sv_initialized := false |}.

(** A call of the transport; its errors become errors of the server. *)
Definition call {A} (m : self T TransportError A) : method A :=
  zoom sv_transport (λ t s, {| sv_transport := t; sv_initialized := sv_initialized s |}) Transport m.

Definition require_initialized : method unit :=
  self ← sget;
  refuse negb (sv_initialized self) with NotInitialized;; mret tt.

Definition initialize : method unit :=
  result ← call (tr_request "initialize" (json_entries [("clientInfo", json_entries
    [("name", json_string "bastet_workstation"); ("title", json_string "Bastet Workstation");
     ("version", json_string "0.1.0")])]));
  refuse bool_decide (as_object result = None) with ServerDrift;;
  call (tr_notify "initialized" (json_entries [])) ;;
  smodify (λ s, {| sv_transport := sv_transport s; sv_initialized := true |}).

Definition list_models (cursor : option string) (limit : Z) : method ModelCatalogPage :=
  self ← sget;
  refuse negb (sv_initialized self) with NotInitialized;;
  refuse (limit =? 0)%Z with ServerDrift;;
  result ← call (tr_request "model/list" (json_entries
    [("cursor", match cursor with Some c => json_string c | None => json_null end);
     ("limit", json_number limit); ("includeHidden", json_bool false)]));
  wire ← slift (ok_or (model_page_wire result) ServerDrift);
  models ← slift (map_try descriptor_try_from (mc_models wire));
  refuse option_blank (mc_next_cursor wire) with ServerDrift;;
  mret {| mc_models := models; mc_next_cursor := mc_next_cursor wire |}.

Definition parse_thread_handle (result : Value) : outcome AppServerError ThreadHandle :=
  let? wire := ok_or (thread_wire result) ServerDrift in
  require_text (th_thread_id wire) ?;
  fail_if option_blank (th_session_id wire) with ServerDrift;;
  Ok {| th_thread_id := th_thread_id wire; th_session_id := th_session_id wire |}.

(** The JSON of the policies, as their [serde] attributes spell it. *)
Definition approval_policy_json (p : ApprovalPolicy) : Value :=
  json_string match p with Never => "never" | UnlessTrusted => "unlessTrusted" end.
Definition thread_sandbox_json (s : ThreadSandbox) : Value :=
  json_string match s with ReadOnly => "read-only" | WorkspaceWrite => "workspace-write" end.
Definition turn_sandbox_json (p : TurnSandboxPolicy) : Value :=
  match p with
  | TurnReadOnly => json_entries [("type", json_string "readOnly")]
  | TurnWorkspaceWrite roots network =>
      json_entries [("type", json_string "workspaceWrite");
                    ("writableRoots", json_array (map json_string roots));
                    ("networkAccess", json_bool network)]
  end.

Definition start_thread (request : ThreadStartRequest) : method ThreadHandle :=
  require_initialized ;;
  slift (require_text (ts_model request)) ;;
  slift (require_absolute (ts_cwd request)) ;;
  result ← call (tr_request "thread/start" (json_entries
    [("model", json_string (ts_model request)); ("cwd", json_string (ts_cwd request));
     ("approvalPolicy", approval_policy_json (ts_approval_policy request));
     ("sandbox", thread_sandbox_json (ts_sandbox request))]));
  slift (parse_thread_handle result).

Definition resume_thread (thread_id : string) : method ThreadHandle :=
  require_initialized ;;
  slift (require_text thread_id) ;;
  result ← call (tr_request "thread/resume" (json_entries [("threadId", json_string thread_id)]));
  slift (parse_thread_handle result).

(** The parameters of a turn; the options are left out when they are [None]. *)
Definition turn_params (request : TurnStartRequest) : Value :=
  json_entries
    ([("threadId", json_string (tu_thread_id request));
      ("input", json_array [json_entries [("type", json_string "text");
                                          ("text", json_string (tu_prompt request))]]);
      ("cwd", json_string (tu_cwd request));
      ("approvalPolicy", approval_policy_json (tu_approval_policy request));
      ("sandboxPolicy", turn_sandbox_json (tu_sandbox_policy request))] ++
     match tu_model request with Some model => [("model", json_string model)] | None => [] end ++
     match tu_effort request with Some e => [("effort", json_string e)] | None => [] end).

Definition start_turn (request : TurnStartRequest) : method TurnHandle :=
  require_initialized ;;
  slift (require_text (tu_thread_id request)) ;;
  slift (require_text (tu_prompt request)) ;;
  slift (require_absolute (tu_cwd request)) ;;
  slift (validate_sandbox_policy (tu_sandbox_policy request)) ;;
  refuse option_blank (tu_model request) || option_blank (tu_effort request) with ServerDrift;;
  result ← call (tr_request "turn/start" (turn_params request));
  turn_id ← slift (ok_or (turn_wire result) ServerDrift);
  slift (require_text turn_id) ;;
  mret {| tn_turn_id := turn_id |}.

Definition interrupt_turn_inner (thread_id turn_id : string) (max_wait : option Z) : method unit :=
  require_initialized ;;
  slift (require_text thread_id) ;;
  slift (require_text turn_id) ;;
  let params := json_entries [("threadId", json_string thread_id); ("turnId", json_string turn_id)] in
  result ← call match max_wait with
                | Some max_wait => tr_request_with_timeout "turn/interrupt" params max_wait
                | None => tr_request "turn/interrupt" params
                end;
  refuse match as_object result with
         | Some object => negb (Nat.eqb (size object) 0)
         | None => true
         end with ServerDrift;;
  mret tt.
Definition interrupt_turn (thread_id turn_id : string) : method unit :=
  interrupt_turn_inner thread_id turn_id None.
Definition interrupt_turn_with_timeout (thread_id turn_id : string) (max_wait : Z) : method unit :=
  interrupt_turn_inner thread_id turn_id (Some max_wait).

Definition next_notification : method AppServerNotification :=
  require_initialized ;; call tr_next_notification.
Definition poll_notification (max_wait : Z) : method (option AppServerNotification) :=
  require_initialized ;; call (tr_poll_notification max_wait).

(** ** The updates of a run

    The loops change the server, the stream of the turn and the answer. *)
Record observer := {
  ob_server : CodexAppServer T;
  ob_stream : CodexRunStream;
  ob_output : option CodexFinalOutput;
}.
Notation observation := (self observer AppServerError).

Definition on_server {A} (m : method A) : self observer AppServerError A :=
  zoom ob_server (λ v s, {| ob_server := v; ob_stream := ob_stream s; ob_output := ob_output s |})
    id m.
Definition on_stream {A} (m : self CodexRunStream LifecycleError A) : observation A :=
  zoom ob_stream (λ v s, {| ob_server := ob_server s; ob_stream := v; ob_output := ob_output s |})
    (λ _, ServerDrift) m.
(** [if let Some(final_output) = ... { final_output.ingest(&notification)?; }] *)
Definition on_output (notification : AppServerNotification) : observation unit := λ s,
  match ob_output s with
  | None => (s, Ok tt)
  | Some output =>
      let '(output, r) := output_ingest notification output in
      ({| ob_server := ob_server s; ob_stream := ob_stream s; ob_output := Some output |}, r)
  end.
(** [match m { Ok(a) => ..., Err(e) => ... }] *)
Definition attempt {S E F A} (m : self S E A) : self S F (outcome E A) := λ s,
  let '(s, r) := m s in (s, Ok r).

Fixpoint next_run_event (fuel : nat) (occurred_at : string) : observation NormalizedCodexEvent :=
  match fuel with
  | O => slift Diverge
  | S fuel =>
      notification ← on_server next_notification;
      event ← on_stream (stream_ingest notification occurred_at);
      match event with
      | Some event => mret event
      | None => next_run_event fuel occurred_at
      end
  end.

(** What a notification means: an event of the stream, or else evidence. *)
Definition ingest_update (evidence : CodexRunEvidence) (notification : AppServerNotification)
    (occurred_at : string) : observation (option CodexRunUpdate) :=
  on_output notification ;;
  event ← on_stream (stream_ingest notification occurred_at);
  match event with
  | Some event => mret (Some (Lifecycle event))
  | None =>
      update ← slift (map_err (λ _, ServerDrift) (evidence_ingest evidence notification));
      mret (Evidence <$> update)
  end.

(** A failed wait: two transport errors end the run, the others are passed on. *)
Definition failed_wait {A} (occurred_at : string) (e : AppServerError) (f : CodexRunUpdate → A)
    : observation A :=
  if bool_decide (e = Transport TransportTimedOut)
  then event ← on_stream (deadline_exceeded occurred_at); mret (f (Lifecycle event))
  else if bool_decide (e = Transport Unavailable)
  then event ← on_stream (transport_lost occurred_at); mret (f (Lifecycle event))
  else slift (Err e).

Fixpoint next_run_update_inner (fuel : nat) (evidence : CodexRunEvidence) (occurred_at : string)
    : observation CodexRunUpdate :=
  match fuel with
  | O => slift Diverge
  | S fuel =>
      r ← attempt (on_server next_notification);
      match r with
      | Ok notification =>
          update ← ingest_update evidence notification occurred_at;
          match update with
          | Some update => mret update
          | None => next_run_update_inner fuel evidence occurred_at
          end
      | Err e => failed_wait occurred_at e id
      | Panic => slift Panic
      | Diverge => slift Diverge
      end
  end.

(** [Duration::MAX] *)
Definition DURATION_MAX : Z := (2 ^ 64 - 1) * 1000000000 + 999999999.

(** The first reading is the start; each iteration reads the clock once. *)
Fixpoint poll_run_update_from (readings : list Z) (deadline : option Z) (first : bool)
    (evidence : CodexRunEvidence) (occurred_at : string) : observation (option CodexRunUpdate) :=
  match readings with
  | [] => slift Diverge
  | now :: readings =>
      let remaining := match deadline with
                       | Some deadline => Z.max 0 (deadline - now)
                       | None => DURATION_MAX
                       end in
      if (remaining =? 0)%Z && negb first then mret None else
      r ← attempt (on_server (poll_notification remaining));
      match r with
      | Ok (Some notification) =>
          update ← ingest_update evidence notification occurred_at;
          match update with
          | Some update => mret (Some update)
          | None => poll_run_update_from readings deadline false evidence occurred_at
          end
      | Ok None => mret None
      | Err e => failed_wait occurred_at e Some
      | Panic => slift Panic
      | Diverge => slift Diverge
      end
  end.

Definition poll_run_update_with_output (instant_max : Z) (readings : list Z)
    (evidence : CodexRunEvidence) (occurred_at : string) (max_wait : Z)
    : observation (option CodexRunUpdate) :=
  match readings with
  | [] => slift Diverge
  | now :: readings =>
      poll_run_update_from readings (checked_add instant_max now max_wait) true evidence occurred_at
  end.

End server.
#[global] Arguments observer T : clear implicits.
