(* ===== verification/CodexRun.v ===== *)
(** * Tracked Codex runs

    Models [bastet-adapter-codex/src/run.rs]: the tracker of a run, which puts
    the evidence of a write before the end of the run, and the start of a run
    under one policy.  The directory that a snapshot captures is an argument of
    the call. *)
From S2P Require Import Prelude Identity Workspace Adapter CodexLifecycle CodexEvidence CodexServer.

Record CodexRunRequest := {
  rq_run_id : RunId;
  rq_model : string;
  rq_prompt : string;
  rq_cwd : string;
  rq_approval_policy : ApprovalPolicy;
  rq_sandbox_policy : TurnSandboxPolicy;
  rq_effort : option string;
}.

Inductive RunTrackerError :=
| TrackerAppServer (e : AppServerError)
| TrackerLifecycle (e : LifecycleError)
| TrackerEvidence (e : EvidenceError)
| TrackerWorkspace (e : WorkspaceEvidenceError).

Section run.
Context `{Json}.

Record CodexRunTracker := {
  tk_provider_thread_id : string;
  tk_provider_turn_id : string;
  tk_stream : CodexRunStream;
  tk_evidence : CodexRunEvidence;
  tk_before : option WorkspaceSnapshot;
  tk_provider_write_receipt : bool;
  tk_pending_terminal : option CodexRunUpdate;
  tk_final_output : CodexFinalOutput;
}.

Record StartedCodexRun := {
  st_thread : ThreadHandle;
  st_turn : TurnHandle;
  st_tracker : CodexRunTracker;
}.

Definition tracker_new (run_id : RunId) (provider_thread_id provider_turn_id : string)
    (workspace_before : option WorkspaceSnapshot) : outcome RunTrackerError CodexRunTracker :=
  let? stream := map_err TrackerLifecycle (stream_new run_id provider_turn_id) in
  let? evidence := map_err TrackerEvidence (evidence_new provider_thread_id provider_turn_id) in
  let? output :=
    map_err TrackerAppServer (final_output_new provider_thread_id provider_turn_id) in
  Ok {| tk_provider_thread_id := provider_thread_id; tk_provider_turn_id := provider_turn_id;
        tk_stream := stream; tk_evidence := evidence; tk_before := workspace_before;
        tk_provider_write_receipt := false; tk_pending_terminal := None;
        tk_final_output := output |}.

Definition set_stream (v : CodexRunStream) (t : CodexRunTracker) : CodexRunTracker :=
  {| tk_provider_thread_id := tk_provider_thread_id t;
     tk_provider_turn_id := tk_provider_turn_id t; tk_stream := v; tk_evidence := tk_evidence t;
     tk_before := tk_before t; tk_provider_write_receipt := tk_provider_write_receipt t;
     tk_pending_terminal := tk_pending_terminal t; tk_final_output := tk_final_output t |}.
Definition set_final_output (v : CodexFinalOutput) (t : CodexRunTracker) : CodexRunTracker :=
  {| tk_provider_thread_id := tk_provider_thread_id t;
     tk_provider_turn_id := tk_provider_turn_id t; tk_stream := tk_stream t;
     tk_evidence := tk_evidence t; tk_before := tk_before t;
     tk_provider_write_receipt := tk_provider_write_receipt t;
     tk_pending_terminal := tk_pending_terminal t; tk_final_output := v |}.
Definition set_write_receipt (t : CodexRunTracker) : CodexRunTracker :=
  {| tk_provider_thread_id := tk_provider_thread_id t;
     tk_provider_turn_id := tk_provider_turn_id t; tk_stream := tk_stream t;
     tk_evidence := tk_evidence t; tk_before := tk_before t; tk_provider_write_receipt := true;
     tk_pending_terminal := tk_pending_terminal t; tk_final_output := tk_final_output t |}.
Definition set_pending (v : option CodexRunUpdate) (t : CodexRunTracker) : CodexRunTracker :=
  {| tk_provider_thread_id := tk_provider_thread_id t;
     tk_provider_turn_id := tk_provider_turn_id t; tk_stream := tk_stream t;
     tk_evidence := tk_evidence t; tk_before := tk_before t;
     tk_provider_write_receipt := tk_provider_write_receipt t; tk_pending_terminal := v;
     tk_final_output := tk_final_output t |}.

Definition is_write_receipt (update : CodexRunUpdate) : bool :=
  match update with Evidence (WriteReceipt _) => true | _ => false end.
Definition is_terminal (update : CodexRunUpdate) : bool :=
  match update with Lifecycle event => terminal_state (ev_state (nc_event event)) | _ => false end.

Context `{Digest} (receipt_json : nat → string).

Definition order_update (tree : fs_node) (update : CodexRunUpdate)
    : self CodexRunTracker RunTrackerError CodexRunUpdate :=
  if is_write_receipt update then smodify set_write_receipt ;; mret update else
  self ← sget;
  if negb (is_terminal update) || tk_provider_write_receipt self then mret update else
  match tk_before self with
  | None => mret update
  | Some before =>
      after ← slift (map_err TrackerWorkspace
                       (capture (wsn_root before) (is_absolute (wsn_root before)) tree));
      receipt ← slift (map_err TrackerWorkspace (write_receipt receipt_json before after));
      match receipt with
      | None => mret update
      | Some receipt =>
          smodify (set_pending (Some update)) ;;
          mret (Evidence (WriteReceipt receipt))
      end
  end.

Context {T : Type} `{!AppServerTransport T, !ServerWire}.

(** A server and the tracker of one of its runs. *)
Record tracked := {
  td_server : CodexAppServer T;
  td_tracker : CodexRunTracker;
}.
Notation method := (self tracked RunTrackerError).

Definition with_server {A} (m : self (CodexAppServer T) AppServerError A) : method A :=
  zoom td_server (λ v s, {| td_server := v; td_tracker := td_tracker s |}) TrackerAppServer m.
Definition with_tracker {A} (m : self CodexRunTracker RunTrackerError A) : method A :=
  zoom td_tracker (λ v s, {| td_server := td_server s; td_tracker := v |}) id m.
Definition with_stream {A} (m : self CodexRunStream LifecycleError A) : method A :=
  with_tracker (zoom tk_stream set_stream TrackerLifecycle m).

(** A loop of the server on the stream and the answer of the tracker. *)
Definition observed (s : tracked) : observer T :=
  {| ob_server := td_server s; ob_stream := tk_stream (td_tracker s);
     ob_output := Some (tk_final_output (td_tracker s)) |}.
Definition put_observed (o : observer T) (s : tracked) : tracked :=
  {| td_server := ob_server o;
     td_tracker := set_stream (ob_stream o)
       (match ob_output o with
        | Some output => set_final_output output (td_tracker s)
        | None => td_tracker s
        end) |}.
Definition observing {A} (m : self (observer T) AppServerError A) : method A :=
  zoom observed put_observed TrackerAppServer m.

Definition request_cancellation (occurred_at : string) : method CodexRunUpdate :=
  self ← sget;
  with_server (interrupt_turn (tk_provider_thread_id (td_tracker self))
                 (tk_provider_turn_id (td_tracker self))) ;;
  event ← with_stream (cancellation_requested occurred_at);
  mret (Lifecycle event).

Definition request_cancellation_with_timeout (occurred_at : string) (max_wait : Z)
    : method CodexRunUpdate :=
  self ← sget;
  with_server (interrupt_turn_with_timeout (tk_provider_thread_id (td_tracker self))
                 (tk_provider_turn_id (td_tracker self)) max_wait) ;;
  event ← with_stream (cancellation_requested occurred_at);
  mret (Lifecycle event).

Definition tracker_resume_thread (occurred_at : string) : method (ThreadHandle * CodexRunUpdate) :=
  self ← sget;
  handle ← with_server (resume_thread (tk_provider_thread_id (td_tracker self)));
  event ← with_stream (recovery_started (th_thread_id handle) occurred_at);
  mret (handle, Lifecycle event).

Definition next_update (fuel : nat) (tree : fs_node) (occurred_at : string)
    : method CodexRunUpdate :=
  self ← sget;
  match tk_pending_terminal (td_tracker self) with
  | Some terminal => with_tracker (smodify (set_pending None)) ;; mret terminal
  | None =>
      update ← observing (next_run_update_inner fuel (tk_evidence (td_tracker self)) occurred_at);
      with_tracker (order_update tree update)
  end.

Definition poll_update (instant_max : Z) (readings : list Z) (tree : fs_node)
    (occurred_at : string) (max_wait : Z) : method (option CodexRunUpdate) :=
  self ← sget;
  match tk_pending_terminal (td_tracker self) with
  | Some terminal => with_tracker (smodify (set_pending None)) ;; mret (Some terminal)
  | None =>
      update ← observing (poll_run_update_with_output instant_max readings
                            (tk_evidence (td_tracker self)) occurred_at max_wait);
      match update with
      | None => mret None
      | Some update => u ← with_tracker (order_update tree update); mret (Some u)
      end
  end.

Definition start_tracked_run (tree : fs_node) (request : CodexRunRequest)
    : self (CodexAppServer T) RunTrackerError StartedCodexRun :=
  '(thread_sandbox, before) ← match rq_sandbox_policy request with
    | TurnReadOnly => mret (ReadOnly, None)
    | TurnWorkspaceWrite writable_roots _ =>
        if Nat.eqb (length writable_roots) 1
           && bool_decide (head writable_roots = Some (rq_cwd request))
        then before ← slift (map_err TrackerWorkspace
                        (capture (rq_cwd request) (is_absolute (rq_cwd request)) tree));
             mret (WorkspaceWrite, Some before)
        else slift (Err (TrackerWorkspace InvalidRoot))
    end;
  thread ← zoom id (λ v _, v) TrackerAppServer (start_thread
    {| ts_model := rq_model request; ts_cwd := rq_cwd request;
       ts_approval_policy := rq_approval_policy request; ts_sandbox := thread_sandbox |});
  turn ← zoom id (λ v _, v) TrackerAppServer (start_turn
    {| tu_thread_id := th_thread_id thread; tu_prompt := rq_prompt request;
       tu_cwd := rq_cwd request; tu_approval_policy := rq_approval_policy request;
       tu_sandbox_policy := rq_sandbox_policy request; tu_model := Some (rq_model request);
       tu_effort := rq_effort request |});
  tracker ← slift (tracker_new (rq_run_id request) (th_thread_id thread) (tn_turn_id turn) before);
  mret {| st_thread := thread; st_turn := turn; st_tracker := tracker |}.

End run.
#[global] Arguments tracked T : clear implicits.
