(* ===== verification/CodexRunFacts.v ===== *)
(** * A tracked run as a source of events

    The calls of a tracker, in any order and over any transport, report the
    events of one stream in their order, and the end of a run that may write
    only after evidence of what it wrote. *)
From S2P Require Import Prelude Identity Workspace Adapter CodexLifecycle CodexEvidence CodexServer.
From S2P Require Import CodexFacts CodexRun.

Section run.
Context `{Json} `{Digest} (receipt_json : nat → string).
Context {T : Type} `{!AppServerTransport T, !ServerWire}.

Definition lifecycle_of (u : CodexRunUpdate) : option NormalizedCodexEvent :=
  match u with Lifecycle e => Some e | Evidence _ => None end.

Inductive tracker_op :=
| NextUpdate (fuel : nat) (tree : fs_node) (occurred_at : string)
| PollUpdate (instant_max : Z) (readings : list Z) (tree : fs_node) (occurred_at : string)
    (max_wait : Z)
| CancelRun (occurred_at : string)
| CancelRunWithin (occurred_at : string) (max_wait : Z)
| ResumeRun (occurred_at : string).

Definition update_of (r : tracked T * outcome RunTrackerError CodexRunUpdate)
    : tracked T * option CodexRunUpdate := (r.1, match r.2 with Ok u => Some u | _ => None end).
Definition tracker_step (op : tracker_op) (s : tracked T) : tracked T * option CodexRunUpdate :=
  match op with
  | NextUpdate fuel tree at_ => update_of (next_update receipt_json fuel tree at_ s)
  | PollUpdate imax readings tree at_ wait =>
      let r := poll_update receipt_json imax readings tree at_ wait s in
      (r.1, match r.2 with Ok o => o | _ => None end)
  | CancelRun at_ => update_of (request_cancellation at_ s)
  | CancelRunWithin at_ wait => update_of (request_cancellation_with_timeout at_ wait s)
  | ResumeRun at_ =>
      let r := tracker_resume_thread at_ s in
      (r.1, match r.2 with Ok (_, u) => Some u | _ => None end)
  end.

(** ** The stream of the loops *)

(** A loop of the server changes the stream by the event it returns, if any. *)
Definition streams {A} (f : A → option NormalizedCodexEvent)
    (m : self (observer T) AppServerError A) : Prop :=
  ∀ o, let '(o', r) := m o in
    follows_stream (ob_stream o) (ob_stream o') (match r with Ok a => f a | _ => None end) ∧
    (is_Some (ob_output o) → is_Some (ob_output o')).

Definition silent {A} : A → option NormalizedCodexEvent := λ _, None.

Lemma streams_bind {A B} (f : B → option NormalizedCodexEvent) (m : self (observer T) AppServerError A) k :
  streams silent m → (∀ a, streams f (k a)) → streams f (m ≫= k).
Proof.
  intros Hm Hk o. unself. specialize (Hm o). destruct (m o) as [o1 [a| | |]]; try done.
  specialize (Hk a o1). destruct (k a o1) as [o2 r]. destruct Hm as [Hm Hs], Hk as [Hk Hs'].
  unfold follows_stream, silent in Hm. destruct Hm as [_ Hm]. rewrite Hm in Hk. eauto.
Qed.
Lemma streams_ret {A} (f : A → option NormalizedCodexEvent) a : f a = None → streams f (mret a).
Proof. intros Ha o. unself. by rewrite Ha. Qed.
Lemma streams_lift {A} (f : A → option NormalizedCodexEvent) (r : outcome AppServerError A) :
  (∀ a, r = Ok a → f a = None) → streams f (slift r).
Proof. intros Hr o. unself. destruct r as [a| | |]; try done. by rewrite (Hr a eq_refl). Qed.
Lemma streams_server {A} (m : self (CodexAppServer T) AppServerError A) : streams silent (on_server m).
Proof. intros o. unfold on_server. unself. by destruct (m (ob_server o)) as [v [| | |]]. Qed.
Lemma streams_output n : streams (@silent unit) (on_output n).
Proof.
  intros o. unfold on_output. destruct (ob_output o) as [x|] eqn:E; [|done].
  destruct (output_ingest n x) as [y [| | |]]; done.
Qed.
Lemma streams_ingest n at_ : streams id (on_stream (T := T) (stream_ingest n at_)).
Proof.
  intros o. unfold on_stream. unself. pose proof (stream_ingest_follows n at_ (ob_stream o)) as Hf.
  by destruct (stream_ingest n at_ (ob_stream o)) as [s [| | |]].
Qed.
Lemma streams_local (m : self CodexRunStream LifecycleError NormalizedCodexEvent) :
  (∀ s, let r := some_event (m s) in follows_stream s r.1 r.2) →
  streams Some (on_stream (T := T) m).
Proof.
  intros Hm o. unfold on_stream. unself. specialize (Hm (ob_stream o)).
  by destruct (m (ob_stream o)) as [s [| | |]].
Qed.

Lemma streams_waiting {A} (m : self (CodexAppServer T) AppServerError A) :
  streams silent (attempt (on_server m) : self (observer T) AppServerError (outcome _ A)).
Proof.
  intros o. unfold attempt. pose proof (streams_server m o) as Hs.
  by destruct (on_server m o) as [o' []].
Qed.

(** An event passes through what is done with it. *)
Lemma streams_map {A B} (f : B → option NormalizedCodexEvent) g
    (m : self (observer T) AppServerError A) (h : A → B) :
  streams g m → (∀ a, f (h a) = g a) → streams f (m ≫= λ a, mret (h a)).
Proof.
  intros Hm Hh o. unself. specialize (Hm o). destruct (m o) as [o' [a| | |]]; cbn; try done.
  by rewrite Hh.
Qed.

Definition option_lifecycle (o : option CodexRunUpdate) : option NormalizedCodexEvent :=
  o ≫= lifecycle_of.

Lemma streams_ingest_update ev n at_ : streams option_lifecycle (ingest_update (T := T) ev n at_).
Proof.
  apply streams_bind; [apply streams_output|]. intros _ o. unself.
  pose proof (streams_ingest n at_ o) as Hs.
  destruct (on_stream (stream_ingest n at_) o) as [o1 [[e|]| | |]]; try done.
  destruct (map_err _ _) as [[u|]| | |]; done.
Qed.

Lemma streams_failed_wait {A} (g : A → option NormalizedCodexEvent) at_ e (f : CodexRunUpdate → A) :
  (∀ u, g (f u) = lifecycle_of u) → streams g (failed_wait (T := T) at_ e f).
Proof.
  intros Hg. unfold failed_wait. repeat case_bool_decide.
  - eapply streams_map; [apply (streams_local (deadline_exceeded at_))|intros; apply Hg].
    intros s. by apply (stream_step_follows (DeadlineExceeded at_)).
  - eapply streams_map; [apply (streams_local (transport_lost at_))|intros; apply Hg].
    intros s. by apply (stream_step_follows (TransportLost at_)).
  - by apply streams_lift.
Qed.

(** A part that may return an update, and what follows when it does not. *)
Lemma streams_or {B} (f : B → option NormalizedCodexEvent)
    (m : self (observer T) AppServerError (option CodexRunUpdate)) h k :
  streams option_lifecycle m → (∀ u, f (h u) = lifecycle_of u) → streams f k →
  streams f (m ≫= λ o, match o with Some u => mret (h u) | None => k end).
Proof.
  intros Hm Hh Hk o. unself. specialize (Hm o). destruct (m o) as [o1 [[u|]| | |]]; cbn in *; try done.
  - by rewrite Hh.
  - destruct Hm as [[_ Hm] Hs]. specialize (Hk o1). destruct (k o1). rewrite Hm in Hk.
    destruct Hk. eauto.
Qed.

Lemma streams_next_update fuel ev at_ : streams lifecycle_of (next_run_update_inner (T := T) fuel ev at_).
Proof.
  induction fuel as [|fuel IH]; cbn [next_run_update_inner]; [by apply streams_lift|].
  apply streams_bind.
  { apply streams_waiting. }
  intros [n|e| |]; try by apply streams_lift.
  - by apply (streams_or _ _ id); [apply streams_ingest_update| |].
  - by apply streams_failed_wait.
Qed.

Lemma streams_poll_from readings deadline first ev at_ :
  streams option_lifecycle (poll_run_update_from (T := T) readings deadline first ev at_).
Proof.
  revert first. induction readings as [|now readings IH]; intros first;
    cbn [poll_run_update_from]; [by apply streams_lift|].
  destruct (_ && _); [by apply streams_ret|]. apply streams_bind.
  { apply streams_waiting. }
  intros [[n|]|e| |]; try by apply streams_lift.
  - by apply (streams_or _ _ Some); [apply streams_ingest_update| |].
  - by apply streams_ret.
  - by apply streams_failed_wait.
Qed.

(** ** The moves of a tracker *)

Definition op_tree (op : tracker_op) : option fs_node :=
  match op with NextUpdate _ tree _ | PollUpdate _ _ tree _ _ => Some tree | _ => None end.

(** The directory is as it was before the run. *)
Definition unwritten (before : WorkspaceSnapshot) (tree : fs_node) : Prop :=
  ∃ after, capture (wsn_root before) (is_absolute (wsn_root before)) tree = Ok after ∧
           write_receipt receipt_json before after = Ok None.

(** What lets an event of a terminal state pass: evidence of a write, no leave to
    write, or nothing written. *)
Definition passes (t : CodexRunTracker) (tree : option fs_node) : Prop :=
  tk_provider_write_receipt t = true ∨ tk_before t = None ∨
  ∃ before tr, tk_before t = Some before ∧ tree = Some tr ∧ unwritten before tr.

Definition frame (t t' : CodexRunTracker) : Prop :=
  tk_before t' = tk_before t ∧ tk_evidence t' = tk_evidence t.

Inductive tracker_moves (tree : option fs_node) (t t' : CodexRunTracker)
    : option CodexRunUpdate → Prop :=
| mv_silent :
    tk_stream t' = tk_stream t → tk_pending_terminal t' = tk_pending_terminal t →
    tk_provider_write_receipt t' = tk_provider_write_receipt t → tracker_moves tree t t' None
| mv_evidence u :
    tk_stream t' = tk_stream t → tk_pending_terminal t' = tk_pending_terminal t →
    tk_provider_write_receipt t' =
      (tk_provider_write_receipt t || is_write_receipt (Evidence u)) →
    tracker_moves tree t t' (Some (Evidence u))
| mv_event e :
    follows_stream (tk_stream t) (tk_stream t') (Some e) →
    tk_pending_terminal t' = tk_pending_terminal t →
    tk_provider_write_receipt t' = tk_provider_write_receipt t →
    (terminal_state (ev_state (nc_event e)) = true → passes t tree) →
    tracker_moves tree t t' (Some (Lifecycle e))
| mv_held e receipt :
    follows_stream (tk_stream t) (tk_stream t') (Some e) →
    terminal_state (ev_state (nc_event e)) = true →
    tk_pending_terminal t = None → tk_pending_terminal t' = Some (Lifecycle e) →
    tk_provider_write_receipt t' = tk_provider_write_receipt t →
    tracker_moves tree t t' (Some (Evidence (WriteReceipt receipt)))
| mv_lost e :
    follows_stream (tk_stream t) (tk_stream t') (Some e) →
    terminal_state (ev_state (nc_event e)) = true →
    tk_pending_terminal t' = tk_pending_terminal t → tk_pending_terminal t = None →
    tk_provider_write_receipt t' = tk_provider_write_receipt t → tracker_moves tree t t' None
| mv_released u :
    tk_stream t' = tk_stream t → tk_pending_terminal t = Some u → tk_pending_terminal t' = None →
    tk_provider_write_receipt t' = tk_provider_write_receipt t →
    tracker_moves tree t t' (Some u).

Lemma follows_none s s' : follows_stream s s' None → s' = s.
Proof. by intros [_ ?]. Qed.

(** A loop of the server, on the tracker: the stream and the answer change. *)
Lemma observing_moves {A} f (m : self (observer T) AppServerError A) s :
  streams f m →
  let '(s', r) := observing m s in
  follows_stream (tk_stream (td_tracker s)) (tk_stream (td_tracker s'))
    (match r with Ok a => f a | _ => None end) ∧
  frame (td_tracker s) (td_tracker s') ∧
  tk_pending_terminal (td_tracker s') = tk_pending_terminal (td_tracker s) ∧
  tk_provider_write_receipt (td_tracker s') = tk_provider_write_receipt (td_tracker s).
Proof.
  intros Hm. unfold observing. unself. specialize (Hm (observed s)).
  destruct (m (observed s)) as [o' r]. destruct Hm as [Hf _]. cbn in *.
  unfold put_observed. split_and!; [by destruct r|by destruct (ob_output o')..].
Qed.

(** What the order of updates makes of an update that moved the stream. *)
Lemma order_update_moves tree t0 t u t' r :
  follows_stream (tk_stream t0) (tk_stream t) (lifecycle_of u) →
  tk_pending_terminal t = None → tk_pending_terminal t0 = None →
  tk_provider_write_receipt t = tk_provider_write_receipt t0 → frame t0 t →
  order_update receipt_json tree u t = (t', r) →
  frame t0 t' ∧ tracker_moves (Some tree) t0 t' (match r with Ok u => Some u | _ => None end).
Proof.
  intros Hf Hp Hp0 Hw Hfr. unfold order_update. destruct (is_write_receipt u) eqn:Er.
  { unself. intros [= <- <-]. destruct u as [|[receipt|]]; try done.
    apply follows_none in Hf. split; [done|]. apply mv_evidence; cbn; [done|congruence|].
    by rewrite orb_true_r. }
  unself. destruct u as [e|u]; cbn [is_terminal] in *.
  2:{ cbn. intros [= <- <-]. apply follows_none in Hf. split; [done|].
      apply mv_evidence; [done|congruence|]. by rewrite Er, orb_false_r. }
  destruct (terminal_state (ev_state (nc_event e))) eqn:Et; cbn.
  2:{ intros [= <- <-]. split; [done|]. apply mv_event; [done|congruence|done|congruence]. }
  destruct (tk_provider_write_receipt t) eqn:Ew.
  { intros [= <- <-]. split; [done|]. apply mv_event; [done|congruence|congruence|].
    intros _. left. congruence. }
  destruct Hfr as [Hb Hev]. destruct (tk_before t) as [before|] eqn:Eb.
  2:{ intros [= <- <-]. split; [by split; congruence|].
      apply mv_event; [done|congruence|congruence|]. intros _. right; left. congruence. }
  assert (Hlost : ∀ x, (t, Err x) = (t', r) → frame t0 t' ∧
    tracker_moves (Some tree) t0 t' (match r with Ok u => Some u | _ => None end)).
  { intros x [= <- <-]. split; [by split; congruence|]. eapply mv_lost; try done; congruence. }
  destruct (capture _ _ tree) as [after|x| |] eqn:Ec; cbn.
  2: by apply Hlost.
  - destruct (write_receipt receipt_json before after) as [[receipt|]|x| |] eqn:Ewr; cbn.
    + intros [= <- <-]. split; [by split; cbn; congruence|]. eapply mv_held; cbn; try done; congruence.
    + intros [= <- <-]. split; [by split; congruence|].
      apply mv_event; [done|congruence|congruence|]. intros _. right; right.
      exists before, tree. split; [congruence|]. split; [done|]. by exists after.
    + by apply Hlost.
    + intros [= <- <-]. split; [by split; congruence|]. eapply mv_lost; try done; congruence.
    + intros [= <- <-]. split; [by split; congruence|]. eapply mv_lost; try done; congruence.
  - intros [= <- <-]. split; [by split; congruence|]. eapply mv_lost; try done; congruence.
  - intros [= <- <-]. split; [by split; congruence|]. eapply mv_lost; try done; congruence.
Qed.

(** A call of the server, then an event of the stream that is no end. *)
Lemma event_moves {A B} (m : self (CodexAppServer T) AppServerError A)
    (k : A → self CodexRunStream LifecycleError NormalizedCodexEvent) (h : A → NormalizedCodexEvent → B)
    (f : B → CodexRunUpdate) s :
  (∀ a x, let r := some_event (k a x) in follows_stream x r.1 r.2) →
  (∀ a x e x', k a x = (x', Ok e) → terminal_state (ev_state (nc_event e)) = false) →
  (∀ a e, f (h a e) = Lifecycle e) →
  let r := (a ← with_server m; e ← with_stream (k a); mret (h a e)) s in
  frame (td_tracker s) (td_tracker r.1) ∧
  tracker_moves None (td_tracker s) (td_tracker r.1)
    (match r.2 with Ok b => Some (f b) | _ => None end).
Proof.
  intros Hk Ht Hh. unfold with_server, with_stream, with_tracker. unself.
  destruct (m (td_server s)) as [v [a| | |]]; cbn; try by (split; [done|apply mv_silent]).
  specialize (Hk a (tk_stream (td_tracker s))). pose proof (Ht a (tk_stream (td_tracker s))) as Ht'.
  destruct (k a (tk_stream (td_tracker s))) as [x [e| | |]]; cbn in *;
    try (apply follows_none in Hk; split; [done|by apply mv_silent]).
  rewrite Hh. split; [done|]. apply mv_event; try done. intros Hc.
  by rewrite (Ht' e x eq_refl) in Hc.
Qed.

Lemma event_state st ty at_ ev id payload f n n' e :
  normalizer_event st ty at_ ev id payload f n = (n', Ok e) → ev_state (nc_event e) = st.
Proof. by intros ->%normalizer_event_ok. Qed.
Lemma cancellation_open at_ x e x' :
  cancellation_requested at_ x = (x', Ok e) → terminal_state (ev_state (nc_event e)) = false.
Proof.
  unfold cancellation_requested, in_normalizer, normalizer_cancellation_requested. unself.
  destruct (cs_terminal x); [done|].
  destruct (normalizer_event _ _ _ _ _ _ _ _) as [n [y| | |]] eqn:E; try done.
  intros [= _ <-]. by rewrite (event_state _ _ _ _ _ _ _ _ _ _ E).
Qed.
Lemma recovery_open id at_ x e x' :
  recovery_started id at_ x = (x', Ok e) → terminal_state (ev_state (nc_event e)) = false.
Proof.
  unfold recovery_started, in_normalizer, normalizer_recovery_started. unself.
  destruct (cs_terminal x); [done|]. destruct (blank id); [done|].
  destruct (normalizer_event _ _ _ _ _ _ _ _) as [n [y| | |]] eqn:E; try done.
  intros [= _ <-]. by rewrite (event_state _ _ _ _ _ _ _ _ _ _ E).
Qed.

Lemma next_moves fuel tree at_ s :
  let r := update_of (next_update receipt_json fuel tree at_ s) in
  frame (td_tracker s) (td_tracker r.1) ∧
  tracker_moves (Some tree) (td_tracker s) (td_tracker r.1) r.2.
Proof.
  unfold next_update, with_tracker, update_of. unself.
  destruct (tk_pending_terminal (td_tracker s)) as [u|] eqn:Ep; cbn.
  { split; [done|]. by eapply mv_released. }
  pose proof (observing_moves lifecycle_of _ s
    (streams_next_update fuel (tk_evidence (td_tracker s)) at_)) as Ho.
  destruct (observing _ s) as [s1 [u| | |]]; destruct Ho as (Hf & Hfr & Hp & Hw); cbn;
    try (split; [done|apply follows_none in Hf; by apply mv_silent]).
  destruct (order_update receipt_json tree u (td_tracker s1)) as [t r] eqn:Eo. cbn.
  eapply order_update_moves in Eo; try done; [|congruence]. by destruct r.
Qed.

Lemma poll_moves imax readings tree at_ wait s :
  let r := tracker_step (PollUpdate imax readings tree at_ wait) s in
  frame (td_tracker s) (td_tracker r.1) ∧
  tracker_moves (Some tree) (td_tracker s) (td_tracker r.1) r.2.
Proof.
  cbn [tracker_step]. unfold poll_update, with_tracker. unself.
  destruct (tk_pending_terminal (td_tracker s)) as [u|] eqn:Ep; cbn.
  { split; [done|]. by eapply mv_released. }
  assert (Hs : streams option_lifecycle (poll_run_update_with_output (T := T) imax readings
    (tk_evidence (td_tracker s)) at_ wait)).
  { unfold poll_run_update_with_output. destruct readings; [by apply streams_lift|apply streams_poll_from]. }
  pose proof (observing_moves _ _ s Hs) as Ho.
  destruct (observing _ s) as [s1 [[u|]| | |]]; destruct Ho as (Hf & Hfr & Hp & Hw); cbn in *;
    try (split; [done|apply follows_none in Hf; by apply mv_silent]).
  destruct (order_update receipt_json tree u (td_tracker s1)) as [t r] eqn:Eo. cbn.
  eapply order_update_moves in Eo; try done; [|congruence]. by destruct r.
Qed.

Lemma tracker_step_moves op s :
  frame (td_tracker s) (td_tracker (tracker_step op s).1) ∧
  tracker_moves (op_tree op) (td_tracker s) (td_tracker (tracker_step op s).1) (tracker_step op s).2.
Proof.
  destruct op; cbn [op_tree].
  - apply next_moves.
  - apply poll_moves.
  - apply (event_moves _ (λ _, cancellation_requested occurred_at) (λ _, Lifecycle) id).
    + intros _ x. apply (stream_step_follows (CancellationRequested occurred_at)).
    + intros _ x e x'. apply cancellation_open.
    + done.
  - apply (event_moves _ (λ _, cancellation_requested occurred_at) (λ _, Lifecycle) id).
    + intros _ x. apply (stream_step_follows (CancellationRequested occurred_at)).
    + intros _ x e x'. apply cancellation_open.
    + done.
  - pose proof (event_moves (resume_thread (tk_provider_thread_id (td_tracker s)))
      (λ handle, recovery_started (th_thread_id handle) occurred_at)
      (λ handle e, (handle, Lifecycle e)) snd s
      (λ a x, stream_step_follows (RecoveryStarted (th_thread_id a) occurred_at) x)
      (λ a, recovery_open _ _) (λ _ _, eq_refl)) as Hm.
    cbn zeta in Hm. cbn [tracker_step op_tree].
    change (tracker_resume_thread occurred_at s) with
      ((handle ← with_server (resume_thread (tk_provider_thread_id (td_tracker s)));
        e ← with_stream (recovery_started (th_thread_id handle) occurred_at);
        mret (handle, Lifecycle e)) s).
    destruct ((handle ← with_server _; _) s) as [s' [[]| | |]]; exact Hm.
Qed.

(** ** The contract *)

(** An event that is held back is the end of the stream. *)
Definition tracker_ok (t : CodexRunTracker) : Prop :=
  match tk_pending_terminal t with
  | None => True
  | Some (Lifecycle e) =>
      terminal_state (ev_state (nc_event e)) = true ∧ cs_terminal (tk_stream t) = true ∧
      cn_next_sequence (cs_normalizer (tk_stream t)) = (ev_sequence (nc_event e) + 1)%Z ∧
      (ev_sequence (nc_event e) ≤ U64_MAX)%Z ∧
      ev_run_id (nc_event e) = cn_run_id (cs_normalizer (tk_stream t)) ∧
      ev_contract_version (nc_event e) = AGENT_ADAPTER_CONTRACT_VERSION ∧
      blank (ev_occurred_at (nc_event e)) = false
  | Some (Evidence _) => False
  end.

Definition tracker_next (t : CodexRunTracker) : Z :=
  match tk_pending_terminal t with
  | Some (Lifecycle e) => ev_sequence (nc_event e)
  | _ => cn_next_sequence (cs_normalizer (tk_stream t))
  end.
Definition tracker_closed (t : CodexRunTracker) : bool :=
  cs_terminal (tk_stream t) && match tk_pending_terminal t with None => true | Some _ => false end.

#[export] Instance tracker_source : EventSource (tracked T) tracker_op := {
  src_step op s := let r := tracker_step op s in (r.1, nc_event <$> (r.2 ≫= lifecycle_of));
  src_run s := cn_run_id (cs_normalizer (tk_stream (td_tracker s)));
  src_next s := tracker_next (td_tracker s);
  src_closed s := tracker_closed (td_tracker s);
  src_ok s := tracker_ok (td_tracker s);
}.

Lemma moves_ok tree t t' o : tracker_ok t → tracker_moves tree t t' o → tracker_ok t'.
Proof.
  unfold tracker_ok.
  intros Ht [Hs Hp _|u Hs Hp _|e Hf Hp _ _|e r Hf He _ Hp _|e Hf _ Hp Hn _|u _ _ Hp _]; rewrite Hp.
  - by rewrite Hs.
  - by rewrite Hs.
  - destruct (tk_pending_terminal t) as [[x|]|]; try done. destruct Ht as (_ & Ht & _).
    destruct Hf as [_ (? & _)]. congruence.
  - destruct Hf as [_ (? & ? & ? & ? & ? & ? & ? & ? & ?)]. split_and!; try done; congruence.
  - by rewrite Hn.
  - done.
Qed.

Lemma moves_keep tree t t' o :
  tracker_ok t → tracker_moves tree t t' o →
  cn_run_id (cs_normalizer (tk_stream t')) = cn_run_id (cs_normalizer (tk_stream t)) ∧
  (tracker_closed t = true → tracker_closed t' = true).
Proof.
  unfold tracker_closed.
  intros Ht [Hs Hp _|u Hs Hp _|e Hf Hp _ _|e r Hf He _ Hp _|e Hf _ Hp Hn _|u Hs Hu Hp _]; rewrite Hp.
  - by rewrite Hs.
  - by rewrite Hs.
  - destruct Hf as [_ (Hc & _ & Hr & _)]. by rewrite Hc, Hr.
  - destruct Hf as [_ (Hc & _ & Hr & _)]. by rewrite Hc, Hr.
  - destruct Hf as [_ (Hc & _ & Hr & _)]. by rewrite Hc, Hr.
  - rewrite Hs. split; [done|]. rewrite Hu. by rewrite andb_false_r.
Qed.

Lemma moves_silent tree t t' o :
  tracker_ok t → tracker_moves tree t t' o → o ≫= lifecycle_of = None →
  tracker_next t' = tracker_next t ∨ tracker_closed t' = true.
Proof.
  unfold tracker_next, tracker_closed, tracker_ok.
  intros Ht [Hs Hp _|u Hs Hp _|e Hf Hp _ _|e r Hf He Hn Hp _|e Hf He Hp Hn _|u Hs Hu Hp _] Ho; rewrite Hp.
  - left. by rewrite Hs.
  - left. by rewrite Hs.
  - done.
  - left. rewrite Hn. by destruct Hf as [_ (_ & _ & _ & _ & -> & _)].
  - right. rewrite Hn. destruct Hf as [_ (_ & -> & _)]. by rewrite He.
  - rewrite Hu in Ht. by destruct u.
Qed.

Lemma moves_emit tree t t' u e :
  tracker_ok t → tracker_moves tree t t' (Some u) → lifecycle_of u = Some e →
  tracker_closed t = false ∧ tracker_next t' = (tracker_next t + 1)%Z ∧
  ev_sequence (nc_event e) = tracker_next t ∧ (tracker_next t ≤ U64_MAX)%Z ∧
  ev_run_id (nc_event e) = cn_run_id (cs_normalizer (tk_stream t)) ∧
  ev_contract_version (nc_event e) = AGENT_ADAPTER_CONTRACT_VERSION ∧
  blank (ev_occurred_at (nc_event e)) = false ∧
  (terminal_state (ev_state (nc_event e)) = true → tracker_closed t' = true).
Proof.
  unfold tracker_next, tracker_closed, tracker_ok. intros Ht Hm Hu.
  inversion Hm as [|x Hs Hp|x Hf Hp|x r Hf He Hn Hp| |x Hs Hx Hp]; subst; try done; rewrite Hp.
  - injection Hu as ->. destruct Hf as [_ (Hc & Hc' & Hr & Hn & Hq & Hb & ? & ? & ?)].
    destruct (tk_pending_terminal t) as [[y|]|].
    + destruct Ht as (_ & Ht & _). congruence.
    + done.
    + rewrite Hc, Hc'. split_and!; try done. by intros ->.
  - rewrite Hx in *. destruct u as [y|]; [|done]. injection Hu as ->.
    destruct Ht as (He & Hc & Hn & ? & ? & ? & ?). rewrite Hs, Hc. split_and!; try done.
Qed.

#[export] Instance tracker_source_laws : EventSourceLaws (tracked T) tracker_op.
Proof.
  split; cbn; intros op s s'; destruct (tracker_step_moves op s) as [_ Hm];
    destruct (tracker_step op s) as [s1 o]; cbn in *.
  - intros o' Hok [= <- _]. split; [by eapply moves_ok|by eapply moves_keep].
  - intros Hok [= <- Ho]. eapply moves_silent; [done..|]. by destruct (o ≫= lifecycle_of).
  - intros e Hok [= <- Ho]. destruct o as [u|]; [|done]. cbn in Ho.
    destruct (lifecycle_of u) as [x|] eqn:Hu; [|done]. injection Ho as <-.
    by eapply moves_emit.
Qed.

(** ** Evidence before the end *)

Fixpoint tracker_run (ops : list tracker_op) (s : tracked T) : tracked T * list CodexRunUpdate :=
  match ops with
  | [] => (s, [])
  | op :: ops =>
      let '(s, o) := tracker_step op s in
      let '(s, us) := tracker_run ops s in
      (s, match o with Some u => u :: us | None => us end)
  end.

(** What is known of a write has been reported. *)
Definition reported_writes (past : list CodexRunUpdate) (t : CodexRunTracker) : Prop :=
  tk_provider_write_receipt t = true ∨ is_Some (tk_pending_terminal t) →
  ∃ r, Evidence (WriteReceipt r) ∈ past.

(** After the past, an end comes after a receipt, or with nothing written in the
    directory as its call finds it. *)
Definition ends_after (tree : option fs_node) (before : WorkspaceSnapshot)
    (past : list CodexRunUpdate) (u : CodexRunUpdate) : Prop :=
  is_terminal u = true →
  (∃ r, Evidence (WriteReceipt r) ∈ past) ∨ ∃ tr, tree = Some tr ∧ unwritten before tr.

Lemma moves_report tree t t' o past :
  tracker_moves tree t t' o → reported_writes past t →
  reported_writes (past ++ option_list o) t'.
Proof.
  unfold reported_writes.
  intros [Hs Hp Hw|u Hs Hp Hw|e Hf Hp Hw _|e r Hf He Hn Hp Hw|e Hf He Hp Hn Hw|u Hs Hu Hp Hw] Hr;
    rewrite Hp, Hw; cbn; rewrite ?app_nil_r.
  - exact Hr.
  - intros [[Hx|Hx]%orb_true_iff|Hx].
    + destruct Hr as [r Hr]; [by left|]. exists r. apply elem_of_app. by left.
    + destruct u as [r|]; [|done]. exists r. apply elem_of_app. right. by left.
    + destruct Hr as [r Hr]; [by right|]. exists r. apply elem_of_app. by left.
  - intros Hx. destruct (Hr Hx) as [r Hr']. exists r. apply elem_of_app. by left.
  - intros _. exists r. apply elem_of_app. right. by left.
  - exact Hr.
  - intros [Hx|[? Hx]]; [|done]. destruct Hr as [r Hr]; [by left|]. exists r.
    apply elem_of_app. by left.
Qed.

Lemma moves_end tree t t' u past before :
  tracker_ok t → tracker_moves tree t t' (Some u) → reported_writes past t →
  tk_before t = Some before → ends_after tree before past u.
Proof.
  intros Hok Hm Hr Hb Hu. inversion Hm as [|x Hs Hp|x Hf Hp _ Hpass|x r Hf He Hn Hp| |x Hs Hx Hp];
    subst; try done.
  - destruct (Hpass Hu) as [Hw|[Hn|(b & tr & Hb' & Htr & Hun)]].
    + left. apply Hr. by left.
    + congruence.
    + right. exists tr. split; [done|congruence].
  - left. apply Hr. right. by rewrite Hx.
Qed.

(** What calls leave for the calls after them. *)
Lemma tracker_run_keeps ops s past before :
  tracker_ok (td_tracker s) → reported_writes past (td_tracker s) →
  tk_before (td_tracker s) = Some before →
  let '(s', us) := tracker_run ops s in
  tracker_ok (td_tracker s') ∧ reported_writes (past ++ us) (td_tracker s') ∧
  tk_before (td_tracker s') = Some before.
Proof.
  revert s past. induction ops as [|op ops IH]; intros s past Hok Hr Hb; cbn [tracker_run].
  { by rewrite app_nil_r. }
  destruct (tracker_step_moves op s) as [[Hbf _] Hm].
  destruct (tracker_step op s) as [s1 o] eqn:E. cbn in *. rewrite Hb in Hbf.
  specialize (IH s1 _ (moves_ok _ _ _ _ Hok Hm) (moves_report _ _ _ _ _ Hm Hr) Hbf).
  destruct (tracker_run ops s1) as [s2 us]. destruct o; cbn in *;
    [by rewrite <- app_assoc in IH|by rewrite app_nil_r in IH].
Qed.

(** The end that a call reports after other calls. *)
Lemma tracker_step_ends ops op s s1 us s2 u past before :
  tracker_ok (td_tracker s) → reported_writes past (td_tracker s) →
  tk_before (td_tracker s) = Some before →
  tracker_run ops s = (s1, us) → tracker_step op s1 = (s2, Some u) →
  ends_after (op_tree op) before (past ++ us) u.
Proof.
  intros Hok Hr Hb E Eu. pose proof (tracker_run_keeps ops s past before Hok Hr Hb) as Hk.
  rewrite E in Hk. destruct Hk as (Hok1 & Hr1 & Hb1).
  destruct (tracker_step_moves op s1) as [_ Hm]. rewrite Eu in Hm. by eapply moves_end.
Qed.

End run.

(** ** The collected answer *)

Section answers.
Context `{Json}.

(** The answer after some notifications; one that is refused leaves it. *)
Fixpoint ingest_all (l : list AppServerNotification) (o : CodexFinalOutput) : CodexFinalOutput :=
  match l with [] => o | n :: l => ingest_all l (output_ingest n o).1 end.

(** The completed final answers of the turn that a notification tells. *)
Definition answer_of (thread_id turn_id : string) (n : AppServerNotification) : option string :=
  match answer_text {| fo_provider_thread_id := thread_id; fo_provider_turn_id := turn_id;
                       fo_text := ""; fo_overflowed := false |} n with
  | Ok t => t
  | _ => None
  end.

Definition codex_output_is (thread_id turn_id : string) (l : list string) (o : CodexFinalOutput) : Prop :=
  fo_provider_thread_id o = thread_id ∧ fo_provider_turn_id o = turn_id ∧
  collected FINAL_OUTPUT_MAX_BYTES l (fo_text o) (fo_overflowed o).

Lemma output_ingest_is thread turn l n o :
  codex_output_is thread turn l o →
  codex_output_is thread turn (l ++ option_list (answer_of thread turn n)) (output_ingest n o).1.
Proof.
  intros (<- & <- & Hc). unfold output_ingest. unself.
  change (answer_of (fo_provider_thread_id o) (fo_provider_turn_id o) n)
    with (match answer_text o n with Ok t => t | _ => None end).
  destruct (answer_text o n) as [[text|]| | |]; cbn; rewrite ?app_nil_r; try by split_and!.
  unfold collect_answer. destruct (fo_overflowed o) eqn:Ho.
  - split_and!; try done. rewrite Ho. by apply collected_overflowed.
  - apply (collected_open _ _ _ text) in Hc; [|done].
    destruct (append_if_within_limit _ _ _); by split_and!.
Qed.

Lemma codex_answers_collected thread turn ns l o :
  codex_output_is thread turn l o →
  codex_output_is thread turn (l ++ omap (answer_of thread turn) ns) (ingest_all ns o).
Proof.
  revert l o. induction ns as [|n ns IH]; intros l o Ho; cbn; [by rewrite app_nil_r|].
  apply (output_ingest_is _ _ _ n) in Ho. apply IH in Ho.
  destruct (answer_of thread turn n); cbn in *; [by rewrite <- app_assoc in Ho|by rewrite app_nil_r in Ho].
Qed.

End answers.
