(* ===== verification/CodexStdio.v ===== *)
(** * The pipe to the Codex app server

    Models [bastet-adapter-codex/src/stdio.rs]: requests with numbers, the
    notifications that arrive while a reply is awaited, replies that arrive too
    late, and the deadlines of a wait.  It is built from the writer of
    InputWriter.v and the bounded queue of OutputQueue.v.

    Time is in nanoseconds.  What the clock, the cancellation token, the queue,
    the pipe and the child answer are functions of the number of the question
    (the class [StdioEnvironment]); the state counts the questions and records
    the messages that were taken and
    those that were handed to the writer.  The loops have fuel. *)
From S2P Require Import Prelude Identity OutputQueue InputWriter.
From S2P Require Import Adapter CodexLifecycle CodexEvidence CodexServer.

Section stdio.
Context `{Json}.

(** What [responses.recv_timeout(wait)] finds: a line that the reader handed
    over, [None] for its failure, or no line in time, or the end of the queue. *)
Inductive arrival := Line (line : option string) | Silence | Disconnected.

(** Its answer. *)
Inductive reception :=
| Message (message : Value)
| Broken (e : TransportError)
| NothingYet
| Hangup.

Class StdioEnvironment := {
  instant : nat → Z;
  instant_max : Z;
  token_cancelled : nat → bool;
  queue_failed : nat → bool;
  received : nat → Z → arrival;
  write_observed : nat → write_schedule;
  child_shutdown : nat → Z → bool;
  allocator : Z → bool;
  serialized : Value → serialization;
}.

Record PendingNotifications := {
  pn_items : list (AppServerNotification * Z);
  pn_bytes : Z;
}.
Definition no_notifications : PendingNotifications := {| pn_items := []; pn_bytes := 0 |}.

Definition pop_front (self : PendingNotifications)
    : PendingNotifications * option AppServerNotification :=
  match pn_items self with
  | [] => (self, None)
  | (notification, bytes) :: items =>
      ({| pn_items := items; pn_bytes := pn_bytes self - bytes |}, Some notification)
  end.

Record StdioTransport := {
  sd_output_failed : bool;
  sd_stdin : option ProcessInputWriter;
  sd_reading : bool;                      (* [reader] is there *)
  sd_pending : PendingNotifications;
  sd_next_request_id : Z;
  sd_timeout : Z;
  sd_notification_deadline : option Z;
  sd_abandoned : list Z;
  sd_asked : nat;                         (* questions asked of the environment *)
  sd_heard : list Value;                  (* messages taken from the queue so far *)
  sd_written : list Value;                (* messages handed to the writer so far *)
}.

(** ** Messages *)

Inductive ResponseDisposition :=
| Notification (notification : AppServerNotification)
| Result (result : Value).

Definition decode_notification (message : Value) : outcome TransportError AppServerNotification :=
  fail_if bool_decide (is_Some (value_get message "id")) with TransportDrift;;
  let? method := ok_or (visible (v ← value_get message "method"; as_str v)) TransportDrift in
  let? params := ok_or (value_get message "params") TransportDrift in
  Ok {| no_method := method; no_params := params |}.

Definition decode_response (message : Value) (expected_id : Z)
    : outcome TransportError ResponseDisposition :=
  match value_get message "id" with
  | None => let? n := decode_notification message in Ok (Notification n)
  | Some id =>
      fail_if negb (bool_decide (as_u64 id = Some expected_id)) with TransportDrift;;
      match value_get message "error" with
      | Some error =>
          let? code := ok_or (v ← value_get error "code"; as_i64 v) TransportDrift in
          fail_if match (v ← value_get error "message"; as_str v) with
                  | Some text => is_empty text
                  | None => true
                  end with TransportDrift;;
          Err (RemoteRejected code (code =? -32001)%Z)
      | None =>
          let? result := ok_or (value_get message "result") TransportDrift in
          Ok (Result result)
      end
  end.

(** What the reader's callback makes of a line, [None] for a failure. *)
Definition response_of (line : option string) : outcome TransportError Value :=
  let? line := ok_or line Unavailable in
  ok_or (value_from_str line) TransportDrift.
Definition reception_of (a : arrival) : reception :=
  match a with
  | Line line => match response_of line with
                 | Ok message => Message message
                 | Err e => Broken e
                 | Panic | Diverge => Hangup
                 end
  | Silence => NothingYet
  | Disconnected => Hangup
  end.

Context `{!StdioEnvironment}.

(** Notifications wait, within the bounds of the queue; a result is returned. *)
Definition route_request_message (message : Value) (expected_id : Z)
    : self PendingNotifications TransportError (option Value) :=
  frame ← slift (map_err (λ _, TransportDrift) (encode_json_line allocator (serialized message)));
  let bytes := len frame in
  disposition ← slift (decode_response message expected_id);
  match disposition with
  | Notification notification =>
      self ← sget;
      refuse (Nat.leb OUTPUT_QUEUE_ITEMS (length (pn_items self)))
             || (Z.max 0 (OUTPUT_QUEUE_BYTES - pn_bytes self) <? bytes)%Z with TransportDrift;;
      smodify (λ self, {| pn_items := pn_items self ++ [(notification, bytes)];
                          pn_bytes := pn_bytes self + bytes |}) ;;
      mret None
  | Result result => mret (Some result)
  end.

(** ** The transport *)

Notation method := (self StdioTransport TransportError).

Definition update (s : StdioTransport) (stdin : option ProcessInputWriter)
    (pending : PendingNotifications) (deadline : option Z) (abandoned : list Z) (asked : nat)
    : StdioTransport :=
  {| sd_output_failed := sd_output_failed s; sd_stdin := stdin; sd_reading := sd_reading s;
     sd_pending := pending; sd_next_request_id := sd_next_request_id s;
     sd_timeout := sd_timeout s; sd_notification_deadline := deadline;
     sd_abandoned := abandoned; sd_asked := asked; sd_heard := sd_heard s;
     sd_written := sd_written s |}.

(** A question to the environment. *)
Definition ask {A} (f : nat → A) : method A := λ s,
  (update s (sd_stdin s) (sd_pending s) (sd_notification_deadline s) (sd_abandoned s)
     (S (sd_asked s)), Ok (f (sd_asked s))).
Definition set_stdin (v : option ProcessInputWriter) (s : StdioTransport) : StdioTransport :=
  update s v (sd_pending s) (sd_notification_deadline s) (sd_abandoned s) (sd_asked s).
Definition set_waiting (v : PendingNotifications) (s : StdioTransport) : StdioTransport :=
  update s (sd_stdin s) v (sd_notification_deadline s) (sd_abandoned s) (sd_asked s).
Definition set_deadline (v : Z) (s : StdioTransport) : StdioTransport :=
  update s (sd_stdin s) (sd_pending s) (Some v) (sd_abandoned s) (sd_asked s).
Definition set_abandoned (v : list Z) (s : StdioTransport) : StdioTransport :=
  update s (sd_stdin s) (sd_pending s) (sd_notification_deadline s) v (sd_asked s).
Definition set_request_id (v : Z) (s : StdioTransport) : StdioTransport :=
  {| sd_output_failed := sd_output_failed s; sd_stdin := sd_stdin s; sd_reading := sd_reading s;
     sd_pending := sd_pending s; sd_next_request_id := v; sd_timeout := sd_timeout s;
     sd_notification_deadline := sd_notification_deadline s; sd_abandoned := sd_abandoned s;
     sd_asked := sd_asked s; sd_heard := sd_heard s;
     sd_written := sd_written s |}.
Definition set_failed (s : StdioTransport) : StdioTransport :=
  {| sd_output_failed := true; sd_stdin := sd_stdin s; sd_reading := sd_reading s;
     sd_pending := sd_pending s; sd_next_request_id := sd_next_request_id s;
     sd_timeout := sd_timeout s; sd_notification_deadline := sd_notification_deadline s;
     sd_abandoned := sd_abandoned s; sd_asked := sd_asked s; sd_heard := sd_heard s;
     sd_written := sd_written s |}.
(** [self.stdin.take()] and [self.reader.take()] *)
Definition take_pipes (s : StdioTransport) : StdioTransport :=
  {| sd_output_failed := sd_output_failed s; sd_stdin := None; sd_reading := false;
     sd_pending := sd_pending s; sd_next_request_id := sd_next_request_id s;
     sd_timeout := sd_timeout s; sd_notification_deadline := sd_notification_deadline s;
     sd_abandoned := sd_abandoned s; sd_asked := sd_asked s; sd_heard := sd_heard s;
     sd_written := sd_written s |}.

Definition set_heard (v : list Value) (s : StdioTransport) : StdioTransport :=
  {| sd_output_failed := sd_output_failed s; sd_stdin := sd_stdin s; sd_reading := sd_reading s;
     sd_pending := sd_pending s; sd_next_request_id := sd_next_request_id s;
     sd_timeout := sd_timeout s; sd_notification_deadline := sd_notification_deadline s;
     sd_abandoned := sd_abandoned s; sd_asked := sd_asked s; sd_heard := v;
     sd_written := sd_written s |}.
Definition log_written (message : Value) (s : StdioTransport) : StdioTransport :=
  {| sd_output_failed := sd_output_failed s; sd_stdin := sd_stdin s; sd_reading := sd_reading s;
     sd_pending := sd_pending s; sd_next_request_id := sd_next_request_id s;
     sd_timeout := sd_timeout s; sd_notification_deadline := sd_notification_deadline s;
     sd_abandoned := sd_abandoned s; sd_asked := sd_asked s; sd_heard := sd_heard s;
     sd_written := sd_written s ++ [message] |}.
(** [self.responses.recv_timeout(wait)] *)
Definition recv_timeout (wait : Z) : method reception :=
  r ← ask (λ n, reception_of (received n wait));
  smodify (λ s, match r with Message m => set_heard (sd_heard s ++ [m]) s | _ => s end) ;;
  mret r.

Definition now : method Z := ask instant.
Definition deadline_after (duration : Z) : method Z :=
  now ← now;
  slift (ok_or (checked_add instant_max now duration) TransportDrift).

(** [close_with_grace(grace).map_err(|_| Unavailable)?] *)
Definition close_with_grace (grace : Z) : method unit :=
  smodify take_pipes ;;
  ok ← ask (λ n, child_shutdown n grace);
  refuse negb ok with Unavailable;; mret tt.
(** Tells whether the clean-up succeeded. *)
Definition close_checked : method unit :=
  self ← sget;
  close_with_grace (sd_timeout self).

Definition check_cancelled : method unit :=
  self ← sget;
  failed ← (if sd_output_failed self then mret true else ask queue_failed);
  if failed : bool then close_with_grace 0 ;; slift (Err Unavailable) else
  cancelled ← ask token_cancelled;
  if cancelled : bool then close_with_grace 0 ;; slift (Err TransportCancelled) else
  mret tt.

Definition write_message (message : Value) (deadline : Z) : method unit :=
  check_cancelled ;;
  frame ← slift (map_err (λ _, TransportDrift) (encode_json_line allocator (serialized message)));
  self ← sget;
  stdin ← slift (ok_or (sd_stdin self) Unavailable);
  schedule ← ask write_observed;
  let '(stdin, r) := write_frame_cancellable stdin frame schedule in
  smodify (λ s, log_written message (set_stdin (Some stdin) s)) ;;
  match r with
  | Ok _ => mret tt
  | Err error =>
      close_with_grace 0 ;;
      cancelled ← match error with Interrupted => ask token_cancelled | _ => mret false end;
      slift (Err (if cancelled : bool then TransportCancelled
                  else match error with TimedOut => TransportTimedOut | _ => Unavailable end))
  | Panic => slift Panic
  | Diverge => slift Diverge
  end.

(** 50 milliseconds. *)
Definition SLICE : Z := 50000000.

Fixpoint receive_message (fuel : nat) (deadline : Z) : method Value :=
  match fuel with
  | O => slift Diverge
  | S fuel =>
      check_cancelled ;;
      now ← now;
      refuse (deadline <? now)%Z with TransportTimedOut;;
      r ← recv_timeout (Z.min (deadline - now) SLICE);
      match r with
      | Message message =>
          self ← sget;
          next ← deadline_after (sd_timeout self);
          smodify (set_deadline next) ;;
          mret message
      | Broken e => slift (Err e)
      | NothingYet => receive_message fuel deadline
      | Hangup => check_cancelled ;; slift (Err Unavailable)
      end
  end.

Definition MAX_ABANDONED_REQUESTS : nat := 64.

Definition remember_abandoned_request (request_id : Z) (s : StdioTransport) : StdioTransport :=
  let known := if Nat.eqb (length (sd_abandoned s)) MAX_ABANDONED_REQUESTS
               then tail (sd_abandoned s) else sd_abandoned s in
  set_abandoned (known ++ [request_id]) s.

(** [iter().position(..)] and [remove] *)
Fixpoint remove_first (id : Z) (l : list Z) : list Z :=
  match l with
  | [] => []
  | x :: r => if (x =? id)%Z then r else x :: remove_first id r
  end.

Definition message_id (message : Value) : option Z := v ← value_get message "id"; as_u64 v.

Definition discard_abandoned_response (message : Value) (s : StdioTransport)
    : StdioTransport * bool :=
  match message_id message with
  | None => (s, false)
  | Some id =>
      if existsb (Z.eqb id) (sd_abandoned s)
      then (set_abandoned (remove_first id (sd_abandoned s)) s, true) else (s, false)
  end.
Definition discard (message : Value) : method bool := λ s,
  let '(s, b) := discard_abandoned_response message s in (s, Ok b).

(** The loop of [request_inner] that awaits the reply. *)
Fixpoint await_reply (fuel : nat) (request_id deadline : Z) (abandon_on_timeout : bool)
    : method Value :=
  match fuel with
  | O => slift Diverge
  | S fuel' =>
      r ← attempt (receive_message fuel deadline);
      match r with
      | Err e =>
          if bool_decide (e = TransportTimedOut) && abandon_on_timeout
          then smodify (remember_abandoned_request request_id) ;; slift (Err TransportTimedOut)
          else slift (Err e)
      | Panic => slift Panic
      | Diverge => slift Diverge
      | Ok message =>
          discarded ← discard message;
          if discarded : bool then await_reply fuel' request_id deadline abandon_on_timeout else
          routed ← attempt (zoom sd_pending set_waiting id (route_request_message message request_id));
          (if is_err routed then smodify set_failed ;; close_with_grace 0 else mret tt) ;;
          result ← slift routed;
          match result with
          | Some result => mret result
          | None => await_reply fuel' request_id deadline abandon_on_timeout
          end
      end
  end.

(** [json!({"method": method, "id": request_id, "params": params})] *)
Definition request_message (name : string) (params : Value) (request_id : Z) : Value :=
  json_entries [("method", json_string name); ("id", json_number request_id); ("params", params)].
Definition notice_message (name : string) (params : Value) : Value :=
  json_entries [("method", json_string name); ("params", params)].

Definition request_inner (fuel : nat) (name : string) (params : Value) (max_wait : Z)
    (abandon_on_timeout : bool) : method Value :=
  deadline ← deadline_after max_wait;
  self ← sget;
  let request_id := sd_next_request_id self in
  next ← slift (ok_or (checked_add U64_MAX request_id 1) TransportDrift);
  smodify (set_request_id next) ;;
  write_message (request_message name params request_id) deadline ;;
  await_reply fuel request_id deadline abandon_on_timeout.

Definition stdio_notify (name : string) (params : Value) : method unit :=
  self ← sget;
  deadline ← deadline_after (sd_timeout self);
  write_message (notice_message name params) deadline.

(** The loop of [poll_notification]. *)
Fixpoint await_notification (fuel : nat) (observation_deadline inactivity_deadline : Z)
    : method (option AppServerNotification) :=
  match fuel with
  | O => slift Diverge
  | S fuel =>
      check_cancelled ;;
      at_ ← now;
      let wait := Z.max 0 (Z.min observation_deadline inactivity_deadline - at_) in
      r ← recv_timeout (Z.min wait SLICE);
      match r with
      | Message message =>
          discarded ← discard message;
          if discarded : bool then
            at_ ← now;
            refuse (inactivity_deadline <=? at_)%Z with TransportTimedOut;;
            if (observation_deadline <=? at_)%Z then mret None
            else await_notification fuel observation_deadline inactivity_deadline
          else
            self ← sget;
            next ← deadline_after (sd_timeout self);
            smodify (set_deadline next) ;;
            notification ← slift (decode_notification message);
            mret (Some notification)
      | Broken e => slift (Err e)
      | Hangup => check_cancelled ;; slift (Err Unavailable)
      | NothingYet =>
          at_ ← now;
          refuse (inactivity_deadline <=? at_)%Z with TransportTimedOut;;
          at_ ← now;
          if (observation_deadline <=? at_)%Z then mret None
          else await_notification fuel observation_deadline inactivity_deadline
      end
  end.

(** [poll_notification] when no notification is pending. *)
Definition poll_responses (fuel : nat) (observation_deadline : Z)
    : method (option AppServerNotification) :=
  at_ ← now;
  self ← sget;
  inactivity_deadline ← match sd_notification_deadline self with
    | Some deadline => mret deadline
    | None => deadline ← deadline_after (sd_timeout self);
              smodify (set_deadline deadline) ;; mret deadline
    end;
  refuse (inactivity_deadline <=? at_)%Z with TransportTimedOut;;
  await_notification fuel observation_deadline inactivity_deadline.

Definition stdio_poll_notification (fuel : nat) (max_wait : Z)
    : method (option AppServerNotification) :=
  observation_deadline ← deadline_after max_wait;
  check_cancelled ;;
  self ← sget;
  match pop_front (sd_pending self) with
  | (pending, Some notification) =>
      smodify (set_waiting pending) ;;
      next ← deadline_after (sd_timeout self);
      smodify (set_deadline next) ;;
      mret (Some notification)
  | (_, None) => poll_responses fuel observation_deadline
  end.

Definition stdio_next_notification (fuel : nat) : method AppServerNotification :=
  self ← sget;
  notification ← stdio_poll_notification fuel (sd_timeout self);
  slift (ok_or notification TransportTimedOut).

(** The pipe as a transport of the app server; [fuel] bounds its waits. *)
#[export] Instance stdio_transport (fuel : nat) : AppServerTransport StdioTransport := {
  tr_request name params := self ← sget;
    request_inner fuel name params (sd_timeout self) false;
  tr_request_with_timeout name params max_wait := request_inner fuel name params max_wait true;
  tr_notify := stdio_notify;
  tr_next_notification := stdio_next_notification fuel;
  tr_poll_notification := stdio_poll_notification fuel;
}.

(** ** The start *)

Definition transport_of (timeout : Z) (asked : nat) : StdioTransport :=
  {| sd_output_failed := false;
     sd_stdin := Some {| pw_open := true; pw_poisoned := false |};
     sd_reading := true; sd_pending := no_notifications; sd_next_request_id := 0;
     sd_timeout := timeout; sd_notification_deadline := None; sd_abandoned := [];
     sd_asked := asked; sd_heard := [];
     sd_written := [] |}.

(** The steps that may fail, in order: the launcher's command, the child, its
    stdin, the writer's thread, its stdout and the reader's thread. *)
Definition spawn_with_launcher_and_cancel (timeout : Z) (asked : nat) (steps : list bool)
    : outcome TransportError StdioTransport :=
  fail_if (timeout =? 0)%Z with TransportDrift;;
  fail_if bool_decide (checked_add instant_max (instant asked) timeout = None)
    with TransportDrift;;
  fail_if token_cancelled (S asked) with TransportCancelled;;
  fail_if negb (forallb id steps) with Unavailable;;
  Ok (transport_of timeout (S (S asked))).

End stdio.
