(* ===== verification/AgyProcess.v ===== *)
(** * The process of an Agy run

    Models [bastet-adapter-agy/src/process.rs]: the start of an agent with one
    prompt, the wait for an update with its two deadlines, and the clean-up,
    built from the stream of AgyStream.v, the writer of InputWriter.v, the child
    of ProcessChild.v and the snapshots of Workspace.v.

    Time, the cancellation token and the queue of lines answer as for the pipe of
    CodexStdio.v (the class [StdioEnvironment]); [cleanup] is what a shutdown of
    the child observes.  The directory that a snapshot captures is an argument of
    the call. *)
From S2P Require Import Prelude Identity Workspace WinEncoding InputWriter ProcessChild.
From S2P Require Import Adapter CodexLifecycle CodexServer AgyStream CodexStdio.

Record AgyRunRequest := {
  aq_run_id : RunId;
  aq_model : string;
  aq_effort : option string;
  aq_prompt : string;
  aq_cwd : string;
  aq_read_only : bool;
  aq_timeout : Z;
  aq_conversation_id : option string;
}.

Inductive AgyProcessError :=
| AgyInvalidRequest
| AgyUnavailable
| AgyTimedOut
| AgyStartCancelled
| AgyCleanupUncertain
| AgyStream (e : AgyStreamError)
| AgyWorkspace (e : WorkspaceEvidenceError).

Record AgyProcess := {
  ap_child : OwnedAdapterChild;
  ap_stdin : option ProcessInputWriter;
  ap_reading : bool;                      (* [reader] is open *)
  ap_stream : AgyRunStream;
  ap_timeout : Z;
  ap_inactivity_deadline : Z;
  ap_cancellation_requested : bool;
  ap_pending : option AgyRunUpdate;
  ap_pending_terminal : option AgyRunUpdate;
  ap_before : option WorkspaceSnapshot;
  ap_asked : nat;                         (* questions asked of the environment *)
}.

Definition put_stream (v : AgyRunStream) (s : AgyProcess) : AgyProcess :=
  {| ap_child := ap_child s; ap_stdin := ap_stdin s; ap_reading := ap_reading s;
     ap_stream := v; ap_timeout := ap_timeout s;
     ap_inactivity_deadline := ap_inactivity_deadline s;
     ap_cancellation_requested := ap_cancellation_requested s; ap_pending := ap_pending s;
     ap_pending_terminal := ap_pending_terminal s; ap_before := ap_before s;
     ap_asked := ap_asked s |}.
Definition put_pipes (stdin : option ProcessInputWriter) (reading : bool) (s : AgyProcess)
    : AgyProcess :=
  {| ap_child := ap_child s; ap_stdin := stdin; ap_reading := reading;
     ap_stream := ap_stream s; ap_timeout := ap_timeout s;
     ap_inactivity_deadline := ap_inactivity_deadline s;
     ap_cancellation_requested := ap_cancellation_requested s; ap_pending := ap_pending s;
     ap_pending_terminal := ap_pending_terminal s; ap_before := ap_before s;
     ap_asked := ap_asked s |}.
Definition put_child (v : OwnedAdapterChild) (s : AgyProcess) : AgyProcess :=
  {| ap_child := v; ap_stdin := ap_stdin s; ap_reading := ap_reading s;
     ap_stream := ap_stream s; ap_timeout := ap_timeout s;
     ap_inactivity_deadline := ap_inactivity_deadline s;
     ap_cancellation_requested := ap_cancellation_requested s; ap_pending := ap_pending s;
     ap_pending_terminal := ap_pending_terminal s; ap_before := ap_before s;
     ap_asked := ap_asked s |}.
Definition put_deadline (v : Z) (s : AgyProcess) : AgyProcess :=
  {| ap_child := ap_child s; ap_stdin := ap_stdin s; ap_reading := ap_reading s;
     ap_stream := ap_stream s; ap_timeout := ap_timeout s; ap_inactivity_deadline := v;
     ap_cancellation_requested := ap_cancellation_requested s; ap_pending := ap_pending s;
     ap_pending_terminal := ap_pending_terminal s; ap_before := ap_before s;
     ap_asked := ap_asked s |}.
Definition put_cancellation (s : AgyProcess) : AgyProcess :=
  {| ap_child := ap_child s; ap_stdin := ap_stdin s; ap_reading := ap_reading s;
     ap_stream := ap_stream s; ap_timeout := ap_timeout s;
     ap_inactivity_deadline := ap_inactivity_deadline s; ap_cancellation_requested := true;
     ap_pending := ap_pending s; ap_pending_terminal := ap_pending_terminal s;
     ap_before := ap_before s; ap_asked := ap_asked s |}.
Definition put_pending (pending terminal : option AgyRunUpdate)
    (before : option WorkspaceSnapshot) (s : AgyProcess) : AgyProcess :=
  {| ap_child := ap_child s; ap_stdin := ap_stdin s; ap_reading := ap_reading s;
     ap_stream := ap_stream s; ap_timeout := ap_timeout s;
     ap_inactivity_deadline := ap_inactivity_deadline s;
     ap_cancellation_requested := ap_cancellation_requested s; ap_pending := pending;
     ap_pending_terminal := terminal; ap_before := before; ap_asked := ap_asked s |}.
Definition put_asked (v : nat) (s : AgyProcess) : AgyProcess :=
  {| ap_child := ap_child s; ap_stdin := ap_stdin s; ap_reading := ap_reading s;
     ap_stream := ap_stream s; ap_timeout := ap_timeout s;
     ap_inactivity_deadline := ap_inactivity_deadline s;
     ap_cancellation_requested := ap_cancellation_requested s; ap_pending := ap_pending s;
     ap_pending_terminal := ap_pending_terminal s; ap_before := ap_before s; ap_asked := v |}.

Definition agy_is_terminal (update : AgyRunUpdate) : bool :=
  match update with
  | AgyLifecycle event _ =>
      match ev_state event with
      | RunSucceeded | RunFailed | RunCancelled | RunBlocked | RunUncertain => true
      | _ => false
      end
  | _ => false
  end.

Definition map_input_error (error : io_error) : AgyProcessError :=
  match error with
  | InvalidInput => AgyInvalidRequest
  | TimedOut => AgyTimedOut
  | _ => AgyUnavailable
  end.

Definition conversation_id (self : AgyProcess) : option string :=
  as_conversation_id (ap_stream self).
Definition agy_process_output (self : AgyProcess) : option string :=
  agy_final_output (ap_stream self).

Section process.
Context `{Json} `{!StdioEnvironment} `{Digest} (receipt_json : nat → string)
  (cleanup : nat → Z → shutdown_schedule).

(** ** Updates *)

Notation method := (self AgyProcess AgyProcessError).

Definition inquire {A} (f : nat → A) : method A := λ s,
  (put_asked (S (ap_asked s)) s, Ok (f (ap_asked s))).

(** [terminate] and [reap]: they differ in the grace of the child. *)
Definition close_child (grace : Z) : method unit :=
  self ← sget;
  smodify (put_pipes None (ap_reading self)) ;;
  schedule ← inquire (λ n, cleanup n grace);
  result ← attempt (zoom ap_child put_child (λ _, AgyCleanupUncertain) (shutdown schedule));
  smodify (put_pipes None false) ;;
  slift result.
Definition terminate : method unit := close_child 0.
Definition reap : method unit := close_child 50000000.

Definition agy_stream_call {A} (m : self AgyRunStream AgyStreamError A) : method A :=
  zoom ap_stream put_stream AgyStream m.

Definition order_terminal (tree : fs_node) (terminal : AgyRunUpdate) : method AgyRunUpdate :=
  self ← sget;
  smodify (put_pending (ap_pending self) (ap_pending_terminal self) None) ;;
  match ap_before self with
  | None => mret terminal
  | Some before =>
      after ← slift (map_err AgyWorkspace
                       (capture (wsn_root before) (is_absolute (wsn_root before)) tree));
      receipt ← slift (map_err AgyWorkspace (write_receipt receipt_json before after));
      match receipt with
      | None => mret terminal
      | Some receipt =>
          smodify (put_pending (ap_pending self) (Some terminal) None) ;;
          mret (AgyWriteReceipt receipt)
      end
  end.

(** The loop of [poll_update]. *)
Fixpoint await_update (fuel : nat) (tree : fs_node) (occurred_at : string)
    (observation_deadline : option Z) : method (option AgyRunUpdate) :=
  match fuel with
  | O => slift Diverge
  | S fuel =>
      now ← inquire instant;
      self ← sget;
      if (ap_inactivity_deadline self <=? now)%Z then
        terminate ;;
        terminal ← agy_stream_call (timed_out occurred_at);
        update ← order_terminal tree terminal;
        mret (Some update)
      else if match observation_deadline with
              | Some deadline => (deadline <=? now)%Z
              | None => false
              end then mret None
      else
        let wait := Z.min (match observation_deadline with
                           | Some deadline => Z.max 0 (deadline - now)
                           | None => DURATION_MAX
                           end) (Z.max 0 (ap_inactivity_deadline self - now)) in
        line ← inquire (λ n, received n wait);
        match line with
        | Line (Some line) =>
            now ← inquire instant;
            match checked_add instant_max now (ap_timeout self) with
            | None => terminate ;; slift (Err AgyInvalidRequest)
            | Some deadline =>
                smodify (put_deadline deadline) ;;
                update ← agy_stream_call (consume_line line occurred_at);
                match update with
                | Some update =>
                    if agy_is_terminal update
                    then reap ;; update ← order_terminal tree update; mret (Some update)
                    else mret (Some update)
                | None => await_update fuel tree occurred_at observation_deadline
                end
            end
        | Line None | Disconnected =>
            failed ← inquire queue_failed;
            if failed : bool then terminate ;; slift (Err AgyUnavailable) else
            reap ;;
            self ← sget;
            terminal ← agy_stream_call (if ap_cancellation_requested self
                                        then cancelled occurred_at else crashed occurred_at);
            update ← order_terminal tree terminal;
            mret (Some update)
        | Silence => await_update fuel tree occurred_at observation_deadline
        end
  end.

Definition agy_poll_update (fuel : nat) (tree : fs_node) (occurred_at : string) (max_wait : Z)
    : method (option AgyRunUpdate) :=
  failed ← inquire queue_failed;
  if failed : bool then terminate ;; slift (Err AgyUnavailable) else
  self ← sget;
  match ap_pending self with
  | Some update =>
      smodify (put_pending None (ap_pending_terminal self) (ap_before self)) ;;
      mret (Some update)
  | None =>
      match ap_pending_terminal self with
      | Some update =>
          smodify (put_pending None None (ap_before self)) ;;
          mret (Some update)
      | None =>
          now ← inquire instant;
          await_update fuel tree occurred_at (checked_add instant_max now max_wait)
      end
  end.

(** [wait_for_update]; [polls] bounds its loop. *)
Fixpoint agy_next_update (polls fuel : nat) (tree : fs_node) (occurred_at : string)
    : method AgyRunUpdate :=
  match polls with
  | O => slift Diverge
  | S polls =>
      self ← sget;
      update ← agy_poll_update fuel tree occurred_at (ap_timeout self);
      match update with
      | Some update => mret update
      | None => agy_next_update polls fuel tree occurred_at
      end
  end.

Definition cancel_and_close : method unit := smodify put_cancellation ;; terminate.

Definition agy_request_cancellation (occurred_at : string) : method AgyRunUpdate :=
  update ← agy_stream_call (cancellation_started occurred_at);
  smodify put_cancellation ;;
  terminate ;;
  mret update.

(** ** The start *)

(** What the host answers: whether the executable is a file, what is found at the
    working directory, whether the launcher gives a command, the process that is
    spawned, and whether the threads of the writer and the reader start. *)
Record agy_host := {
  ah_executable : bool;
  ah_tree : fs_node;
  ah_launcher : bool;
  ah_pid : option Z;
  ah_writer : option io_error;
  ah_reader : bool;
}.

(** The endpoints that are acquired on the way. *)
Record agy_startup := {
  au_child : OwnedAdapterChild;
  au_stdin : option ProcessInputWriter;
  au_reading : bool;
  au_asked : nat;
}.
Notation startup := (self agy_startup AgyProcessError).

(** Before the process is spawned. *)
Definition no_child : OwnedAdapterChild :=
  {| oc_child := None; oc_cleanup_failed := false; oc_effects := [] |}.
Definition not_started (asked : nat) : agy_startup :=
  {| au_child := no_child; au_stdin := None; au_reading := false; au_asked := asked |}.

Definition start_child (v : OwnedAdapterChild) (s : agy_startup) : agy_startup :=
  {| au_child := v; au_stdin := au_stdin s; au_reading := au_reading s; au_asked := au_asked s |}.
Definition start_pipes (stdin : option ProcessInputWriter) (reading : bool) (s : agy_startup)
    : agy_startup :=
  {| au_child := au_child s; au_stdin := stdin; au_reading := reading; au_asked := au_asked s |}.
Definition start_ask {A} (f : nat → A) : startup A := λ s,
  ({| au_child := au_child s; au_stdin := au_stdin s; au_reading := au_reading s;
      au_asked := S (au_asked s) |}, Ok (f (au_asked s))).

Definition model_byte (byte : ascii) : bool :=
  ascii_alphanumeric byte
  || bool_decide (byte ∈ ["-"%char; "_"%char; "."%char; "/"%char]).
Definition is_dir (node : fs_node) : bool := match node with FDir _ => true | _ => false end.
Definition as_secs (duration : Z) : Z := duration `div` 1000000000.

Definition validate_request (host : agy_host) (request : AgyRunRequest) : startup unit :=
  refuse negb (ah_executable host) || negb (is_absolute (aq_cwd request))
         || negb (is_dir (ah_tree host)) || blank (aq_prompt request)
         || (aq_timeout request =? 0)%Z with AgyInvalidRequest;;
  now ← start_ask instant;
  refuse bool_decide (checked_add instant_max now (aq_timeout request) = None)
         || (as_secs (aq_timeout request) =? 0)%Z
         || match aq_effort request with
            | Some effort => negb (bool_decide (effort ∈ ["low"; "medium"; "high"]))
            | None => false
            end
         || blank (aq_model request) || (128 <? str_len (aq_model request))%Z
         || negb (forallb model_byte (String.list_ascii_of_string (aq_model request)))
         || option_blank (aq_conversation_id request) with AgyInvalidRequest;;
  mret tt.

(** The arguments of the executable. *)
Definition agy_arguments (request : AgyRunRequest) : list string :=
  ["--input-format"; "stream-json"; "--output-format"; "stream-json"; "--mode";
   (if aq_read_only request then "plan" else "accept-edits"); "--sandbox"; "--add-dir";
   aq_cwd request; "--model"; aq_model request; "--print-timeout";
   pretty.pretty (Z.to_N (as_secs (aq_timeout request))) +:+ "s"]
  ++ match aq_effort request with Some effort => ["--effort"; effort] | None => [] end
  ++ match aq_conversation_id request with Some id => ["--conversation"; id] | None => [] end.

Definition startup_failure {A} (error : AgyProcessError) : startup A :=
  self ← sget;
  smodify (start_pipes (writer_close <$> au_stdin self) false) ;;
  schedule ← start_ask (λ n, cleanup n 0);
  zoom au_child start_child (λ _, AgyCleanupUncertain) (shutdown schedule) ;;
  slift (Err error).

(** The frame that carries the prompt. *)
Definition prompt_frame (request : AgyRunRequest) : outcome AgyProcessError (list byte) :=
  map_err map_input_error (encode_json_line allocator (serialized
    (json_entries [("event", json_string "user");
                   ("message", json_entries [("content", json_string (aq_prompt request))])]))).

(** Up to the running child: its pipes and its threads, or nothing. *)
Definition acquire (host : agy_host) (pid : Z) : startup ProcessInputWriter :=
  smodify (start_child (own_child pid)) ;;
  raw_stdin ← zoom au_child start_child (λ _, AgyUnavailable) take_stdin;
  if negb raw_stdin then startup_failure AgyUnavailable else
  match ah_writer host with
  | Some error => startup_failure (map_input_error error)
  | None =>
      let stdin := {| pw_open := true; pw_poisoned := false |} in
      smodify (start_pipes (Some stdin) false) ;;
      stdout ← zoom au_child start_child (λ _, AgyUnavailable) take_stdout;
      if negb stdout then startup_failure AgyUnavailable else
      if negb (ah_reader host) then startup_failure AgyUnavailable else
      smodify (start_pipes (Some stdin) true) ;;
      mret stdin
  end.

(** The prompt is handed to the child. *)
Definition send_prompt (request : AgyRunRequest) (stdin : ProcessInputWriter)
    (input_frame : list byte) : startup unit :=
  now ← start_ask instant;
  if bool_decide (checked_add instant_max now (aq_timeout request) = None)
  then startup_failure AgyInvalidRequest else
  schedule ← start_ask write_observed;
  let '(stdin, written) := write_frame_cancellable stdin input_frame schedule in
  smodify (start_pipes (Some stdin) true) ;;
  match written with
  | Err error =>
      is_cancelled ← match error with Interrupted => start_ask token_cancelled | _ => mret false end;
      startup_failure (if is_cancelled : bool then AgyStartCancelled else map_input_error error)
  | Ok _ =>
      is_cancelled ← start_ask token_cancelled;
      if is_cancelled : bool then startup_failure AgyStartCancelled else mret tt
  | Panic => slift Panic
  | Diverge => slift Diverge
  end.

(** The stream of the run, with the event of a resumed one. *)
Definition open_stream (request : AgyRunRequest)
    : outcome AgyProcessError (AgyRunStream * option AgyRunUpdate) :=
  match aq_conversation_id request with
  | None => Ok (agy_new (aq_run_id request), None)
  | Some conversation_id =>
      let? stream := map_err AgyStream (agy_resuming (aq_run_id request) conversation_id) in
      let '(stream, update) := agy_recovery_started "locally-observed" stream in
      let? update := map_err AgyStream update in
      Ok (stream, Some update)
  end.

Definition agy_spawn (host : agy_host) (request : AgyRunRequest) : startup AgyProcess :=
  validate_request host request ;;
  is_cancelled ← start_ask token_cancelled;
  refuse is_cancelled with AgyStartCancelled;;
  input_frame ← slift (prompt_frame request);
  before ← (if aq_read_only request then mret None else
            before ← slift (map_err AgyWorkspace
              (capture (aq_cwd request) (is_absolute (aq_cwd request)) (ah_tree host)));
            mret (Some before));
  refuse negb (ah_launcher host) with AgyUnavailable;;
  is_cancelled ← start_ask token_cancelled;
  refuse is_cancelled with AgyStartCancelled;;
  pid ← slift (ok_or (ah_pid host) AgyUnavailable);
  stdin ← acquire host pid;
  send_prompt request stdin input_frame ;;
  match open_stream request with
  | Err error => startup_failure error
  | Ok (stream, pending) =>
      now ← start_ask instant;
      match checked_add instant_max now (aq_timeout request) with
      | None => startup_failure AgyInvalidRequest
      | Some inactivity_deadline =>
          self ← sget;
          mret {| ap_child := au_child self; ap_stdin := au_stdin self; ap_reading := true;
                  ap_stream := stream; ap_timeout := aq_timeout request;
                  ap_inactivity_deadline := inactivity_deadline;
                  ap_cancellation_requested := false; ap_pending := pending;
                  ap_pending_terminal := None; ap_before := before;
                  ap_asked := au_asked self |}
      end
  | Panic => slift Panic
  | Diverge => slift Diverge
  end.

End process.
