(* ===== verification/CodexStdioFacts.v ===== *)
(** * The pipe to the Codex app server: facts

    Notifications keep their order within bounds, replies belong to their
    requests, a failed transport stays failed, and waits end. *)
From S2P Require Import Prelude Identity OutputQueue InputWriter.
From S2P Require Import Adapter CodexLifecycle CodexEvidence CodexServer CodexStdio.

Section stdio.
Context `{Json} `{!StdioEnvironment}.
Notation method := (self StdioTransport TransportError).

(** ** Parts that leave the notifications alone *)

(** From [s] to [s'] the messages [l] were taken and nothing else was done to
    what the calls keep. *)
Record heard_io (l : list Value) (s s' : StdioTransport) : Prop := {
  io_heard : sd_heard s' = sd_heard s ++ l;
  io_pending : sd_pending s' = sd_pending s;
  io_failed : sd_output_failed s' = sd_output_failed s;
  io_next : sd_next_request_id s' = sd_next_request_id s;
  io_timeout : sd_timeout s' = sd_timeout s;
  io_asked : sd_asked s ≤ sd_asked s';
}.
Notation same_io := (heard_io []).
Lemma heard_io_trans l1 l2 s1 s2 s3 : heard_io l1 s1 s2 → heard_io l2 s2 s3 → heard_io (l1 ++ l2) s1 s3.
Proof. intros [] []. split; try congruence; [|lia]. rewrite app_assoc. congruence. Qed.
#[local] Instance same_io_refl : Reflexive same_io.
Proof. intros s; split; auto. by rewrite app_nil_r. Qed.
#[local] Instance same_io_trans : Transitive same_io.
Proof. intros s1 s2 s3 H1 H2. exact (heard_io_trans [] [] _ _ _ H1 H2). Qed.

Lemma app_nil_r_eq {A} (l : list A) : l = l ++ [].
Proof. by rewrite app_nil_r. Qed.

(** The methods that move the state along a relation, whatever they return. *)
Definition along (R : relation StdioTransport) {A} (m : method A) : Prop := ∀ s, R s (m s).1.

Lemma along_ret R `{!PreOrder R} {A} (a : A) : along R (mret a).
Proof. by intros s. Qed.
Lemma along_get R `{!PreOrder R} : along R sget.
Proof. by intros s. Qed.
Lemma along_lift R `{!PreOrder R} {A} (o : outcome TransportError A) : along R (slift o).
Proof. by intros s. Qed.
Lemma along_bind R `{!PreOrder R} {A B} (m : method A) (k : A → method B) :
  along R m → (∀ a, along R (k a)) → along R (m ≫= k).
Proof.
  intros Hm Hk s. unself. specialize (Hm s). destruct (m s) as [s1 [a| | |]]; try done.
  etrans; [exact Hm|apply Hk].
Qed.
Lemma along_modify (R : relation StdioTransport) f : (∀ s, R s (f s)) → along R (smodify f).
Proof. intros Hf s. apply Hf. Qed.

#[local] Instance same_io_preorder : PreOrder same_io.
Proof. split; apply _. Qed.
Notation quiet := (along same_io).
Lemma quiet_ask {A} (f : nat → A) : quiet (ask f).
Proof. intros s. split; cbn; auto. by rewrite app_nil_r. Qed.

(** What was written and the next number. *)
Definition same_log (s s' : StdioTransport) : Prop :=
  sd_written s' = sd_written s ∧ sd_next_request_id s' = sd_next_request_id s.
#[local] Instance same_log_preorder : PreOrder same_log.
Proof. split; [done|]. intros x y z [] []. split; congruence. Qed.
Notation unlogged := (along same_log).
Lemma unlogged_ask {A} (f : nat → A) : unlogged (ask f).
Proof. by intros s. Qed.

Ltac solve_along :=
  repeat first
    [ lazymatch goal with
      | |- along _ (mret _) => apply along_ret; apply _
      | |- along _ sget => apply along_get; apply _
      | |- along _ (slift _) => apply along_lift; apply _
      | |- along same_io (ask _) => apply quiet_ask
      | |- along same_log (ask _) => apply unlogged_ask
      | |- along _ (smodify _) => apply along_modify; intros; split; cbn; auto using app_nil_r_eq
      | |- along _ (_ ≫= _) => apply along_bind; [apply _| |intros]
      | |- along _ (if ?b then _ else _) => destruct b
      | |- along _ (match ?x with _ => _ end) => destruct x
      end
    | solve [auto] ].

Lemma quiet_now : quiet now.
Proof. apply quiet_ask. Qed.
Lemma quiet_deadline d : quiet (deadline_after d).
Proof. unfold deadline_after, now. solve_along. Qed.
Lemma quiet_close g : quiet (close_with_grace g).
Proof. unfold close_with_grace. solve_along. Qed.
#[local] Hint Resolve quiet_now quiet_deadline quiet_close : core.
Lemma quiet_check : quiet check_cancelled.
Proof. unfold check_cancelled. solve_along. Qed.
#[local] Hint Resolve quiet_check : core.
Lemma quiet_write m d : quiet (write_message m d).
Proof. unfold write_message. solve_along. Qed.
#[local] Hint Resolve quiet_write : core.


Lemma quiet_discard m : quiet (discard m).
Proof.
  intros s. unfold discard, discard_abandoned_response.
  repeat case_match; simplify_eq; split; cbn; auto using app_nil_r_eq.
Qed.
#[local] Hint Resolve quiet_discard : core.

(** ** Messages in hand *)

Definition note_of (message : Value) : option AppServerNotification :=
  match decode_notification message with Ok n => Some n | _ => None end.

(** The results that leave the exchange as the messages made it. *)
Definition orderly {A} (r : outcome TransportError A) : Prop :=
  match r with Err TransportDrift | Err Unavailable | Panic | Diverge => False | _ => True end.

(** With the messages [hand] in hand, [m] takes more, and returns [a] with
    messages as [h a] in hand. *)
Definition hears {A} (hand : list Value) (m : method A) (h : A → list Value → Prop) : Prop :=
  ∀ s, let '(s', r) := m s in ∃ l, heard_io l s s' ∧
    match r with
    | Ok a => ∃ l', h a l' ∧ l' ⊆ hand ++ l ∧ omap note_of (hand ++ l) = omap note_of l'
    | _ => orderly r → omap note_of (hand ++ l) = []
    end.
Notation holds l := (λ _ l', l' = l).

Lemma hears_bind {A B} hand (m : method A) (k : A → method B) h h' :
  hears hand m h → (∀ a l, h a l → hears l (k a) h') → hears hand (m ≫= k) h'.
Proof.
  intros Hm Hk s. unself. specialize (Hm s). destruct (m s) as [s1 [a| | |]]; try done.
  destruct Hm as (l1 & H1 & l' & Ha & Hin & Hn). specialize (Hk a l' Ha s1).
  destruct (k a s1) as [s2 r]. destruct Hk as (l2 & H2 & Hr). exists (l1 ++ l2).
  split; [exact (heard_io_trans _ _ _ _ _ H1 H2)|].
  rewrite app_assoc, (omap_app note_of _ l2), Hn, <- (omap_app note_of _ l2).
  destruct r; [|done..]. destruct Hr as (l'' & ? & ? & ?). exists l''. split_and!; [done| |done].
  set_solver.
Qed.
Lemma hears_sure {A} hand (m : method A) :
  quiet m → (∀ s, match (m s).2 with Ok _ => True | r => orderly r → hand = [] end) →
  hears hand m (holds hand).
Proof.
  intros Hm Hs s. specialize (Hm s). specialize (Hs s). destruct (m s) as [s1 r]. exists [].
  rewrite app_nil_r. split; [done|]. destruct r; [by exists hand|..]; by intros ->%Hs.
Qed.
Lemma hears_quiet {A} (m : method A) : quiet m → hears [] m (holds []).
Proof. intros Hm. apply hears_sure; [done|]. intros s. by destruct (m s).2. Qed.
Lemma hears_ret {A} (a : A) hand (h : A → list Value → Prop) : h a hand → hears hand (mret a) h.
Proof. intros Hh s. exists []. rewrite app_nil_r. split; [by apply same_io_refl|by exists hand]. Qed.
Lemma hears_stop {A} hand (r : outcome TransportError A) h :
  (∀ a, r ≠ Ok a) → (orderly r → omap note_of hand = []) → hears hand (slift r) h.
Proof.
  intros Hr Ho s. exists []. rewrite app_nil_r. split; [by apply same_io_refl|].
  destruct r; [by destruct (Hr a)|done..].
Qed.
Lemma hears_recv w :
  hears [] (recv_timeout w) (λ r l, match r with Message m => l = [m] | _ => l = [] end).
Proof.
  intros s. unfold recv_timeout. unself. destruct (reception_of _) as [m| | |]; cbn.
  - exists [m]. split; [split; cbn; auto|by exists [m]].
  - exists []. split; [split; cbn; auto using app_nil_r_eq|by exists []].
  - exists []. split; [split; cbn; auto using app_nil_r_eq|by exists []].
  - exists []. split; [split; cbn; auto using app_nil_r_eq|by exists []].
Qed.
Lemma hears_modify hand f : quiet (smodify f) → hears hand (smodify f) (holds hand).
Proof. intros Hf. by apply hears_sure. Qed.
Lemma hears_get hand : hears hand sget (holds hand).
Proof. apply hears_sure; [apply (along_get same_io)|done]. Qed.
Lemma hears_deadline hand d : hears hand (deadline_after d) (holds hand).
Proof.
  apply hears_sure; [auto|]. intros s. unfold deadline_after, now. unself.
  destruct (checked_add _ _ _); cbn; tauto.
Qed.
Lemma quiet_set_deadline d : quiet (smodify (set_deadline d)).
Proof. apply along_modify. intros. split; cbn; auto using app_nil_r_eq. Qed.
#[local] Hint Resolve hears_deadline hears_modify hears_get quiet_set_deadline : core.

(** The next step of a method that holds what its parts leave in hand. *)
Ltac hear := eapply hears_bind; [solve [auto using hears_quiet, hears_recv]|].
Ltac hear_next := hear; intros ? ? ->; cbn beta.

Lemma hears_receive fuel dl : hears [] (receive_message fuel dl) (λ m l, l = [m]).
Proof.
  induction fuel as [|fuel IH]; cbn [receive_message]; [by apply hears_stop|].
  hear_next. hear. intros at_ ? ->. destruct (dl <? at_)%Z; [by apply hears_stop|].
  hear. intros [m|e| |] ? ->; [|by apply hears_stop|exact IH|].
  - do 3 hear_next. by apply hears_ret.
  - hear_next. by apply hears_stop.
Qed.

Lemma note_of_id m : message_id m ≠ None → note_of m = None.
Proof.
  unfold message_id, note_of, decode_notification. destruct (value_get m "id"); [|done].
  by intros _.
Qed.
Lemma discard_id m s : (discard m s).2 = Ok true → note_of m = None.
Proof.
  unfold discard, discard_abandoned_response. intros Hd. apply note_of_id. by destruct (message_id m).
Qed.

Lemma hears_discard m :
  hears [m] (discard m) (λ b l, if b then l = [] else l = [m]).
Proof.
  intros s. pose proof (quiet_discard m s) as Hq. pose proof (discard_id m s) as Hd.
  destruct (discard m s) as [s1 r] eqn:E. exists []. split; [done|].
  unfold discard in E. destruct (discard_abandoned_response m s) as [s2 b]. simplify_eq.
  destruct b; [|by exists [m]]. exists []. split_and!; [done|set_solver|]. cbn. by rewrite (Hd eq_refl).
Qed.

Lemma decode_orderly m :
  match decode_notification m with Ok _ => True | r => ¬ orderly r end.
Proof.
  unfold decode_notification. destruct (bool_decide _); cbn; [tauto|].
  destruct (visible _); cbn; [|tauto]. destruct (value_get m "params"); cbn; tauto.
Qed.
Lemma hears_decode m :
  hears [m] (slift (decode_notification m)) (λ n l, l = [m] ∧ note_of m = Some n).
Proof.
  unfold note_of. pose proof (decode_orderly m) as Ho.
  destruct (decode_notification m) as [n|e| |] eqn:E; [by apply (hears_ret n [m])|..];
    by apply hears_stop; [|intros ?%Ho].
Qed.

Lemma hears_await fuel od dl :
  hears [] (await_notification fuel od dl) (λ o l, omap note_of l = option_list o).
Proof.
  induction fuel as [|fuel IH]; cbn [await_notification]; [by apply hears_stop|].
  hear_next. hear. intros at_ ? ->. hear. intros [m|e| |] l Hl; subst l.
  - eapply hears_bind; [apply hears_discard|]. intros [] ? ->.
    + hear. intros at2 ? ->. destruct (dl <=? at2)%Z; [by apply hears_stop|].
      destruct (od <=? at2)%Z; [by apply hears_ret|exact IH].
    + do 3 hear_next. eapply hears_bind; [apply hears_decode|]. intros n ? [-> Hn].
      apply hears_ret. cbn. by rewrite Hn.
  - by apply hears_stop.
  - hear. intros at2 ? ->. destruct (dl <=? at2)%Z; [by apply hears_stop|].
    hear. intros at3 ? ->. destruct (od <=? at3)%Z; [by apply hears_ret|exact IH].
  - hear_next. by apply hears_stop.
Qed.

(** ** Calls *)

Inductive stdio_call :=
| Request (name : string) (params : Value)
| RequestWithin (name : string) (params : Value) (max_wait : Z)
| Notify (name : string) (params : Value)
| NextNotification
| PollNotification (max_wait : Z)
| Close.

(** What a call returns: the result of a request, or a notification. *)
Inductive answer := Reply (result : Value) | Delivered (n : AppServerNotification) | Nothing.

Definition stdio_step (fuel : nat) (call : stdio_call) : method answer :=
  match call with
  | Request name params => r ← tr_request (AppServerTransport := stdio_transport fuel) name params; mret (Reply r)
  | RequestWithin name params wait =>
      r ← tr_request_with_timeout (AppServerTransport := stdio_transport fuel) name params wait; mret (Reply r)
  | Notify name params =>
      tr_notify (AppServerTransport := stdio_transport fuel) name params ;; mret Nothing
  | NextNotification => n ← tr_next_notification (AppServerTransport := stdio_transport fuel); mret (Delivered n)
  | PollNotification wait =>
      n ← tr_poll_notification (AppServerTransport := stdio_transport fuel) wait;
      mret match n with Some n => Delivered n | None => Nothing end
  | Close => close_checked ;; mret Nothing
  end.

Definition delivered (a : outcome TransportError answer) : list AppServerNotification :=
  match a with Ok (Delivered n) => [n] | _ => [] end.
Definition waiting (s : StdioTransport) : list AppServerNotification := map fst (pn_items (sd_pending s)).

Definition total (l : list Z) : Z := foldr Z.add 0%Z l.
Record pending_ok (p : PendingNotifications) : Prop := {
  po_sum : pn_bytes p = total (map snd (pn_items p));
  po_sizes : Forall (λ i, 0 ≤ i.2)%Z (pn_items p);
  po_items : length (pn_items p) ≤ OUTPUT_QUEUE_ITEMS;
  po_bytes : (pn_bytes p ≤ OUTPUT_QUEUE_BYTES)%Z;
}.

(** What every call does to the messages and the notifications. *)
Record exchanged {A} (new : list Value) (s s' : StdioTransport) (d : list AppServerNotification)
    (r : outcome TransportError A) : Prop := {
  ex_heard : sd_heard s' = sd_heard s ++ new;
  ex_failed : sd_output_failed s = true → sd_output_failed s' = true;
  ex_timeout : sd_timeout s' = sd_timeout s;
  ex_next : (sd_next_request_id s ≤ sd_next_request_id s')%Z;
  ex_pending : pending_ok (sd_pending s) → pending_ok (sd_pending s');
  ex_order : orderly r → waiting s ++ omap note_of new = d ++ waiting s';
}.

Lemma exchanged_io {A} new s s' d (r : outcome TransportError A) :
  heard_io new s s' → (orderly r → waiting s ++ omap note_of new = d ++ waiting s) →
  exchanged new s s' d r.
Proof.
  intros [] Hr. split; [done|by intros <-|done|lia|by rewrite io_pending0|].
  intros Ho. rewrite (Hr Ho). unfold waiting. by rewrite io_pending0.
Qed.
Lemma exchanged_after {A B} l new s s1 s2 d (r0 : outcome TransportError B) (r : outcome TransportError A) :
  exchanged l s s1 [] r0 → (orderly r → orderly r0) → exchanged new s1 s2 d r →
  exchanged (l ++ new) s s2 d r.
Proof.
  intros [] Ho []. split; auto; try congruence; [|lia|].
  - rewrite app_assoc. congruence.
  - intros Hr. rewrite omap_app, app_assoc, (ex_order0 (Ho Hr)). auto.
Qed.

Lemma total_app l1 l2 : total (l1 ++ l2) = (total l1 + total l2)%Z.
Proof. unfold total. induction l1; cbn; lia. Qed.

Lemma no_notifications_ok : pending_ok no_notifications.
Proof. split; [done|constructor|cbn; unfold OUTPUT_QUEUE_ITEMS; lia|done]. Qed.
Lemma push_ok p n bytes :
  pending_ok p → (0 ≤ bytes)%Z →
  Nat.leb OUTPUT_QUEUE_ITEMS (length (pn_items p))
    || (Z.max 0 (OUTPUT_QUEUE_BYTES - pn_bytes p) <? bytes)%Z = false →
  pending_ok {| pn_items := pn_items p ++ [(n, bytes)]; pn_bytes := pn_bytes p + bytes |}.
Proof.
  intros [] Hb [Hl Hm]%orb_false_iff. apply Nat.leb_gt in Hl. apply Z.ltb_ge in Hm.
  split; cbn.
  - rewrite map_app, total_app, po_sum0. cbn. lia.
  - apply Forall_app. split; [done|]. by repeat constructor.
  - rewrite length_app. cbn. lia.
  - lia.
Qed.
Lemma pop_ok p p' n :
  pending_ok p → pop_front p = (p', Some n) →
  pending_ok p' ∧ map fst (pn_items p) = n :: map fst (pn_items p').
Proof.
  unfold pop_front. intros [Hs Hz Hi Hb] E. destruct (pn_items p) as [|[m b] items]; [done|].
  simplify_eq. apply Forall_cons in Hz as [Hz Hzs]. cbn in *. split; [split; cbn|done]; [lia|done|lia|lia].
Qed.

(** ** The reply of a request *)

Definition replies (id : Z) (v m : Value) : Prop :=
  message_id m = Some id ∧ value_get m "error" = None ∧ value_get m "result" = Some v.

Definition routes (m : Value) (id : Z) (p p' : PendingNotifications)
    (r : outcome TransportError (option Value)) : Prop :=
  match r with
  | Ok None => ∃ n bytes, note_of m = Some n ∧ (0 ≤ bytes)%Z ∧
      Nat.leb OUTPUT_QUEUE_ITEMS (length (pn_items p))
        || (Z.max 0 (OUTPUT_QUEUE_BYTES - pn_bytes p) <? bytes)%Z = false ∧
      p' = {| pn_items := pn_items p ++ [(n, bytes)]; pn_bytes := pn_bytes p + bytes |}
  | Ok (Some v) => p' = p ∧ replies id v m
  | _ => p' = p ∧ (orderly r → message_id m ≠ None)
  end.

Lemma routed m id p : routes m id p (route_request_message m id p).1 (route_request_message m id p).2.
Proof.
  unfold route_request_message. unself.
  destruct (encode_json_line allocator (serialized m)) as [frame|e| |]; cbn; try (by split).
  unfold decode_response, note_of, message_id. destruct (value_get m "id") as [v|] eqn:Ei.
  - destruct (bool_decide_reflect (as_u64 v = Some id)) as [Hv|]; cbn; [|by split].
    destruct (value_get m "error") as [error|] eqn:Ee.
    + destruct (value_get error "code" ≫= as_i64); cbn; [|by split].
      match goal with |- context [if ?b then Err _ else _] => destruct b end; cbn; [by split|].
      split; [done|]. intros _. unfold message_id. rewrite Ei. cbn. by rewrite Hv.
    + destruct (value_get m "result") as [result|] eqn:Er; cbn; [|by split].
      split; [done|]. unfold replies, message_id. by rewrite Ei, Ee, Er.
  - destruct (decode_notification m) as [n|e| |] eqn:En; cbn.
    + destruct (_ || _) eqn:Hroom; cbn; [by split|].
      exists n, (len frame). unfold note_of. rewrite En. split_and!; [done|unfold len; lia|done|done].
    + split; [done|]. pose proof (decode_orderly m) as Ho. by rewrite En in Ho.
    + by split.
    + by split.
Qed.

(** A request that returns was answered by a message with its number. *)
Definition answered (id : Z) (new : list Value) (r : outcome TransportError Value) : Prop :=
  match r with Ok v => ∃ m, m ∈ new ∧ replies id v m | _ => True end.

Lemma replied_note id v m : replies id v m → note_of m = None.
Proof. intros (Hi & _). apply note_of_id. by rewrite Hi. Qed.

Lemma exchanged_same {A} l s s1 s2 d (r : outcome TransportError A) :
  same_io s1 s2 → exchanged l s s1 d r → exchanged l s s2 d r.
Proof.
  intros [] []. rewrite app_nil_r in io_heard0. unfold waiting in *.
  split; [congruence|rewrite io_failed0; auto|congruence|lia|by rewrite io_pending0|].
  unfold waiting. by rewrite io_pending0.
Qed.
Lemma exchanged_failed {A} l s s1 d (r : outcome TransportError A) :
  exchanged l s s1 d r → exchanged l s (set_failed s1) d r.
Proof. intros []. split; auto. Qed.
Lemma discard_keeps m s s' : discard_abandoned_response m s = (s', false) → s' = s.
Proof. unfold discard_abandoned_response. intros. repeat case_match; by simplify_eq. Qed.
Lemma close_result g s : (close_with_grace g s).2 = Ok tt ∨ (close_with_grace g s).2 = Err Unavailable.
Proof. unfold close_with_grace. unself. destruct (child_shutdown _ _); auto. Qed.

(** The state after a message was routed. *)
Lemma routed_exchanges {A} l m id s s1 (r : outcome TransportError A) :
  heard_io l s s1 → omap note_of l = omap note_of [m] →
  let '(p', r1) := route_request_message m id (sd_pending s1) in
  (orderly r → orderly r1) → exchanged l s (set_waiting p' s1) [] r.
Proof.
  intros [] Hn. pose proof (routed m id (sd_pending s1)) as Hr. destruct (route_request_message _ _ _) as [p' r1].
  intros Ho. cbn in Hr. rewrite io_pending0 in Hr.
  assert (Hsame : p' = sd_pending s → (orderly r → note_of m = None) → exchanged l s (set_waiting p' s1) [] r).
  { intros -> Hm. split; cbn; auto; [congruence|lia|]. intros Hor. rewrite Hn. cbn. rewrite (Hm Hor).
    by rewrite app_nil_r. }
  destruct r1 as [[v|]|e| |].
  - destruct Hr as [-> Hv]. apply Hsame; [done|]. intros _. by eapply replied_note.
  - destruct Hr as (n & bytes & Hm & Hb & Hroom & ->). split; cbn; auto; [congruence|lia| |].
    + intros Hp. by apply push_ok.
    + intros _. unfold waiting. cbn. rewrite Hn, map_app. cbn. by rewrite Hm.
  - destruct Hr as [-> Hm]. apply Hsame; [done|]. intros Hor. apply note_of_id, Hm, Ho, Hor.
  - destruct Hr as [-> Hm]. apply Hsame; [done|]. by intros Hor%Ho.
  - destruct Hr as [-> Hm]. apply Hsame; [done|]. by intros Hor%Ho.
Qed.

Lemma await_exchanges fuel id dl b s :
  let '(s', r) := await_reply fuel id dl b s in
  ∃ new, exchanged new s s' [] r ∧ answered id new r.
Proof.
  revert s. induction fuel as [|fuel IH]; intros s.
  { cbn. exists []. split; [|done]. apply exchanged_io; [apply same_io_refl|done]. }
  cbn [await_reply]. pose proof (hears_receive (S fuel) dl) as Hr. revert Hr.
  generalize (receive_message (S fuel) dl). intros receive Hr. specialize (Hr s). unfold attempt. unself.
  destruct (receive s) as [s1 r1]. destruct Hr as (l & Hio & Hr). cbn [app] in Hr.
  destruct r1 as [m|e| |].
  - destruct Hr as (? & -> & Hin & Hn).
    assert (Hagain : ∀ s2, exchanged l s s2 [] (Ok tt : outcome TransportError unit) →
      let '(s', r) := await_reply fuel id dl b s2 in ∃ new, exchanged new s s' [] r ∧ answered id new r).
    { intros s2 H2. specialize (IH s2). destruct (await_reply fuel id dl b s2) as [s' r].
      destruct IH as (new & Hex & Ha). exists (l ++ new). split; [by eapply exchanged_after|].
      destruct r; [|done..]. destruct Ha as (m' & ? & ?). exists m'. split; [set_solver|done]. }
    pose proof (quiet_discard m s1) as Hq. pose proof (discard_id m s1) as Hd. unfold discard in *.
    destruct (discard_abandoned_response m s1) as [s2 [|]] eqn:Ed; cbn in *.
    + apply Hagain. apply exchanged_io.
      * rewrite <- (app_nil_r l). by eapply heard_io_trans.
      * intros _. rewrite Hn. cbn. by rewrite (Hd eq_refl), app_nil_r.
    + pose proof (routed m id (sd_pending s2)) as Hr.
      pose proof (λ A, routed_exchanges (A := A) l m id s s2) as Hro.
      apply discard_keeps in Ed as ->.
      destruct (route_request_message m id (sd_pending s1)) as [p' r1]; cbn in *.
      destruct r1 as [[v|]|e| |]; cbn.
      * exists l. split; [apply Hro; auto|]. exists m. split; [set_solver|]. by destruct Hr.
      * apply Hagain, Hro; auto.
      * pose proof (close_result 0 (set_failed (set_waiting p' s1))) as Hc.
        pose proof (quiet_close 0 (set_failed (set_waiting p' s1))) as Hs.
        destruct (close_with_grace 0 _) as [s3 rc]; cbn in *.
        destruct Hc as [-> | ->]; exists l; (split; [|done]);
          (eapply exchanged_same; [exact Hs|]; apply exchanged_failed, Hro; cbn; tauto).
      * exists l. split; [apply Hro; auto|done].
      * exists l. split; [apply Hro; auto|done].
  - assert (He : exchanged l s s1 [] (Err e : outcome TransportError Value)).
    { apply exchanged_io; [done|]. intros Ho. by rewrite (Hr Ho), app_nil_r. }
    destruct (bool_decide_reflect (e = TransportTimedOut)) as [->|]; [destruct b|]; cbn; exists l; (split; [|done]).
    + destruct He. split; cbn; auto. 
    + done.
    + done.
  - exists l. split; [|done]. by apply exchanged_io.
  - exists l. split; [|done]. by apply exchanged_io.
Qed.

Lemma exchanged_refl {A} s (r : outcome TransportError A) : exchanged [] s s [] r.
Proof. apply exchanged_io; [apply same_io_refl|]. by rewrite app_nil_r. Qed.
Lemma exchanged_id {A} s s1 v (r : outcome TransportError A) :
  exchanged [] s s1 [] r → (sd_next_request_id s1 ≤ v)%Z →
  exchanged [] s (set_request_id v s1) [] r.
Proof. intros [] Hv. split; cbn; auto. lia. Qed.

Lemma request_exchanges fuel name params wait b s :
  let '(s', r) := request_inner fuel name params wait b s in
  ∃ new, exchanged new s s' [] r ∧
    match r with
    | Ok v => answered (sd_next_request_id s) new r ∧ (sd_next_request_id s < sd_next_request_id s')%Z
    | _ => True
    end.
Proof.
  unfold request_inner. unself. pose proof (quiet_deadline wait s) as Hd.
  destruct (deadline_after wait s) as [s1 r1]; cbn in Hd.
  assert (H1 : ∀ A (r : outcome TransportError A), exchanged [] s s1 [] r)
    by (intros; by eapply exchanged_same, exchanged_refl).
  destruct r1 as [dl|e| |]; [|by exists []..].
  unfold checked_add. case_bool_decide as Hmax; cbn; [|by exists []].
  pose proof (io_next _ _ _ Hd) as Hid. set (s2 := set_request_id _ s1).
  assert (H2 : ∀ A (r : outcome TransportError A), exchanged [] s s2 [] r)
    by (intros; apply exchanged_id; [done|lia]).
  set (w := write_message _ dl). pose proof (quiet_write _ dl s2 : same_io s2 (w s2).1) as Hw.
  destruct (w s2) as [s3 r3]; cbn in Hw.
  assert (H3 : ∀ A (r : outcome TransportError A), exchanged [] s s3 [] r)
    by (intros; by eapply exchanged_same).
  destruct r3 as [[]|e| |]; [|by exists []..].
  pose proof (await_exchanges fuel (sd_next_request_id s1) dl b s3) as Ha.
  destruct (await_reply _ _ _ _ _) as [s4 r4]. destruct Ha as (new & Hex & Ha).
  exists new. split; [exact (exchanged_after [] new _ _ _ _ (Ok tt) _ (H3 _ _) (λ _, I) Hex)|].
  destruct r4 as [v| | |]; [|done..]. rewrite <- Hid. split; [done|].
  pose proof (ex_next _ _ _ _ _ Hex). pose proof (io_next _ _ _ Hw) as Hn. cbn in Hn. lia.
Qed.

Lemma hears_responses fuel od :
  hears [] (poll_responses fuel od) (λ o l, omap note_of l = option_list o).
Proof.
  unfold poll_responses. hear. intros at_ ? ->. hear. intros self ? ->.
  eapply (hears_bind _ _ _ (holds [])).
  - destruct (sd_notification_deadline self) as [dl|]; [by apply hears_ret|].
    do 2 hear_next. by apply hears_ret.
  - intros dl ? ->. destruct (dl <=? at_)%Z; [by apply hears_stop|apply hears_await].
Qed.

Lemma deadline_result d s :
  (∃ dl, (deadline_after d s).2 = Ok dl) ∨ (deadline_after d s).2 = Err TransportDrift.
Proof.
  unfold deadline_after, now. unself. destruct (checked_add _ _ _); cbn; eauto.
Qed.

(** [poll_notification] delivers the first of the notifications that wait. *)
Lemma poll_exchanges fuel wait s :
  pending_ok (sd_pending s) →
  let '(s', r) := stdio_poll_notification fuel wait s in
  ∃ new, exchanged new s s' (match r with Ok (Some n) => [n] | _ => [] end) r.
Proof.
  intros Hp. unfold stdio_poll_notification. pose proof (λ od, hears_responses fuel od) as Hr. revert Hr.
  generalize (poll_responses fuel). intros rest Hr. unself. pose proof (quiet_deadline wait s) as Hd.
  destruct (deadline_after wait s) as [s1 r1]; cbn in Hd.
  assert (H1 : ∀ A (r : outcome TransportError A), exchanged [] s s1 [] r)
    by (intros; by eapply exchanged_same, exchanged_refl).
  destruct r1 as [od|e| |]; [|by exists []..].
  pose proof (quiet_check s1) as Hc. destruct (check_cancelled s1) as [s2 r2]; cbn in Hc.
  assert (H2 : ∀ A (r : outcome TransportError A), exchanged [] s s2 [] r)
    by (intros; by eapply exchanged_same).
  destruct r2 as [[]|e| |]; [|by exists []..].
  destruct (pop_front (sd_pending s2)) as [p [n|]] eqn:Ep.
  - pose proof (pop_ok _ _ _ (ex_pending _ _ _ _ _ (H2 unit (Ok tt)) Hp) Ep) as [Hok Hw].
    assert (H3 : ∀ A (r : outcome TransportError A), exchanged [] s (set_waiting p s2) [n] r).
    { intros. destruct (H2 A r). split; cbn; auto. intros _. specialize (H2 unit (Ok tt)).
      etrans; [exact (ex_order _ _ _ _ _ H2 I)|exact Hw]. }
    pose proof (quiet_deadline (sd_timeout s2) (set_waiting p s2)) as Hd2.
    pose proof (deadline_result (sd_timeout s2) (set_waiting p s2)) as Hd3.
    destruct (deadline_after _ (set_waiting p s2)) as [s3 r3]; cbn in *.
    destruct Hd3 as [[dl ->] | ->]; cbn; exists [].
    + eapply exchanged_same; [exact (quiet_set_deadline dl s3)|]. by eapply exchanged_same.
    + destruct (exchanged_same _ _ _ _ _ _ Hd2 (H3 unit (Err TransportDrift))). by split.
  - specialize (Hr od s2). destruct (rest od s2) as [s3 r3]. destruct Hr as (l & Hio & Hr). exists l.
    eapply (exchanged_after [] _ _ _ _ _ (Ok tt)); [apply H2|done|]. apply exchanged_io; [done|].
    unfold pop_front in Ep. unfold waiting. destruct (pn_items _) as [|[]]; [|done]. cbn in *. intros Ho.
    destruct r3 as [o| | |]; [|by rewrite Hr..]. destruct Hr as (l' & Ho' & _ & ->). rewrite Ho'.
    by destruct o.
Qed.

(** ** Every call *)

(** A reply comes from a message with the number of the request, which is new. *)
Definition own_reply (s s' : StdioTransport) (new : list Value) (r : outcome TransportError answer) : Prop :=
  match r with
  | Ok (Reply v) => (∃ m, m ∈ new ∧ replies (sd_next_request_id s) v m) ∧
      (sd_next_request_id s < sd_next_request_id s')%Z
  | _ => True
  end.

Lemma stdio_step_exchanges fuel call s :
  pending_ok (sd_pending s) →
  let '(s', r) := stdio_step fuel call s in
  ∃ new, exchanged new s s' (delivered r) r ∧ own_reply s s' new r.
Proof.
  intros Hp.
  assert (Hq : ∀ m : method unit, quiet m →
    let '(s', r) := (m ;; mret Nothing) s in ∃ new, exchanged new s s' (delivered r) r ∧ own_reply s s' new r).
  { intros m Hm. specialize (Hm s). unself. destruct (m s) as [s1 [[]| | |]]; exists [];
      (split; [|done]); by eapply exchanged_same, exchanged_refl. }
  destruct call as [name params|name params wait|name params| |wait|]; unfold stdio_step, tr_request, tr_request_with_timeout, tr_notify, tr_next_notification, tr_poll_notification, stdio_transport.
  - unself. pose proof (request_exchanges fuel name params (sd_timeout s) false s) as Hr.
    destruct (request_inner _ _ _ _ _ s) as [s1 [v|e| |]]; destruct Hr as (new & [] & Ha); cbn; exists new; (split; [by split|done]).
  - unself. pose proof (request_exchanges fuel name params wait true s) as Hr.
    destruct (request_inner _ _ _ _ _ s) as [s1 [v|e| |]]; destruct Hr as (new & [] & Ha); cbn; exists new; (split; [by split|done]).
  - apply Hq. cbn. unfold stdio_notify. solve_along.
  - unself. pose proof (poll_exchanges fuel (sd_timeout s) s Hp) as Hr. unfold stdio_next_notification. unself.
    destruct (stdio_poll_notification _ _ s) as [s1 [[n|]|e| |]]; destruct Hr as (new & []); cbn; exists new; (split; [by split|done]).
  - unself. pose proof (poll_exchanges fuel wait s Hp) as Hr.
    destruct (stdio_poll_notification _ _ s) as [s1 [[n|]|e| |]]; destruct Hr as (new & []); cbn; exists new; (split; [by split|done]).
  - apply Hq. unfold close_checked. solve_along.
Qed.

(** ** The log of what was written *)

Lemma unlogged_now : unlogged now.
Proof. apply unlogged_ask. Qed.
Lemma unlogged_deadline d : unlogged (deadline_after d).
Proof. unfold deadline_after, now. solve_along. Qed.
Lemma unlogged_close g : unlogged (close_with_grace g).
Proof. unfold close_with_grace. solve_along. Qed.
#[local] Hint Resolve unlogged_now unlogged_deadline unlogged_close : core.
Lemma unlogged_check : unlogged check_cancelled.
Proof. unfold check_cancelled. solve_along. Qed.
Lemma unlogged_recv w : unlogged (recv_timeout w).
Proof.
  unfold recv_timeout. apply along_bind; [apply _|apply unlogged_ask|intros r].
  apply along_bind; [apply _| |intros; apply along_ret; apply _].
  apply along_modify. intros s. by destruct r.
Qed.
Lemma unlogged_discard m : unlogged (discard m).
Proof. intros s. unfold discard, discard_abandoned_response. by repeat case_match; simplify_eq. Qed.
Lemma along_attempt R {A} (m : method A) : along R m → along R (attempt m).
Proof. intros Hm s. specialize (Hm s). unfold attempt. by destruct (m s). Qed.
Lemma unlogged_route m id :
  unlogged (attempt (zoom sd_pending set_waiting Datatypes.id (route_request_message m id))).
Proof. apply along_attempt. intros s. unfold zoom. by destruct (route_request_message _ _ _). Qed.
#[local] Hint Resolve unlogged_check unlogged_recv unlogged_discard unlogged_route along_attempt : core.
Lemma unlogged_receive fuel dl : unlogged (receive_message fuel dl).
Proof. induction fuel as [|fuel IH]; cbn [receive_message]; solve_along. Qed.
#[local] Hint Resolve unlogged_receive : core.
Lemma unlogged_await_reply fuel id dl b : unlogged (await_reply fuel id dl b).
Proof. induction fuel as [|fuel IH]; cbn [await_reply]; solve_along. Qed.
Lemma unlogged_await fuel od dl : unlogged (await_notification fuel od dl).
Proof. induction fuel as [|fuel IH]; cbn [await_notification]; solve_along. Qed.
#[local] Hint Resolve unlogged_await_reply unlogged_await : core.
Lemma unlogged_poll fuel wait : unlogged (stdio_poll_notification fuel wait).
Proof. unfold stdio_poll_notification, poll_responses. solve_along. Qed.
#[local] Hint Resolve unlogged_poll : core.

(** What a transport that has given the numbers below [n] may have written. *)
Inductive earlier (n : Z) : Value → Prop :=
| earlier_request name params id : (id < n)%Z → earlier n (request_message name params id)
| earlier_notice name params : earlier n (notice_message name params).
Definition numbered (s : StdioTransport) : Prop :=
  Forall (earlier (sd_next_request_id s)) (sd_written s).

Lemma earlier_mono n n' m : (n ≤ n')%Z → earlier n m → earlier n' m.
Proof. intros Hn [name params id Hid|name params]; constructor. lia. Qed.

Lemma numbered_log s s' : same_log s s' → numbered s → numbered s'.
Proof. intros [Hw Hn]. unfold numbered. by rewrite Hw, Hn. Qed.

(** A message is logged when the writer gets it. *)
Lemma write_logs m d s :
  let '(s', r) := write_message m d s in
  sd_next_request_id s' = sd_next_request_id s ∧
  (sd_written s' = sd_written s ++ [m] ∨ sd_written s' = sd_written s ∧ ¬ is_ok r).
Proof.
  unfold write_message. unself. pose proof (unlogged_check s) as Hc.
  destruct (check_cancelled s) as [s1 [[]|e| |]]; destruct Hc as [Hw Hn]; cbn in Hw, Hn |- *;
    try (split; [done|right; split; [done|by intros []]]).
  destruct (encode_json_line _ _) as [frame| | |]; cbn; try (split; [done|right; split; [done|by intros []]]).
  destruct (sd_stdin s1) as [stdin|]; cbn; [|split; [done|right]; split; [done|by intros []]].
  destruct (write_frame_cancellable _ _ _) as [stdin' r]. cbn.
  set (s2 := log_written _ _).
  assert (H2 : sd_written s2 = sd_written s ++ [m] ∧ sd_next_request_id s2 = sd_next_request_id s).
  { subst s2. cbn. by rewrite Hw, Hn. }
  destruct H2 as [Hw2 Hn2]. destruct r as [?|error| |]; cbn; try by (split; [|left]).
  pose proof (unlogged_close 0 s2) as Hs. destruct (close_with_grace 0 s2) as [s3 [[]|e| |]];
    destruct Hs as [Hw3 Hn3]; cbn in Hw3, Hn3 |- *; try (split; [congruence|left; congruence]).
  destruct error; cbn; split; try left; congruence.
Qed.

Lemma write_numbered m d s :
  numbered s → earlier (sd_next_request_id s) m → numbered (write_message m d s).1.
Proof.
  intros Hs Hm. pose proof (write_logs m d s) as Hw. destruct (write_message m d s) as [s' r].
  destruct Hw as [Hn [Hw|[Hw _]]]; unfold numbered; cbn; rewrite Hw, Hn; [|done].
  apply Forall_app. split; [done|by apply Forall_singleton].
Qed.

Lemma request_logs fuel name params wait b s :
  numbered s →
  let '(s', r) := request_inner fuel name params wait b s in
  numbered s' ∧
  (is_ok r → sd_written s' = sd_written s ++ [request_message name params (sd_next_request_id s)]).
Proof.
  intros Hs. unfold request_inner. unself. pose proof (unlogged_deadline wait s) as Hd.
  destruct (deadline_after wait s) as [s1 [dl|e| |]]; cbn in Hd;
    try by (split; [by eapply numbered_log|]).
  pose proof (numbered_log _ _ Hd Hs) as Hs1. destruct Hd as [Hw1 Hn1]. unfold checked_add.
  case_bool_decide; cbn; [|done]. set (s2 := set_request_id _ s1). set (m := request_message _ _ _).
  assert (Hs2 : numbered s2).
  { unfold numbered in *. eapply Forall_impl; [exact Hs1|]. intros x. apply earlier_mono. cbn. lia. }
  pose proof (write_numbered m dl s2 Hs2 ltac:(constructor; cbn; lia)) as Hs3.
  pose proof (write_logs m dl s2) as Hw. destruct (write_message m dl s2) as [s3 [[]|e| |]]; try done.
  destruct Hw as [_ [Hw|[_ Hw]]]; [|by destruct Hw].
  pose proof (unlogged_await_reply fuel (sd_next_request_id s1) dl b s3) as Ha.
  destruct (await_reply _ _ _ _ s3) as [s4 r]. split; [by eapply numbered_log|]. intros _.
  destruct Ha as [Ha _]. cbn in Ha. rewrite Ha, Hw. subst s2 m. cbn. by rewrite Hw1, Hn1.
Qed.

(** Of the calls, a request writes its message. *)
Definition requested (call : stdio_call) (id : Z) : list Value :=
  match call with
  | Request name params | RequestWithin name params _ => [request_message name params id]
  | _ => []
  end.
Lemma stdio_step_logs fuel call s :
  numbered s →
  let '(s', r) := stdio_step fuel call s in
  numbered s' ∧ ∀ v, r = Ok (Reply v) →
    sd_written s' = sd_written s ++ requested call (sd_next_request_id s).
Proof.
  intros Hs.
  assert (Hreply : ∀ name params wait b,
    let '(s', r) := (r ← request_inner fuel name params wait b; mret (Reply r)) s in
    numbered s' ∧ ∀ v, r = Ok (Reply v) →
      sd_written s' = sd_written s ++ [request_message name params (sd_next_request_id s)]).
  { intros name params wait b. unself. pose proof (request_logs fuel name params wait b s Hs) as Hr.
    destruct (request_inner _ _ _ _ _ s) as [s1 [v|e| |]]; destruct Hr as [Hr Hl]; (split; [done|]);
      intros; [by apply Hl|done..]. }
  assert (Hother : ∀ A (m : method A) f, (∀ s, numbered s → numbered (m s).1) →
    (∀ a v, f a ≠ Reply v) → let '(s', r) := (a ← m; mret (f a)) s in
    numbered s' ∧ ∀ v, r = Ok (Reply v) → sd_written s' = sd_written s ++ requested call (sd_next_request_id s)).
  { intros A m f Hm Hf. unself. specialize (Hm s Hs). destruct (m s) as [s1 [a|e| |]]; (split; [done|]);
      intros v; try done. intros [= Hv]. by destruct (Hf a v). }
  assert (Hkeep : ∀ A (m : method A), unlogged m → ∀ s, numbered s → numbered (m s).1).
  { intros A m Hm s' Hs'. eapply numbered_log; [apply Hm|done]. }
  destruct call as [name params|name params wait|name params| |wait|]; unfold stdio_step, tr_request,
    tr_request_with_timeout, tr_notify, tr_next_notification, tr_poll_notification, stdio_transport.
  - apply (Hreply name params (sd_timeout s) false).
  - apply Hreply.
  - apply (Hother _ _ (λ _, Nothing)); [|done]. intros s1 Hs1. unfold stdio_notify. unself.
    pose proof (unlogged_deadline (sd_timeout s1) s1) as Hd. destruct (deadline_after _ s1) as [s2 [dl|e| |]];
      cbn in Hd |- *; pose proof (numbered_log _ _ Hd Hs1); try done. apply write_numbered; [done|constructor].
  - apply (Hother _ _ Delivered); [|done]. apply Hkeep. unfold stdio_next_notification. solve_along.
  - apply (Hother _ _ (λ n, match n with Some n => Delivered n | None => Nothing end)); [auto|by intros []].
  - apply (Hother _ _ (λ _, Nothing)); [|done]. apply Hkeep. unfold close_checked. solve_along.
Qed.

Lemma reply_of_request fuel call s s' v :
  stdio_step fuel call s = (s', Ok (Reply v)) →
  ∃ name params, ∀ id, requested call id = [request_message name params id].
Proof.
  destruct call as [name params|name params wait|name params| |wait|]; try (intros _; by exists name, params);
    unfold stdio_step, tr_notify, tr_next_notification, tr_poll_notification, stdio_transport; unself.
  - by destruct (stdio_notify _ _ s) as [? [| | |]].
  - by destruct (stdio_next_notification _ s) as [? [| | |]].
  - by destruct (stdio_poll_notification _ _ s) as [? [[]| | |]].
  - by destruct (close_checked s) as [? [| | |]].
Qed.

(** ** A failed transport *)

Definition refuses {A} (m : method A) : Prop :=
  ∀ s, sd_output_failed s = true → ¬ is_ok (m s).2 ∧ sd_output_failed (m s).1 = true.

Lemma refuses_after {A B} (m : method A) (k : A → method B) :
  quiet m → (∀ a, refuses (k a)) → refuses (m ≫= k).
Proof.
  intros Hm Hk s Hs. unself. specialize (Hm s). destruct (m s) as [s1 r]; cbn in Hm.
  destruct Hm as []. rewrite Hs in io_failed0.
  destruct r as [a| | |]; [by apply Hk|by split; [intros []|]..].
Qed.
Lemma refuses_first {A B} (m : method A) (k : A → method B) : refuses m → refuses (m ≫= k).
Proof.
  intros Hm s Hs. unself. destruct (Hm s Hs) as [Hf Hs']. destruct (m s) as [s1 [a| | |]]; cbn in *; [|by split..].
  by destruct Hf.
Qed.
Lemma refuses_check : refuses check_cancelled.
Proof.
  intros s Hs. unfold check_cancelled. unself. rewrite Hs. unfold close_with_grace. unself.
  destruct (child_shutdown _ _); cbn; split; [by intros []|done|by intros []|done].
Qed.
Lemma refuses_write m d : refuses (write_message m d).
Proof. apply refuses_first, refuses_check. Qed.

Lemma refuses_id {A} v (m : method A) : refuses m → refuses (smodify (set_request_id v) ;; m).
Proof. intros Hm s Hs. exact (Hm (set_request_id v s) Hs). Qed.

(** No part but the answer to a request is a rejection. *)
Definition plain {A} (m : method A) : Prop := ∀ s code retryable, (m s).2 ≠ Err (RemoteRejected code retryable).
Lemma plain_bind {A B} (m : method A) (k : A → method B) : plain m → (∀ a, plain (k a)) → plain (m ≫= k).
Proof.
  intros Hm Hk s code retryable. unself. specialize (Hm s code retryable).
  destruct (m s) as [s1 [a|e| |]]; cbn in *; [apply Hk|congruence|done..].
Qed.
Lemma plain_lift {A} (r : outcome TransportError A) :
  (∀ code retryable, r ≠ Err (RemoteRejected code retryable)) → plain (slift r).
Proof. intros Hr s. exact Hr. Qed.
Lemma plain_ok {A} (m : method A) : (∀ s, is_ok (m s).2) → plain m.
Proof. intros Hm s code retryable E. specialize (Hm s). by rewrite E in Hm. Qed.

Lemma plain_deadline d : plain (deadline_after d).
Proof. intros s code retryable. destruct (deadline_result d s) as [[dl ->] | ->]; done. Qed.
Lemma plain_close g : plain (close_with_grace g).
Proof. intros s code retryable. destruct (close_result g s) as [-> | ->]; done. Qed.
Lemma plain_check : plain check_cancelled.
Proof.
  apply plain_bind; [by apply plain_ok|intros self].
  apply plain_bind; [by apply plain_ok; destruct (sd_output_failed self)|intros []].
  - apply plain_bind; [apply plain_close|intros _; by apply plain_lift].
  - apply plain_bind; [by apply plain_ok|intros []]; [|by apply plain_ok].
    apply plain_bind; [apply plain_close|intros _; by apply plain_lift].
Qed.
Lemma broken_error a e : reception_of a = Broken e → e = Unavailable ∨ e = TransportDrift.
Proof.
  destruct a as [[line|]| |]; try done; cbn; [|by intros [= <-]; left].
  destruct (value_from_str line); [done|]. cbn. intros [= <-]. by right.
Qed.

Lemma plain_receive fuel dl : plain (receive_message fuel dl).
Proof.
  induction fuel as [|fuel IH]; cbn [receive_message]; [by apply plain_lift|].
  apply plain_bind; [apply plain_check|intros _]. apply plain_bind; [by apply plain_ok|intros at_].
  destruct (dl <? at_)%Z; [by apply plain_lift|]. revert IH. generalize (receive_message fuel dl).
  intros rest IH s code retryable. unfold recv_timeout. unself.
  destruct (reception_of _) as [m|e| |] eqn:Er; cbn.
  - match goal with |- context [deadline_after ?d ?s] =>
      pose proof (plain_deadline d s code retryable) as Hd; destruct (deadline_after d s) as [? [| | |]] end;
      cbn in *; congruence.
  - by destruct (broken_error _ _ Er) as [-> | ->].
  - apply IH.
  - match goal with |- context [check_cancelled ?s] =>
      pose proof (plain_check s code retryable) as Hd; destruct (check_cancelled s) as [? [| | |]] end;
      cbn in *; congruence.
Qed.

(** A rejection is the answer to the request, and fails the transport. *)
Lemma await_rejected fuel id dl b s code retryable :
  (await_reply fuel id dl b s).2 = Err (RemoteRejected code retryable) →
  sd_output_failed (await_reply fuel id dl b s).1 = true.
Proof.
  revert s. induction fuel as [|fuel IH]; intros s; [done|]. cbn [await_reply].
  pose proof (plain_receive (S fuel) dl s code retryable) as Hr. revert Hr IH.
  generalize (receive_message (S fuel) dl) (await_reply fuel id dl b). intros receive rest Hr IH.
  unfold attempt. unself. destruct (receive s) as [s1 [m|e| |]]; cbn in *; try done.
  - unfold discard. destruct (discard_abandoned_response m s1) as [s2 [|]]; cbn in *; [apply IH|].
    destruct (route_request_message m id (sd_pending s2)) as [p' [[v|]|e| |]]; cbn in *; try done; [apply IH|].
    pose proof (quiet_close 0 (set_failed (set_waiting p' s2))) as Hq.
    pose proof (close_result 0 (set_failed (set_waiting p' s2))) as Hc.
    destruct (close_with_grace 0 _) as [s3 rc]; cbn in *. destruct Hc as [-> | ->]; cbn; [|done].
    intros _. exact (io_failed _ _ _ Hq).
  - destruct (bool_decide _ && b); cbn; congruence.
Qed.

Lemma plain_write m d : plain (write_message m d).
Proof.
  apply plain_bind; [apply plain_check|intros _].
  apply plain_bind; [apply plain_lift; intros; by destruct (encode_json_line _ _)|intros frame].
  apply plain_bind; [by apply plain_ok|intros self].
  apply plain_bind; [apply plain_lift; intros; by destruct (sd_stdin self)|intros stdin].
  apply plain_bind; [by apply plain_ok|intros schedule].
  destruct (write_frame_cancellable _ _ _) as [w r]. apply plain_bind; [by apply plain_ok|intros _].
  destruct r as [?|e| |]; [by apply plain_ok| |by apply plain_lift..].
  apply plain_bind; [apply plain_close|intros _].
  apply plain_bind; [by apply plain_ok; destruct e|intros []]; apply plain_lift; by destruct e.
Qed.
Lemma request_rejected fuel name params wait b s code retryable :
  (request_inner fuel name params wait b s).2 = Err (RemoteRejected code retryable) →
  sd_output_failed (request_inner fuel name params wait b s).1 = true.
Proof.
  unfold request_inner. unself. pose proof (plain_deadline wait s code retryable) as Hd.
  destruct (deadline_after wait s) as [s1 [dl|e| |]]; cbn in *; try done; [|congruence].
  destruct (checked_add _ _ _) as [next|]; cbn; [|done].
  set (w := write_message _ dl). set (s2 := set_request_id next s1).
  pose proof (plain_write _ dl s2 code retryable : (w s2).2 ≠ _) as Hw.
  destruct (w s2) as [s3 [[]|e| |]]; cbn in *; try done; [|congruence]. apply await_rejected.
Qed.

Lemma failed_refuses fuel call s :
  sd_output_failed s = true → call ≠ Close →
  ¬ is_ok (stdio_step fuel call s).2 ∧ sd_output_failed (stdio_step fuel call s).1 = true.
Proof.
  intros Hs Hc. revert s Hs.
  change (refuses (stdio_step fuel call)).
  assert (Hrequest : ∀ name params wait b, refuses (request_inner fuel name params wait b)).
  { intros. unfold request_inner. apply refuses_after; [auto|intros dl].
    apply refuses_after; [apply (along_get same_io)|intros self]. apply refuses_after; [apply (along_lift same_io)|intros next].
    apply refuses_id, refuses_first, refuses_write. }
  assert (Hpoll : ∀ wait, refuses (stdio_poll_notification fuel wait)).
  { intros. unfold stdio_poll_notification. apply refuses_after; [auto|intros dl]. apply refuses_first, refuses_check. }
  destruct call as [name params|name params wait|name params| |wait|]; unfold stdio_step; cbn -[mbind mret]; try done.
  - apply refuses_first, refuses_after; [apply (along_get same_io)|auto].
  - apply refuses_first; auto.
  - apply refuses_first. unfold stdio_notify. apply refuses_after; [apply (along_get same_io)|intros self].
    apply refuses_after; [auto|intros dl]. apply refuses_write.
  - apply refuses_first. unfold stdio_next_notification. apply refuses_after; [apply (along_get same_io)|intros self].
    by apply refuses_first.
  - by apply refuses_first.
Qed.

(** ** The waits end *)

(** The writer's loops reach their deadline, if nothing ends them before. *)
Definition settles (s : write_schedule) : Prop :=
  Exists (λ t, s_past_deadline t = true) (ws_send s) ∧
  Exists (λ t, r_before_deadline t = false) (ws_recv s) ∧
  Forall (λ t, match r_received t with Received r => returns r | _ => True end) (ws_recv s).
(** The clock passes every instant. *)
Definition clock_runs : Prop := ∀ t, ∃ N, ∀ n, N ≤ n → (t < instant n)%Z.

Lemma settled_write w frame s : settles s → returns (write_frame_cancellable w frame s).2.
Proof.
  intros (Hsend & Hrecv & Hres). unfold write_frame_cancellable. destruct (_ || _); [done|].
  destruct (_ <? _)%Z; [done|]. destruct (ws_cancelled s); [done|]. destruct (ws_past_deadline s); [done|].
  assert (Hawait : returns (await_result w (ws_recv s)).2).
  { revert Hrecv Hres. clear. induction (ws_recv s) as [|t l IH]; [by inversion 1|].
    intros Hl [Ht Hres]%Forall_cons. cbn. destruct (r_cancelled t); [done|].
    destruct (r_received t) as [[]| |]; try done. destruct (r_before_deadline t) eqn:Eb; [|done].
    apply IH; [|done]. inversion Hl; congruence. }
  induction (ws_send s) as [|t l IH]; [by inversion Hsend|]. cbn. destruct (s_cancelled t); [done|].
  destruct (s_past_deadline t) eqn:Ed; [done|]. destruct (s_sent t); [done| |done].
  destruct (s_past_deadline_again t); [done|]. apply IH. inversion Hsend; congruence.
Qed.

Lemma encode_returns v : returns (encode_json_line allocator v).
Proof.
  assert (Hw : ∀ sink l, returns (write_all allocator sink l))
    by (intros ? []; [done|apply bounded_write_returns]).
  unfold encode_json_line, to_writer. apply returns_obind.
  - apply returns_map_err, returns_obind; [by apply returns_fold_try|]. intros. by destruct (sz_error v).
  - intros. by apply returns_obind.
Qed.

Context (Hclock : clock_runs) (Hwrites : ∀ n, settles (write_observed n)).

Definition sure {A} (m : method A) : Prop := ∀ s, returns (m s).2.
Lemma sure_bind {A B} (m : method A) (k : A → method B) : sure m → (∀ a, sure (k a)) → sure (m ≫= k).
Proof. intros Hm Hk s. unself. specialize (Hm s). destruct (m s) as [s1 [a| | |]]; cbn in *; [apply Hk|done..]. Qed.
Lemma sure_get : sure sget.
Proof. by intros s. Qed.
Lemma sure_modify f : sure (smodify f).
Proof. by intros s. Qed.
Lemma sure_lift {A} (r : outcome TransportError A) : returns r → sure (slift r).
Proof. by intros Hr s. Qed.
Lemma sure_ask {A} (f : nat → A) : sure (ask f).
Proof. by intros s. Qed.
Lemma sure_asked {A B} (f : nat → A) (k : A → method B) :
  (∀ n, sure (k (f n))) → sure (ask f ≫= k).
Proof. intros Hk s. apply Hk. Qed.
Lemma sure_deadline d : sure (deadline_after d).
Proof. apply sure_bind; [apply sure_ask|]. intros at_. apply sure_lift, returns_ok_or. Qed.
Lemma sure_close g : sure (close_with_grace g).
Proof. intros s. by destruct (close_result g s) as [-> | ->]. Qed.
Lemma sure_check : sure check_cancelled.
Proof.
  apply sure_bind; [apply sure_get|intros self].
  apply sure_bind; [destruct (sd_output_failed self); [by intros s|apply sure_ask]|intros []].
  - apply sure_bind; [apply sure_close|intros _; by apply sure_lift].
  - apply sure_bind; [apply sure_ask|intros []]; [|by intros s].
    apply sure_bind; [apply sure_close|intros _; by apply sure_lift].
Qed.
Lemma sure_write m d : sure (write_message m d).
Proof.
  apply sure_bind; [apply sure_check|intros _].
  apply sure_bind; [apply sure_lift, returns_map_err, encode_returns|intros frame].
  apply sure_bind; [apply sure_get|intros self].
  apply sure_bind; [apply sure_lift, returns_ok_or|intros stdin].
  apply sure_asked. intros n. pose proof (settled_write stdin frame _ (Hwrites n)) as Hw.
  destruct (write_frame_cancellable _ _ _) as [w [[]|e| |]]; try done.
  apply sure_bind; [apply sure_modify|intros _]. apply sure_bind; [apply sure_close|intros _].
  apply sure_bind; [destruct e; first [apply sure_ask | exact (λ _, I)]|intros b]. by apply sure_lift.
Qed.

(** From [N] questions on, the clock is past [t]. *)
Definition past (t : Z) (N : nat) : Prop := ∀ n, N ≤ n → (t < instant n)%Z.

Definition receives_by (N fuel : nat) (m : method Value) : Prop := ∀ s, N - sd_asked s < fuel →
  returns (m s).2 ∧ (∀ v, (m s).2 = Ok v → sd_asked s < N ∧ sd_asked s < sd_asked (m s).1).

Lemma receive_returns N fuel dl : past dl N → receives_by N fuel (receive_message fuel dl).
Proof.
  intros HN. induction fuel as [|fuel IH]; intros s Hf; [lia|]. cbn [receive_message]. revert IH.
  generalize (receive_message fuel dl). intros rest IH. unself.
  pose proof (sure_check s) as Hc. pose proof (io_asked _ _ _ (quiet_check s)) as Ha.
  destruct (check_cancelled s) as [s1 [[]|e| |]]; cbn in *; try done.
  destruct (Z.ltb_spec dl (instant (sd_asked s1))) as [|Hle]; cbn; [done|].
  assert (sd_asked s1 < N).
  { destruct (decide (N ≤ sd_asked s1)) as [Hge|]; [|lia]. specialize (HN _ Hge). lia. }
  unfold recv_timeout. unself. destruct (reception_of _) as [m|e| |]; cbn.
  - set (s2 := set_heard _ _). pose proof (sure_deadline (sd_timeout s1) s2) as Hd.
    pose proof (io_asked _ _ _ (quiet_deadline (sd_timeout s1) s2)) as Ha2.
    destruct (deadline_after (sd_timeout s1) s2) as [s3 [dl2|e| |]]; cbn in *; try done.
    split; [done|]. intros v _. lia.
  - done.
  - edestruct IH as [Hr Hv]; [|split; [exact Hr|]]; cbn; [lia|].
    intros v Hm. specialize (Hv v Hm). cbn in Hv. lia.
  - set (s2 := update _ _ _ _ _ _). pose proof (sure_check s2) as Hc2. 
    destruct (check_cancelled s2) as [s3 [[]|e| |]]; cbn in *; done.
Qed.

Lemma decode_returns m : returns (decode_notification m).
Proof. unfold decode_notification. solve_returns. Qed.
Lemma route_returns m id p : returns (route_request_message m id p).2.
Proof.
  unfold route_request_message. unself. pose proof (encode_returns (serialized m)) as He.
  destruct (encode_json_line _ _) as [frame| | |]; cbn; [|done..].
  assert (Hd : returns (decode_response m id)).
  { unfold decode_response. destruct (value_get m "id"); [|apply returns_obind; [apply decode_returns|done]].
    destruct (negb _); [done|]. destruct (value_get m "error"); solve_returns. }
  destruct (decode_response m id) as [[n|v]| | |]; try done. by destruct (_ || _).
Qed.

Lemma await_returns N fuel id dl b s :
  past dl N → N - sd_asked s < fuel → returns (await_reply fuel id dl b s).2.
Proof.
  intros HN. revert s. induction fuel as [|fuel IH]; intros s Hf; [lia|]. cbn [await_reply].
  pose proof (receive_returns N (S fuel) dl HN) as Hr. revert Hr IH.
  generalize (receive_message (S fuel) dl) (await_reply fuel id dl b). intros receive rest Hr IH.
  unfold attempt. unself. destruct (Hr s Hf) as [Hret Hv]. clear Hr.
  destruct (receive s) as [s1 [m|e| |]]; cbn in *; try done.
  - specialize (Hv m eq_refl). pose proof (quiet_discard m s1) as Hq. unfold discard in *.
    destruct (discard_abandoned_response m s1) as [s2 [|]] eqn:Ed; cbn in *.
    + apply IH. pose proof (io_asked _ _ _ Hq). lia.
    + apply discard_keeps in Ed as ->. pose proof (routed m id (sd_pending s1)) as Hro.
      pose proof (route_returns m id (sd_pending s1)) as Hrr.
      destruct (route_request_message m id (sd_pending s1)) as [p' [[v|]|e| |]]; cbn in *; try done.
      * apply IH. cbn. lia.
      * pose proof (sure_close 0 (set_failed (set_waiting p' s1))) as Hc.
        by destruct (close_with_grace 0 _) as [s3 []].
  - by destruct (bool_decide _ && b).
Qed.

Lemma notified_returns N fuel od dl s :
  past dl N → N - sd_asked s < fuel → returns (await_notification fuel od dl s).2.
Proof.
  intros HN. revert s. induction fuel as [|fuel IH]; intros s Hf; [lia|]. cbn [await_notification].
  revert IH. generalize (await_notification fuel od dl). intros rest IH. unself.
  pose proof (sure_check s) as Hc. pose proof (io_asked _ _ _ (quiet_check s)) as Ha.
  destruct (check_cancelled s) as [s1 [[]|e| |]]; cbn in *; try done.
  unfold recv_timeout. unself. destruct (reception_of _) as [m|e| |]; cbn.
  - set (s2 := set_heard _ _). pose proof (io_asked _ _ _ (quiet_discard m s2)) as Hq. unfold discard in *.
    destruct (discard_abandoned_response m s2) as [s3 [|]]; cbn in *.
    + destruct (Z.leb_spec dl (instant (sd_asked s3))) as [|Hlt]; cbn; [done|].
      destruct (_ <=? _)%Z; [done|]. apply IH. cbn.
      destruct (decide (N ≤ sd_asked s3)) as [Hge|]; [specialize (HN _ Hge); lia|]. lia.
    + pose proof (sure_deadline (sd_timeout s3) s3) as Hd.
      destruct (deadline_after (sd_timeout s3) s3) as [s4 [dl2| | |]]; cbn in *; try done.
      pose proof (decode_returns m) as Hdec. by destruct (decode_notification m).
  - done.
  - destruct (Z.leb_spec dl (instant (S (S (sd_asked s1))))) as [|Hlt]; cbn; [done|].
    destruct (_ <=? _)%Z; [done|]. apply IH. cbn.
    destruct (decide (N ≤ S (S (sd_asked s1)))) as [Hge|]; [specialize (HN _ Hge); lia|]. lia.
  - set (s2 := update _ _ _ _ _ _). pose proof (sure_check s2) as Hc2. 
    destruct (check_cancelled s2) as [s3 [[]|e| |]]; cbn in *; done.
Qed.

(** A method that returns when it has enough fuel. *)
Definition ends {A} (m : nat → method A) : Prop :=
  ∀ s, ∃ N, ∀ fuel, N < fuel → returns (m fuel s).2.
Lemma ends_sure {A B} (m : method A) (k : A → nat → method B) :
  sure m → (∀ a, ends (k a)) → ends (λ fuel, m ≫= λ a, k a fuel).
Proof.
  intros Hm Hk s. unself. specialize (Hm s). destruct (m s) as [s1 [a| | |]]; cbn in *; [apply Hk|by exists 0|done..].
Qed.
Lemma ends_then {A B} (m : nat → method A) (k : A → method B) :
  ends m → (∀ a, sure (k a)) → ends (λ fuel, m fuel ≫= k).
Proof.
  intros Hm Hk s. destruct (Hm s) as [N HN]. exists N. intros fuel Hf. specialize (HN fuel Hf). unself.
  destruct (m fuel s) as [s1 [a| | |]]; cbn in *; [apply Hk|done..].
Qed.
Lemma ends_await id dl b : ends (λ fuel, await_reply fuel id dl b).
Proof.
  intros s. destruct (Hclock dl) as [N HN]. exists N. intros fuel Hf. apply (await_returns N); [done|lia].
Qed.
Lemma ends_notified od dl : ends (λ fuel, await_notification fuel od dl).
Proof.
  intros s. destruct (Hclock dl) as [N HN]. exists N. intros fuel Hf. apply (notified_returns N); [done|lia].
Qed.
Lemma ends_request name params wait b : ends (λ fuel, request_inner fuel name params wait b).
Proof.
  apply ends_sure; [apply sure_deadline|intros dl]. apply ends_sure; [apply sure_get|intros self].
  apply ends_sure; [apply sure_lift, returns_ok_or|intros next].
  apply ends_sure; [apply sure_modify|intros _]. apply ends_sure; [apply sure_write|intros _].
  apply ends_await.
Qed.
Lemma ends_poll wait : ends (λ fuel, stdio_poll_notification fuel wait).
Proof.
  apply ends_sure; [apply sure_deadline|intros od]. apply ends_sure; [apply sure_check|intros _].
  apply ends_sure; [apply sure_get|intros self]. destruct (pop_front (sd_pending self)) as [p [n|]].
  - intros s. exists 0. intros fuel _. revert s. apply sure_bind; [apply sure_modify|intros _].
    apply sure_bind; [apply sure_deadline|intros dl]. apply sure_bind; [apply sure_modify|intros _].
    exact (λ _, I).
  - apply ends_sure; [apply sure_ask|intros at_]. apply ends_sure; [apply sure_get|intros self'].
    apply ends_sure.
    + destruct (sd_notification_deadline self') as [dl|]; [exact (λ _, I)|].
      apply sure_bind; [apply sure_deadline|intros dl].
      apply sure_bind; [apply sure_modify|intros _]. exact (λ _, I).
    + intros dl. destruct (dl <=? at_)%Z; [intros s; by exists 0|apply ends_notified].
Qed.

Lemma stdio_step_ends call : ends (λ fuel, stdio_step fuel call).
Proof.
  assert (Hret : ∀ B (b : B), sure (mret b)) by (intros; exact (λ _, I)).
  destruct call as [name params|name params wait|name params| |wait|]; unfold stdio_step, tr_request,
    tr_request_with_timeout, tr_notify, tr_next_notification, tr_poll_notification, stdio_transport.
  - apply ends_then; [|auto]. apply ends_sure; [apply sure_get|intros self]. apply ends_request.
  - apply ends_then; [|auto]. apply ends_request.
  - intros s. exists 0. intros fuel _. revert s. apply sure_bind; [|auto].
    apply sure_bind; [apply sure_get|intros self]. apply sure_bind; [apply sure_deadline|intros dl].
    apply sure_write.
  - apply ends_then; [|auto]. apply ends_sure; [apply sure_get|intros self].
    apply ends_then; [apply ends_poll|]. intros o. apply sure_lift, returns_ok_or.
  - apply ends_then; [apply ends_poll|auto].
  - intros s. exists 0. intros fuel _. revert s. apply sure_bind; [|auto].
    apply sure_bind; [apply sure_get|intros self]. apply sure_close.
Qed.

End stdio.

(** ** Runs of calls *)

Section calls.
Context `{Json} `{!StdioEnvironment}.

(** Calls in a row, with what each returned. *)
Fixpoint stdio_calls (fuel : nat) (calls : list stdio_call) (s : StdioTransport)
    : StdioTransport * list (outcome TransportError answer) :=
  match calls with
  | [] => (s, [])
  | call :: calls =>
      let '(s, r) := stdio_step fuel call s in
      let '(s, rs) := stdio_calls fuel calls s in
      (s, r :: rs)
  end.

Lemma failed_calls fuel calls s :
  sd_output_failed s = true → Close ∉ calls →
  let '(s', rs) := stdio_calls fuel calls s in
  sd_output_failed s' = true ∧ Forall (λ r, ¬ is_ok r) rs.
Proof.
  revert s. induction calls as [|call calls IH]; intros s Hs Hc; cbn [stdio_calls]; [done|].
  apply not_elem_of_cons in Hc as [Hne Hc]. destruct (failed_refuses fuel call s Hs) as [Hr Hs1]; [done|].
  destruct (stdio_step fuel call s) as [s1 r]. specialize (IH s1 Hs1 Hc).
  destruct (stdio_calls fuel calls s1) as [s2 rs]. destruct IH. by split; [|constructor].
Qed.

Lemma calls_exchange fuel calls s :
  pending_ok (sd_pending s) →
  let '(s', rs) := stdio_calls fuel calls s in
  pending_ok (sd_pending s') ∧
  ∃ new, sd_heard s' = sd_heard s ++ new ∧
    (Forall orderly rs → waiting s ++ omap note_of new = concat (map delivered rs) ++ waiting s').
Proof.
  revert s. induction calls as [|call calls IH]; intros s Hp; cbn [stdio_calls].
  { split; [done|]. exists []. rewrite !app_nil_r. done. }
  pose proof (stdio_step_exchanges fuel call s Hp) as Hs. destruct (stdio_step fuel call s) as [s1 r].
  destruct Hs as (new & Hex & _). specialize (IH s1 (ex_pending _ _ _ _ _ Hex Hp)).
  destruct (stdio_calls fuel calls s1) as [s2 rs]. destruct IH as (Hp2 & new2 & Hh & Ho).
  split; [done|]. exists (new ++ new2). split; [by rewrite Hh, (ex_heard _ _ _ _ _ Hex), app_assoc|].
  intros [Hr Hrs]%Forall_cons. cbn. rewrite omap_app, app_assoc, (ex_order _ _ _ _ _ Hex Hr), <- !app_assoc.
  by rewrite (Ho Hrs).
Qed.

Lemma calls_numbered fuel calls s : numbered s → numbered (stdio_calls fuel calls s).1.
Proof.
  revert s. induction calls as [|call calls IH]; intros s Hs; [done|]. cbn [stdio_calls].
  pose proof (stdio_step_logs fuel call s Hs) as Hl. destruct (stdio_step fuel call s) as [s1 r].
  specialize (IH s1 (proj1 Hl)). by destruct (stdio_calls fuel calls s1).
Qed.

End calls.
