(* ===== verification/AgyProcessFacts.v ===== *)
(** * What an Agy process reports, and when

    Ends are reported only when the child was reaped, and after a receipt of what
    was written; a start that fails leaves no child; waits end. *)
From S2P Require Import Prelude Identity Workspace InputWriter ProcessChild.
From S2P Require Import Adapter CodexLifecycle CodexServer CodexRunFacts AgyStream AgyFacts.
From S2P Require Import CodexStdio CodexStdioFacts AgyProcess.

(** ** A weakest precondition for methods *)

Definition post {S E A} (m : self S E A) (Q : S → outcome E A → Prop) (s : S) : Prop :=
  Q (m s).1 (m s).2.

Section post.
Context {S E : Type}.

Lemma post_bind {A B} (m : self S E A) (k : A → self S E B) Q s :
  post m (λ s' r, match r with
                  | Ok a => post (k a) Q s'
                  | Err e => Q s' (Err e)
                  | Panic => Q s' Panic
                  | Diverge => Q s' Diverge
                  end) s → post (m ≫= k) Q s.
Proof. unfold post. unself. by destruct (m s) as [s' [a| | |]]. Qed.
Lemma post_mono {A} (m : self S E A) (P Q : S → outcome E A → Prop) s :
  post m P s → (∀ s' r, P s' r → Q s' r) → post m Q s.
Proof. unfold post. auto. Qed.
Lemma post_zoom {T F A} (g : S → T) (p : T → S → S) (f : F → E) (m : self T F A) Q s :
  post m (λ t r, Q (p t s) (map_err f r)) (g s) → post (zoom g p f m) Q s.
Proof. unfold post. unself. by destruct (m (g s)). Qed.

End post.

(** Steps over a call whose result is known. *)
Lemma post_known {S E A} (m : self S E A) (Q : S → outcome E A → Prop) s s' r :
  m s = (s', r) → Q s' r → post m Q s.
Proof. unfold post. by intros ->. Qed.
Ltac post_step :=
  lazymatch goal with
  | |- post ?m _ _ =>
      lazymatch m with
      | @mbind _ _ _ _ _ _ => apply post_bind
      | @mret _ _ _ _ => refine (post_known _ _ _ _ _ eq_refl _)
      | sget => refine (post_known _ _ _ _ _ eq_refl _)
      | smodify _ => refine (post_known _ _ _ _ _ eq_refl _)
      | slift _ => refine (post_known _ _ _ _ _ eq_refl _)
      | inquire _ => refine (post_known _ _ _ _ _ eq_refl _)
      | start_ask _ => refine (post_known _ _ _ _ _ eq_refl _)
      end
  end; cbv beta iota.

(** The child was reaped, and nothing has gone wrong with it. *)
Definition gone (c : OwnedAdapterChild) : Prop :=
  oc_cleanup_failed c = false ∧ oc_child c = None.

Section process.
Context `{Json} `{!StdioEnvironment} `{Digest} (receipt_json : nat → string)
  (cleanup : nat → Z → shutdown_schedule).

(** ** Ends *)

Definition is_agy_receipt (u : AgyRunUpdate) : bool :=
  match u with AgyWriteReceipt _ => true | _ => false end.

Lemma shutdown_gone x c : gone c → shutdown x c = (c, Ok tt).
Proof. intros []. by apply shutdown_again. Qed.

(** A clean-up changes nothing but the endpoints. *)
Definition closed_from (s s' : AgyProcess) : Prop :=
  ap_stream s' = ap_stream s ∧ ap_pending s' = ap_pending s ∧
  ap_pending_terminal s' = ap_pending_terminal s ∧ ap_before s' = ap_before s ∧
  (gone (ap_child s) → gone (ap_child s')).

Lemma close_child_post grace s :
  post (close_child cleanup grace)
    (λ s' r, closed_from s s' ∧ (r = Ok tt → gone (ap_child s'))) s.
Proof.
  unfold post, close_child, inquire, attempt. unself.
  destruct (shutdown _ _) as [c r] eqn:E. cbn. split.
  - split_and!; try done. intros Hg. cbn in *. rewrite (shutdown_gone _ _ Hg) in E. by injection E as <- _.
  - apply shutdown_left in E. by destruct r as [[]|[]| |].
Qed.

Lemma consume_line_closes line at_ s s' u :
  consume_line line at_ s = (s', Ok (Some u)) →
  as_closed s = false ∧ is_agy_receipt u = false ∧ (agy_is_terminal u = true → as_closed s' = true).
Proof.
  unfold consume_line. unself. destruct (as_closed s) eqn:Hc; [done|].
  destruct (value_from_str line) as [v|]; [|done]. cbn.
  case_bool_decide; [|case_bool_decide; [|case_bool_decide; [|done]]].
  - destruct (consume_init v at_ s) as [s1 [u1| | |]] eqn:E; try done. intros [= <- <-].
    revert E. unfold consume_init, lifecycle, lifecycle_with_evidence. unself.
    destruct (as_initialized s); [done|]. destruct (required_text _ _); try done. cbn.
    destruct (match as_expected_conversation_id s with Some _ => _ | None => _ end); [done|].
    destruct (blank at_); [done|]. cbn. destruct (checked_add _ _ _); [|done]. cbn. by intros [= <- <-].
  - unfold consume_step. unself. destruct (ok_or _ _) as [g| | |]; try done. cbn.
    destruct (require_matching_conversation _ _) as [s1 [[]| | |]]; try done.
    destruct (g !! "usage"); [|done]. destruct (parse_usage _); try done. cbn. by intros [= <- <-].
  - destruct (consume_result v at_ s) as [s1 [u1| | |]] eqn:E; try done. intros [= <- <-].
    revert E. unfold consume_result, lifecycle, lifecycle_with_evidence. unself.
    destruct (ok_or _ _) as [g| | |]; try done. cbn. destruct (required_text_value _); try done. cbn.
    destruct (require_result_conversation _ _ _) as [s2 [[]| | |]]; try done. cbn.
    destruct (result_of _ _ _) as [[[st ty] f]| | |]; try done. cbn.
    destruct (blank at_); [done|]. cbn. destruct (checked_add _ _ _); [|done]. cbn. by intros [= <- <-].
Qed.

(** A local end closes an open stream. *)
Definition local_end (m : self AgyRunStream AgyStreamError AgyRunUpdate) : Prop := ∀ s s' r,
  m s = (s', r) → as_closed s' = true ∧
  ∀ u, r = Ok u → as_closed s = false ∧ agy_is_terminal u = true ∧ is_agy_receipt u = false.

Lemma local_terminal_ends st ty kind key at_ :
  st = RunCancelled ∨ st = RunFailed ∨ st = RunUncertain →
  local_end (agy_local_terminal st ty kind key at_).
Proof.
  intros Hst s s' r. unfold agy_local_terminal, lifecycle_with_evidence. unself.
  destruct (as_closed s) eqn:Hc; [by intros [= <- <-]|].
  destruct (blank at_); [by intros [= <- <-]|]. cbn.
  destruct (checked_add _ _ _); cbn; intros [= <- <-]; [|done].
  split; [done|]. intros u [= <-]. split_and!; try done. by destruct Hst as [-> |[-> | ->]].
Qed.

Lemma timed_out_ends at_ : local_end (timed_out at_).
Proof. unfold timed_out. apply local_terminal_ends. auto. Qed.
Lemma stopped_ends (b : bool) at_ : local_end (if b then cancelled at_ else crashed at_).
Proof. destruct b; [unfold cancelled|unfold crashed]; apply local_terminal_ends; auto. Qed.

(** What is known between the methods of a process that started from the
    snapshot [b] and has reported [past]. *)
Record agy_inv (b : option WorkspaceSnapshot) (past : list AgyRunUpdate) (s : AgyProcess) : Prop := {
  ai_open : as_closed (ap_stream s) = false → ap_before s = b ∧ ap_pending_terminal s = None;
  ai_before : ap_before s = b ∨ ap_before s = None;
  ai_end t : ap_pending_terminal s = Some t →
    gone (ap_child s) ∧ agy_is_terminal t = true ∧ is_agy_receipt t = false ∧
    ∃ r, AgyWriteReceipt r ∈ past;
  ai_pending u : ap_pending s = Some u → agy_is_terminal u = false ∧ is_agy_receipt u = false;
}.

(** An end is justified by what was found in the tree, a receipt by a snapshot. *)
Definition justified (b : option WorkspaceSnapshot) (trees : list fs_node)
    (past : list AgyRunUpdate) (u : AgyRunUpdate) : Prop :=
  (agy_is_terminal u = true → b = None ∨ (∃ r, AgyWriteReceipt r ∈ past) ∨
     ∃ before tree, b = Some before ∧ tree ∈ trees ∧ unwritten receipt_json before tree) ∧
  (is_agy_receipt u = true → is_Some b).

Record polled (b : option WorkspaceSnapshot) (trees : list fs_node) (past : list AgyRunUpdate)
    (s s' : AgyProcess) (o : option AgyRunUpdate) : Prop := {
  pd_inv : agy_inv b (past ++ option_list o) s';
  pd_gone : gone (ap_child s) → gone (ap_child s');
  pd_end u : o = Some u → agy_is_terminal u = true → gone (ap_child s');
  pd_just u : o = Some u → justified b trees past u;
}.

Definition told {E A} (r : outcome E (option A)) : option A := match r with Ok o => o | _ => None end.
Definition given {E A} (r : outcome E A) : option A := match r with Ok a => Some a | _ => None end.

Lemma polled_none b trees past s s' :
  agy_inv b past s' → (gone (ap_child s) → gone (ap_child s')) → polled b trees past s s' None.
Proof. intros Hi Hg. split; cbn; rewrite ?app_nil_r; done. Qed.

Lemma inv_told b past s u : agy_inv b past s → agy_inv b (past ++ [u]) s.
Proof.
  intros [Ho Hb He Hp]. split; try done. intros t Ht. destruct (He t Ht) as (? & ? & ? & r & Hr).
  split_and!; try done. exists r. apply elem_of_app. by left.
Qed.

(** An update that says nothing about the end. *)
Lemma polled_some b trees past s s' u :
  agy_inv b past s' → (gone (ap_child s) → gone (ap_child s')) →
  agy_is_terminal u = false → is_agy_receipt u = false → polled b trees past s s' (Some u).
Proof.
  intros Hi Hg Ht Hr. split; try done; [by apply inv_told|intros ? [= <-]; congruence|].
  intros ? [= <-]. split; congruence.
Qed.

Lemma order_terminal_post b tree past t s :
  as_closed (ap_stream s) = true → gone (ap_child s) → ap_before s = b →
  ap_pending_terminal s = None →
  (∀ u, ap_pending s = Some u → agy_is_terminal u = false ∧ is_agy_receipt u = false) →
  agy_is_terminal t = true → is_agy_receipt t = false →
  post (order_terminal receipt_json tree t) (λ s' r, polled b [tree] past s s' (given r)) s.
Proof.
  intros Hc Hg Hb Hn Hp Ht Hr.
  assert (Hi : ∀ past', agy_inv b past' (put_pending (ap_pending s) (ap_pending_terminal s) None s)).
  { intros past'. split; cbn; try done; [by rewrite Hc|by right|by rewrite Hn]. }
  unfold post, order_terminal. unself. rewrite Hb. destruct b as [before|]; cbn.
  2:{ split; try done. intros ? [= <-]. split; [by left|congruence]. }
  destruct (capture _ _ _) as [after| | |] eqn:Ea; cbn; try by apply polled_none.
  destruct (write_receipt _ _ _) as [[r|]| | |] eqn:Ew; cbn; try by apply polled_none.
  - split; cbn; try done; [|intros ? [= <-]; by split].
    split; cbn; try done; [by rewrite Hc|by right|]. intros ? [= <-]. split_and!; try done.
    exists r. apply elem_of_app. right. by left.
  - split; cbn; try done. intros ? [= <-]. split; [|congruence]. intros _. right. right.
    exists before, tree. split_and!; [done|by left|]. by exists after.
Qed.

Lemma closed_from_trans s1 s2 s3 : closed_from s1 s2 → closed_from s2 s3 → closed_from s1 s3.
Proof. unfold closed_from. intros (-> & -> & -> & -> & ?) (-> & -> & -> & -> & ?). auto 10. Qed.
Lemma inv_closed_from b past s s' : closed_from s s' → agy_inv b past s → agy_inv b past s'.
Proof.
  intros (Es & Ep & Et & Eb & Hg) [Ho Hb He Hp]. split; rewrite ?Es, ?Ep, ?Et, ?Eb; try done.
  intros t Ht. destruct (He t Ht) as (? & ?). auto.
Qed.
Lemma polled_from b trees past s s1 s' o :
  (gone (ap_child s) → gone (ap_child s1)) → polled b trees past s1 s' o → polled b trees past s s' o.
Proof. intros Hs [Hi Hg He Hj]. split; auto. Qed.

(** A local end or the end in a line, and what [order_terminal] makes of it. *)
Lemma ending_post b tree past m s :
  local_end m → agy_inv b past s → ap_pending_terminal s = None → gone (ap_child s) →
  post (terminal ← agy_stream_call m; update ← order_terminal receipt_json tree terminal;
        mret (Some update)) (λ s' r, polled b [tree] past s s' (told r)) s.
Proof.
  intros Hm [Ho Hb He Hp] Hn Hg. apply post_bind, post_zoom. unfold post at 1.
  destruct (m (ap_stream s)) as [st r] eqn:E. destruct (Hm _ _ _ E) as [Hc Hu]. cbn.
  assert (Hi : agy_inv b past (put_stream st s)).
  { split; cbn; try done. by rewrite Hc. }
  destruct r as [u|e| |]; cbn; try by apply polled_none.
  destruct (Hu u eq_refl) as (Hopen & Ht & Hr). destruct (Ho Hopen) as [Hbb _].
  apply post_bind. eapply post_mono; [by apply (order_terminal_post b tree past)|].
  intros s' r Hs. destruct r; unfold post; cbn; by (eapply polled_from; [|exact Hs]).
Qed.

Notation polls b tree past s := (λ s' r, polled b [tree] past s s' (told r)).

(** After a clean-up that succeeded; and when the method then fails. *)
Lemma clean_then b tree past grace s s1 (k : self AgyProcess AgyProcessError (option AgyRunUpdate)) :
  agy_inv b past s → closed_from s s1 →
  (∀ s2, closed_from s s2 → gone (ap_child s2) → post k (polls b tree past s) s2) →
  post (close_child cleanup grace ;; k) (polls b tree past s) s1.
Proof.
  intros Hi Hs1 Hk. apply post_bind. eapply post_mono; [apply close_child_post|].
  cbv beta. intros s2 r [Hs2 Hg]. pose proof (closed_from_trans _ _ _ Hs1 Hs2) as Hs12.
  destruct r as [[]|[]| |]; [by apply Hk, Hg|..];
    (apply polled_none; [by apply (inv_closed_from _ _ s)|apply Hs12]).
Qed.
Lemma clean_fail b tree past grace s s1 e :
  agy_inv b past s → closed_from s s1 →
  post (close_child cleanup grace ;; slift (Err e)) (polls b tree past s) s1.
Proof.
  intros Hi Hs1. apply clean_then; [done..|]. intros s2 Hs2 _.
  apply polled_none; [by apply (inv_closed_from _ _ s)|apply Hs2].
Qed.

Lemma inv_stream b past st s :
  agy_inv b past s → (as_closed (ap_stream s) = true → as_closed st = true) →
  agy_inv b past (put_stream st s).
Proof.
  intros [Ho Hb He Hp] Hc. split; cbn; try done. intros Hst. apply Ho.
  destruct (as_closed (ap_stream s)); [|done]. specialize (Hc eq_refl). congruence.
Qed.

(** A line, and what follows from its update. *)
Lemma line_post b tree past line at_ again s s1 :
  agy_inv b past s1 → ap_pending_terminal s1 = None → (gone (ap_child s) → gone (ap_child s1)) →
  (∀ s2, agy_inv b past s2 → ap_pending_terminal s2 = None →
         (gone (ap_child s) → gone (ap_child s2)) → post again (polls b tree past s) s2) →
  post (update ← agy_stream_call (consume_line line at_);
        match update with
        | Some update =>
            if agy_is_terminal update
            then reap cleanup ;; update ← order_terminal receipt_json tree update; mret (Some update)
            else mret (Some update)
        | None => again
        end) (polls b tree past s) s1.
Proof.
  intros Hi Hn Hg Hagain. apply post_bind, post_zoom. unfold post at 1.
  pose proof (consume_line_closes line at_ (ap_stream s1)) as Hcl.
  pose proof (src_keeps (AgyLine line at_) (ap_stream s1)) as Hk. cbn in Hk.
  destruct (consume_line line at_ (ap_stream s1)) as [st r] eqn:E. cbn in Hk |- *.
  destruct (Hk _ _ I eq_refl) as (_ & _ & Hkeep). clear Hk.
  assert (Hst := inv_stream b past st s1 Hi Hkeep). destruct r as [[u|]|e| |]; cbn.
  2:{ by apply Hagain. }
  2-4: by apply polled_none.
  destruct (Hcl _ _ eq_refl) as (Hopen & Hr & Hc). destruct (agy_is_terminal u) eqn:Ht.
  2:{ post_step. by apply polled_some. }
  eapply post_mono; [apply (clean_then b tree past _ (put_stream st s1)); [exact Hst|done|]|].
  2:{ cbv beta. intros s' r Hp. eapply polled_from; [|exact Hp]. done. }
  intros s2 Hs2 Hg2. apply post_bind. destruct Hs2 as (Es & Ep & Et & Eb & _). cbn in *.
  eapply post_mono.
  - apply (order_terminal_post b tree past); try done; [by rewrite Es, Hc|by rewrite Eb; apply Hi|by rewrite Et|].
    rewrite Ep. apply Hi.
  - intros s' r Hp. destruct r; unfold post; cbn; (eapply polled_from; [|exact Hp]); done.
Qed.

Lemma await_update_post b tree past fuel at_ deadline s :
  agy_inv b past s → ap_pending_terminal s = None →
  post (await_update receipt_json cleanup fuel tree at_ deadline) (polls b tree past s) s.
Proof.
  revert s. induction fuel as [|fuel IH]; intros s Hi Hn; [by apply polled_none|].
  assert (Hending : ∀ m s2, local_end m → closed_from s s2 → gone (ap_child s2) →
    post (terminal ← agy_stream_call m; update ← order_terminal receipt_json tree terminal;
          mret (Some update)) (polls b tree past s) s2).
  { intros m s2 Hm Hs2 Hg. eapply post_mono.
    - apply (ending_post b tree past); [done|by apply (inv_closed_from _ _ s)| |done]. by rewrite (proj1 (proj2 (proj2 Hs2))).
    - cbv beta. intros s' r Hp. eapply polled_from; [|exact Hp]. done. }
  assert (Hagain : ∀ s2, agy_inv b past s2 → ap_pending_terminal s2 = None →
    (gone (ap_child s) → gone (ap_child s2)) →
    post (await_update receipt_json cleanup fuel tree at_ deadline) (polls b tree past s) s2).
  { intros s2 Hi2 Hn2 Hg2. eapply post_mono; [by apply IH|].
    cbv beta. intros s' r Hp. by eapply polled_from. }
  clear IH. cbn [await_update]. generalize dependent (await_update receipt_json cleanup fuel tree at_ deadline).
  intros again Hagain. do 4 post_step. destruct (_ <=? _)%Z.
  { apply clean_then; [done..|]. intros s2 Hs2 Hg. by apply Hending; [apply timed_out_ends|..]. }
  destruct (match deadline with Some _ => _ | None => _ end).
  { post_step. by apply polled_none; [apply (inv_closed_from _ _ s)|]. }
  do 2 post_step. destruct (received _ _) as [[line|]| |].
  - do 2 post_step. destruct (checked_add _ _ _) as [d|]; [|by apply clean_fail].
    do 2 post_step. by apply line_post; [apply (inv_closed_from _ _ s)|..].
  - do 2 post_step. destruct (queue_failed _); [by apply clean_fail|].
    apply clean_then; [done..|]. intros s2 Hs2 Hg. do 2 post_step.
    by apply Hending; [apply stopped_ends|..].
  - by apply Hagain; [apply (inv_closed_from _ _ s)|..].
  - do 2 post_step. destruct (queue_failed _); [by apply clean_fail|].
    apply clean_then; [done..|]. intros s2 Hs2 Hg. do 2 post_step.
    by apply Hending; [apply stopped_ends|..].
Qed.

Lemma poll_update_post b tree past fuel at_ wait s :
  agy_inv b past s →
  post (agy_poll_update receipt_json cleanup fuel tree at_ wait) (polls b tree past s) s.
Proof.
  intros Hi. unfold agy_poll_update. do 2 post_step.
  assert (Hs1 : closed_from s (put_asked (S (ap_asked s)) s)) by done.
  assert (Hi1 := inv_closed_from _ _ _ _ Hs1 Hi).
  destruct (queue_failed _); [by apply clean_fail|]. do 2 post_step.
  destruct Hi as [Ho Hb He Hp]. cbn [ap_pending put_asked]. destruct (ap_pending s) as [u|] eqn:Epp.
  { do 3 post_step. destruct (Hp u eq_refl). apply polled_some; try done. }
  cbn [ap_pending_terminal put_asked]. destruct (ap_pending_terminal s) as [u|] eqn:Ept.
  { do 3 post_step. destruct (He u eq_refl) as (Hg & Ht & Hr & Hrc). split; cbn; try done.
    - split; cbn; try done. intros Hc. destruct (Ho Hc). done.
    - intros ? [= <-]. split; [by auto|congruence]. }
  do 2 post_step. eapply post_mono; [apply (await_update_post b tree past); [|done]|].
  { apply (inv_closed_from _ _ s); [done|by split; rewrite ?Epp, ?Ept]. }
  cbv beta. intros s' r Hq. eapply polled_from; [|exact Hq]. done.
Qed.

Lemma next_update_post b tree past polls fuel at_ s :
  agy_inv b past s →
  post (agy_next_update receipt_json cleanup polls fuel tree at_)
    (λ s' r, polled b [tree] past s s' (given r)) s.
Proof.
  revert s. induction polls as [|polls IH]; intros s Hi; [by apply polled_none|].
  cbn [agy_next_update]. do 3 post_step. eapply post_mono; [by apply poll_update_post|].
  cbv beta. intros s' r Hq. destruct r as [[u|]|e| |]; try exact Hq.
  eapply post_mono; [apply IH|].
  - destruct Hq as [Hi' _ _ _]. cbn in Hi'. by rewrite app_nil_r in Hi'.
  - cbv beta. intros s2 r Hr. eapply polled_from; [|exact Hr]. apply Hq.
Qed.

(** ** Runs of a process *)

Inductive agy_process_op :=
| AgyPoll (fuel : nat) (tree : fs_node) (occurred_at : string) (max_wait : Z)
| AgyNext (polls fuel : nat) (tree : fs_node) (occurred_at : string)
| AgyCancelAndClose
| AgyRequestCancellation (occurred_at : string).

Definition process_step (op : agy_process_op) (s : AgyProcess) : AgyProcess * option AgyRunUpdate :=
  match op with
  | AgyPoll fuel tree at_ wait =>
      let r := agy_poll_update receipt_json cleanup fuel tree at_ wait s in (r.1, told r.2)
  | AgyNext polls fuel tree at_ =>
      let r := agy_next_update receipt_json cleanup polls fuel tree at_ s in (r.1, given r.2)
  | AgyCancelAndClose => ((cancel_and_close cleanup s).1, None)
  | AgyRequestCancellation at_ =>
      let r := agy_request_cancellation cleanup at_ s in (r.1, given r.2)
  end.

Definition process_tree (op : agy_process_op) : list fs_node :=
  match op with AgyPoll _ tree _ _ | AgyNext _ _ tree _ => [tree] | _ => [] end.

Fixpoint process_run (ops : list agy_process_op) (s : AgyProcess) : AgyProcess * list AgyRunUpdate :=
  match ops with
  | [] => (s, [])
  | op :: ops =>
      let '(s, o) := process_step op s in
      let '(s, us) := process_run ops s in (s, option_list o ++ us)
  end.

Lemma request_cancellation_post b trees past at_ s :
  agy_inv b past s →
  post (agy_request_cancellation cleanup at_) (λ s' r, polled b trees past s s' (given r)) s.
Proof.
  intros Hi. unfold agy_request_cancellation. apply post_bind, post_zoom. unfold post at 1.
  pose proof (src_keeps (AgyCancellationStarted at_) (ap_stream s)) as Hk. cbn in Hk.
  destruct (cancellation_started at_ (ap_stream s)) as [st r] eqn:E. cbn in Hk |- *.
  destruct (Hk _ _ I eq_refl) as (_ & _ & Hkeep). assert (Hst := inv_stream b past st s Hi Hkeep).
  assert (Hu : ∀ u, r = Ok u → agy_is_terminal u = false ∧ is_agy_receipt u = false).
  { revert E. unfold cancellation_started, lifecycle_with_evidence. unself.
    destruct (_ || _); [by intros [= _ <-]|]. destruct (blank at_); [by intros [= _ <-]|]. cbn.
    destruct (checked_add _ _ _); cbn; intros [= _ <-]; [|done]. by intros ? [= <-]. }
  destruct r as [u|e| |]; cbn; try by apply polled_none.
  destruct (Hu u eq_refl) as [Ht Hr]. do 3 post_step. eapply post_mono; [apply close_child_post|].
  cbv beta. intros s2 r [Hs2 _]. assert (Hi2 : agy_inv b past s2).
  { eapply inv_closed_from; [exact Hs2|]. by apply (inv_closed_from _ _ (put_stream st s)). }
  destruct Hs2 as (_ & _ & _ & _ & Hg).
  destruct r as [[]|e| |]; unfold post; cbn; [by apply polled_some|by apply polled_none..].
Qed.

Lemma process_step_polled b past op s :
  agy_inv b past s →
  polled b (process_tree op) past s (process_step op s).1 (process_step op s).2.
Proof.
  intros Hi. destruct op as [fuel tree at_ wait|polls fuel tree at_| |at_]; cbn [process_step process_tree fst snd].
  - by apply poll_update_post.
  - by apply next_update_post.
  - pose proof (close_child_post 0 (put_cancellation s)) as [Hc _].
    apply polled_none; [eapply inv_closed_from; [exact Hc|]; by apply (inv_closed_from _ _ s)|apply Hc].
  - by apply request_cancellation_post.
Qed.

Lemma justified_mono b trees trees' past u :
  trees ⊆ trees' → justified b trees past u → justified b trees' past u.
Proof.
  intros Hs [Ht Hr]. split; [|done]. intros Hu.
  destruct (Ht Hu) as [?|[?|(x & tr & ? & ? & ?)]]; auto. right. right. exists x, tr. auto.
Qed.

Lemma process_run_gone ops b past s :
  agy_inv b past s → gone (ap_child s) → gone (ap_child (process_run ops s).1).
Proof.
  revert past s. induction ops as [|op ops IH]; intros past s Hi Hg; [done|]. cbn [process_run].
  destruct (process_step_polled b past op s Hi) as [Hi' Hg' _ _].
  destruct (process_step op s) as [s1 o]. cbn in *. specialize (IH _ _ Hi' (Hg' Hg)).
  by destruct (process_run ops s1).
Qed.

Lemma process_run_justified ops b past s :
  agy_inv b past s →
  ∀ i u, (process_run ops s).2 !! i = Some u →
    justified b (concat (map process_tree ops)) (past ++ take i (process_run ops s).2) u ∧
    (agy_is_terminal u = true → gone (ap_child (process_run ops s).1)).
Proof.
  revert past s. induction ops as [|op ops IH]; intros past s Hi i u; [done|]. cbn [process_run].
  destruct (process_step_polled b past op s Hi) as [Hi' Hg' He Hj].
  destruct (process_step op s) as [s1 o]. cbn in *. specialize (IH _ _ Hi').
  pose proof (process_run_gone ops b _ s1 Hi') as Hgone.
  destruct (process_run ops s1) as [s2 us]. cbn in *.
  assert (Hlater : ∀ j, us !! j = Some u →
    justified b (process_tree op ++ concat (map process_tree ops))
      ((past ++ option_list o) ++ take j us) u ∧ (agy_is_terminal u = true → gone (ap_child s2))).
  { intros j Hu. destruct (IH j u Hu) as [Hju Hgu]. split; [|done].
    eapply justified_mono; [|exact Hju]. intros x Hx. apply elem_of_app. by right. }
  destruct o as [v|]; cbn in *; [|by rewrite app_nil_r in Hlater; apply Hlater].
  destruct i as [|i]; cbn.
  - intros [= <-]. rewrite app_nil_r. split; [|intros Ht; by eapply Hgone, He].
    eapply justified_mono; [|by apply Hj]. intros x Hx. apply elem_of_app. by left.
  - intros Hu. specialize (Hlater i Hu). by rewrite <- app_assoc in Hlater.
Qed.

(** ** Starts *)

(** A start that fails says so, or leaves no child. *)
Definition clean_start {A} (s : agy_startup) (r : outcome AgyProcessError A) : Prop :=
  ∀ e, r = Err e → e = AgyCleanupUncertain ∨ gone (au_child s).

Lemma clean_lift {A} (r : outcome AgyProcessError A) (s : agy_startup) :
  gone (au_child s) → clean_start s r.
Proof. by right. Qed.

Lemma startup_failure_clean {A} e s : post (startup_failure (A := A) cleanup e) clean_start s.
Proof.
  unfold startup_failure. do 6 post_step. apply post_bind, post_zoom. unfold post at 1.
  destruct (shutdown _ _) as [c r] eqn:E. apply shutdown_left in E. cbn.
  destruct r as [[]|[]| |]; cbn; [|intros ? [= <-]; by left|done..].
  post_step. intros ? _. by right.
Qed.

Lemma acquire_clean host pid s : post (acquire cleanup host pid) clean_start s.
Proof.
  unfold acquire. do 2 post_step.
  apply post_bind. eapply (post_known _ _ _ _ (Ok true)); [reflexivity|].
  destruct (ah_writer host); [apply startup_failure_clean|]. cbv beta iota zeta delta [negb].
  do 2 post_step. apply post_bind. eapply (post_known _ _ _ _ (Ok true)); [reflexivity|].
  destruct (ah_reader host); [|apply startup_failure_clean]. cbv beta iota delta [negb].
  do 3 post_step. by intros.
Qed.

Lemma send_prompt_clean request stdin frame s :
  post (send_prompt cleanup request stdin frame) clean_start s.
Proof.
  unfold send_prompt. do 2 post_step. case_bool_decide; [apply startup_failure_clean|].
  do 2 post_step. destruct (write_frame_cancellable _ _ _) as [w r]. do 2 post_step.
  destruct r as [[]|e| |]; [..|by post_step|by post_step].
  - do 2 post_step. destruct (token_cancelled _); [apply startup_failure_clean|by post_step].
  - apply post_bind. destruct e; post_step; apply startup_failure_clean.
Qed.

(** What precedes the child: its failures leave none. *)
Lemma before_child {A B} (m : self agy_startup AgyProcessError A) (k : A → self agy_startup AgyProcessError B) s :
  gone (au_child s) → au_child (m s).1 = au_child s →
  (∀ a s', gone (au_child s') → post (k a) clean_start s') → post (m ≫= k) clean_start s.
Proof.
  intros Hg Hm Hk. apply post_bind. unfold post at 1. rewrite <- Hm in Hg.
  destruct (m s) as [s' [a|e| |]]; cbn in *; [by apply Hk|by right|done..].
Qed.

Lemma validate_child host request s : au_child (validate_request host request s).1 = au_child s.
Proof.
  unfold validate_request, start_ask. destruct (_ || _); [done|]. unself. by destruct (_ || _).
Qed.

Lemma spawn_clean host request s :
  gone (au_child s) → post (agy_spawn cleanup host request) clean_start s.
Proof.
  intros Hg. unfold agy_spawn. apply before_child; [done|apply validate_child|]. clear s Hg.
  intros _ s Hg. do 2 post_step. destruct (token_cancelled _); [post_step; by apply clean_lift|].
  apply before_child; [done|done|]. intros frame s1 Hg1.
  apply before_child; [done| |].
  { destruct (aq_read_only request); [done|]. unself. by destruct (capture _ _ _). }
  intros before s2 Hg2. destruct (ah_launcher host); cbv beta iota delta [negb]; [|post_step; by apply clean_lift].
  do 2 post_step. destruct (token_cancelled _); [post_step; by apply clean_lift|].
  apply before_child; [done|done|]. intros pid s3 _. apply post_bind.
  eapply post_mono; [apply acquire_clean|]. cbv beta. intros s4 [stdin|e| |] H4; [|intros ? [= <-]; auto|done..].
  apply post_bind. eapply post_mono; [apply send_prompt_clean|]. cbv beta.
  intros s5 [[]|e| |] H5; [|intros ? [= <-]; auto|done..].
  destruct (open_stream request) as [[st pending]|e| |]; [|apply startup_failure_clean|by post_step..].
  do 2 post_step. destruct (checked_add _ _ _); [|apply startup_failure_clean]. by do 3 post_step.
Qed.

Lemma spawn_started host request asked s p :
  agy_spawn cleanup host request (not_started asked) = (s, Ok p) →
  agy_inv (ap_before p) [] p ∧
  (if aq_read_only request then ap_before p = None else
   ∃ b, capture (aq_cwd request) (is_absolute (aq_cwd request)) (ah_tree host) = Ok b ∧
        ap_before p = Some b).
Proof.
  intros E. assert (E2 : (agy_spawn cleanup host request (not_started asked)).2 = Ok p) by by rewrite E.
  clear E. unfold agy_spawn in E2. apply bind_ok in E2 as (_ & s1 & _ & E2).
  apply bind_ok in E2 as (c1 & s2 & _ & E2). destruct c1; [done|].
  apply bind_ok in E2 as (frame & s3 & _ & E2). apply bind_ok in E2 as (before & s4 & Hb & E2).
  destruct (ah_launcher host); [|done]. apply bind_ok in E2 as (c2 & s5 & _ & E2). destruct c2; [done|].
  apply bind_ok in E2 as (pid & s6 & _ & E2). apply bind_ok in E2 as (stdin & s7 & _ & E2).
  apply bind_ok in E2 as (_ & s8 & _ & E2).
  assert (Hsf : ∀ e s, (startup_failure (A := AgyProcess) cleanup e s).2 ≠ Ok p).
  { intros e s9. unfold startup_failure, start_ask. unself. by destruct (shutdown _ _) as [c [[]| | |]]. }
  destruct (open_stream request) as [[st pending]|e| |] eqn:Eo; [|by apply Hsf in E2|done..].
  apply bind_ok in E2 as (now & s9 & _ & E2). destruct (checked_add _ _ _); [|by apply Hsf in E2].
  apply bind_ok in E2 as (self & s10 & _ & E2). injection E2 as <-. cbn. split.
  - split; cbn; try done; [by left|]. intros u ->. revert Eo. unfold open_stream.
    destruct (aq_conversation_id request); [|done]. destruct (agy_resuming _ _) as [st0| | |]; try done.
    cbn. unfold agy_recovery_started, lifecycle_with_evidence. unself.
    destruct (_ || _ || _); [done|]. destruct (blank _); [done|]. cbn.
    destruct (checked_add _ _ _); [|done]. cbn. by intros [= _ <-].
  - destruct (aq_read_only request); [by injection Hb as _ <-|]. revert Hb. unself.
    destruct (capture _ _ _) as [b| | |]; try done. cbn. intros [= _ <-]. by exists b.
Qed.

(** ** Waits end *)

Context (Hcleanup : ∀ n grace, returns (await_exit (sh_probes (cleanup n grace)))).

Notation returned := (λ _ r, returns r).

Lemma capture_returns root absolute tree : returns (capture root absolute tree).
Proof.
  unfold capture. apply returns_fail_if. intros _. apply returns_obind; [|by intros []].
  rewrite capture_node_leaves. generalize (leaves_are_leaves tree []). generalize (∅ : gmap path string, 0%Z).
  induction (leaves tree []) as [|[p n] ls IH]; intros st; [done|]. cbn.
  intros [Hl Hls]%andb_true_iff. apply returns_obind; [|intros; by apply IH].
  unfold visit_leaf. cbn. destruct n as [m c|[]| |]; try done. cbn. unfold capture_file. destruct st.
  solve_returns.
Qed.

Lemma close_returns grace s : post (close_child cleanup grace) returned s.
Proof.
  unfold close_child. do 6 post_step. unfold post, attempt. unself.
  assert (Hr : ∀ c n, returns (shutdown (cleanup n grace) c).2).
  { intros c n. unfold shutdown. destruct (oc_cleanup_failed c); [done|]. unfold shutdown_inner. unself.
    destruct (oc_child c); [|done]. specialize (Hcleanup n grace).
    destruct (await_exit _) as [[]|[]| |]; try done. cbn.
    destruct (_ <? _)%Z; [done|]. destruct (_ <=? _)%Z; [done|].
    by destruct (sh_group (cleanup n grace)), (sh_wait (cleanup n grace)). }
  match goal with |- context [shutdown (cleanup ?n grace) ?c] => specialize (Hr c n);
    destruct (shutdown (cleanup n grace) c) as [c' [[]|[]| |]] end; done.
Qed.

Lemma order_returns tree u s : post (order_terminal receipt_json tree u) returned s.
Proof.
  unfold order_terminal. do 4 post_step. destruct (ap_before s) as [b|]; [|by post_step].
  apply post_bind. pose proof (capture_returns (wsn_root b) (is_absolute (wsn_root b)) tree) as Hc.
  destruct (capture _ _ _) as [a| | |]; post_step; cbn; try done. apply post_bind.
  assert (Hw : returns (write_receipt receipt_json b a)).
  { unfold write_receipt. apply returns_fail_if. intros _. by destruct (_ =? 0). }
  destruct (write_receipt _ _ _) as [[r|]| | |]; post_step; cbn; try done.
Qed.

Lemma local_terminal_returns st ty kind key at_ s : returns (agy_local_terminal st ty kind key at_ s).2.
Proof.
  unfold agy_local_terminal, lifecycle_with_evidence. unself. destruct (as_closed s); [done|].
  destruct (blank at_); [done|]. cbn. by destruct (checked_add _ _ _).
Qed.

Lemma timed_out_returns at_ s : returns (timed_out at_ s).2.
Proof. unfold timed_out. apply local_terminal_returns. Qed.
Lemma stopped_returns (b : bool) at_ s : returns ((if b then cancelled at_ else crashed at_) s).2.
Proof. destruct b; [unfold cancelled|unfold crashed]; apply local_terminal_returns. Qed.

Lemma ending_returns m tree s :
  (∀ s, returns (m s).2) →
  post (terminal ← agy_stream_call m; update ← order_terminal receipt_json tree terminal;
        mret (Some update)) returned s.
Proof.
  intros Hm. apply post_bind, post_zoom. unfold post at 1. specialize (Hm (ap_stream s)).
  destruct (m (ap_stream s)) as [st [u|e| |]]; cbn in *; try done. apply post_bind.
  eapply post_mono; [apply order_returns|]. cbv beta. by intros s' [] Hr.
Qed.

Lemma close_then {A} grace (k : self AgyProcess AgyProcessError A) s :
  (∀ s', post k returned s') → post (close_child cleanup grace ;; k) returned s.
Proof.
  intros Hk. apply post_bind. eapply post_mono; [apply close_returns|]. cbv beta.
  by intros s' [] Hr; try apply Hk.
Qed.

Lemma agy_await_returns tree at_ od D (N fuel : nat) s :
  (∀ n, N ≤ n → (D < instant n)%Z ∨ ∃ d, od = Some d ∧ (d ≤ instant n)%Z) →
  (instant_max ≤ D)%Z → (ap_inactivity_deadline s ≤ D)%Z →
  N - ap_asked s < fuel → post (await_update receipt_json cleanup fuel tree at_ od) returned s.
Proof.
  intros HN HD. revert s. induction fuel as [|fuel IH]; intros s Hs Hf; [lia|].
  assert (Hagain : ∀ s', ap_asked s < ap_asked s' → (ap_inactivity_deadline s' ≤ D)%Z → ap_asked s < N →
    post (await_update receipt_json cleanup fuel tree at_ od) returned s') by (intros; apply IH; lia).
  clear IH. cbn [await_update]. generalize dependent (await_update receipt_json cleanup fuel tree at_ od).
  intros again Hagain. do 4 post_step. cbn [ap_inactivity_deadline put_asked].
  assert (Hend : ∀ m s, (∀ s, returns (m s).2) →
    post (terminal ← agy_stream_call m; update ← order_terminal receipt_json tree terminal;
          mret (Some update)) returned s) by (intros; by apply ending_returns).
  destruct (Z.leb_spec (ap_inactivity_deadline s) (instant (ap_asked s))).
  { apply close_then. intros. apply Hend. apply timed_out_returns. }
  destruct (match od with Some _ => _ | None => _ end) eqn:Hod; [by post_step|].
  assert (ap_asked s < N).
  { apply Nat.nle_gt. intros Hle. destruct (HN _ Hle) as [?|(d & -> & Hd)]; [lia|]. apply Z.leb_gt in Hod. lia. }
  do 2 post_step. destruct (received _ _) as [[line|]| |].
  - do 2 post_step. destruct (checked_add _ _ _) as [d|] eqn:Ed.
    2:{ apply close_then. intros. by post_step. }
    do 2 post_step. apply post_bind, post_zoom. unfold post at 1.
    assert (Hd : (d ≤ D)%Z) by (unfold checked_add in Ed; case_bool_decide; simplify_eq; lia).
    pose proof (consume_line_follows line at_ (ap_stream s)) as [_ Hl].
    cbn [ap_stream put_deadline put_asked].
    destruct (consume_line line at_ (ap_stream s)) as [st [[u|]|e| |]]; cbn [map_err fst snd] in *; try done.
    + destruct (agy_is_terminal u); [|by post_step]. apply close_then. intros s'. apply post_bind.
      eapply post_mono; [apply order_returns|]. cbv beta. by intros s2 [] Hr.
    + apply Hagain; cbn; [lia|done|done].
  - do 2 post_step. destruct (queue_failed _); [apply close_then; intros; by post_step|].
    apply close_then. intros. do 2 post_step. apply Hend. apply stopped_returns.
  - apply Hagain; cbn; [lia|done|done].
  - do 2 post_step. destruct (queue_failed _); [apply close_then; intros; by post_step|].
    apply close_then. intros. do 2 post_step. apply Hend. apply stopped_returns.
Qed.

(** The observation of a poll that reads the clock at [n] and is to take [wait]. *)
Definition observation (n : nat) (wait : Z) : option Z := checked_add instant_max (instant n) wait.

(** The rounds of a poll end when the clock has passed either deadline. *)
Lemma poll_update_returns tree at_ wait (N fuel : nat) s :
  (∀ n, N ≤ n → (Z.max instant_max (ap_inactivity_deadline s) < instant n)%Z ∨
     ∃ d, observation (S (ap_asked s)) wait = Some d ∧ (d ≤ instant n)%Z) →
  N - ap_asked s < fuel →
  returns (agy_poll_update receipt_json cleanup fuel tree at_ wait s).2.
Proof.
  intros HN Hf.
  change (post (agy_poll_update receipt_json cleanup fuel tree at_ wait) returned s).
  unfold agy_poll_update. do 2 post_step. destruct (queue_failed _); [apply close_then; intros; by post_step|].
  do 2 post_step. cbn [ap_pending put_asked]. destruct (ap_pending s); [by do 3 post_step|].
  cbn [ap_pending_terminal put_asked]. destruct (ap_pending_terminal s); [by do 3 post_step|].
  do 2 post_step. eapply (agy_await_returns tree at_ _ _ N); [exact HN|lia|cbn; lia|cbn; lia].
Qed.

End process.
