(* ===== verification/Protocol.v ===== *)
(** * Wire records

    Models [crates/bastet-protocol/src/lib.rs]: the commands that clients send
    to the daemon and the receipts they get.  A receipt's [protocol_version] is
    always [PROTOCOL_VERSION]; the records below leave that field out. *)
From Corelib Require Import Floats.SpecFloat.
From S2P Require Import Prelude Policy Identity Catalog Approval.
From S2P Require Import Deliverable Graph Execution M3.

Definition PROTOCOL_VERSION : Z := 1.

Inductive DaemonLifecycle :=
| LcStarting | LcReady | LcCheckpointing | LcSuspended | LcStopping | LcRecovering.
#[export] Instance DaemonLifecycle_eq_dec : EqDecision DaemonLifecycle.
Proof. solve_decision. Defined.

Record DaemonSnapshot := {
  dsn_daemon_id : Uuid;
  dsn_revision : Z;
  dsn_lifecycle : DaemonLifecycle;
}.

(** The values that [serde_json::json!] builds for an event. *)
Inductive json_value :=
| JNull
| JNumber (n : Z)
| JUuid (id : Uuid)
| JText (s : string).
Notation payload := (list (string * json_value)).

Record EventEnvelope := {
  ee_event_id : Uuid;
  ee_sequence : Z;
  ee_event_type : string;
  ee_occurred_at : string;
  ee_payload : payload;
}.

Record CheckpointCommand := { cc_expected_revision : Z; cc_reason : string }.
Record CheckpointReceipt := {
  cpr_checkpoint_id : Uuid;
  cpr_revision : Z;
  cpr_event_sequence : Z;
}.

Record CatalogSnapshot := { csn_revision : Z; csn_catalog : IdentityCatalog }.
Record ReplaceCatalogCommand := { rc_expected_revision : Z; rc_catalog : IdentityCatalog }.
Record CatalogReceipt := { ctr_revision : Z; ctr_event_sequence : Z }.
Record M3CatalogSnapshot := { msn_revision : Z; msn_catalog : M3Catalog }.
Record ReplaceM3CatalogCommand := { rm_expected_revision : Z; rm_catalog : M3Catalog }.

Record GraphExecutionReceipt := {
  ger_execution_id : GraphRunId;
  ger_revision : Z;
  ger_event_sequence : Z;
}.
Record RetryFailedGraphNodeCommand := {
  rf_node_id : GraphNodeId;
  rf_expected_graph_revision : Z;
}.

Record PrepareMvpCommand := {
  pm_expected_catalog_revision : Z;
  pm_expected_m3_revision : Z;
  pm_project_name : string;
  pm_workspace_root : string;
  pm_codex_model : string;
  pm_agy_model : string;
}.
Record PrepareMvpReceipt := {
  pmr_project_id : ProjectId;
  pmr_meeting_id : MeetingId;
  pmr_catalog_revision : Z;
  pmr_m3_revision : Z;
  pmr_event_sequence : Z;
}.
Record AcceptDecisionBaselineCommand := {
  ab_expected_m3_revision : Z;
  ab_meeting_id : MeetingId;
  ab_content : string;
  ab_accepted_by : string;
  ab_accepted_at : string;
}.
Record AcceptDecisionBaselineReceipt := {
  abr_baseline_id : DecisionBaselineId;
  abr_graph_execution_id : GraphRunId;
  abr_m3_revision : Z;
  abr_event_sequence : Z;
}.

Record BeginGraphNodeRunCommand := {
  bg_expected_catalog_revision : Z;
  bg_expected_graph_revision : Z;
  bg_node_id : GraphNodeId;
  bg_owner : string;
}.

(** ** The selected identity of a launch *)

Record ProviderCredentialSelection := {
  pcs_reference_id : CredentialReferenceId;
  pcs_backend : CredentialBackend;
  pcs_service : string;
  pcs_account_label : string;
}.
Record ProviderAccountSelection := {
  pas_account_id : AccountId;
  pas_provider_identity : string;
  pas_credential : option ProviderCredentialSelection;
}.
Record ProviderLaunchIdentity := {
  pli_agent_instance_id : AgentInstanceId;
  pli_agent_provider_id : AgentProviderId;
  pli_project_id : ProjectId;
  pli_model_id : ModelId;
  pli_adapter_kind : string;
  pli_model : string;
  pli_account : option ProviderAccountSelection;
}.
#[export] Instance ProviderCredentialSelection_eq_dec : EqDecision ProviderCredentialSelection.
Proof. solve_decision. Defined.
#[export] Instance ProviderAccountSelection_eq_dec : EqDecision ProviderAccountSelection.
Proof. solve_decision. Defined.
#[export] Instance ProviderLaunchIdentity_eq_dec : EqDecision ProviderLaunchIdentity.
Proof. solve_decision. Defined.

Record BeginGraphNodeRunReceipt := {
  br_execution_id : GraphRunId;
  br_node_id : GraphNodeId;
  br_session_id : SessionId;
  br_run_id : RunId;
  br_launch_identity : option ProviderLaunchIdentity;
  br_adapter_kind : string;
  br_model : string;
  br_workspace_root : string;
  br_prompt : string;
  br_catalog_revision : Z;
  br_graph_revision : Z;
  br_event_sequence : Z;
}.

Record FinishGraphNodeRunCommand := {
  fg_expected_catalog_revision : Z;
  fg_expected_graph_revision : Z;
  fg_expected_m3_revision : Z;
  fg_node_id : GraphNodeId;
  fg_run_id : RunId;
  fg_owner : string;
  fg_terminal_state : NormalizedRunState;
  fg_failure : option AdapterFailure;
  fg_provider_session_id : option string;
  fg_output_markdown : option string;
  fg_cost : CostEvidence;
}.
Record FinishGraphNodeRunReceipt := {
  fgr_execution_id : GraphRunId;
  fgr_node_id : GraphNodeId;
  fgr_run_id : RunId;
  fgr_cost_record_id : CostRecordId;
  fgr_output_content_hash : option string;
  fgr_catalog_revision : Z;
  fgr_graph_revision : Z;
  fgr_m3_revision : Z;
  fgr_event_sequence : Z;
}.

Record CreateDocumentCommand := {
  cd_expected_m3_revision : Z;
  cd_graph_execution_id : GraphRunId;
  cd_title : string;
  cd_markdown : string;
}.
Record DocumentReceipt := {
  dcr_artifact_id : ArtifactId;
  dcr_version_id : ArtifactVersionId;
  dcr_content_hash : string;
  dcr_m3_revision : Z;
  dcr_event_sequence : Z;
}.
Record AcceptDocumentCommand := {
  ad_expected_m3_revision : Z;
  ad_artifact_id : ArtifactId;
  ad_version_id : ArtifactVersionId;
  ad_content_hash : string;
  ad_accepted_by : string;
  ad_accepted_at : string;
}.
Record PrepareKnowledgeDeliveryCommand := {
  pk_expected_m3_revision : Z;
  pk_project_id : ProjectId;
  pk_artifact_version_id : ArtifactVersionId;
  pk_target : KnowledgeTarget;
  pk_preview : string;
}.
Record CompleteKnowledgeDeliveryCommand := {
  ck_expected_m3_revision : Z;
  ck_delivery_id : KnowledgeDeliveryId;
  ck_destination_receipt : string;
}.
Record KnowledgeDeliveryReceipt := {
  kdr_delivery_id : KnowledgeDeliveryId;
  kdr_state : DeliveryState;
  kdr_m3_revision : Z;
  kdr_event_sequence : Z;
}.
Record RecordCostCommand := { rk_expected_m3_revision : Z; rk_record : CostLedgerRecord }.
Record CostReceipt := {
  kr_cost_record_id : CostRecordId;
  kr_m3_revision : Z;
  kr_event_sequence : Z;
}.

Record DecideApprovalCommand := {
  da_decision : ApprovalDecision;
  da_credential_scope_acknowledged : bool;
}.

Inductive StagedLaunchState :=
| SlAwaitingApproval | SlReady | SlCancelled | SlDispatching | SlUncertain.
#[export] Instance StagedLaunchState_eq_dec : EqDecision StagedLaunchState.
Proof. solve_decision. Defined.

Record ApprovalRecord := {
  apr_request : ApprovalRequest;
  apr_decision : option ApprovalDecision;
  apr_staged_launch_state : option StagedLaunchState;
}.
Record ApprovalReceipt := {
  apt_request_id : ApprovalRequestId;
  apt_event_sequence : Z;
}.

Record CredentialGrantRecord := {
  cg_request : ApprovalRequest;
  cg_decision : ApprovalDecision;
  cg_issued_at_ms : Z;
  cg_consumed_at_ms : option Z;
  cg_revoked_at_ms : option Z;
  cg_revoked_by : option string;
}.

Record CancelRunReceipt := {
  crr_run_id : RunId;
  crr_catalog_revision : Z;
  crr_event_sequence : Z;
}.
