(* ===== verification/Store.v ===== *)
(** * The daemon's database

    Models the tables of [crates/bastet-daemon/src/lib.rs] ([apply_migrations],
    schema version 13) and the statements the daemon executes on them, with the
    constraints of the schema.  A column of JSON text holds the value it was
    written from, or [Malformed] text, which [serde_json] refuses; a column of
    identifiers holds the identifier.

    A method of [Store] is a computation of the monad [M]: it reads and writes
    the tables, reads the clock, draws identifiers, and returns an [outcome].
    [transact] is the mutex guard with an immediate transaction: what is not
    committed is rolled back, and a panic poisons the mutex. *)
From stdpp Require Export sorting pretty.
From S2P Require Import Prelude Policy Identity Catalog Office Meeting.
From S2P Require Import Deliverable Approval Graph Execution M3 Mvp Protocol.

(** ** Errors *)

(** The text of an [InvalidM3] and its siblings: a literal, or the [to_string] of
    an error of the core crate. *)
Inductive message :=
| Said (s : string)
| OfM3 (e : M3Error)
| OfMvp (e : MvpError)
| OfDeliverable (e : DeliverableError).

Inductive StoreError :=
| Database
| RevisionConflict (expected actual : Z)
| UnsupportedSchemaVersion (actual supported : Z)
| InvalidLifecycle (expected actual : string)
| Poisoned
| InvalidCatalog (e : CatalogError)
| Serialization
| InvalidApproval (e : ApprovalError)
| ApprovalNotFound
| ApprovalConflict
| CredentialGrantNotFound
| CredentialGrantRejected
| RevisionOverflow
| RunNotFound
| InvalidRunState (state : string)
| RunControlRejected
| ProviderRunsActive
| InvalidGraph (e : GraphError)
| InvalidM3 (text : message)
| InvalidMvp (text : message)
| InvalidDocument (text : message)
| InvalidCost (text : message)
| GraphNotFound
| GraphConflict.

(** ** Launch plans (provider_launch.rs) *)

Record LaunchPolicySnapshot := {
  lps_project : ScopedPolicy;
  lps_role : ScopedPolicy;
}.
Record ProviderLaunchPlan := {
  lp_version : Z;
  lp_execution_id : GraphRunId;
  lp_node_id : GraphNodeId;
  lp_session_id : SessionId;
  lp_run_id : RunId;
  lp_attempt : Z;
  lp_role_id : RoleId;
  lp_owner : string;
  lp_identity : ProviderLaunchIdentity;
  lp_workspace_root : string;
  lp_prompt : string;
  lp_policy : option LaunchPolicySnapshot;
}.
#[export] Instance LaunchPolicySnapshot_eq_dec : EqDecision LaunchPolicySnapshot.
Proof. solve_decision. Defined.
#[export] Instance ProviderLaunchPlan_eq_dec : EqDecision ProviderLaunchPlan.
Proof. solve_decision. Defined.

(** ** Tables *)

Inductive json (A : Type) := Text (a : A) | Malformed.
Arguments Text {A} a.
Arguments Malformed {A}.

(** [serde_json::from_str]. *)
Definition from_str {A} (j : json A) : outcome StoreError A :=
  match j with Text a => Ok a | Malformed => Err Serialization end.

Record daemon_row := { dr_daemon_id : Uuid; dr_revision : Z; dr_lifecycle : string }.
Record checkpoint_row := {
  cw_checkpoint_id : Uuid; cw_revision : Z; cw_event_sequence : Z; cw_reason : string;
  cw_created_at : string }.
Record catalog_row (A : Type) := {
  ct_revision : Z; ct_catalog : json A; ct_updated_at : string }.
Arguments ct_revision {A} c.
Arguments ct_catalog {A} c.
Arguments ct_updated_at {A} c.
Record graph_row := {
  gw_revision : Z; gw_execution : json GraphExecution; gw_updated_at : string }.
Record node_run_row := {
  nw_execution_id : GraphRunId; nw_node_id : GraphNodeId; nw_attempt : Z;
  nw_created_at : string; nw_finished_at : option string;
  nw_terminal_state : option NormalizedRunState; nw_failure : option AdapterFailure;
  nw_launch_identity : option (json ProviderLaunchIdentity) }.
Record output_row := {
  ow_execution_id : GraphRunId; ow_node_id : GraphNodeId; ow_content_hash : string;
  ow_markdown : string; ow_created_at : string }.
Record approval_row := {
  aw_rowid : nat; aw_request_hash : string; aw_request : json ApprovalRequest;
  aw_expires_at_ms : Z; aw_decision : option (json ApprovalDecision);
  aw_created_at : string; aw_decided_at : option string }.
Record grant_row := {
  gr_issued_at_ms : Z; gr_consumed_at_ms : option Z; gr_revoked_at_ms : option Z;
  gr_revoked_by : option string }.
Record plan_row := { pw_plan : json ProviderLaunchPlan; pw_hash : string }.
Record staged_row := {
  sw_request_id : ApprovalRequestId; sw_state : StagedLaunchState; sw_staged_at_ms : Z;
  sw_finished_at_ms : option Z; sw_cancel_reason : option string }.
Record claim_row := { cl_request_id : ApprovalRequestId; cl_claimed_at_ms : Z }.

(** The database.  [d_events] is the journal in the order of its sequence
    numbers; a table with a key column is a map from the key. *)
Record db := {
  d_daemon : daemon_row;
  d_events : list EventEnvelope;
  d_checkpoints : list checkpoint_row;
  d_identity : catalog_row IdentityCatalog;
  d_m3 : catalog_row M3Catalog;
  d_graphs : gmap GraphRunId graph_row;
  d_runs : gmap RunId node_run_row;
  d_outputs : gmap RunId output_row;
  d_approvals : gmap ApprovalRequestId approval_row;
  d_grants : gmap ApprovalRequestId grant_row;
  d_plans : gmap RunId plan_row;
  d_staged : gmap RunId staged_row;
  d_claims : gmap RunId claim_row;
}.

Definition put_daemon (d : db) (x : daemon_row) : db :=
  {| d_daemon := x; d_events := d_events d; d_checkpoints := d_checkpoints d;
     d_identity := d_identity d; d_m3 := d_m3 d; d_graphs := d_graphs d; d_runs := d_runs d;
     d_outputs := d_outputs d; d_approvals := d_approvals d; d_grants := d_grants d;
     d_plans := d_plans d; d_staged := d_staged d; d_claims := d_claims d |}.
Definition put_events (d : db) (x : list EventEnvelope) : db :=
  {| d_daemon := d_daemon d; d_events := x; d_checkpoints := d_checkpoints d; d_identity :=
     d_identity d; d_m3 := d_m3 d; d_graphs := d_graphs d; d_runs := d_runs d; d_outputs :=
     d_outputs d; d_approvals := d_approvals d; d_grants := d_grants d; d_plans := d_plans d;
     d_staged := d_staged d; d_claims := d_claims d |}.
Definition put_checkpoints (d : db) (x : list checkpoint_row) : db :=
  {| d_daemon := d_daemon d; d_events := d_events d; d_checkpoints := x; d_identity :=
     d_identity d; d_m3 := d_m3 d; d_graphs := d_graphs d; d_runs := d_runs d; d_outputs :=
     d_outputs d; d_approvals := d_approvals d; d_grants := d_grants d; d_plans := d_plans d;
     d_staged := d_staged d; d_claims := d_claims d |}.
Definition put_identity (d : db) (x : catalog_row IdentityCatalog) : db :=
  {| d_daemon := d_daemon d; d_events := d_events d; d_checkpoints := d_checkpoints d;
     d_identity := x; d_m3 := d_m3 d; d_graphs := d_graphs d; d_runs := d_runs d; d_outputs :=
     d_outputs d; d_approvals := d_approvals d; d_grants := d_grants d; d_plans := d_plans d;
     d_staged := d_staged d; d_claims := d_claims d |}.
Definition put_m3 (d : db) (x : catalog_row M3Catalog) : db :=
  {| d_daemon := d_daemon d; d_events := d_events d; d_checkpoints := d_checkpoints d;
     d_identity := d_identity d; d_m3 := x; d_graphs := d_graphs d; d_runs := d_runs d;
     d_outputs := d_outputs d; d_approvals := d_approvals d; d_grants := d_grants d; d_plans
     := d_plans d; d_staged := d_staged d; d_claims := d_claims d |}.
Definition put_graphs (d : db) (x : gmap GraphRunId graph_row) : db :=
  {| d_daemon := d_daemon d; d_events := d_events d; d_checkpoints := d_checkpoints d;
     d_identity := d_identity d; d_m3 := d_m3 d; d_graphs := x; d_runs := d_runs d; d_outputs
     := d_outputs d; d_approvals := d_approvals d; d_grants := d_grants d; d_plans := d_plans
     d; d_staged := d_staged d; d_claims := d_claims d |}.
Definition put_runs (d : db) (x : gmap RunId node_run_row) : db :=
  {| d_daemon := d_daemon d; d_events := d_events d; d_checkpoints := d_checkpoints d;
     d_identity := d_identity d; d_m3 := d_m3 d; d_graphs := d_graphs d; d_runs := x;
     d_outputs := d_outputs d; d_approvals := d_approvals d; d_grants := d_grants d; d_plans
     := d_plans d; d_staged := d_staged d; d_claims := d_claims d |}.
Definition put_outputs (d : db) (x : gmap RunId output_row) : db :=
  {| d_daemon := d_daemon d; d_events := d_events d; d_checkpoints := d_checkpoints d;
     d_identity := d_identity d; d_m3 := d_m3 d; d_graphs := d_graphs d; d_runs := d_runs d;
     d_outputs := x; d_approvals := d_approvals d; d_grants := d_grants d; d_plans := d_plans
     d; d_staged := d_staged d; d_claims := d_claims d |}.
Definition put_approvals (d : db) (x : gmap ApprovalRequestId approval_row) : db :=
  {| d_daemon := d_daemon d; d_events := d_events d; d_checkpoints := d_checkpoints d;
     d_identity := d_identity d; d_m3 := d_m3 d; d_graphs := d_graphs d; d_runs := d_runs d;
     d_outputs := d_outputs d; d_approvals := x; d_grants := d_grants d; d_plans := d_plans d;
     d_staged := d_staged d; d_claims := d_claims d |}.
Definition put_grants (d : db) (x : gmap ApprovalRequestId grant_row) : db :=
  {| d_daemon := d_daemon d; d_events := d_events d; d_checkpoints := d_checkpoints d;
     d_identity := d_identity d; d_m3 := d_m3 d; d_graphs := d_graphs d; d_runs := d_runs d;
     d_outputs := d_outputs d; d_approvals := d_approvals d; d_grants := x; d_plans := d_plans
     d; d_staged := d_staged d; d_claims := d_claims d |}.
Definition put_plans (d : db) (x : gmap RunId plan_row) : db :=
  {| d_daemon := d_daemon d; d_events := d_events d; d_checkpoints := d_checkpoints d;
     d_identity := d_identity d; d_m3 := d_m3 d; d_graphs := d_graphs d; d_runs := d_runs d;
     d_outputs := d_outputs d; d_approvals := d_approvals d; d_grants := d_grants d; d_plans
     := x; d_staged := d_staged d; d_claims := d_claims d |}.
Definition put_staged (d : db) (x : gmap RunId staged_row) : db :=
  {| d_daemon := d_daemon d; d_events := d_events d; d_checkpoints := d_checkpoints d;
     d_identity := d_identity d; d_m3 := d_m3 d; d_graphs := d_graphs d; d_runs := d_runs d;
     d_outputs := d_outputs d; d_approvals := d_approvals d; d_grants := d_grants d; d_plans
     := d_plans d; d_staged := x; d_claims := d_claims d |}.
Definition put_claims (d : db) (x : gmap RunId claim_row) : db :=
  {| d_daemon := d_daemon d; d_events := d_events d; d_checkpoints := d_checkpoints d;
     d_identity := d_identity d; d_m3 := d_m3 d; d_graphs := d_graphs d; d_runs := d_runs d;
     d_outputs := d_outputs d; d_approvals := d_approvals d; d_grants := d_grants d; d_plans
     := d_plans d; d_staged := d_staged d; d_claims := x |}.

(** ** The monad

    [clock] and [uuid] are the readings of the system clock, in milliseconds
    since the epoch, and the identifiers drawn, in the order of the calls;
    [commits] tells which transactions the database fails to execute. *)

Class Environment := {
  clock : nat → Z;
  uuid : nat → Uuid;
  commits : nat → bool;
}.

(** The database, how far the three sequences have been read, and whether the
    mutex is poisoned. *)
Record world := {
  w_db : db;
  w_clock : nat;
  w_uuid : nat;
  w_commits : nat;
  w_poisoned : bool;
}.
Definition with_db (w : world) (d : db) : world :=
  {| w_db := d; w_clock := w_clock w; w_uuid := w_uuid w; w_commits := w_commits w;
     w_poisoned := w_poisoned w |}.

Definition M (A : Type) := world → outcome StoreError A * world.

Definition mret {A} (a : A) : M A := λ w, (Ok a, w).
Definition throw {A} (e : StoreError) : M A := λ w, (Err e, w).
Definition lift {A} (o : outcome StoreError A) : M A := λ w, (o, w).
Definition mbind {A B} (m : M A) (k : A → M B) : M B := λ w,
  match m w with
  | (Ok a, w) => k a w
  | (Err e, w) => (Err e, w)
  | (Panic, w) => (Panic, w)
  | (Diverge, w) => (Diverge, w)
  end.
Definition get : M db := λ w, (Ok (w_db w), w).
Definition modify (f : db → db) : M unit := λ w, (Ok tt, with_db w (f (w_db w))).

Declare Scope store_scope.
Delimit Scope store_scope with store.
Notation "'let!' x ':=' m 'in' k" := (mbind m (λ x, k))
  (at level 10, x pattern, m at level 100, k at level 200) : store_scope.
Notation "m ';>' k" := (mbind m (λ _, k))
  (at level 199, right associativity) : store_scope.
Notation "'reject' b 'with' e ';;' k" := (if (b : bool) then throw e else k)
  (at level 199, b at level 99, e at level 99, k at level 199) : store_scope.
Open Scope store_scope.

(** [result.map_err(f)?] with the conversion of the error. *)
Definition try {E A} (f : E → StoreError) (o : outcome E A) : M A := lift (map_err f o).
Definition parse {A} (j : json A) : M A := lift (from_str j).
Definition required {A} (o : option A) (e : StoreError) : M A := lift (ok_or o e).

(** A loop over rows. *)
Fixpoint for_rows {A} (f : A → M unit) (l : list A) : M unit :=
  match l with
  | [] => mret tt
  | x :: r => f x ;> for_rows f r
  end.

Definition I64_MAX : Z := 2 ^ 63 - 1.

(** A [u64] bound to a statement: [rusqlite] refuses what does not fit an [i64]. *)
Definition sql_u64 (n : Z) : M unit := reject (I64_MAX <? n)%Z with Database;; mret tt.

(** [revision.checked_add(1).ok_or(RevisionOverflow)] *)
Definition next_revision (n : Z) : M Z := required (checked_add U64_MAX n 1) RevisionOverflow.

(** [format!] of a number. *)
Definition decimal (n : Z) : string := pretty (Z.to_N n).

Section environment.
Context `{Environment}.

(** [self.connection()] and [transaction_with_behavior], up to the return of the
    method: [commits] decides whether the database accepts the transaction. *)
Definition transact {A} (m : M A) : M A := λ w,
  if w_poisoned w then (Err Poisoned, w) else
  let back r w' := (r, {| w_db := w_db w; w_clock := w_clock w'; w_uuid := w_uuid w';
                          w_commits := S (w_commits w);
                          w_poisoned := match r with Panic => true | _ => false end |}) in
  match m w with
  | (Ok a, w') =>
      if commits (w_commits w)
      then (Ok a, {| w_db := w_db w'; w_clock := w_clock w'; w_uuid := w_uuid w';
                     w_commits := S (w_commits w); w_poisoned := false |})
      else back (Err Database) w'
  | (r, w') => back r w'
  end.

(** [SystemTime::now().duration_since(UNIX_EPOCH)] *)
Definition now : M Z := λ w,
  (Ok (clock (w_clock w)),
   {| w_db := w_db w; w_clock := S (w_clock w); w_uuid := w_uuid w;
      w_commits := w_commits w; w_poisoned := w_poisoned w |}).

(** [Uuid::new_v4()] and the [new] of the identifiers. *)
Definition new_v4 : M Uuid := λ w,
  (Ok (uuid (w_uuid w)),
   {| w_db := w_db w; w_clock := w_clock w; w_uuid := S (w_uuid w);
      w_commits := w_commits w; w_poisoned := w_poisoned w |}).
Definition new_id {k} : M (stable_id k) := let! u := new_v4 in mret (mk_id u).

Definition timestamp : M string :=
  let! t := now in
  if (t <? 0)%Z then lift Panic else mret (decimal t).

Definition now_ms : M Z :=
  let! t := now in
  reject (t <? 0)%Z || (I64_MAX <? t)%Z with CredentialGrantRejected;;
  mret t.

Definition entity_metadata {k} (id : stable_id k) (source_id : string) : M (EntityMetadata k) :=
  let! now := timestamp in
  mret {| em_id := id; em_revision := 0; em_created_at := now; em_updated_at := now;
          em_provenance := {| pv_source_kind := "local_user"; pv_source_id := source_id;
                              pv_recorded_by := "bastet-daemon" |};
          em_lifecycle := Active |}.

(** ** Statements *)

Definition insert_event (event_type : string) (p : payload) : M EventEnvelope :=
  let! event_id := new_v4 in
  let! occurred_at := timestamp in
  let! d := get in
  let event := {| ee_event_id := event_id; ee_sequence := Z.of_nat (S (length (d_events d)));
                  ee_event_type := event_type; ee_occurred_at := occurred_at;
                  ee_payload := p |} in
  modify (λ d, put_events d (d_events d ++ [event])) ;>
  mret event.

Definition update_identity (revision : Z) (catalog : IdentityCatalog) (updated_at : string)
    : M unit :=
  sql_u64 revision ;>
  modify (λ d, put_identity d {| ct_revision := revision; ct_catalog := Text catalog;
                                 ct_updated_at := updated_at |}).

Definition update_m3 (revision : Z) (catalog : M3Catalog) (updated_at : string) : M unit :=
  sql_u64 revision ;>
  modify (λ d, put_m3 d {| ct_revision := revision; ct_catalog := Text catalog;
                           ct_updated_at := updated_at |}).

Definition row_of_execution (execution : GraphExecution) (updated_at : string) : graph_row :=
  {| gw_revision := ge_revision execution; gw_execution := Text execution;
     gw_updated_at := updated_at |}.

(** [UPDATE graph_executions ... WHERE execution_id=id] *)
Definition update_graph_row (id : GraphRunId) (execution : GraphExecution) (updated_at : string)
    : M unit :=
  sql_u64 (ge_revision execution) ;>
  modify (λ d, put_graphs d
    (alter (λ _, row_of_execution execution updated_at) id (d_graphs d))).

(** [INSERT OR IGNORE INTO graph_executions]: whether a row was inserted. *)
Definition insert_graph_or_ignore (execution : GraphExecution) (updated_at : string) : M bool :=
  sql_u64 (ge_revision execution) ;>
  let! d := get in
  if bool_decide (is_Some (d_graphs d !! ge_id execution)) then mret false else
  modify (λ d, put_graphs d
    (<[ge_id execution := row_of_execution execution updated_at]> (d_graphs d))) ;>
  mret true.

Definition insert_graph (execution : GraphExecution) (updated_at : string) : M unit :=
  let! inserted := insert_graph_or_ignore execution updated_at in
  reject negb inserted with Database;; mret tt.

(** The attempts of a node, and the first of [ORDER BY attempt DESC]: the
    attempts of one node are distinct. *)
Definition attempts (d : db) (execution : GraphRunId) (node : GraphNodeId)
    : list (RunId * node_run_row) :=
  List.filter (λ r, bool_decide (nw_execution_id r.2 = execution)
                    && bool_decide (nw_node_id r.2 = node)) (map_to_list (d_runs d)).
Definition max_attempt (l : list (RunId * node_run_row)) : Z :=
  foldr (λ r m, Z.max (nw_attempt r.2) m) 0%Z l.
Definition latest_attempt (d : db) (execution : GraphRunId) (node : GraphNodeId)
    : option (RunId * node_run_row) :=
  let l := attempts d execution node in
  List.find (λ r, bool_decide (nw_attempt r.2 = max_attempt l)) l.

(** [INSERT INTO graph_node_runs]: the run is new, and so is the attempt of the
    node. *)
Definition insert_node_run (run : RunId) (row : node_run_row) : M unit :=
  sql_u64 (nw_attempt row) ;>
  let! d := get in
  reject bool_decide (is_Some (d_runs d !! run))
         || existsb (λ r, bool_decide (nw_attempt r.2 = nw_attempt row))
              (attempts d (nw_execution_id row) (nw_node_id row))
         || (nw_attempt row <? 1)%Z with Database;;
  modify (λ d, put_runs d (<[run := row]> (d_runs d))).

Definition finish_row (finished_at : string) (state : NormalizedRunState)
    (failure : option AdapterFailure) (row : node_run_row) : node_run_row :=
  {| nw_execution_id := nw_execution_id row; nw_node_id := nw_node_id row;
     nw_attempt := nw_attempt row; nw_created_at := nw_created_at row;
     nw_finished_at := Some finished_at; nw_terminal_state := Some state;
     nw_failure := failure; nw_launch_identity := nw_launch_identity row |}.

(** [UPDATE graph_node_runs SET finished_at, terminal_state, failure_json] with
    the rest of its [WHERE] clause: whether a row was updated. *)
Definition finish_node_run (only : node_run_row → bool) (run : RunId) (finished_at : string)
    (state : NormalizedRunState) (failure : option AdapterFailure) : M bool :=
  let! d := get in
  match d_runs d !! run with
  | Some row =>
      if only row then
        modify (λ d, put_runs d (<[run := finish_row finished_at state failure row]> (d_runs d))) ;>
        mret true
      else mret false
  | None => mret false
  end.

(** [INSERT INTO graph_node_outputs]. *)
Definition insert_output (execution : GraphRunId) (output : GraphNodeOutput) (created_at : string)
    : M unit :=
  let! d := get in
  reject bool_decide (is_Some (d_outputs d !! no_run_id output))
         || bool_decide (d_runs d !! no_run_id output = None)
         || (str_len (no_markdown output) <? 1)%Z
         || (262144 <? str_len (no_markdown output))%Z with Database;;
  modify (λ d, put_outputs d
    (<[no_run_id output :=
         {| ow_execution_id := execution; ow_node_id := no_node_id output;
            ow_content_hash := no_content_hash output; ow_markdown := no_markdown output;
            ow_created_at := created_at |}]> (d_outputs d))).

(** [INSERT OR IGNORE INTO approval_requests]: the id and the hash are new. *)
Definition insert_approval_or_ignore (request : ApprovalRequest) (created_at : string) : M bool :=
  sql_u64 (ar_expires_at_ms request) ;>
  let! d := get in
  if bool_decide (is_Some (d_approvals d !! ar_id request))
     || existsb (λ r, bool_decide (aw_request_hash r.2 = ar_request_hash request))
          (map_to_list (d_approvals d))
  then mret false else
  modify (λ d, put_approvals d
    (<[ar_id request :=
         {| aw_rowid := S (size (d_approvals d)); aw_request_hash := ar_request_hash request;
            aw_request := Text request; aw_expires_at_ms := ar_expires_at_ms request;
            aw_decision := None; aw_created_at := created_at; aw_decided_at := None |}]>
       (d_approvals d))) ;>
  mret true.

Definition decided_row (decision : ApprovalDecision) (decided_at : string) (row : approval_row)
    : approval_row :=
  {| aw_rowid := aw_rowid row; aw_request_hash := aw_request_hash row;
     aw_request := aw_request row; aw_expires_at_ms := aw_expires_at_ms row;
     aw_decision := Some (Text decision); aw_created_at := aw_created_at row;
     aw_decided_at := Some decided_at |}.

(** [UPDATE approval_requests SET decision_json ... AND decision_json IS NULL] *)
Definition decide_row (id : ApprovalRequestId) (decision : ApprovalDecision) (decided_at : string)
    : M bool :=
  let! d := get in
  match d_approvals d !! id with
  | Some row =>
      if bool_decide (is_Some (aw_decision row)) then mret false else
      modify (λ d, put_approvals d
        (<[id := decided_row decision decided_at row]> (d_approvals d))) ;>
      mret true
  | None => mret false
  end.

(** [INSERT INTO credential_grants]. *)
Definition insert_grant (id : ApprovalRequestId) (issued_at_ms : Z) : M unit :=
  sql_u64 issued_at_ms ;>
  let! d := get in
  reject bool_decide (is_Some (d_grants d !! id)) || bool_decide (d_approvals d !! id = None)
    with Database;;
  modify (λ d, put_grants d
    (<[id := {| gr_issued_at_ms := issued_at_ms; gr_consumed_at_ms := None;
                gr_revoked_at_ms := None; gr_revoked_by := None |}]> (d_grants d))).

Definition unspent (row : grant_row) : bool :=
  bool_decide (gr_consumed_at_ms row = None) && bool_decide (gr_revoked_at_ms row = None).

(** [UPDATE credential_grants SET consumed_at_ms ... WHERE ... IS NULL], with the
    constraint on the time. *)
Definition consume_row (id : ApprovalRequestId) (now : Z) : M bool :=
  sql_u64 now ;>
  let! d := get in
  match d_grants d !! id with
  | Some row =>
      if unspent row then
        reject (now <? gr_issued_at_ms row)%Z with Database;;
        modify (λ d, put_grants d
          (<[id := {| gr_issued_at_ms := gr_issued_at_ms row; gr_consumed_at_ms := Some now;
                      gr_revoked_at_ms := None; gr_revoked_by := gr_revoked_by row |}]>
             (d_grants d))) ;>
        mret true
      else mret false
  | None => mret false
  end.

(** [UPDATE credential_grants SET revoked_at_ms, revoked_by ... WHERE ... IS NULL],
    the time computed from the row. *)
Definition revoke_row (id : ApprovalRequestId) (at_ : grant_row → Z) (by_ : string) : M bool :=
  let! d := get in
  match d_grants d !! id with
  | Some row =>
      if unspent row then
        sql_u64 (at_ row) ;>
        reject (at_ row <? gr_issued_at_ms row)%Z with Database;;
        modify (λ d, put_grants d
          (<[id := {| gr_issued_at_ms := gr_issued_at_ms row; gr_consumed_at_ms := None;
                      gr_revoked_at_ms := Some (at_ row); gr_revoked_by := Some by_ |}]>
             (d_grants d))) ;>
        mret true
      else mret false
  | None => mret false
  end.

(** [INSERT INTO provider_launch_plans]: the trigger refuses a second plan. *)
Definition insert_plan (run : RunId) (plan : ProviderLaunchPlan) (hash : string) : M unit :=
  let! d := get in
  reject bool_decide (is_Some (d_plans d !! run)) with Database;;
  modify (λ d, put_plans d (<[run := {| pw_plan := Text plan; pw_hash := hash |}]> (d_plans d))).

(** The launch staged for a request: [request_id] is unique. *)
Definition staged_for (d : db) (id : ApprovalRequestId) : option (RunId * staged_row) :=
  List.find (λ r, bool_decide (sw_request_id r.2 = id)) (map_to_list (d_staged d)).

(** [INSERT INTO staged_provider_launches]. *)
Definition insert_staged (run : RunId) (request : ApprovalRequestId) (staged_at_ms : Z) : M unit :=
  sql_u64 staged_at_ms ;>
  let! d := get in
  reject bool_decide (is_Some (d_staged d !! run)) || bool_decide (is_Some (staged_for d request))
         || (staged_at_ms <? 0)%Z with Database;;
  modify (λ d, put_staged d
    (<[run := {| sw_request_id := request; sw_state := SlAwaitingApproval;
                 sw_staged_at_ms := staged_at_ms; sw_finished_at_ms := None;
                 sw_cancel_reason := None |}]> (d_staged d))).

Definition move_staged (state : StagedLaunchState) (row : staged_row) : staged_row :=
  {| sw_request_id := sw_request_id row; sw_state := state;
     sw_staged_at_ms := sw_staged_at_ms row; sw_finished_at_ms := sw_finished_at_ms row;
     sw_cancel_reason := sw_cancel_reason row |}.
Definition in_launch_state (states : list StagedLaunchState) (row : staged_row) : bool :=
  bool_decide (sw_state row ∈ states).

(** [UPDATE staged_provider_launches SET state=to WHERE request_id=id AND state IN
    (from)]: whether a row was updated.  The state [cancelled] is set together
    with its time and reason, and no other. *)
Definition move_request (id : ApprovalRequestId) (from : list StagedLaunchState)
    (f : staged_row → staged_row) : M bool :=
  let! d := get in
  match staged_for d id with
  | Some (run, row) =>
      if in_launch_state from row then
        modify (λ d, put_staged d (<[run := f row]> (d_staged d))) ;> mret true
      else mret false
  | None => mret false
  end.

Definition cancelled_row (finished_at_ms : Z) (reason : string) (row : staged_row) : staged_row :=
  {| sw_request_id := sw_request_id row; sw_state := SlCancelled;
     sw_staged_at_ms := sw_staged_at_ms row; sw_finished_at_ms := Some finished_at_ms;
     sw_cancel_reason := Some reason |}.

(** [INSERT INTO provider_dispatch_claims]. *)
Definition insert_claim (run : RunId) (request : ApprovalRequestId) (claimed_at_ms : Z) : M unit :=
  sql_u64 claimed_at_ms ;>
  let! d := get in
  reject bool_decide (is_Some (d_claims d !! run))
         || existsb (λ r, bool_decide (cl_request_id r.2 = request)) (map_to_list (d_claims d))
    with Database;;
  modify (λ d, put_claims d
    (<[run := {| cl_request_id := request; cl_claimed_at_ms := claimed_at_ms |}]> (d_claims d))).

End environment.
