(* ===== verification/StoreLogic.v ===== *)
(** * Reasoning about the store

    A partial-correctness logic for the monad of Store.v: [wp m Q d] says that
    when [m], started on the database [d], returns [Ok a], then [Q a] holds of
    the database it leaves; an error is rolled back by [transact], so nothing
    need be said of it.  [wp_step] executes a computation symbolically.  [pres]
    and [safe] are the invariance of a predicate within a transaction and
    across transactions; with a preorder [R d0] for the predicate they say that
    every change follows [R]. *)
From S2P Require Import Prelude Policy Identity Catalog Office Meeting.
From S2P Require Import Deliverable Approval Graph Execution M3 Mvp Protocol Store.

Section logic.
Context `{Environment}.

Definition wp {A} (m : M A) (Q : A → db → Prop) (d : db) : Prop :=
  ∀ w a w', w_db w = d → m w = (Ok a, w') → Q a (w_db w').

Lemma wp_ret {A} (a : A) Q d : Q a d → wp (mret a) Q d.
Proof. intros HQ w b w' <- [= <- <-]. done. Qed.
Lemma wp_throw {A} e (Q : A → db → Prop) d : wp (throw e) Q d.
Proof. by intros w b w' _ [=]. Qed.
Lemma wp_lift {A} (o : outcome StoreError A) Q d : (∀ a, o = Ok a → Q a d) → wp (lift o) Q d.
Proof. intros HQ w b w' <- [= -> <-]. auto. Qed.
Lemma wp_bind {A B} (m : M A) (k : A → M B) Q d :
  wp m (λ a, wp (k a) Q) d → wp (mbind m k) Q d.
Proof.
  intros Hm w b w' Hd E. unfold mbind in E. destruct (m w) as [[a| | |] w1] eqn:Em; try done.
  by apply (Hm w a w1 Hd Em w1 b w').
Qed.
Lemma wp_get Q d : Q d d → wp get Q d.
Proof. intros HQ w b w' <- [= <- <-]. done. Qed.
Lemma wp_modify f Q d : Q tt (f d) → wp (modify f) Q d.
Proof. intros HQ w b w' <- [= <- <-]. done. Qed.
Lemma wp_reject {A} (b : bool) e (k : M A) Q d :
  (b = false → wp k Q d) → wp (reject b with e;; k) Q d.
Proof. destruct b; [intros _; apply wp_throw|auto]. Qed.
Lemma wp_mono {A} (m : M A) (P Q : A → db → Prop) d :
  wp m P d → (∀ a d', P a d' → Q a d') → wp m Q d.
Proof. intros Hm HPQ w a w' Hd E. eauto. Qed.
Lemma wp_conj {A} (m : M A) (P Q : A → db → Prop) d :
  wp m P d → wp m Q d → wp m (λ a d', P a d' ∧ Q a d') d.
Proof. intros HP HQ w a w' Hd E. split; eauto. Qed.

Lemma wp_try {E A} (f : E → StoreError) (o : outcome E A) Q d :
  (∀ a, o = Ok a → Q a d) → wp (try f o) Q d.
Proof. intros HQ. apply wp_lift. intros a Ha%map_err_ok. auto. Qed.
Lemma wp_parse {A} (j : json A) Q d : (∀ a, j = Text a → Q a d) → wp (parse j) Q d.
Proof. intros HQ. apply wp_lift. destruct j; intros ? [=]; subst; auto. Qed.
Lemma wp_required {A} (o : option A) e Q d :
  (∀ a, o = Some a → Q a d) → wp (required o e) Q d.
Proof. intros HQ. apply wp_lift. intros a Ha%ok_or_ok. auto. Qed.
Lemma wp_sql_u64 n Q d : ((n ≤ I64_MAX)%Z → Q tt d) → wp (sql_u64 n) Q d.
Proof. intros HQ. apply wp_reject. intros ?%Z.ltb_ge. apply wp_ret; auto. Qed.
Lemma wp_next_revision n Q d : Q (n + 1)%Z d → wp (next_revision n) Q d.
Proof.
  intros HQ. apply wp_required. unfold checked_add. intros a. case_bool_decide; [|done].
  by intros [= <-].
Qed.

Lemma wp_now Q d : (∀ t, Q t d) → wp now Q d.
Proof. intros HQ w b w' <- [= <- <-]. apply HQ. Qed.
Lemma wp_new_v4 Q d : (∀ u, Q u d) → wp new_v4 Q d.
Proof. intros HQ w b w' <- [= <- <-]. apply HQ. Qed.
Lemma wp_new_id {k} (Q : stable_id k → db → Prop) d : (∀ u, Q u d) → wp new_id Q d.
Proof. intros HQ. apply wp_bind, wp_new_v4. intros u. by apply wp_ret. Qed.
Lemma wp_timestamp Q d : (∀ t, Q t d) → wp timestamp Q d.
Proof.
  intros HQ. apply wp_bind, wp_now. intros t. destruct (_ <? _)%Z; [by apply wp_lift|].
  by apply wp_ret.
Qed.
Lemma wp_now_ms Q d : (∀ t, (0 ≤ t ≤ I64_MAX)%Z → Q t d) → wp now_ms Q d.
Proof.
  intros HQ. apply wp_bind, wp_now. intros t. apply wp_reject. intros E. apply wp_ret, HQ.
  apply orb_false_iff in E as [?%Z.ltb_ge ?%Z.ltb_ge]. lia.
Qed.
Lemma wp_entity_metadata {k} (id : stable_id k) s Q d :
  (∀ m, em_id m = id → Q m d) → wp (entity_metadata id s) Q d.
Proof. intros HQ. apply wp_bind, wp_timestamp. intros t. by apply wp_ret, HQ. Qed.

Lemma wp_insert_event ty p Q d :
  (∀ e, ee_sequence e = Z.of_nat (S (length (d_events d))) → ee_event_type e = ty →
        ee_payload e = p → Q e (put_events d (d_events d ++ [e]))) →
  wp (insert_event ty p) Q d.
Proof.
  intros HQ. apply wp_bind, wp_new_v4. intros u. apply wp_bind, wp_timestamp. intros t.
  apply wp_bind, wp_get, wp_bind, wp_modify, wp_ret. by apply HQ.
Qed.

Lemma wp_for_rows {A} (f : A → M unit) l (I : db → Prop) d :
  (∀ x d, x ∈ l → I d → wp (f x) (λ _, I) d) → I d → wp (for_rows f l) (λ _, I) d.
Proof.
  revert d. induction l as [|x l IH]; intros d Hf Hd; [by apply wp_ret|].
  apply wp_bind. eapply wp_mono; [apply Hf; [left|done]|]. intros [] d' Hd'.
  apply IH; [|done]. intros y d'' Hy. apply Hf. by right.
Qed.

(** With an invariant that speaks of the rows that are left. *)
Lemma wp_for_rows_rest {A} (f : A → M unit) l (I : list A → db → Prop) d :
  (∀ x l d, I (x :: l) d → wp (f x) (λ _, I l) d) → I l d → wp (for_rows f l) (λ _, I []) d.
Proof.
  intros Hf. revert d. induction l as [|x l IH]; intros d Hd; [by apply wp_ret|].
  apply wp_bind. eapply wp_mono; [by apply Hf|]. intros [] d' Hd'. by apply IH.
Qed.

(** ** Statements *)

Lemma wp_update_identity rev c t Q d :
  Q tt (put_identity d {| ct_revision := rev; ct_catalog := Text c; ct_updated_at := t |}) →
  wp (update_identity rev c t) Q d.
Proof. intros HQ. by apply wp_bind, wp_sql_u64; intros _; apply wp_modify. Qed.
Lemma wp_update_m3 rev m3 t Q d :
  Q tt (put_m3 d {| ct_revision := rev; ct_catalog := Text m3; ct_updated_at := t |}) →
  wp (update_m3 rev m3 t) Q d.
Proof. intros HQ. by apply wp_bind, wp_sql_u64; intros _; apply wp_modify. Qed.
Lemma wp_update_graph_row id e t Q d :
  Q tt (put_graphs d (alter (λ _, row_of_execution e t) id (d_graphs d))) →
  wp (update_graph_row id e t) Q d.
Proof. intros HQ. by apply wp_bind, wp_sql_u64; intros _; apply wp_modify. Qed.
Lemma wp_insert_graph_or_ignore e t Q d :
  (d_graphs d !! ge_id e = None →
   Q true (put_graphs d (<[ge_id e := row_of_execution e t]> (d_graphs d)))) →
  Q false d → wp (insert_graph_or_ignore e t) Q d.
Proof.
  intros Ht Hf. apply wp_bind, wp_sql_u64. intros _. apply wp_bind, wp_get.
  case_bool_decide as E; [by apply wp_ret|]. apply wp_bind, wp_modify, wp_ret, Ht.
  by apply eq_None_not_Some.
Qed.
Lemma wp_insert_graph e t Q d :
  (d_graphs d !! ge_id e = None →
   Q tt (put_graphs d (<[ge_id e := row_of_execution e t]> (d_graphs d)))) →
  wp (insert_graph e t) Q d.
Proof.
  intros Ht. apply wp_bind, wp_insert_graph_or_ignore.
  - intros. by apply wp_ret, Ht.
  - apply wp_throw.
Qed.
Lemma wp_insert_node_run run row Q d :
  (d_runs d !! run = None → (1 ≤ nw_attempt row)%Z →
   Q tt (put_runs d (<[run := row]> (d_runs d)))) →
  wp (insert_node_run run row) Q d.
Proof.
  intros HQ. apply wp_bind, wp_sql_u64. intros _. apply wp_bind, wp_get, wp_reject.
  intros ((E & _)%orb_false_iff & E'%Z.ltb_ge)%orb_false_iff. apply wp_modify, HQ; [|done].
  by apply bool_decide_eq_false, eq_None_not_Some in E.
Qed.
Lemma wp_finish_node_run only run t s f Q d :
  (∀ row, d_runs d !! run = Some row → only row = true →
   Q true (put_runs d (<[run := finish_row t s f row]> (d_runs d)))) →
  Q false d → wp (finish_node_run only run t s f) Q d.
Proof.
  intros Ht Hf. apply wp_bind, wp_get. destruct (d_runs d !! run) as [row|] eqn:E; [|by apply wp_ret].
  destruct (only row) eqn:Eo; [|by apply wp_ret]. apply wp_bind, wp_modify, wp_ret. by apply Ht.
Qed.
Lemma wp_insert_output id o t Q d :
  (d_outputs d !! no_run_id o = None → is_Some (d_runs d !! no_run_id o) →
   Q tt (put_outputs d (<[no_run_id o :=
     {| ow_execution_id := id; ow_node_id := no_node_id o; ow_content_hash := no_content_hash o;
        ow_markdown := no_markdown o; ow_created_at := t |}]> (d_outputs d)))) →
  wp (insert_output id o t) Q d.
Proof.
  intros HQ. apply wp_bind, wp_get, wp_reject.
  intros (((E & E')%orb_false_iff & _)%orb_false_iff & _)%orb_false_iff.
  apply bool_decide_eq_false, eq_None_not_Some in E. apply bool_decide_eq_false in E'.
  apply wp_modify, HQ; [done|]. by apply not_eq_None_Some.
Qed.
Lemma wp_insert_approval_or_ignore r t Q d :
  (d_approvals d !! ar_id r = None →
   (∀ id row, d_approvals d !! id = Some row → aw_request_hash row ≠ ar_request_hash r) →
   Q true (put_approvals d (<[ar_id r :=
     {| aw_rowid := S (size (d_approvals d)); aw_request_hash := ar_request_hash r;
        aw_request := Text r; aw_expires_at_ms := ar_expires_at_ms r; aw_decision := None;
        aw_created_at := t; aw_decided_at := None |}]> (d_approvals d)))) →
  Q false d → wp (insert_approval_or_ignore r t) Q d.
Proof.
  intros Ht Hf. apply wp_bind, wp_sql_u64. intros _. apply wp_bind, wp_get.
  destruct (_ || _) eqn:E; [by apply wp_ret|]. apply wp_bind, wp_modify, wp_ret.
  apply orb_false_iff in E as [E Eh]. apply Ht.
  - by apply bool_decide_eq_false, eq_None_not_Some in E.
  - intros id row Hrow. rewrite existsb_false in Eh.
    specialize (Eh (id, row)). rewrite elem_of_map_to_list in Eh.
    specialize (Eh Hrow). by apply bool_decide_eq_false in Eh.
Qed.
Lemma wp_decide_row id decision t Q d :
  (∀ row, d_approvals d !! id = Some row → aw_decision row = None →
   Q true (put_approvals d (<[id := decided_row decision t row]> (d_approvals d)))) →
  Q false d → wp (decide_row id decision t) Q d.
Proof.
  intros Ht Hf. apply wp_bind, wp_get. destruct (d_approvals d !! id) as [row|] eqn:E; [|by apply wp_ret].
  case_bool_decide as Eo; [by apply wp_ret|]. apply wp_bind, wp_modify, wp_ret.
  apply Ht; [done|]. by apply eq_None_not_Some.
Qed.
Lemma wp_insert_grant id t Q d :
  (d_grants d !! id = None → is_Some (d_approvals d !! id) →
   Q tt (put_grants d (<[id := {| gr_issued_at_ms := t; gr_consumed_at_ms := None;
     gr_revoked_at_ms := None; gr_revoked_by := None |}]> (d_grants d)))) →
  wp (insert_grant id t) Q d.
Proof.
  intros HQ. apply wp_bind, wp_sql_u64. intros _. apply wp_bind, wp_get, wp_reject.
  intros (E & E')%orb_false_iff. apply bool_decide_eq_false, eq_None_not_Some in E.
  apply bool_decide_eq_false in E'. apply wp_modify, HQ; [done|]. by apply not_eq_None_Some.
Qed.
Lemma wp_consume_row id t Q d :
  (∀ g, d_grants d !! id = Some g → unspent g = true → (gr_issued_at_ms g ≤ t)%Z →
   Q true (put_grants d (<[id := {| gr_issued_at_ms := gr_issued_at_ms g;
     gr_consumed_at_ms := Some t; gr_revoked_at_ms := None;
     gr_revoked_by := gr_revoked_by g |}]> (d_grants d)))) →
  Q false d → wp (consume_row id t) Q d.
Proof.
  intros Ht Hf. apply wp_bind, wp_sql_u64. intros _. apply wp_bind, wp_get.
  destruct (d_grants d !! id) as [g|] eqn:E; [|by apply wp_ret].
  destruct (unspent g) eqn:Eu; [|by apply wp_ret]. apply wp_reject. intros ?%Z.ltb_ge.
  apply wp_bind, wp_modify, wp_ret. by apply Ht.
Qed.
Lemma wp_revoke_row id at_ by_ Q d :
  (∀ g, d_grants d !! id = Some g → unspent g = true → (gr_issued_at_ms g ≤ at_ g)%Z →
   Q true (put_grants d (<[id := {| gr_issued_at_ms := gr_issued_at_ms g;
     gr_consumed_at_ms := None; gr_revoked_at_ms := Some (at_ g);
     gr_revoked_by := Some by_ |}]> (d_grants d)))) →
  ((∀ g, d_grants d !! id = Some g → unspent g = false) → Q false d) →
  wp (revoke_row id at_ by_) Q d.
Proof.
  intros Ht Hf. apply wp_bind, wp_get.
  destruct (d_grants d !! id) as [g|] eqn:E; [|by apply wp_ret, Hf].
  destruct (unspent g) eqn:Eu; [|apply wp_ret, Hf; by intros ? [= <-]].
  apply wp_bind, wp_sql_u64. intros _. apply wp_reject. intros ?%Z.ltb_ge.
  apply wp_bind, wp_modify, wp_ret. by apply Ht.
Qed.
Lemma wp_insert_plan run plan h Q d :
  (d_plans d !! run = None →
   Q tt (put_plans d (<[run := {| pw_plan := Text plan; pw_hash := h |}]> (d_plans d)))) →
  wp (insert_plan run plan h) Q d.
Proof.
  intros HQ. apply wp_bind, wp_get, wp_reject. intros E%bool_decide_eq_false%eq_None_not_Some.
  by apply wp_modify, HQ.
Qed.
Lemma wp_insert_staged run req t Q d :
  (d_staged d !! run = None → staged_for d req = None →
   Q tt (put_staged d (<[run := {| sw_request_id := req; sw_state := SlAwaitingApproval;
     sw_staged_at_ms := t; sw_finished_at_ms := None; sw_cancel_reason := None |}]>
     (d_staged d)))) →
  wp (insert_staged run req t) Q d.
Proof.
  intros HQ. apply wp_bind, wp_sql_u64. intros _. apply wp_bind, wp_get, wp_reject.
  intros ((E & E')%orb_false_iff & _)%orb_false_iff.
  apply bool_decide_eq_false, eq_None_not_Some in E, E'. by apply wp_modify, HQ.
Qed.

Lemma staged_for_Some d req run row :
  staged_for d req = Some (run, row) → d_staged d !! run = Some row ∧ sw_request_id row = req.
Proof.
  intros [Hin E]%find_Some_elem. apply elem_of_map_to_list in Hin.
  by apply bool_decide_eq_true in E.
Qed.
Lemma staged_for_None d req run row :
  staged_for d req = None → d_staged d !! run = Some row → sw_request_id row ≠ req.
Proof.
  unfold staged_for. rewrite find_None_elem. intros Hn Hrow.
  specialize (Hn (run, row)). rewrite elem_of_map_to_list in Hn. specialize (Hn Hrow).
  by apply bool_decide_eq_false in Hn.
Qed.
Lemma in_launch_state_true l row : in_launch_state l row = true ↔ sw_state row ∈ l.
Proof. apply bool_decide_eq_true. Qed.

Lemma wp_move_request id from f Q d :
  (∀ run row, d_staged d !! run = Some row → sw_request_id row = id → sw_state row ∈ from →
   staged_for d id = Some (run, row) →
   Q true (put_staged d (<[run := f row]> (d_staged d)))) →
  Q false d → wp (move_request id from f) Q d.
Proof.
  intros Ht Hf. apply wp_bind, wp_get.
  destruct (staged_for d id) as [[run row]|] eqn:E; [|by apply wp_ret].
  destruct (in_launch_state from row) eqn:Ei; [|by apply wp_ret].
  destruct (staged_for_Some _ _ _ _ E). apply in_launch_state_true in Ei.
  apply wp_bind, wp_modify, wp_ret. by apply Ht.
Qed.
Lemma wp_insert_claim run req t Q d :
  (d_claims d !! run = None →
   (∀ run' row', d_claims d !! run' = Some row' → cl_request_id row' ≠ req) →
   Q tt (put_claims d (<[run := {| cl_request_id := req; cl_claimed_at_ms := t |}]>
     (d_claims d)))) →
  wp (insert_claim run req t) Q d.
Proof.
  intros HQ. apply wp_bind, wp_sql_u64. intros _. apply wp_bind, wp_get, wp_reject.
  intros (E & Er)%orb_false_iff. apply bool_decide_eq_false, eq_None_not_Some in E.
  apply wp_modify, HQ; [done|]. intros run' row' Hrow. rewrite existsb_false in Er.
  specialize (Er (run', row')). rewrite elem_of_map_to_list in Er. specialize (Er Hrow).
  by apply bool_decide_eq_false in Er.
Qed.

(** ** Invariants *)

Definition pres {A} (I : db → Prop) (m : M A) : Prop := ∀ d, I d → wp m (λ _, I) d.

(** Whatever the result. *)
Definition safe {A} (I : db → Prop) (m : M A) : Prop :=
  ∀ w, I (w_db w) → I (w_db (m w).2).

Lemma safe_transact {A} I (m : M A) : pres I m → safe I (transact m).
Proof.
  intros Hm w Hw. unfold transact. destruct (w_poisoned w); [done|].
  destruct (m w) as [[a| | |] w'] eqn:Em; try done. destruct (commits _); [|done].
  exact (Hm _ Hw w a w' eq_refl Em).
Qed.
Lemma safe_bind {A B} I (m : M A) (k : A → M B) :
  safe I m → (∀ a, safe I (k a)) → safe I (mbind m k).
Proof.
  intros Hm Hk w Hw. specialize (Hm w Hw). unfold mbind.
  destruct (m w) as [[a| | |] w'] eqn:Em; try done. by apply Hk.
Qed.
Lemma safe_const {A} I (m : M A) : (∀ w, w_db (m w).2 = w_db w) → safe I m.
Proof. intros Hm w Hw. by rewrite Hm. Qed.

(** A failed transaction leaves the database as it was. *)
Lemma transact_rolls_back {A} (m : M A) w :
  is_ok (transact m w).1 = false → w_db (transact m w).2 = w_db w.
Proof.
  unfold transact. destruct (w_poisoned w); [done|].
  destruct (m w) as [[a| | |] w']; try done. by destruct (commits _).
Qed.
(** A transaction that succeeds does what its body does. *)
Lemma transact_ok {A} (m : M A) w a w' :
  transact m w = (Ok a, w') → ∃ w1, m w = (Ok a, w1) ∧ w_db w' = w_db w1.
Proof.
  unfold transact. destruct (w_poisoned w); [done|].
  destruct (m w) as [[b| | |] w1]; try done. destruct (commits _); [|done].
  intros [= <- <-]. eauto.
Qed.
Lemma transact_wp {A} (m : M A) Q w a w' :
  wp m Q (w_db w) → transact m w = (Ok a, w') → Q a (w_db w').
Proof. intros Hm (w1 & E & ->)%transact_ok. exact (Hm w a w1 eq_refl E). Qed.

Lemma try_bind_ok {E A B} (f : E → StoreError) (o : outcome E A) (k : A → M B) w b w' :
  mbind (try f o) k w = (Ok b, w') → ∃ a, o = Ok a ∧ k a w = (Ok b, w').
Proof. unfold mbind, try, lift. destruct o; try done. eauto. Qed.

(** *** The reading of the clock

    The same for a world: the first reading of a method is that of the clock
    when it was called. *)
Definition wpw {A} (m : M A) (Q : A → db → Prop) (w : world) : Prop :=
  ∀ a w', m w = (Ok a, w') → Q a (w_db w').

Lemma wpw_get {A} (k : db → M A) Q w : wpw (k (w_db w)) Q w → wpw (mbind get k) Q w.
Proof. done. Qed.
Lemma wpw_lift {A B} (o : outcome StoreError A) (k : A → M B) Q w :
  (∀ a, o = Ok a → wpw (k a) Q w) → wpw (mbind (lift o) k) Q w.
Proof. intros Hk b w'. unfold mbind, lift. destruct o; try done. by apply Hk. Qed.
Lemma wpw_reject {A} (b : bool) e (m : M A) Q w :
  (b = false → wpw m Q w) → wpw (reject b with e;; m) Q w.
Proof. destruct b; [done|auto]. Qed.
Lemma wpw_now_ms {A} (k : Z → M A) Q w :
  wp (k (clock (w_clock w))) Q (w_db w) → wpw (mbind now_ms k) Q w.
Proof.
  intros Hk b w'. unfold mbind at 1, now_ms, mbind, now. destruct (_ || _); [done|]. by apply Hk.
Qed.
Lemma transact_wpw {A} (m : M A) Q w a w' :
  wpw m Q w → transact m w = (Ok a, w') → Q a (w_db w').
Proof. intros Hm (w1 & E & ->)%transact_ok. by apply Hm. Qed.

(** *** Changes along a preorder *)

Lemma pres_bind {A B} I (m : M A) (k : A → M B) :
  pres I m → (∀ a, pres I (k a)) → pres I (mbind m k).
Proof. intros Hm Hk d Hd. apply wp_bind. eapply wp_mono; [by apply Hm|]. intros. by apply Hk. Qed.
Lemma pres_bind_get {B} I (k : db → M B) :
  (∀ d, I d → wp (k d) (λ _, I) d) → pres I (mbind get k).
Proof. intros Hk d Hd. apply wp_bind, wp_get. auto. Qed.

End logic.

(** [wp_read] executes reads and guards, [wp_write] one statement that writes. *)
Ltac wp_read1 :=
  lazymatch goal with
  | |- wp (mbind _ _) _ _ => apply wp_bind
  | |- wp (mret _) _ _ => apply wp_ret
  | |- wp (throw _) _ _ => apply wp_throw
  | |- wp get _ _ => apply wp_get
  | |- wp (try _ _) _ _ => apply wp_try; intros ? ?
  | |- wp (parse _) _ _ => apply wp_parse; intros ? ?
  | |- wp (required _ _) _ _ => apply wp_required; intros ? ?
  | |- wp (lift _) _ _ => apply wp_lift; intros ? ?
  | |- wp (sql_u64 _) _ _ => apply wp_sql_u64; intros ?
  | |- wp (next_revision _) _ _ => apply wp_next_revision
  | |- wp timestamp _ _ => apply wp_timestamp; intros ?
  | |- wp now_ms _ _ => apply wp_now_ms; intros ? ?
  | |- wp new_v4 _ _ => apply wp_new_v4; intros ?
  | |- wp new_id _ _ => apply wp_new_id; intros ?
  | |- wp (entity_metadata _ _) _ _ => apply wp_entity_metadata; intros ? ?
  | |- wp (if _ then throw _ else _) _ _ => apply wp_reject; intros ?
  | |- wp (let _ := _ in _) _ _ => progress cbv zeta
  | |- wp (match ?p with pair _ _ => _ end) _ _ => destruct p eqn:?
  end; cbv beta.
Ltac wp_read := repeat wp_read1.
Ltac wp_write :=
  lazymatch goal with
  | |- wp (insert_event _ _) _ _ => apply wp_insert_event; intros ? ? ? ?
  | |- wp (modify _) _ _ => apply wp_modify
  | |- wp (update_identity _ _ _) _ _ => apply wp_update_identity
  | |- wp (update_m3 _ _ _) _ _ => apply wp_update_m3
  | |- wp (update_graph_row _ _ _) _ _ => apply wp_update_graph_row
  | |- wp (insert_graph _ _) _ _ => apply wp_insert_graph; intros ?
  | |- wp (insert_graph_or_ignore _ _) _ _ => apply wp_insert_graph_or_ignore; [intros ?|]
  | |- wp (insert_node_run _ _) _ _ => apply wp_insert_node_run; intros ? ?
  | |- wp (finish_node_run _ _ _ _ _) _ _ => apply wp_finish_node_run; [intros ? ? ?|]
  | |- wp (insert_output _ _ _) _ _ => apply wp_insert_output; intros ? ?
  | |- wp (insert_approval_or_ignore _ _) _ _ =>
      apply wp_insert_approval_or_ignore; [intros ? ?|]
  | |- wp (decide_row _ _ _) _ _ => apply wp_decide_row; [intros ? ? ?|]
  | |- wp (insert_grant _ _) _ _ => apply wp_insert_grant; intros ? ?
  | |- wp (consume_row _ _) _ _ => apply wp_consume_row; [intros ? ? ? ?|]
  | |- wp (revoke_row _ _ _) _ _ => apply wp_revoke_row; [intros ? ? ? ?|intros ?]
  | |- wp (insert_plan _ _ _) _ _ => apply wp_insert_plan; intros ?
  | |- wp (insert_staged _ _ _) _ _ => apply wp_insert_staged; intros ? ?
  | |- wp (move_request _ _ _) _ _ => apply wp_move_request; [intros ? ? ? ? ? ?|]
  | |- wp (insert_claim _ _ _) _ _ => apply wp_insert_claim; intros ? ?
  end; cbv beta.
Ltac wp_match :=
  match goal with
  | |- wp (match ?x with _ => _ end) _ _ => destruct x eqn:?
  end.

(** Reads of a table that has been written, or not. *)
Ltac db_simpl :=
  cbn [d_daemon d_events d_checkpoints d_identity d_m3 d_graphs d_runs d_outputs d_approvals
       d_grants d_plans d_staged d_claims put_daemon put_events put_checkpoints put_identity put_m3
       put_graphs put_runs put_outputs put_approvals put_grants put_plans put_staged put_claims] in *.

(** From the result of a transaction to the execution of its body. *)
Ltac by_transact :=
  lazymatch goal with
  | |- transact ?m ?w = (Ok ?a, ?w') → _ =>
      let E := fresh in intros E; pattern a, (w_db w');
      lazymatch goal with |- ?Q _ _ => refine (transact_wp m Q w a w' _ E) end;
      cbv beta; clear E
  end.

(** The same with the steps up to the first reading of the clock. *)
Ltac by_clocked_transact :=
  lazymatch goal with
  | |- transact ?m ?w = (Ok ?a, ?w') → _ =>
      let E := fresh in intros E; pattern a, (w_db w');
      lazymatch goal with |- ?Q _ _ => refine (transact_wpw m Q w a w' _ E) end;
      clear E;
      repeat lazymatch goal with
      | |- wpw (mbind get _) _ _ => apply wpw_get
      | |- wpw (mbind (lift _) _) _ _ => apply wpw_lift; intros ? ?
      | |- wpw (if _ then throw _ else _) _ _ => apply wpw_reject; intros ?
      | |- wpw (mbind now_ms _) _ _ => apply wpw_now_ms
      end; cbv beta
  end.
