(* ===== verification/StagedLaunches.v ===== *)
(** * Staged launches

    Models [crates/bastet-daemon/src/staged_launches.rs]: a launch that uses a
    selected account is staged behind an approval; a decision makes it ready or
    cancels it, expiry cancels it, and recovery proves that what is stored of
    it is consistent. *)
From S2P Require Import Prelude Policy Identity Catalog Office Meeting.
From S2P Require Import Deliverable Approval Graph Execution M3 Mvp Protocol Store.
From S2P Require Import Launch.

Definition APPROVAL_TTL_MS : Z := 5 * 60 * 1000.

Definition jid {k} (id : stable_id k) : json_value := JUuid (value id).
Definition risk_name (risk : ApprovalRisk) : string :=
  match risk with Low => "low" | Medium => "medium" | High => "high" | Critical => "critical" end.

Definition load_catalog_row (d : db) : outcome StoreError (Z * IdentityCatalog) :=
  let? catalog := from_str (ct_catalog (d_identity d)) in
  map_err InvalidCatalog (validate_catalog catalog) ?;
  Ok (ct_revision (d_identity d), catalog).
Definition load_catalog (d : db) : outcome StoreError IdentityCatalog :=
  let? row := load_catalog_row d in Ok row.2.

(** The graph row of an execution, parsed: its revision and the execution. *)
Definition load_graph (d : db) (id : GraphRunId) : outcome StoreError (Z * GraphExecution) :=
  let? row := ok_or (d_graphs d !! id) GraphNotFound in
  let? execution := from_str (gw_execution row) in
  Ok (gw_revision row, execution).

(** [*executions.iter_mut().find(|candidate| candidate.id == execution.id)? = execution] *)
Definition replace_execution (executions : list GraphExecution) (execution : GraphExecution)
    : outcome StoreError (list GraphExecution) :=
  let same candidate := bool_decide (candidate.(ge_id) = execution.(ge_id)) in
  let? _ := ok_or (List.find same executions) GraphNotFound in
  Ok (update_first same (λ _, execution) executions).

Definition with_run (c : IdentityCatalog) (id : RunId) (f : Run → Run) : IdentityCatalog :=
  {| ic_credential_references := c.(ic_credential_references);
     ic_agent_providers := c.(ic_agent_providers); ic_model_providers := c.(ic_model_providers);
     ic_accounts := c.(ic_accounts); ic_models := c.(ic_models);
     ic_agent_instances := c.(ic_agent_instances); ic_projects := c.(ic_projects);
     ic_roles := c.(ic_roles); ic_sessions := c.(ic_sessions);
     ic_runs := update_first (has_metadata_id rn_metadata id) f c.(ic_runs) |}.

(** [metadata.revision.checked_add(1)?] and [metadata.updated_at = now]. *)
Definition touched {k} (m : EntityMetadata k) (now : string) : EntityMetadata k :=
  {| em_id := m.(em_id); em_revision := m.(em_revision) + 1; em_created_at := m.(em_created_at);
     em_updated_at := now; em_provenance := m.(em_provenance); em_lifecycle := m.(em_lifecycle) |}.

Definition run_in_state (state : NormalizedRunState) (started_at finished_at : option string)
    (now : string) (run : Run) : Run :=
  {| rn_metadata := touched run.(rn_metadata) now; rn_session_id := run.(rn_session_id);
     rn_model_id := run.(rn_model_id); rn_state := state; rn_started_at := started_at;
     rn_finished_at := finished_at |}.

Section staged.
Context `{Environment} `{Digest} `{Serializer} `{Formats}.

(** ** Checks *)

Definition approval_action (plan : ProviderLaunchPlan) : outcome StoreError ApprovalAction :=
  let? account := ok_or plan.(lp_identity).(pli_account) CredentialGrantRejected in
  let? credential := ok_or account.(pas_credential) CredentialGrantRejected in
  let policy :=
    {| sp_layer := SingleRun;
       sp_ceiling := {| pc_filesystem := Deny; pc_network := Deny; pc_process := Deny;
                        pc_device := Deny; pc_credential := Use;
                        pc_persistent_approval := false |} |} in
  Ok {| aa_agent_instance_id := plan.(lp_identity).(pli_agent_instance_id);
        aa_role_id := Some plan.(lp_role_id); aa_action_key := "credential.use";
        aa_reason_key := "provider.authentication";
        aa_consequence_key := "credential.single_run"; aa_risk := High;
        aa_scope :=
          {| sc_project_id := plan.(lp_identity).(pli_project_id);
             sc_run_id := Some plan.(lp_run_id);
             sc_filesystem_roots := [plan.(lp_workspace_root)];
             sc_data_scopes := [String.append "provider_launch_plan:" (plan_hash plan)];
             sc_network_destinations := [];
             sc_credential_reference_ids := [credential.(pcs_reference_id)];
             sc_destination := None;
             sc_credential_binding :=
               Some {| cb_agent_provider_id := plan.(lp_identity).(pli_agent_provider_id);
                       cb_account_id := account.(pas_account_id);
                       cb_adapter_kind := plan.(lp_identity).(pli_adapter_kind);
                       cb_provider_identity := account.(pas_provider_identity);
                       cb_credential_reference_id := credential.(pcs_reference_id);
                       cb_backend := credential.(pcs_backend);
                       cb_service := credential.(pcs_service);
                       cb_account_label := credential.(pcs_account_label);
                       cb_capability_key := "provider.authenticate" |} |};
        aa_requested_policy := policy |}.

Definition validate_request_for_plan (plan : ProviderLaunchPlan) (request : ApprovalRequest)
    : outcome StoreError unit :=
  let? action := approval_action plan in
  fail_if negb (bool_decide (request.(ar_created_at_ms) ≤ request.(ar_expires_at_ms))%Z
                && bool_decide (request.(ar_expires_at_ms) - request.(ar_created_at_ms)
                                = APPROVAL_TTL_MS)%Z) with CredentialGrantRejected;;
  map_err InvalidApproval (request_validate_unchanged request) ?;
  fail_if negb (bool_decide (request.(ar_action) = action)) with CredentialGrantRejected;;
  Ok tt.

Definition current_role_policy (catalog : IdentityCatalog) (plan : ProviderLaunchPlan)
    : outcome StoreError ScopedPolicy :=
  validate_current_policy plan catalog ?;
  validate_online_cli_requirements plan ?;
  let? role := ok_or (find_by rl_metadata catalog.(ic_roles) plan.(lp_role_id))
                 CredentialGrantRejected in
  fail_if inactive role.(rl_metadata) with CredentialGrantRejected;;
  Ok role.(rl_policy).

Definition validate_decision_and_grant_state (d : db) (request : ApprovalRequest)
    (staged_state : StagedLaunchState) (decision_json : option (json ApprovalDecision))
    : outcome StoreError unit :=
  match staged_state, decision_json, d_grants d !! request.(ar_id) with
  | SlAwaitingApproval, None, None => Ok tt
  | SlReady, Some json, Some {| gr_issued_at_ms := issued_at_ms; gr_consumed_at_ms := None;
                                gr_revoked_at_ms := None |} =>
      let? decision := from_str json in
      map_err InvalidApproval (verify_decision request decision) ?;
      if bool_decide (decision.(ad_kind) = Approve)
         && bool_decide (issued_at_ms = decision.(ad_decided_at_ms))
      then Ok tt else Err CredentialGrantRejected
  | _, _, _ => Err CredentialGrantRejected
  end.

(** The catalog, the graph node and the attempt agree with the plan. *)
Definition validate_staged_node (d : db) (run : Run) (plan : ProviderLaunchPlan)
    (catalog : IdentityCatalog) : outcome StoreError GraphExecution :=
  let? persisted_run := ok_or (find_run catalog run.(rn_metadata).(em_id)) RunNotFound in
  fail_if negb (bool_decide (persisted_run = run))
    with InvalidRunState "staged run differs from the current catalog";;
  let? session := ok_or (find_session catalog run.(rn_session_id)) RunNotFound in
  fail_if negb (bool_decide (session.(ss_agent_instance_id)
                             = plan.(lp_identity).(pli_agent_instance_id)))
          || negb (bool_decide (session.(ss_project_id) = plan.(lp_identity).(pli_project_id)))
    with InvalidRunState "staged session differs from its launch identity";;
  let? (stored_graph_revision, execution) := load_graph d plan.(lp_execution_id) in
  map_err InvalidGraph (validate_execution execution) ?;
  fail_if negb (bool_decide (stored_graph_revision = execution.(ge_revision)))
    with InvalidGraph InvalidExecution;;
  let? definition := ok_or (find_node execution.(ge_graph) plan.(lp_node_id)) RunNotFound in
  let? node := ok_or (find_execution execution plan.(lp_node_id)) RunNotFound in
  fail_if negb (bool_decide (definition.(gn_role_id) = plan.(lp_role_id)))
          || negb (in_state AwaitingApproval node)
          || negb (bool_decide (node.(ne_owner) = Some plan.(lp_owner)))
          || negb (bool_decide (node.(ne_run_id) = Some plan.(lp_run_id)))
    with InvalidRunState "staged graph node differs from its launch plan";;
  let current :=
    match latest_attempt d plan.(lp_execution_id) plan.(lp_node_id) with
    | Some (run_id, row) =>
        bool_decide (run_id = plan.(lp_run_id)) && bool_decide (nw_attempt row = plan.(lp_attempt))
        && bool_decide (nw_finished_at row = None) && bool_decide (nw_terminal_state row = None)
        && bool_decide (nw_failure row = None)
    | None => false
    end in
  fail_if negb current
    with InvalidRunState "staged run is not the current unfinished attempt";;
  Ok execution.

(** Current authority: the request still validates, the policy is unchanged, and
    the provider selected now is the one of the plan. *)
Definition validate_live_authority (d : db) (request : ApprovalRequest)
    (plan : ProviderLaunchPlan) (catalog : IdentityCatalog) (execution : GraphExecution)
    : outcome StoreError unit :=
  map_err InvalidApproval (validate_against request catalog) ?;
  current_role_policy catalog plan ?;
  let? m3 := from_str (ct_catalog (d_m3 d)) in
  let? binding := resolve_provider_run_binding catalog m3 execution plan.(lp_node_id) in
  fail_if negb (bool_decide (binding.(pb_launch_identity) = plan.(lp_identity)))
          || negb (bool_decide (binding.(pb_workspace_root) = plan.(lp_workspace_root)))
          || negb (bool_decide (binding.(pb_prompt) = plan.(lp_prompt)))
    with InvalidRunState "current provider selection differs from the staged launch plan";;
  Ok tt.

Definition validate_staged_context (d : db) (run : Run)
    (validate_decision_state require_live_authority : bool) : outcome StoreError unit :=
  fail_if negb (bool_decide (run.(rn_state) = RunAwaitingApproval))
          || bool_decide (is_Some run.(rn_started_at))
          || bool_decide (is_Some run.(rn_finished_at))
    with InvalidRunState "staged run has invalid catalog timing";;
  let run_id := run.(rn_metadata).(em_id) in
  let? row := ok_or (d_staged d !! run_id)
                (InvalidRunState "staged launch ledger is unavailable") in
  fail_if negb (in_launch_state [SlAwaitingApproval; SlReady] row)
          || bool_decide (is_Some (sw_finished_at_ms row))
          || bool_decide (is_Some (sw_cancel_reason row))
    with InvalidRunState "staged launch ledger is terminal or corrupt";;
  let? plan := plan_load d run_id in
  fail_if negb (bool_decide (plan.(lp_run_id) = run_id))
          || negb (bool_decide (plan.(lp_session_id) = run.(rn_session_id)))
          || negb (bool_decide (plan.(lp_identity).(pli_model_id) = run.(rn_model_id)))
    with InvalidRunState "staged run differs from its launch plan";;
  let? catalog := load_catalog d in
  let? execution := validate_staged_node d run plan catalog in
  let? approval := ok_or (d_approvals d !! sw_request_id row) ApprovalNotFound in
  let? request := from_str (aw_request approval) in
  fail_if negb (bool_decide (request.(ar_id) = sw_request_id row)) with CredentialGrantRejected;;
  validate_request_for_plan plan request ?;
  (if require_live_authority
   then validate_live_authority d request plan catalog execution else Ok tt) ?;
  if validate_decision_state
  then validate_decision_and_grant_state d request (sw_state row) (aw_decision approval)
  else Ok tt.

Definition validate_staged_run (d : db) (run : Run) : outcome StoreError unit :=
  validate_staged_context d run true false.

(** ** Operations *)

Definition stage (plan : ProviderLaunchPlan) : M unit :=
  let! d := get in
  let! catalog := lift (load_catalog d) in
  let! run := required (find_run catalog plan.(lp_run_id)) RunNotFound in
  let! action := lift (approval_action plan) in
  let! role_policy := lift (current_role_policy catalog plan) in
  let! now := now_ms in
  let expires_at_ms := (now + APPROVAL_TTL_MS)%Z in
  reject (I64_MAX <? expires_at_ms)%Z with CredentialGrantRejected;;
  let! id := new_id in
  let! request := try InvalidApproval (request_create id now expires_at_ms action role_policy) in
  try InvalidApproval (validate_against request catalog) ;>
  let! created_at := timestamp in
  let! inserted := insert_approval_or_ignore request created_at in
  reject negb inserted with Database;;
  insert_staged plan.(lp_run_id) request.(ar_id) now ;>
  let! d := get in
  lift (validate_staged_context d run false true) ;>
  insert_event "approval.requested"
    [("request_id", jid request.(ar_id));
     ("risk", JText (risk_name request.(ar_action).(aa_risk)))] ;>
  insert_event "provider_launch.staged"
    [("execution_id", jid plan.(lp_execution_id)); ("node_id", jid plan.(lp_node_id));
     ("run_id", jid plan.(lp_run_id)); ("request_id", jid request.(ar_id));
     ("plan_hash", JText (plan_hash plan))] ;>
  mret tt.

(** The catalog and the execution with the staged run cancelled, and the state
    that is validated before they are stored. *)
Definition cancelled_catalog (catalog : IdentityCatalog) (run : Run) (finished_at : string)
    : IdentityCatalog :=
  with_run catalog run.(rn_metadata).(em_id)
    (run_in_state RunCancelled run.(rn_started_at) (Some finished_at) finished_at).

(** [run.metadata.revision.checked_add(1)] *)
Definition check_revision (run : Run) : M unit :=
  next_revision run.(rn_metadata).(em_revision) ;> mret tt.

Definition validate_m3_with (d : db) (execution : GraphExecution) (m3 : M3Catalog)
    (catalog : IdentityCatalog) : outcome StoreError unit :=
  let? executions := load_graph_executions d in
  let? executions := replace_execution executions execution in
  map_err (λ e, InvalidM3 (OfM3 e))
    (validate_m3 {| ms_catalog := m3; ms_graph_executions := executions |} catalog).

Definition cancel_for_request (request_id : ApprovalRequestId) (reason : string) : M unit :=
  reject blank reason || (200 <? str_len reason)%Z
    with InvalidRunState "invalid staged launch cancellation reason";;
  let! d := get in
  match staged_for d request_id with
  | None => mret tt
  | Some (run_id, row) =>
      if in_launch_state [SlCancelled] row then mret tt else
      reject negb (in_launch_state [SlAwaitingApproval; SlReady] row)
        with InvalidRunState "invalid staged launch ledger state";;
      let! (catalog_revision, catalog) := lift (load_catalog_row d) in
      let! run := required (find_run catalog run_id) RunNotFound in
      lift (validate_staged_context d run false false) ;>
      let! plan := lift (plan_load d run_id) in
      let! (graph_revision, execution) := lift (load_graph d plan.(lp_execution_id)) in
      reject negb (bool_decide (graph_revision = execution.(ge_revision)))
        with InvalidGraph InvalidExecution;;
      let! execution := try InvalidGraph
        (cancel_staged_node execution plan.(lp_node_id) plan.(lp_owner) plan.(lp_run_id)) in
      try InvalidGraph (validate_execution execution) ;>
      let! now := now_ms in
      let finished_at_ms := Z.max now (sw_staged_at_ms row) in
      let finished_at := decimal finished_at_ms in
      check_revision run ;>
      let catalog := cancelled_catalog catalog run finished_at in
      try InvalidCatalog (validate_catalog catalog) ;>
      let! m3 := parse (ct_catalog (d_m3 d)) in
      lift (validate_m3_with d execution m3 catalog) ;>
      let! next_catalog_revision := next_revision catalog_revision in
      update_identity next_catalog_revision catalog finished_at ;>
      update_graph_row execution.(ge_id) execution finished_at ;>
      let! finished := finish_node_run
        (λ r, bool_decide (nw_finished_at r = None) && bool_decide (nw_terminal_state r = None))
        run_id finished_at RunCancelled None in
      reject negb finished with InvalidRunState "staged run attempt is already terminal";;
      let! cancelled := move_request request_id [SlAwaitingApproval; SlReady]
                          (cancelled_row finished_at_ms reason) in
      reject negb cancelled
        with InvalidRunState "staged launch cancellation lost its ledger claim";;
      let! revoked := revoke_row request_id (λ g, Z.max (gr_issued_at_ms g) finished_at_ms)
                        "daemon:staged_launch_cancelled" in
      (if revoked
       then insert_event "credential.grant_revoked" [("request_id", jid request_id)] ;> mret tt
       else mret tt) ;>
      insert_event "provider_launch.cancelled"
        [("execution_id", jid execution.(ge_id)); ("node_id", jid plan.(lp_node_id));
         ("run_id", jid plan.(lp_run_id)); ("request_id", jid request_id);
         ("catalog_revision", JNumber next_catalog_revision);
         ("graph_revision", JNumber execution.(ge_revision))] ;>
      mret tt
  end.

Definition on_decision (request : ApprovalRequest) (kind : ApprovalDecisionKind) : M unit :=
  let! d := get in
  match staged_for d request.(ar_id) with
  | None => mret tt
  | Some (run_id, row) =>
      reject negb (in_launch_state [SlAwaitingApproval] row) with ApprovalConflict;;
      let! catalog := lift (load_catalog d) in
      let! run := required (find_run catalog run_id) RunNotFound in
      match kind with
      | Approve =>
          lift (validate_staged_context d run false true) ;>
          let! plan := lift (plan_load d run_id) in
          lift (validate_request_for_plan plan request) ;>
          let! updated := move_request request.(ar_id) [SlAwaitingApproval] (move_staged SlReady) in
          reject negb updated with ApprovalConflict;;
          insert_event "provider_launch.ready"
            [("run_id", jid run_id); ("request_id", jid request.(ar_id))] ;>
          mret tt
      | DenyDecision =>
          let! plan := lift (plan_load d run_id) in
          lift (validate_request_for_plan plan request) ;>
          cancel_for_request request.(ar_id) "approval_denied"
      end
  end.

(** [ORDER BY staged_at_ms, request_id] *)
Definition staged_before (a b : RunId * staged_row) : Prop :=
  (sw_staged_at_ms a.2 < sw_staged_at_ms b.2)%Z ∨
  sw_staged_at_ms a.2 = sw_staged_at_ms b.2 ∧
  (value (sw_request_id a.2) ≤ value (sw_request_id b.2))%N.
#[export] Instance staged_before_dec : RelDecision staged_before.
Proof. unfold staged_before. solve_decision. Defined.

Definition expired_row (d : db) (now : Z) (r : RunId * staged_row) : bool :=
  match d_approvals d !! sw_request_id r.2 with
  | Some approval =>
      (aw_expires_at_ms approval <=? now)%Z
      && (in_launch_state [SlAwaitingApproval] r.2 && bool_decide (aw_decision approval = None)
          || in_launch_state [SlReady] r.2 && bool_decide (is_Some (aw_decision approval)))
  | None => false
  end.

Definition expire (now : Z) : M unit :=
  reject (I64_MAX <? now)%Z with CredentialGrantRejected;;
  let! d := get in
  let request_ids := map (λ r, sw_request_id r.2)
    (merge_sort staged_before (List.filter (expired_row d now) (map_to_list (d_staged d)))) in
  for_rows (λ request_id, cancel_for_request request_id "approval_expired") request_ids.

End staged.
