(* ===== verification/GraphStore.v ===== *)
(** * Graph executions in the store

    Models the methods of [Store] in [crates/bastet-daemon/src/lib.rs] that work
    on graph executions: creation, restart, retry, claims, and the begin and end
    of the run of a node, with the ledger of attempts and outputs. *)
From Corelib Require Import Floats.SpecFloat.
From S2P Require Import Prelude Policy Identity Catalog Office Meeting.
From S2P Require Import Deliverable Approval Graph Execution M3 Mvp Protocol Store.
From S2P Require Import Launch StagedLaunches.

Definition map_failures (f : AdapterFailure → AdapterFailure) (execution : GraphExecution)
    : GraphExecution :=
  set_nodes execution
    (map (λ n, {| ne_node_id := n.(ne_node_id); ne_state := n.(ne_state); ne_owner := n.(ne_owner);
                  ne_revision := n.(ne_revision); ne_run_id := n.(ne_run_id);
                  ne_failure := f <$> n.(ne_failure) |}) execution.(ge_nodes)).

Definition push_run (c : IdentityCatalog) (session : Session) (run : Run) : IdentityCatalog :=
  {| ic_credential_references := c.(ic_credential_references);
     ic_agent_providers := c.(ic_agent_providers); ic_model_providers := c.(ic_model_providers);
     ic_accounts := c.(ic_accounts); ic_models := c.(ic_models);
     ic_agent_instances := c.(ic_agent_instances); ic_projects := c.(ic_projects);
     ic_roles := c.(ic_roles); ic_sessions := c.(ic_sessions) ++ [session];
     ic_runs := c.(ic_runs) ++ [run] |}.

(** [sessions[index].provider_session_id = Some(id)], with its metadata. *)
Definition with_provider_session (c : IdentityCatalog) (id : SessionId)
    (provider_session_id : string) (now : string) : IdentityCatalog :=
  {| ic_credential_references := c.(ic_credential_references);
     ic_agent_providers := c.(ic_agent_providers); ic_model_providers := c.(ic_model_providers);
     ic_accounts := c.(ic_accounts); ic_models := c.(ic_models);
     ic_agent_instances := c.(ic_agent_instances); ic_projects := c.(ic_projects);
     ic_roles := c.(ic_roles);
     ic_sessions := update_first (has_metadata_id ss_metadata id)
       (λ s, {| ss_metadata := touched s.(ss_metadata) now;
                ss_agent_instance_id := s.(ss_agent_instance_id);
                ss_project_id := s.(ss_project_id);
                ss_provider_session_id := Some provider_session_id |}) c.(ic_sessions);
     ic_runs := c.(ic_runs) |}.

Definition push_cost (m3 : M3Catalog) (record : CostLedgerRecord) : M3Catalog :=
  {| m3_office := m3.(m3_office); m3_meetings := m3.(m3_meetings);
     m3_deliverables :=
       {| dc_documents := m3.(m3_deliverables).(dc_documents);
          dc_costs := m3.(m3_deliverables).(dc_costs) ++ [record];
          dc_knowledge_deliveries := m3.(m3_deliverables).(dc_knowledge_deliveries) |} |}.

Section graphs.
Context `{Environment} `{Digest} `{Serializer} `{Formats}.

Definition graph_receipt (execution : GraphExecution) (event_sequence : Z)
    : GraphExecutionReceipt :=
  {| ger_execution_id := execution.(ge_id); ger_revision := execution.(ge_revision);
     ger_event_sequence := event_sequence |}.

(** The stored execution at the expected revision. *)
Definition expect_graph (d : db) (id : GraphRunId) (expected_revision : Z)
    : outcome StoreError GraphExecution :=
  let? row := ok_or (d_graphs d !! id) GraphNotFound in
  fail_if negb (bool_decide (gw_revision row = expected_revision))
    with RevisionConflict expected_revision (gw_revision row);;
  from_str (gw_execution row).

(** The stored execution, with its outputs in the ledger. *)
Definition sound_graph (d : db) (execution : GraphExecution) : outcome StoreError unit :=
  map_err InvalidGraph (validate_execution execution) ?;
  validate_graph_output_ledger d execution.

Definition create_graph_execution (execution : GraphExecution) : M GraphExecutionReceipt :=
  let execution := map_failures sanitize_adapter_failure execution in
  try InvalidGraph (validate_execution execution) ;>
  transact (
    let! now := timestamp in
    let! inserted := insert_graph_or_ignore execution now in
    reject negb inserted with GraphConflict;;
    let! event := insert_event "graph.execution_created"
      [("execution_id", jid execution.(ge_id));
       ("nodes", JNumber (Z.of_nat (length execution.(ge_nodes))))] in
    mret (graph_receipt execution (ee_sequence event))).

Definition restart_missing_output_graph (original_id : GraphRunId) (expected_graph_revision : Z)
    : M GraphExecutionReceipt := transact (
  let! d := get in
  let! original := lift (expect_graph d original_id expected_graph_revision) in
  lift (sound_graph d original) ;>
  let! executions := lift (load_graph_executions d) in
  match List.find (λ e, bool_decide (e.(ge_restarted_from_execution_id) = Some original_id))
          executions with
  | Some existing => mret (graph_receipt existing (Z.of_nat (length (d_events d))))
  | None =>
      let! m3 := parse (ct_catalog (d_m3 d)) in
      let! baseline := required (find_by db_metadata m3.(m3_meetings).(mc_decision_baselines)
                                   original.(ge_graph).(wg_decision_baseline_id))
                         (InvalidMvp (Said "graph DecisionBaseline not found")) in
      reject blank baseline.(db_accepted_by) || blank baseline.(db_accepted_at)
        with InvalidMvp (Said "graph DecisionBaseline is not accepted");;
      let! id := new_id in
      let! restarted := try InvalidGraph (restart_as original id) in
      let! now := timestamp in
      insert_graph restarted now ;>
      let! event := insert_event "graph.execution_restarted_for_missing_output"
        [("execution_id", jid restarted.(ge_id));
         ("restarted_from_execution_id", jid original_id)] in
      mret (graph_receipt restarted (ee_sequence event))
  end).

(** [execution.retry_failed(node_id)?]: what an error leaves behind is rolled
    back with the transaction. *)
Definition retry_execution (execution : GraphExecution) (node_id : GraphNodeId)
    : outcome GraphError GraphExecution :=
  match retry_failed execution node_id with
  | (execution, r) => let? _ := r in Ok execution
  end.

Definition retry_failed_graph_node (id : GraphRunId) (command : RetryFailedGraphNodeCommand)
    : M GraphExecutionReceipt := transact (
  let! d := get in
  let! execution := lift (expect_graph d id (rf_expected_graph_revision command)) in
  lift (sound_graph d execution) ;>
  let! execution := try InvalidGraph (retry_execution execution (rf_node_id command)) in
  try InvalidGraph (validate_execution execution) ;>
  let! now := timestamp in
  update_graph_row id execution now ;>
  let! event := insert_event "graph.failed_node_retried"
    [("execution_id", jid id); ("node_id", jid (rf_node_id command));
     ("revision", JNumber execution.(ge_revision))] in
  mret {| ger_execution_id := id; ger_revision := execution.(ge_revision);
          ger_event_sequence := ee_sequence event |}).

(** Methods that only read. *)
Definition read_only {A} (f : db → outcome StoreError A) : M A := λ w,
  if w_poisoned w then (Err Poisoned, w) else lift (f (w_db w)) w.

Definition graph_execution (id : GraphRunId) : M GraphExecution :=
  read_only (λ d,
    let? (_, execution) := load_graph d id in
    sound_graph d execution ?;
    Ok execution).

Definition graph_executions : M (list GraphExecution) := read_only load_graph_executions.

Definition update_graph {T} (id : GraphRunId) (expected_revision : Z) (event_type : string)
    (update : GraphExecution → outcome GraphError (T * GraphExecution)) : M T := transact (
  let! d := get in
  let! execution := lift (expect_graph d id expected_revision) in
  lift (sound_graph d execution) ;>
  let! (result, execution) := try InvalidGraph (update execution) in
  try InvalidGraph (validate_execution execution) ;>
  let! now := timestamp in
  update_graph_row id execution now ;>
  insert_event event_type
    [("execution_id", jid id); ("revision", JNumber execution.(ge_revision))] ;>
  mret result).

Definition claim_graph_nodes (id : GraphRunId) (expected_revision : Z) (owner : string) (limit : Z)
    : M (list GraphNodeId) :=
  update_graph id expected_revision "graph.nodes_claimed" (λ execution,
    match claim_ready execution owner limit with
    | (execution, r) => let? claimed := r in Ok (claimed, execution)
    end).

Definition complete_graph_node (id : GraphRunId) (expected_revision : Z) (node_id : GraphNodeId)
    (owner : string) (succeeded : bool) : M unit :=
  update_graph id expected_revision "graph.node_completed" (λ execution,
    let? execution := complete execution node_id owner succeeded in Ok (tt, execution)).

(** ** The begin of a run *)

(** [COALESCE(MAX(attempt), 0) + 1]: beyond an [i64] it is not an integer. *)
Definition next_attempt (d : db) (execution : GraphRunId) (node : GraphNodeId)
    : outcome StoreError Z :=
  let attempt := (max_attempt (attempts d execution node) + 1)%Z in
  fail_if (I64_MAX <? attempt)%Z with Database;; Ok attempt.

(** The node staged behind an approval, or claimed and bound at once. *)
Definition launch_node (execution : GraphExecution) (node_id : GraphNodeId) (owner : string)
    (run_id : RunId) (staged : bool) : outcome GraphError GraphExecution :=
  if staged then stage_node execution node_id owner run_id else
  let? execution := claim_node execution node_id owner in
  bind_run execution node_id owner run_id.

(** The plan of the launch, from the state after the node was launched. *)
Definition begin_plan (id : GraphRunId) (command : BeginGraphNodeRunCommand)
    (identity : IdentityCatalog) (execution : GraphExecution) (binding : ProviderRunBinding)
    (session_id : SessionId) (run_id : RunId) (attempt : Z)
    : outcome StoreError ProviderLaunchPlan :=
  let? node := ok_or (find_node execution.(ge_graph) (bg_node_id command)) RunNotFound in
  let? policy := launch_policy_capture identity binding.(pb_project_id) node.(gn_role_id) in
  Ok {| lp_version := 2; lp_execution_id := id; lp_node_id := bg_node_id command;
        lp_session_id := session_id; lp_run_id := run_id; lp_attempt := attempt;
        lp_role_id := node.(gn_role_id); lp_owner := bg_owner command;
        lp_identity := binding.(pb_launch_identity);
        lp_workspace_root := binding.(pb_workspace_root); lp_prompt := binding.(pb_prompt);
        lp_policy := Some policy |}.

(** [expected_binding] distinguishes the daemon's own launches from those of a
    client. *)
Definition begin_graph_node_run_inner (id : GraphRunId) (command : BeginGraphNodeRunCommand)
    (expected_binding : option ProviderRunBinding) : M BeginGraphNodeRunReceipt := transact (
  let! d := get in
  let lifecycle := dr_lifecycle (d_daemon d) in
  reject bool_decide (is_Some expected_binding) && negb (bool_decide (lifecycle = "ready"))
    with InvalidLifecycle "ready" lifecycle;;
  let catalog_revision := ct_revision (d_identity d) in
  reject negb (bool_decide (catalog_revision = bg_expected_catalog_revision command))
    with RevisionConflict (bg_expected_catalog_revision command) catalog_revision;;
  let! identity := parse (ct_catalog (d_identity d)) in
  let! m3 := parse (ct_catalog (d_m3 d)) in
  let! execution := lift (expect_graph d id (bg_expected_graph_revision command)) in
  lift (sound_graph d execution) ;>
  let! binding := lift (resolve_provider_run_binding identity m3 execution (bg_node_id command)) in
  reject match expected_binding with
         | Some expected => negb (bool_decide (expected = binding))
         | None => false
         end with InvalidRunState "provider launch inputs changed";;
  let staged := bool_decide (is_Some expected_binding)
                && bool_decide (is_Some binding.(pb_launch_identity).(pli_account)) in
  let! session_id := new_id in
  let! run_id := new_id in
  let! execution := try InvalidGraph
    (launch_node execution (bg_node_id command) (bg_owner command) run_id staged) in
  let! attempt := lift (next_attempt d id (bg_node_id command)) in
  let! session_metadata := entity_metadata session_id "graph_node_run" in
  let! run_metadata := entity_metadata run_id "graph_node_run" in
  let! started_at :=
    if staged then mret None else let! now := timestamp in mret (Some now) in
  let identity := push_run identity
    {| ss_metadata := session_metadata; ss_agent_instance_id := binding.(pb_agent_instance_id);
       ss_project_id := binding.(pb_project_id); ss_provider_session_id := None |}
    {| rn_metadata := run_metadata; rn_session_id := session_id;
       rn_model_id := binding.(pb_model_id);
       rn_state := if staged then RunAwaitingApproval else RunStarting;
       rn_started_at := started_at; rn_finished_at := None |} in
  try InvalidCatalog (validate_catalog identity) ;>
  let! next_catalog_revision := next_revision catalog_revision in
  let! t := timestamp in
  update_identity next_catalog_revision identity t ;>
  let! t := timestamp in
  update_graph_row id execution t ;>
  let! t := timestamp in
  insert_node_run run_id
    {| nw_execution_id := id; nw_node_id := bg_node_id command; nw_attempt := attempt;
       nw_created_at := t; nw_finished_at := None; nw_terminal_state := None;
       nw_failure := None; nw_launch_identity := Some (Text binding.(pb_launch_identity)) |} ;>
  let! plan := lift (begin_plan id command identity execution binding session_id run_id attempt) in
  plan_insert plan ;>
  (if staged then stage plan else mret tt) ;>
  let! event := insert_event
    (if staged then "graph.node_run_staged" else "graph.node_run_started")
    [("execution_id", jid id); ("node_id", jid (bg_node_id command)); ("run_id", jid run_id)] in
  mret {| br_execution_id := id; br_node_id := bg_node_id command; br_session_id := session_id;
          br_run_id := run_id; br_launch_identity := Some binding.(pb_launch_identity);
          br_adapter_kind := binding.(pb_adapter_kind); br_model := binding.(pb_provider_model);
          br_workspace_root := binding.(pb_workspace_root); br_prompt := binding.(pb_prompt);
          br_catalog_revision := next_catalog_revision;
          br_graph_revision := execution.(ge_revision);
          br_event_sequence := ee_sequence event |}).

Definition begin_graph_node_run (id : GraphRunId) (command : BeginGraphNodeRunCommand)
    : M BeginGraphNodeRunReceipt := begin_graph_node_run_inner id command None.
Definition begin_provider_graph_node_run (id : GraphRunId) (command : BeginGraphNodeRunCommand)
    (expected_binding : ProviderRunBinding) : M BeginGraphNodeRunReceipt :=
  begin_graph_node_run_inner id command (Some expected_binding).

(** The run, the session and the attempt named by a receipt are those of the
    launch that is being started. *)
Definition preflight_run (d : db) (receipt : BeginGraphNodeRunReceipt)
    (selected : ProviderLaunchIdentity) : outcome StoreError IdentityCatalog :=
  let? identity := from_str (ct_catalog (d_identity d)) in
  let? run := ok_or (find_run identity receipt.(br_run_id)) RunNotFound in
  let? session := ok_or (find_session identity run.(rn_session_id)) RunNotFound in
  fail_if negb (bool_decide (run.(rn_state) = RunStarting))
          || negb (bool_decide (run.(rn_session_id) = receipt.(br_session_id)))
          || negb (bool_decide (run.(rn_model_id) = selected.(pli_model_id)))
          || negb (bool_decide (session.(ss_agent_instance_id) = selected.(pli_agent_instance_id)))
          || negb (bool_decide (session.(ss_project_id) = selected.(pli_project_id)))
    with InvalidRunState "launch run identity changed";;
  Ok identity.

Definition preflight_inputs (d : db) (receipt : BeginGraphNodeRunReceipt)
    (plan : ProviderLaunchPlan) (selected : ProviderLaunchIdentity) (identity : IdentityCatalog)
    : outcome StoreError unit :=
  let? m3 := from_str (ct_catalog (d_m3 d)) in
  let? graph_row := ok_or (d_graphs d !! receipt.(br_execution_id)) Database in
  let? execution := from_str (gw_execution graph_row) in
  let? binding := resolve_provider_run_binding identity m3 execution receipt.(br_node_id) in
  validate_current_policy plan identity ?;
  let? node := ok_or (find_execution execution receipt.(br_node_id)) RunNotFound in
  let? definition := ok_or (find_node execution.(ge_graph) receipt.(br_node_id)) RunNotFound in
  fail_if negb (bool_decide (binding.(pb_launch_identity) = selected))
          || negb (in_state Running node)
          || negb (bool_decide (node.(ne_owner) = Some plan.(lp_owner)))
          || negb (bool_decide (definition.(gn_role_id) = plan.(lp_role_id)))
          || negb (bool_decide (binding.(pb_workspace_root) = receipt.(br_workspace_root)))
          || negb (bool_decide (binding.(pb_prompt) = receipt.(br_prompt)))
          || negb (bool_decide (node.(ne_run_id) = Some receipt.(br_run_id)))
    with InvalidRunState "provider launch inputs changed";;
  Ok tt.

Definition preflight_provider_launch (receipt : BeginGraphNodeRunReceipt) : M unit :=
  read_only (λ d,
    let? plan := plan_load d receipt.(br_run_id) in
    fail_if negb (matches_receipt plan receipt)
      with InvalidRunState "launch receipt differs from durable plan";;
    let? selected := load_launch_identity d receipt.(br_run_id) in
    let? selected := ok_or selected (InvalidRunState "launch selection unavailable") in
    fail_if negb (bool_decide (receipt.(br_launch_identity) = Some selected))
            || negb (bool_decide (receipt.(br_adapter_kind) = selected.(pli_adapter_kind)))
            || negb (bool_decide (receipt.(br_model) = selected.(pli_model)))
      with InvalidRunState "launch receipt differs from durable selection";;
    let? row := ok_or (d_runs d !! receipt.(br_run_id)) Database in
    fail_if negb (bool_decide (nw_execution_id row = receipt.(br_execution_id)))
            || negb (bool_decide (nw_node_id row = receipt.(br_node_id)))
            || negb (bool_decide (nw_attempt row = plan.(lp_attempt)))
            || bool_decide (is_Some (nw_finished_at row))
      with InvalidRunState "launch receipt belongs to another node";;
    let? identity := preflight_run d receipt selected in
    preflight_inputs d receipt plan selected identity).

End graphs.
