(* ===== verification/FinishRun.v ===== *)
(** * The end of a run

    Models [finish_graph_node_run] of [crates/bastet-daemon/src/lib.rs]: the
    terminal state of a node, its output and its cost are recorded in the
    execution, the catalogs and the ledgers by one transaction. *)
From Corelib Require Import Floats.SpecFloat.
From S2P Require Import Prelude Policy Identity Catalog Office Meeting.
From S2P Require Import Deliverable Approval Graph Execution M3 Mvp Protocol Store.
From S2P Require Import Launch StagedLaunches GraphStore.

Definition sf_0 : spec_float := S754_zero false.

(** Each field of a selection that the end of the run relies on is present and
    agrees with the catalog. *)
Definition selection_is_malformed (agent_id : AgentInstanceId) (project_id : ProjectId)
    (model_id : ModelId) (selected : ProviderLaunchIdentity) : bool :=
  negb (bool_decide (selected.(pli_agent_instance_id) = agent_id))
  || negb (bool_decide (selected.(pli_project_id) = project_id))
  || negb (bool_decide (selected.(pli_model_id) = model_id))
  || blank selected.(pli_adapter_kind) || blank selected.(pli_model)
  || match selected.(pli_account) with
     | Some account =>
         blank account.(pas_provider_identity)
         || match account.(pas_credential) with
            | Some reference =>
                blank reference.(pcs_service) || blank reference.(pcs_account_label)
            | None => false
            end
     | None => false
     end.

(** The selection of the run, and whether what is stored of it is corrupt. *)
Definition finish_selection (d : db) (run_id : RunId) (agent_id : AgentInstanceId)
    (project_id : ProjectId) (model_id : ModelId)
    : outcome StoreError (option ProviderLaunchIdentity * bool) :=
  let? (launch_identity, malformed) :=
    match load_launch_identity d run_id with
    | Err Serialization => Ok (None, true)
    | other => let? selected := other in Ok (selected, false)
    end in
  match launch_identity with
  | Some selected =>
      if selection_is_malformed agent_id project_id model_id selected then Ok (None, true)
      else Ok (Some selected, malformed)
  | None => Ok (None, malformed)
  end.

(** What is recorded of a run whose selection is corrupt. *)
Definition as_uncertain (command : FinishGraphNodeRunCommand) : FinishGraphNodeRunCommand :=
  {| fg_expected_catalog_revision := fg_expected_catalog_revision command;
     fg_expected_graph_revision := fg_expected_graph_revision command;
     fg_expected_m3_revision := fg_expected_m3_revision command;
     fg_node_id := fg_node_id command; fg_run_id := fg_run_id command;
     fg_owner := fg_owner command; fg_terminal_state := RunUncertain;
     fg_failure :=
       Some {| af_kind := UnknownFailure; af_message_key := "mvp.failure.unknown";
               af_retryable := false; af_provider_code := None; af_redacted_detail := None |};
     fg_provider_session_id := None; fg_output_markdown := None;
     fg_cost := {| ce_evidence_class := UnknownEvidence; ce_currency := None; ce_amount := None;
                   ce_input_tokens := None; ce_output_tokens := None; ce_confidence := sf_0 |} |}.

(** Provider, account, model and source of the cost record. *)
Definition attribution (launch_identity : option ProviderLaunchIdentity) (malformed : bool)
    : string * string * string * string :=
  match launch_identity with
  | Some selected =>
      (selected.(pli_adapter_kind),
       match selected.(pli_account) with
       | Some account => account.(pas_provider_identity)
       | None => "unknown"
       end,
       selected.(pli_model),
       "adapter normalized cost event; selected account is not provider-authenticated")
  | None =>
      ("unknown", "unknown", "unknown",
       if malformed then "local recovery; malformed launch selection; attribution unavailable"
       else "adapter normalized cost event; legacy launch attribution unavailable")
  end.

Definition terminal_graph_state (state : NormalizedRunState) : option GraphNodeState :=
  match state with
  | RunSucceeded => Some Succeeded
  | RunFailed => Some Failed
  | RunCancelled => Some Cancelled
  | RunBlocked => Some Blocked
  | RunUncertain => Some Uncertain
  | _ => None
  end.

Section finish.
Context `{Environment} `{Digest} `{Serializer} `{Formats}.

Definition finish_output (command : FinishGraphNodeRunCommand) (graph_state : GraphNodeState)
    : outcome StoreError (option GraphNodeOutput) :=
  match fg_output_markdown command with
  | Some markdown =>
      let? output := map_err InvalidGraph
        (output_create (fg_node_id command) (fg_run_id command) markdown) in
      Ok (Some output)
  | None =>
      fail_if bool_decide (graph_state = Succeeded) with InvalidGraph InvalidOutput;;
      Ok None
  end.

(** The node becomes terminal and its output is recorded. *)
Definition finish_execution (command : FinishGraphNodeRunCommand) (execution : GraphExecution)
    (graph_state : GraphNodeState) (failure : option AdapterFailure)
    (output : option GraphNodeOutput) : outcome GraphError GraphExecution :=
  let? execution := finish_terminal execution (fg_node_id command) (fg_owner command)
                      graph_state failure in
  match output with
  | Some output => record_output execution output
  | None => Ok execution
  end.

Definition cost_record (metadata : EntityMetadata CostRecordK) (project_id : ProjectId)
    (command : FinishGraphNodeRunCommand) (graph_state : GraphNodeState)
    (by_ : string * string * string * string) : CostLedgerRecord :=
  let '(provider, account, model, source) := by_ in
  let cost := fg_cost command in
  {| cl_metadata := metadata; cl_project_id := project_id; cl_node_id := fg_node_id command;
     cl_run_id := fg_run_id command; cl_provider := provider; cl_account := account;
     cl_model := model; cl_currency := cost.(ce_currency); cl_amount := cost.(ce_amount);
     cl_input_tokens := cost.(ce_input_tokens); cl_output_tokens := cost.(ce_output_tokens);
     cl_evidence_class := cost.(ce_evidence_class); cl_source := source;
     cl_formula_version := None; cl_confidence := cost.(ce_confidence);
     cl_reconciliation_state :=
       if bool_decide (graph_state = Uncertain) then "uncertain" else "observed" |}.

(** The run is the current attempt of the node, and active. *)
Definition finish_current (d : db) (id : GraphRunId) (command : FinishGraphNodeRunCommand)
    (identity : IdentityCatalog) (execution : GraphExecution)
    : outcome StoreError (Run * Session) :=
  let active :=
    match find_execution execution (fg_node_id command) with
    | Some node => node.(ne_run_id)
    | None => None
    end in
  fail_if negb (bool_decide (active = Some (fg_run_id command)))
    with InvalidRunState "run is not the active graph node attempt";;
  fail_if negb (bool_decide (fst <$> latest_attempt d id (fg_node_id command)
                             = Some (fg_run_id command)))
    with InvalidRunState "run is not the current attempt for this graph execution and node";;
  let? run := ok_or (find_run identity (fg_run_id command)) RunNotFound in
  fail_if negb (in_run_state [RunStarting; RunRunning; RunCancelling] run.(rn_state))
    with InvalidRunState (run_state_name run.(rn_state));;
  let? session := ok_or (find_session identity run.(rn_session_id)) RunNotFound in
  Ok (run, session).

(** The catalog with the run terminal and, when the provider reported one, its
    session. *)
Definition finish_identity (command : FinishGraphNodeRunCommand) (identity : IdentityCatalog)
    (run : Run) (session : Session) (now : string) : outcome StoreError IdentityCatalog :=
  let? _ := ok_or (checked_add U64_MAX run.(rn_metadata).(em_revision) 1) RevisionOverflow in
  let identity := with_run identity (fg_run_id command)
    (run_in_state (fg_terminal_state command) run.(rn_started_at) (Some now) now) in
  match fg_provider_session_id command with
  | Some provider_session_id =>
      fail_if blank provider_session_id with InvalidRunState "empty provider session id";;
      let? _ := ok_or (checked_add U64_MAX session.(ss_metadata).(em_revision) 1)
                  RevisionOverflow in
      Ok (with_provider_session identity run.(rn_session_id) provider_session_id now)
  | None => Ok identity
  end.

Definition finish_graph_node_run (id : GraphRunId) (command : FinishGraphNodeRunCommand)
    : M FinishGraphNodeRunReceipt := transact (
  let! d := get in
  let catalog_revision := ct_revision (d_identity d) in
  reject negb (bool_decide (catalog_revision = fg_expected_catalog_revision command))
    with RevisionConflict (fg_expected_catalog_revision command) catalog_revision;;
  let m3_revision := ct_revision (d_m3 d) in
  reject negb (bool_decide (m3_revision = fg_expected_m3_revision command))
    with RevisionConflict (fg_expected_m3_revision command) m3_revision;;
  let! graph_row := required (d_graphs d !! id) GraphNotFound in
  reject negb (bool_decide (gw_revision graph_row = fg_expected_graph_revision command))
    with RevisionConflict (fg_expected_graph_revision command) (gw_revision graph_row);;
  let! identity := parse (ct_catalog (d_identity d)) in
  let! m3 := parse (ct_catalog (d_m3 d)) in
  let! execution := parse (gw_execution graph_row) in
  lift (sound_graph d execution) ;>
  let! (run, session) := lift (finish_current d id command identity execution) in
  let project_id := session.(ss_project_id) in
  let! (launch_identity, malformed) := lift
    (finish_selection d (fg_run_id command) session.(ss_agent_instance_id) project_id
       run.(rn_model_id)) in
  let command := if malformed then as_uncertain command else command in
  let! graph_state := required (terminal_graph_state (fg_terminal_state command))
                        (InvalidRunState (run_state_name (fg_terminal_state command))) in
  let! output := lift (finish_output command graph_state) in
  let failure := sanitize_adapter_failure <$> fg_failure command in
  reject bool_decide (graph_state = Succeeded) && bool_decide (is_Some failure)
    with InvalidRunState "successful run cannot include failure evidence";;
  let! execution := try InvalidGraph
    (finish_execution command execution graph_state failure output) in
  let! now := timestamp in
  let! identity := lift (finish_identity command identity run session now) in
  let! cost_record_id := new_id in
  let! metadata := entity_metadata cost_record_id "provider_cost_event" in
  let m3 := push_cost m3
    (cost_record metadata project_id command graph_state (attribution launch_identity malformed)) in
  try InvalidCatalog (validate_catalog identity) ;>
  let! executions := lift (load_graph_executions d) in
  let! _ := required (List.find (λ candidate, bool_decide (candidate.(ge_id) = id)) executions)
              GraphNotFound in
  let executions := update_first (λ candidate, bool_decide (candidate.(ge_id) = id))
                      (λ _, execution) executions in
  try (λ e, InvalidM3 (OfM3 e))
    (validate_m3 {| ms_catalog := m3; ms_graph_executions := executions |} identity) ;>
  let! next_catalog_revision := next_revision catalog_revision in
  let! next_m3_revision := next_revision m3_revision in
  let! t := timestamp in
  update_identity next_catalog_revision identity t ;>
  let! t := timestamp in
  update_m3 next_m3_revision m3 t ;>
  let! t := timestamp in
  update_graph_row id execution t ;>
  let! t := timestamp in
  let! finished := finish_node_run (λ _, true) (fg_run_id command) t
                     (fg_terminal_state command) failure in
  reject negb finished with RunNotFound;;
  match output with
  | Some output => let! t := timestamp in insert_output id output t
  | None => mret tt
  end ;>
  let! event := insert_event "graph.node_run_finished"
    [("execution_id", jid id); ("node_id", jid (fg_node_id command));
     ("run_id", jid (fg_run_id command)); ("cost_record_id", jid cost_record_id);
     ("terminal_state", JText (run_state_name (fg_terminal_state command)))] in
  mret {| fgr_execution_id := id; fgr_node_id := fg_node_id command;
          fgr_run_id := fg_run_id command; fgr_cost_record_id := cost_record_id;
          fgr_output_content_hash := no_content_hash <$> output;
          fgr_catalog_revision := next_catalog_revision;
          fgr_graph_revision := execution.(ge_revision);
          fgr_m3_revision := next_m3_revision; fgr_event_sequence := ee_sequence event |}).

End finish.
