(* ===== verification/CatalogStore.v ===== *)
(** * Catalogs in the store

    Models the methods of [Store] in [crates/bastet-daemon/src/lib.rs] that read
    and replace the two catalogs, record what a provider reports of a run, and
    run the first-run workflow up to the delivery of a document. *)
From S2P Require Import Prelude Policy Identity Catalog Office Meeting.
From S2P Require Import Deliverable Approval Graph Execution M3 Mvp Protocol Store.
From S2P Require Import Launch StagedLaunches GraphStore.

(** The provider is at work on the run, or may be: what a shutdown waits for. *)
Definition run_is_active (run : Run) : bool :=
  in_run_state [RunRunning; RunCancelling; RunRecovering] run.(rn_state)
  || in_run_state [RunStarting; RunAwaitingApproval] run.(rn_state)
     && bool_decide (is_Some run.(rn_started_at)).

(** *** Replacing the identity catalog *)

(** A run of the previous catalog and its session are in the new one. *)
Definition keeps_run (previous catalog : IdentityCatalog) (previous_run : Run)
    : outcome StoreError unit :=
  let? previous_session := ok_or (find_session previous previous_run.(rn_session_id)) RunNotFound in
  fail_if negb (bool_decide (find_run catalog previous_run.(rn_metadata).(em_id)
                             = Some previous_run))
          || negb (bool_decide (find_session catalog previous_session.(ss_metadata).(em_id)
                                = Some previous_session))
    with InvalidRunState "daemon-owned run or session cannot be replaced";;
  Ok tt.

(** A run that is new has not been started. *)
Definition introduces_run (previous : IdentityCatalog) (run : Run) : outcome StoreError unit :=
  fail_if negb (existsb (has_metadata_id rn_metadata run.(rn_metadata).(em_id)) previous.(ic_runs))
          && (negb (bool_decide (run.(rn_state) = RunStarting))
              || bool_decide (is_Some run.(rn_started_at)))
    with InvalidRunState "catalog cannot introduce an active provider run";;
  Ok tt.

Definition with_pets (m3 : M3Catalog) (profiles : list PetProfile) : M3Catalog :=
  {| m3_office := {| oc_pet_profiles := profiles;
                     oc_pet_assignments := m3.(m3_office).(oc_pet_assignments);
                     oc_rooms := m3.(m3_office).(oc_rooms) |};
     m3_meetings := m3.(m3_meetings); m3_deliverables := m3.(m3_deliverables) |}.

Definition with_deliverables (m3 : M3Catalog) (deliverables : DeliverableCatalog) : M3Catalog :=
  {| m3_office := m3.(m3_office); m3_meetings := m3.(m3_meetings);
     m3_deliverables := deliverables |}.
Definition with_documents (m3 : M3Catalog) (documents : list DocumentArtifact) : M3Catalog :=
  with_deliverables m3
    {| dc_documents := documents; dc_costs := m3.(m3_deliverables).(dc_costs);
       dc_knowledge_deliveries := m3.(m3_deliverables).(dc_knowledge_deliveries) |}.
Definition with_deliveries (m3 : M3Catalog) (deliveries : list KnowledgeDelivery) : M3Catalog :=
  with_deliverables m3
    {| dc_documents := m3.(m3_deliverables).(dc_documents);
       dc_costs := m3.(m3_deliverables).(dc_costs); dc_knowledge_deliveries := deliveries |}.

Definition target_name (target : KnowledgeTarget) : string :=
  match target with AgentMemoryOs => "agent_memory_os" | BastetMind => "bastet_mind" end.

Section catalogs.
Context `{Environment} `{Digest} `{Serializer} `{Formats}.

Definition catalog : M CatalogSnapshot :=
  read_only (λ d,
    let? catalog := from_str (ct_catalog (d_identity d)) in
    map_err InvalidCatalog (validate_catalog catalog) ?;
    Ok {| csn_revision := ct_revision (d_identity d); csn_catalog := catalog |}).

Definition m3_catalog : M M3CatalogSnapshot :=
  read_only (λ d,
    let? catalog := from_str (ct_catalog (d_m3 d)) in
    let? identity := from_str (ct_catalog (d_identity d)) in
    validate_m3_catalog catalog identity ?;
    Ok {| msn_revision := ct_revision (d_m3 d); msn_catalog := catalog |}).

Definition replace_catalog (command : ReplaceCatalogCommand) : M CatalogReceipt :=
  let catalog := rc_catalog command in
  try InvalidCatalog (validate_catalog catalog) ;>
  transact (
    let! d := get in
    let actual := ct_revision (d_identity d) in
    reject negb (bool_decide (actual = rc_expected_revision command))
      with RevisionConflict (rc_expected_revision command) actual;;
    let! previous := parse (ct_catalog (d_identity d)) in
    lift (for_each (keeps_run previous catalog) previous.(ic_runs)) ;>
    lift (for_each (introduces_run previous) catalog.(ic_runs)) ;>
    let! m3 := parse (ct_catalog (d_m3 d)) in
    let! executions := lift (load_graph_executions d) in
    try (λ e, InvalidM3 (OfM3 e))
      (validate_m3 {| ms_catalog := m3; ms_graph_executions := executions |} catalog) ;>
    let revision := (actual + 1)%Z in
    let! now := timestamp in
    update_identity revision catalog now ;>
    let! event := insert_event "catalog.replaced"
      [("revision", JNumber revision);
       ("agent_providers", JNumber (Z.of_nat (length catalog.(ic_agent_providers))));
       ("projects", JNumber (Z.of_nat (length catalog.(ic_projects))));
       ("sessions", JNumber (Z.of_nat (length catalog.(ic_sessions))));
       ("runs", JNumber (Z.of_nat (length catalog.(ic_runs))))] in
    mret {| ctr_revision := revision; ctr_event_sequence := ee_sequence event |}).

Definition replace_m3_catalog (command : ReplaceM3CatalogCommand) : M CatalogReceipt := transact (
  let! d := get in
  let! identity := parse (ct_catalog (d_identity d)) in
  lift (validate_m3_catalog (rm_catalog command) identity) ;>
  let actual := ct_revision (d_m3 d) in
  reject negb (bool_decide (actual = rm_expected_revision command))
    with RevisionConflict (rm_expected_revision command) actual;;
  let! revision := next_revision actual in
  let! now := timestamp in
  update_m3 revision (rm_catalog command) now ;>
  let! event := insert_event "m3.catalog_replaced"
    [("revision", JNumber revision);
     ("pet_profiles",
      JNumber (Z.of_nat (length (rm_catalog command).(m3_office).(oc_pet_profiles))));
     ("meetings", JNumber (Z.of_nat (length (rm_catalog command).(m3_meetings).(mc_meetings))));
     ("documents",
      JNumber (Z.of_nat (length (rm_catalog command).(m3_deliverables).(dc_documents))))] in
  mret {| ctr_revision := revision; ctr_event_sequence := ee_sequence event |}).

(** ** Runs reported by a provider *)

Definition preflight_provider_cancel (run_id : RunId) (expected_catalog_revision : Z) : M unit :=
  read_only (λ d,
    let actual := ct_revision (d_identity d) in
    fail_if negb (bool_decide (actual = expected_catalog_revision))
      with RevisionConflict expected_catalog_revision actual;;
    let? catalog := from_str (ct_catalog (d_identity d)) in
    let? run := ok_or (find_run catalog run_id) RunNotFound in
    fail_if negb (in_run_state [RunStarting; RunRunning; RunRecovering] run.(rn_state))
      with InvalidRunState (run_state_name run.(rn_state));;
    Ok tt).

(** The run is the latest attempt of its node. *)
Definition is_current_attempt (d : db) (run_id : RunId) : bool :=
  match d_runs d !! run_id with
  | Some row => bool_decide (nw_attempt row
      = max_attempt (attempts d (nw_execution_id row) (nw_node_id row)))
  | None => false
  end.

Definition record_provider_running (run_id : RunId) (provider_session_id : option string)
    : M Z :=
  reject match provider_session_id with Some id => blank id | None => false end
    with InvalidRunState "empty provider session id";;
  transact (
    let! d := get in
    let actual := ct_revision (d_identity d) in
    reject negb (is_current_attempt d run_id)
      with InvalidRunState "run is not the current graph node attempt";;
    let! catalog := parse (ct_catalog (d_identity d)) in
    let! run := required (find_run catalog run_id) RunNotFound in
    reject negb (in_run_state [RunStarting; RunRunning; RunCancelling] run.(rn_state))
      with InvalidRunState (run_state_name run.(rn_state));;
    let! session := required (find_session catalog run.(rn_session_id)) RunNotFound in
    let! now := timestamp in
    let starting := in_run_state [RunStarting] run.(rn_state) in
    (if starting then check_revision run else mret tt) ;>
    let reported :=
      match provider_session_id with
      | Some id => if bool_decide (session.(ss_provider_session_id) = Some id) then None
                   else Some id
      | None => None
      end in
    (if bool_decide (is_Some reported)
     then next_revision session.(ss_metadata).(em_revision) ;> mret tt else mret tt) ;>
    if negb starting && bool_decide (reported = None) then mret actual else
    let catalog :=
      if starting
      then with_run catalog run_id
             (run_in_state RunRunning run.(rn_started_at) run.(rn_finished_at) now)
      else catalog in
    let catalog :=
      match reported with
      | Some id => with_provider_session catalog run.(rn_session_id) id now
      | None => catalog
      end in
    try InvalidCatalog (validate_catalog catalog) ;>
    let! revision := next_revision actual in
    let! t := timestamp in
    update_identity revision catalog t ;>
    insert_event "run.provider_running" [("run_id", jid run_id)] ;>
    mret revision).

(** A run whose cancellation the provider accepted. *)
Definition store_cancelling (actual : Z) (catalog : IdentityCatalog) (run : Run) : M Z :=
  check_revision run ;>
  let! now := timestamp in
  let catalog := with_run catalog run.(rn_metadata).(em_id)
    (run_in_state RunCancelling run.(rn_started_at) run.(rn_finished_at) now) in
  try InvalidCatalog (validate_catalog catalog) ;>
  let! revision := next_revision actual in
  let! t := timestamp in
  update_identity revision catalog t ;>
  mret revision.

Definition cancel_receipt (run_id : RunId) (revision : Z) (event : EventEnvelope)
    : CancelRunReceipt :=
  {| crr_run_id := run_id; crr_catalog_revision := revision;
     crr_event_sequence := ee_sequence event |}.

Definition record_provider_cancel_after_preflight (run_id : RunId) : M CancelRunReceipt :=
  transact (
    let! d := get in
    let actual := ct_revision (d_identity d) in
    let! catalog := parse (ct_catalog (d_identity d)) in
    let! run := required (find_run catalog run_id) RunNotFound in
    let terminal_won :=
      in_run_state [RunCancelled; RunFailed; RunSucceeded; RunBlocked; RunUncertain]
        run.(rn_state) in
    let! revision :=
      if terminal_won then mret actual else
      if in_run_state [RunStarting; RunRunning; RunRecovering; RunCancelling] run.(rn_state)
      then store_cancelling actual catalog run
      else throw (InvalidRunState (run_state_name run.(rn_state))) in
    let! event := insert_event
      (if terminal_won then "run.cancel_accepted_terminal_won" else "run.cancel_accepted")
      [("run_id", jid run_id)] in
    mret (cancel_receipt run_id revision event)).

Definition record_provider_cancel_accepted (run_id : RunId) (expected_catalog_revision : Z)
    : M CancelRunReceipt := transact (
  let! d := get in
  let actual := ct_revision (d_identity d) in
  reject negb (bool_decide (actual = expected_catalog_revision))
    with RevisionConflict expected_catalog_revision actual;;
  let! catalog := parse (ct_catalog (d_identity d)) in
  let! run := required (find_run catalog run_id) RunNotFound in
  reject negb (in_run_state [RunStarting; RunRunning; RunRecovering] run.(rn_state))
    with InvalidRunState (run_state_name run.(rn_state));;
  let! revision := store_cancelling actual catalog run in
  let! event := insert_event "run.cancel_accepted" [("run_id", jid run_id)] in
  mret (cancel_receipt run_id revision event)).

(** ** The first-run workflow *)

Section mvp.
Context (is_dir : string → bool).

(** The identifiers a draft or a decision draws, from the same generator. *)
Definition draw_mvp_ids : M mvp_ids :=
  let! project := new_id in let! meeting := new_id in let! room := new_id in
  let! left_role := new_id in let! right_role := new_id in let! integrator := new_id in
  let! codex_provider := new_id in let! agy_provider := new_id in
  let! openai_provider := new_id in let! agy_model_provider := new_id in
  let! codex_model := new_id in let! agy_model := new_id in
  let! codex_agent := new_id in let! agy_agent := new_id in
  let! a1 := new_id in let! a2 := new_id in let! a3 := new_id in
  mret {| mi_project := project; mi_meeting := meeting; mi_room := room; mi_left_role := left_role;
          mi_right_role := right_role; mi_integrator_role := integrator;
          mi_codex_provider := codex_provider; mi_agy_provider := agy_provider;
          mi_openai_provider := openai_provider; mi_agy_model_provider := agy_model_provider;
          mi_codex_model := codex_model; mi_agy_model := agy_model; mi_codex_agent := codex_agent;
          mi_agy_agent := agy_agent; mi_assignments := (a1, a2, a3) |}.
Definition draw_decision_ids : M decision_ids :=
  let! baseline := new_id in let! left_node := new_id in let! right_node := new_id in
  let! execution := new_id in let! join := new_id in
  mret {| di_baseline := baseline; di_left := left_node; di_right := right_node;
          di_execution := execution; di_join := join |}.

Definition prepare_mvp (command : PrepareMvpCommand) : M PrepareMvpReceipt :=
  let! ids := draw_mvp_ids in
  let! draft := try (λ e, InvalidMvp (OfMvp e))
    (prepare_draft is_dir ids (pm_project_name command) (pm_workspace_root command)
       (pm_codex_model command) (pm_agy_model command)) in
  transact (
    let! d := get in
    let catalog_revision := ct_revision (d_identity d) in
    let m3_revision := ct_revision (d_m3 d) in
    let! existing_identity := parse (ct_catalog (d_identity d)) in
    let! existing_m3 := parse (ct_catalog (d_m3 d)) in
    reject negb (bool_decide (existing_identity = empty_identity))
           || negb (m3_is_unconfigured existing_m3)
      with InvalidMvp (Said "MVP initializer refuses to replace existing project data");;
    let existing_pets := existing_m3.(m3_office).(oc_pet_profiles) in
    let m3 := if bool_decide (existing_pets = []) then draft.(mv_m3)
              else with_pets draft.(mv_m3) existing_pets in
    reject negb (bool_decide (catalog_revision = pm_expected_catalog_revision command))
      with RevisionConflict (pm_expected_catalog_revision command) catalog_revision;;
    reject negb (bool_decide (m3_revision = pm_expected_m3_revision command))
      with RevisionConflict (pm_expected_m3_revision command) m3_revision;;
    let! next_catalog := next_revision catalog_revision in
    let! next_m3 := next_revision m3_revision in
    let! t := timestamp in
    update_identity next_catalog draft.(mv_identity) t ;>
    let! t := timestamp in
    update_m3 next_m3 m3 t ;>
    let! event := insert_event "mvp.prepared"
      [("project_id", jid draft.(mv_project_id)); ("meeting_id", jid draft.(mv_meeting_id))] in
    mret {| pmr_project_id := draft.(mv_project_id); pmr_meeting_id := draft.(mv_meeting_id);
            pmr_catalog_revision := next_catalog; pmr_m3_revision := next_m3;
            pmr_event_sequence := ee_sequence event |}).

(** The state catalog at the expected revision, which the methods below edit,
    validate together with the executions, and store. *)
Definition expect_m3 (d : db) (expected_m3_revision : Z) : outcome StoreError M3Catalog :=
  let actual := ct_revision (d_m3 d) in
  fail_if negb (bool_decide (actual = expected_m3_revision))
    with RevisionConflict expected_m3_revision actual;;
  from_str (ct_catalog (d_m3 d)).

Definition validate_stored (wrap : message → StoreError) (identity : IdentityCatalog)
    (m3 : M3Catalog) (executions : list GraphExecution) : outcome StoreError unit :=
  map_err (λ e, wrap (OfM3 e))
    (validate_m3 {| ms_catalog := m3; ms_graph_executions := executions |} identity).

Definition store_m3 (actual : Z) (m3 : M3Catalog) : M Z :=
  let! revision := next_revision actual in
  let! t := timestamp in
  update_m3 revision m3 t ;>
  mret revision.

Definition accept_decision_baseline (command : AcceptDecisionBaselineCommand)
    : M AcceptDecisionBaselineReceipt := transact (
  let! d := get in
  let actual := ct_revision (d_m3 d) in
  reject negb (bool_decide (actual = ab_expected_m3_revision command))
    with RevisionConflict (ab_expected_m3_revision command) actual;;
  let! identity := parse (ct_catalog (d_identity d)) in
  let! m3 := parse (ct_catalog (d_m3 d)) in
  let! ids := draw_decision_ids in
  let '(m3, accepted) :=
    accept_mvp_decision ids m3 identity (ab_meeting_id command) (ab_content command)
      (ab_accepted_by command) (ab_accepted_at command) in
  let! execution := try (λ e, InvalidMvp (OfMvp e)) accepted in
  let! baseline := required (last m3.(m3_meetings).(mc_decision_baselines))
                     (InvalidMvp (Said "missing accepted baseline")) in
  let baseline_id := baseline.(db_metadata).(em_id) in
  let! executions := lift (load_graph_executions d) in
  lift (validate_stored InvalidMvp identity m3 (executions ++ [execution])) ;>
  let! revision := store_m3 actual m3 in
  let! t := timestamp in
  insert_graph execution t ;>
  let! event := insert_event "mvp.decision_accepted"
    [("meeting_id", jid (ab_meeting_id command)); ("baseline_id", jid baseline_id);
     ("graph_execution_id", jid execution.(ge_id))] in
  mret {| abr_baseline_id := baseline_id; abr_graph_execution_id := execution.(ge_id);
          abr_m3_revision := revision; abr_event_sequence := ee_sequence event |}).

(** The finished execution a document is made from: its sources, its join and
    the join's output. *)
Definition document_sources (execution : GraphExecution)
    : outcome StoreError (list GraphNodeId * GraphNode * GraphNodeOutput) :=
  fail_if existsb (λ node, negb (in_state Succeeded node)) execution.(ge_nodes)
    with InvalidDocument (Said "graph is not complete");;
  let source_node_ids :=
    map gn_id (List.filter (λ node, bool_decide (node.(gn_kind) = Research))
                 execution.(ge_graph).(wg_nodes)) in
  fail_if existsb (λ node_id, bool_decide (find_output execution node_id = None)) source_node_ids
    with InvalidDocument (Said "research source output evidence is missing");;
  let? join_node := ok_or (List.find (λ node, bool_decide (node.(gn_kind) = Graph.Join))
                             execution.(ge_graph).(wg_nodes))
                      (InvalidDocument (Said "join node not found")) in
  let? join_output := ok_or (find_output execution join_node.(gn_id))
                        (InvalidDocument (Said "completed join output evidence is missing")) in
  Ok (source_node_ids, join_node, join_output).

Definition create_mvp_document (command : CreateDocumentCommand) : M DocumentReceipt := transact (
  let! d := get in
  let! identity := parse (ct_catalog (d_identity d)) in
  let! m3 := lift (expect_m3 d (cd_expected_m3_revision command)) in
  let! executions := lift (load_graph_executions d) in
  let! execution := required (List.find (λ item, bool_decide (item.(ge_id)
                                 = cd_graph_execution_id command)) executions) GraphNotFound in
  let! (source_node_ids, join_node, join_output) := lift (document_sources execution) in
  let! baseline := required (find_by db_metadata m3.(m3_meetings).(mc_decision_baselines)
                               execution.(ge_graph).(wg_decision_baseline_id))
                     (InvalidDocument (Said "DecisionBaseline not found")) in
  let! meeting := required (find_by mt_metadata m3.(m3_meetings).(mc_meetings)
                              baseline.(db_meeting_id))
                    (InvalidDocument (Said "meeting not found")) in
  let! artifact_id := new_id in
  let! version_id := new_id in
  let! version := try (λ e, InvalidDocument (OfDeliverable e))
    (version_create version_id 1 None (cd_markdown command) source_node_ids) in
  let! version := try (λ e, InvalidDocument (OfDeliverable e))
    (bind_join_receipt version execution.(ge_id) join_node.(gn_id)
       join_output.(no_content_hash)) in
  let! metadata := entity_metadata artifact_id "mvp_document" in
  let m3' := with_documents m3 (m3.(m3_deliverables).(dc_documents) ++
    [ {| da_metadata := metadata; da_project_id := meeting.(mt_project_id);
         da_title := cd_title command; da_versions := [version] |} ]) in
  lift (validate_stored InvalidDocument identity m3' executions) ;>
  let! revision := store_m3 (ct_revision (d_m3 d)) m3' in
  let! event := insert_event "artifact.document_created"
    [("artifact_id", jid artifact_id); ("version_id", jid version_id);
     ("content_hash", JText version.(dv_content_hash))] in
  mret {| dcr_artifact_id := artifact_id; dcr_version_id := version_id;
          dcr_content_hash := version.(dv_content_hash); dcr_m3_revision := revision;
          dcr_event_sequence := ee_sequence event |}).

(** The first document with the id, and in it the first version with the id. *)
Definition has_version_id (id : ArtifactVersionId) (v : DocumentVersion) : bool :=
  bool_decide (v.(dv_id) = id).
Definition replace_version (documents : list DocumentArtifact) (artifact : ArtifactId)
    (id : ArtifactVersionId) (version : DocumentVersion) : list DocumentArtifact :=
  update_first (has_metadata_id da_metadata artifact)
    (λ document,
      {| da_metadata := document.(da_metadata); da_project_id := document.(da_project_id);
         da_title := document.(da_title);
         da_versions := update_first (has_version_id id) (λ _, version) document.(da_versions) |})
    documents.

Definition accept_mvp_document (command : AcceptDocumentCommand) : M DocumentReceipt := transact (
  let! d := get in
  let! identity := parse (ct_catalog (d_identity d)) in
  let! m3 := lift (expect_m3 d (ad_expected_m3_revision command)) in
  let documents := m3.(m3_deliverables).(dc_documents) in
  let not_found := InvalidDocument (Said "artifact version not found") in
  let! document := required (find_by da_metadata documents (ad_artifact_id command)) not_found in
  let! version := required (List.find (has_version_id (ad_version_id command))
                              document.(da_versions)) not_found in
  reject negb (bool_decide (version.(dv_content_hash) = ad_content_hash command))
    with InvalidDocument (Said "content hash mismatch");;
  let! version := try (λ e, InvalidDocument (OfDeliverable e))
    (accept version (ad_accepted_by command) (ad_accepted_at command)) in
  let m3' := with_documents m3
    (replace_version documents (ad_artifact_id command) (ad_version_id command) version) in
  let! executions := lift (load_graph_executions d) in
  lift (validate_stored InvalidDocument identity m3' executions) ;>
  let! revision := store_m3 (ct_revision (d_m3 d)) m3' in
  let! event := insert_event "artifact.document_accepted"
    [("artifact_id", jid (ad_artifact_id command)); ("version_id", jid (ad_version_id command));
     ("content_hash", JText (ad_content_hash command))] in
  mret {| dcr_artifact_id := ad_artifact_id command; dcr_version_id := ad_version_id command;
          dcr_content_hash := ad_content_hash command; dcr_m3_revision := revision;
          dcr_event_sequence := ee_sequence event |}).

Definition prepare_knowledge_delivery (command : PrepareKnowledgeDeliveryCommand)
    : M KnowledgeDeliveryReceipt := transact (
  let! d := get in
  let! identity := parse (ct_catalog (d_identity d)) in
  let! m3 := lift (expect_m3 d (pk_expected_m3_revision command)) in
  let accepted :=
    existsb (λ document,
      bool_decide (document.(da_project_id) = pk_project_id command)
      && existsb (λ version, has_version_id (pk_artifact_version_id command) version
                             && bool_decide (is_Some version.(dv_accepted_by)))
           document.(da_versions)) m3.(m3_deliverables).(dc_documents) in
  reject negb accepted
    with InvalidDocument (Said "knowledge delivery requires an accepted artifact version");;
  let! delivery_id := new_id in
  let! metadata := entity_metadata delivery_id "knowledge_delivery" in
  let! delivery := try (λ e, InvalidDocument (OfDeliverable e))
    (prepare metadata (pk_project_id command) (pk_artifact_version_id command)
       (pk_target command) (pk_preview command)) in
  let m3' := with_deliveries m3
    (m3.(m3_deliverables).(dc_knowledge_deliveries) ++ [delivery]) in
  let! executions := lift (load_graph_executions d) in
  lift (validate_stored InvalidDocument identity m3' executions) ;>
  let! revision := store_m3 (ct_revision (d_m3 d)) m3' in
  let! event := insert_event "knowledge.delivery_prepared"
    [("delivery_id", jid delivery_id); ("target", JText (target_name (pk_target command)))] in
  mret {| kdr_delivery_id := delivery_id; kdr_state := delivery.(kd_state);
          kdr_m3_revision := revision; kdr_event_sequence := ee_sequence event |}).

Definition complete_knowledge_delivery (command : CompleteKnowledgeDeliveryCommand)
    : M KnowledgeDeliveryReceipt := transact (
  let! d := get in
  let! identity := parse (ct_catalog (d_identity d)) in
  let! m3 := lift (expect_m3 d (ck_expected_m3_revision command)) in
  let deliveries := m3.(m3_deliverables).(dc_knowledge_deliveries) in
  let! delivery := required (find_by kd_metadata deliveries (ck_delivery_id command))
                     (InvalidDocument (Said "knowledge delivery not found")) in
  let! delivery := try (λ e, InvalidDocument (OfDeliverable e))
    (record_delivered delivery (ck_destination_receipt command)) in
  let m3' := with_deliveries m3
    (update_first (has_metadata_id kd_metadata (ck_delivery_id command)) (λ _, delivery)
       deliveries) in
  let! executions := lift (load_graph_executions d) in
  lift (validate_stored InvalidDocument identity m3' executions) ;>
  let! revision := store_m3 (ct_revision (d_m3 d)) m3' in
  let! event := insert_event "knowledge.delivery_completed"
    [("delivery_id", jid (ck_delivery_id command))] in
  mret {| kdr_delivery_id := ck_delivery_id command; kdr_state := delivery.(kd_state);
          kdr_m3_revision := revision; kdr_event_sequence := ee_sequence event |}).

Definition record_cost (command : RecordCostCommand) : M CostReceipt := transact (
  let! d := get in
  let! identity := parse (ct_catalog (d_identity d)) in
  let! m3 := lift (expect_m3 d (rk_expected_m3_revision command)) in
  let id := (rk_record command).(cl_metadata).(em_id) in
  reject existsb (has_metadata_id cl_metadata id) m3.(m3_deliverables).(dc_costs)
    with InvalidCost (Said "duplicate cost record id");;
  let m3' := push_cost m3 (rk_record command) in
  let! executions := lift (load_graph_executions d) in
  lift (validate_stored InvalidCost identity m3' executions) ;>
  let! revision := store_m3 (ct_revision (d_m3 d)) m3' in
  let! event := insert_event "cost.recorded" [("cost_record_id", jid id)] in
  mret {| kr_cost_record_id := id; kr_m3_revision := revision;
          kr_event_sequence := ee_sequence event |}).

End mvp.
End catalogs.
