(* ===== verification/CredentialGrants.v ===== *)
(** * Credential grants

    Models [crates/bastet-daemon/src/credential_grants.rs]: an approved request
    for a credential becomes a grant, which is spent at most once or revoked,
    and never yields a secret itself. *)
From S2P Require Import Prelude Policy Identity Catalog Office Meeting.
From S2P Require Import Deliverable Approval Graph Execution M3 Mvp Protocol Store.
From S2P Require Import Launch StagedLaunches.

Definition validate_time (request : ApprovalRequest) (now : Z) : outcome StoreError unit :=
  fail_if (now <? request.(ar_created_at_ms))%Z || (request.(ar_expires_at_ms) <=? now)%Z
          || (I64_MAX <? request.(ar_expires_at_ms))%Z with CredentialGrantRejected;;
  Ok tt.

Section grants.
Context `{Environment} `{Digest} `{Serializer} `{Formats}.

(** The launch staged for the run is the one of the request, and still waits. *)
Definition awaiting_launch (d : db) (request : ApprovalRequest) (run_id : RunId) : bool :=
  match d_staged d !! run_id with
  | Some row => bool_decide (sw_request_id row = request.(ar_id))
                && in_launch_state [SlAwaitingApproval; SlReady] row
  | None => false
  end.

(** The run is at the point where its credential may be used. *)
Definition run_may_use (d : db) (request : ApprovalRequest) (run : Run) : bool :=
  let run_id := run.(rn_metadata).(em_id) in
  negb (bool_decide (is_Some run.(rn_finished_at)))
  && match d_staged d !! run_id with
     | Some _ => awaiting_launch d request run_id
                 && bool_decide (run.(rn_state) = RunAwaitingApproval)
                 && negb (bool_decide (is_Some run.(rn_started_at)))
     | None => bool_decide (run.(rn_state) = RunStarting)
     end.

(** The checks of a run that belongs to a graph node. *)
Definition validate_graph_run (d : db) (request : ApprovalRequest) (catalog : IdentityCatalog)
    (m3 : M3Catalog) (run : Run) (role_id : RoleId) (row : node_run_row)
    : outcome StoreError unit :=
  let run_id := run.(rn_metadata).(em_id) in
  fail_if bool_decide (is_Some (nw_finished_at row)) with CredentialGrantRejected;;
  let? graph_row := ok_or (d_graphs d !! nw_execution_id row) Database in
  let? graph := from_str (gw_execution graph_row) in
  map_err InvalidGraph (validate_execution graph) ?;
  let? definition := ok_or (find_node graph.(ge_graph) (nw_node_id row)) CredentialGrantRejected in
  let? current := ok_or (find_execution graph definition.(gn_id)) CredentialGrantRejected in
  let expected := if awaiting_launch d request run_id then AwaitingApproval else Running in
  fail_if negb (bool_decide (definition.(gn_role_id) = role_id))
          || negb (bool_decide (current.(ne_run_id) = Some run_id))
          || negb (bool_decide (current.(ne_state) = expected)) with CredentialGrantRejected;;
  let? selected := load_launch_identity d run_id in
  let? selected := ok_or selected CredentialGrantRejected in
  let? current_binding := resolve_provider_run_binding catalog m3 graph definition.(gn_id) in
  let? plan := plan_load d run_id in
  validate_current_policy plan catalog ?;
  fail_if negb (bool_decide (selected = current_binding.(pb_launch_identity)))
          || negb (bool_decide (plan.(lp_identity) = selected))
          || negb (bool_decide (plan.(lp_execution_id) = graph.(ge_id)))
          || negb (bool_decide (plan.(lp_node_id) = definition.(gn_id)))
          || negb (bool_decide (plan.(lp_role_id) = role_id))
          || negb (bool_decide (plan.(lp_session_id) = run.(rn_session_id)))
          || negb (bool_decide (current.(ne_owner) = Some plan.(lp_owner)))
          || negb (bool_decide (plan.(lp_workspace_root) = current_binding.(pb_workspace_root)))
          || negb (bool_decide (plan.(lp_prompt) = current_binding.(pb_prompt)))
          || negb (bool_decide (selected.(pli_agent_instance_id)
                                = request.(ar_action).(aa_agent_instance_id)))
          || negb (bool_decide (selected.(pli_project_id)
                                = request.(ar_action).(aa_scope).(sc_project_id)))
          || negb (bool_decide (selected.(pli_model_id) = run.(rn_model_id)))
    with CredentialGrantRejected;;
  Ok tt.

Definition validate_current_catalog (d : db) (request : ApprovalRequest)
    : outcome StoreError unit :=
  let? catalog := load_catalog d in
  map_err InvalidApproval (validate_against request catalog) ?;
  let action := request.(ar_action) in
  let? run := ok_or (List.find (λ run,
                bool_decide (Some run.(rn_metadata).(em_id) = action.(aa_scope).(sc_run_id)))
                catalog.(ic_runs)) CredentialGrantRejected in
  fail_if negb (run_may_use d request run) with CredentialGrantRejected;;
  let? role_id := ok_or action.(aa_role_id) CredentialGrantRejected in
  let? m3 := from_str (ct_catalog (d_m3 d)) in
  validate_m3_catalog m3 catalog ?;
  let assignments := List.filter (λ assignment,
      bool_decide (assignment.(pa_metadata).(em_lifecycle) = Active)
      && bool_decide (assignment.(pa_project_id) = action.(aa_scope).(sc_project_id))
      && bool_decide (assignment.(pa_agent_instance_id) = action.(aa_agent_instance_id)))
    m3.(m3_office).(oc_pet_assignments) in
  fail_if negb (existsb (λ assignment, bool_decide (assignment.(pa_role_id) = role_id)) assignments)
    with CredentialGrantRejected;;
  match d_runs d !! run.(rn_metadata).(em_id) with
  | Some row => validate_graph_run d request catalog m3 run role_id row
  | None => fail_if negb (length assignments =? 1) with CredentialGrantRejected;; Ok tt
  end.

Definition issue (request : ApprovalRequest) (decision : ApprovalDecision) : M unit :=
  insert_grant request.(ar_id) decision.(ad_decided_at_ms) ;>
  insert_event "credential.grant_issued"
    [("request_id", jid request.(ar_id));
     ("run_id", match request.(ar_action).(aa_scope).(sc_run_id) with
                | Some run_id => jid run_id
                | None => JNull
                end)] ;>
  mret tt.

Definition grant_load (d : db) (id : ApprovalRequestId)
    : outcome StoreError CredentialGrantRecord :=
  let? grant := ok_or (d_grants d !! id) CredentialGrantNotFound in
  let? approval := ok_or (d_approvals d !! id) CredentialGrantNotFound in
  let? request := from_str (aw_request approval) in
  let? json := ok_or (aw_decision approval) CredentialGrantRejected in
  let? decision := from_str json in
  let record :=
    {| cg_request := request; cg_decision := decision;
       cg_issued_at_ms := gr_issued_at_ms grant; cg_consumed_at_ms := gr_consumed_at_ms grant;
       cg_revoked_at_ms := gr_revoked_at_ms grant; cg_revoked_by := gr_revoked_by grant |} in
  map_err InvalidApproval (request_validate_unchanged request) ?;
  map_err InvalidApproval (verify_decision request decision) ?;
  fail_if negb (bool_decide (request.(ar_id) = id))
          || negb (bool_decide (decision.(ad_kind) = Approve))
          || bool_decide (request.(ar_action).(aa_scope).(sc_credential_binding) = None)
          || negb (bool_decide (cg_issued_at_ms record = decision.(ad_decided_at_ms)))
    with CredentialGrantRejected;;
  Ok record.

(** Issued by [now] and neither spent nor revoked. *)
Definition grant_usable (record : CredentialGrantRecord) (now : Z) : bool :=
  (cg_issued_at_ms record <=? now)%Z && bool_decide (cg_consumed_at_ms record = None)
  && bool_decide (cg_revoked_at_ms record = None).

Definition credential_grant (id : ApprovalRequestId) : M CredentialGrantRecord := λ w,
  if w_poisoned w then (Err Poisoned, w) else lift (grant_load (w_db w) id) w.

Definition consume_credential_grant (id : ApprovalRequestId) (action : ApprovalAction)
    : M CredentialGrantRecord := transact (
  let! d := get in
  let! record := lift (grant_load d id) in
  reject bool_decide (is_Some (staged_for d id)) with CredentialGrantRejected;;
  let! now := now_ms in
  lift (validate_time (cg_request record) now) ;>
  reject negb (bool_decide ((cg_request record).(ar_action) = action))
         || negb (grant_usable record now) with CredentialGrantRejected;;
  reject negb (bool_decide (dr_lifecycle (d_daemon d) = "ready")) with CredentialGrantRejected;;
  lift (validate_current_catalog d (cg_request record)) ;>
  let! changed := consume_row id now in
  reject negb changed with CredentialGrantRejected;;
  insert_event "credential.grant_consumed"
    [("request_id", jid id);
     ("run_id", match action.(aa_scope).(sc_run_id) with
                | Some run_id => jid run_id
                | None => JNull
                end)] ;>
  mret {| cg_request := cg_request record; cg_decision := cg_decision record;
          cg_issued_at_ms := cg_issued_at_ms record; cg_consumed_at_ms := Some now;
          cg_revoked_at_ms := cg_revoked_at_ms record; cg_revoked_by := cg_revoked_by record |}).

Definition revoke_credential_grant (id : ApprovalRequestId) (actor : string)
    : M CredentialGrantRecord :=
  reject blank actor || (200 <? str_len actor)%Z with CredentialGrantRejected;;
  transact (
    let! d := get in
    let! record := lift (grant_load d id) in
    let! now := now_ms in
    lift (validate_time (cg_request record) now) ;>
    reject negb (grant_usable record now) with CredentialGrantRejected;;
    let! changed := revoke_row id (λ _, now) actor in
    reject negb changed with CredentialGrantRejected;;
    cancel_for_request id "revoked" ;>
    insert_event "credential.grant_revoked" [("request_id", jid id)] ;>
    mret {| cg_request := cg_request record; cg_decision := cg_decision record;
            cg_issued_at_ms := cg_issued_at_ms record;
            cg_consumed_at_ms := cg_consumed_at_ms record; cg_revoked_at_ms := Some now;
            cg_revoked_by := Some actor |}).

End grants.
