(* ===== verification/Dispatch.v ===== *)
(** * Credential dispatch

    Models [crates/bastet-daemon/src/credential_dispatch.rs]: a ready launch is
    claimed in one transaction that spends its grant, and only then is the
    native credential store read. *)
From S2P Require Import Prelude Policy Identity Catalog Office Meeting.
From S2P Require Import Deliverable Approval Graph Execution M3 Mvp Protocol Store.
From S2P Require Import Launch StagedLaunches CredentialGrants.

Inductive BrokerError := BrokerAuthorization | BrokerCredential | BrokerRecovery.

(** [SecretBytes]: opaque to the broker. *)
Record PreparedLaunch := {
  pl_receipt : BeginGraphNodeRunReceipt;
  pl_credential : string;
}.

Record DispatchClaim := {
  dc_receipt : BeginGraphNodeRunReceipt;
  dc_selection : ProviderCredentialSelection;
}.

(** The trait [CredentialReader]: whether a selection is well formed, and the
    answer of the native store to the n-th read. *)
Class CredentialReader := {
  reader_validate : ProviderCredentialSelection → bool;
  reader_read : nat → ProviderCredentialSelection → option string;
}.

Section dispatch.
Context `{Environment} `{Digest} `{Serializer} `{Formats} `{CredentialReader}.

Definition claim_staged_dispatch (request_id : ApprovalRequestId) : M DispatchClaim := transact (
  let! d := get in
  reject negb (bool_decide (dr_lifecycle (d_daemon d) = "ready")) with CredentialGrantRejected;;
  let! record := lift (grant_load d request_id) in
  let! now := now_ms in
  lift (validate_time (cg_request record) now) ;>
  reject negb (grant_usable record now) with CredentialGrantRejected;;
  let! run_id := required (cg_request record).(ar_action).(aa_scope).(sc_run_id)
                   CredentialGrantRejected in
  let ready :=
    match d_staged d !! run_id with
    | Some row => bool_decide (sw_request_id row = request_id) && in_launch_state [SlReady] row
    | None => false
    end in
  reject negb ready with CredentialGrantRejected;;
  let revision := ct_revision (d_identity d) in
  let! catalog := parse (ct_catalog (d_identity d)) in
  let! run := required (find_run catalog run_id) RunNotFound in
  lift (validate_staged_run d run) ;>
  lift (validate_current_catalog d (cg_request record)) ;>
  let! plan := lift (plan_load d run_id) in
  lift (validate_online_cli_requirements plan) ;>
  let! account := required plan.(lp_identity).(pli_account) CredentialGrantRejected in
  let! selection := required account.(pas_credential) CredentialGrantRejected in
  reject negb (reader_validate selection) with CredentialGrantRejected;;
  let! graph_row := required (d_graphs d !! plan.(lp_execution_id)) Database in
  let! graph := parse (gw_execution graph_row) in
  let! graph := try InvalidGraph
    (activate_staged_node graph plan.(lp_node_id) plan.(lp_owner) run_id) in
  try InvalidGraph (validate_execution graph) ;>
  let started_at := decimal now in
  check_revision run ;>
  let catalog := with_run catalog run_id
    (run_in_state RunStarting (Some started_at) run.(rn_finished_at) started_at) in
  try InvalidCatalog (validate_catalog catalog) ;>
  let! revision := next_revision revision in
  let! consumed := consume_row request_id now in
  reject negb consumed with CredentialGrantRejected;;
  let! moved := move_request request_id [SlReady] (move_staged SlDispatching) in
  reject negb moved with CredentialGrantRejected;;
  insert_claim run_id request_id now ;>
  update_identity revision catalog started_at ;>
  update_graph_row plan.(lp_execution_id) graph started_at ;>
  insert_event "credential.grant_consumed"
    [("request_id", jid request_id); ("run_id", jid run_id)] ;>
  let! event := insert_event "provider_launch.dispatch_claimed"
    [("request_id", jid request_id); ("run_id", jid run_id)] in
  mret {| dc_selection := selection;
          dc_receipt :=
            {| br_execution_id := plan.(lp_execution_id); br_node_id := plan.(lp_node_id);
               br_session_id := plan.(lp_session_id); br_run_id := run_id;
               br_launch_identity := Some plan.(lp_identity);
               br_adapter_kind := plan.(lp_identity).(pli_adapter_kind);
               br_model := plan.(lp_identity).(pli_model);
               br_workspace_root := plan.(lp_workspace_root); br_prompt := plan.(lp_prompt);
               br_catalog_revision := revision; br_graph_revision := graph.(ge_revision);
               br_event_sequence := ee_sequence event |} |}).

Definition move_run_staged (run : RunId) (from : StagedLaunchState) (to : StagedLaunchState)
    : M bool :=
  let! d := get in
  match d_staged d !! run with
  | Some row =>
      if in_launch_state [from] row
      then modify (λ d, put_staged d (<[run := move_staged to row]> (d_staged d))) ;> mret true
      else mret false
  | None => mret false
  end.

Definition fail_dispatch_claim (run_id : RunId) : M unit := transact (
  let! d := get in
  let! plan := lift (plan_load d run_id) in
  let revision := ct_revision (d_identity d) in
  let! catalog := parse (ct_catalog (d_identity d)) in
  let! run := required (find_run catalog run_id) RunNotFound in
  reject negb (in_run_state [RunStarting] run.(rn_state)) with CredentialGrantRejected;;
  let! graph_row := required (d_graphs d !! plan.(lp_execution_id)) Database in
  let! graph := parse (gw_execution graph_row) in
  let current :=
    match find_execution graph plan.(lp_node_id) with
    | Some node => node.(ne_run_id)
    | None => None
    end in
  reject negb (bool_decide (current = Some run_id)) with CredentialGrantRejected;;
  let! graph := try InvalidGraph
    (finish_terminal graph plan.(lp_node_id) plan.(lp_owner) Uncertain None) in
  check_revision run ;>
  let! updated_at := timestamp in
  let catalog := with_run catalog run_id
    (run_in_state RunUncertain run.(rn_started_at) run.(rn_finished_at) updated_at) in
  try InvalidCatalog (validate_catalog catalog) ;>
  let! moved := move_run_staged run_id SlDispatching SlUncertain in
  reject negb moved with CredentialGrantRejected;;
  let! revision := next_revision revision in
  let! t := timestamp in
  update_identity revision catalog t ;>
  let! t := timestamp in
  update_graph_row plan.(lp_execution_id) graph t ;>
  insert_event "provider_launch.credential_lookup_failed" [("run_id", jid run_id)] ;>
  mret tt).

(** [UPDATE staged_provider_launches SET state='uncertain' WHERE
    state='dispatching'], and how many rows that were. *)
Definition reconcile_launches : M unit :=
  let! d := get in
  let changed := length (List.filter (λ r, in_launch_state [SlDispatching] r.2)
                           (map_to_list (d_staged d))) in
  modify (λ d, put_staged d
    ((λ row, if in_launch_state [SlDispatching] row then move_staged SlUncertain row else row)
       <$> d_staged d)) ;>
  if 0 <? changed then
    insert_event "provider_launch.claims_marked_uncertain"
      [("count", JNumber (Z.of_nat changed))] ;> mret tt
  else mret tt.

(** The broker: the store, and the log of its reads of the native store, with the
    database at the time of each. *)
Record broker := {
  bk_world : world;
  bk_reads : list (ApprovalRequestId * db);
}.
Definition database (b : broker) : db := w_db (bk_world b).
Definition with_world (b : broker) (w : world) : broker :=
  {| bk_world := w; bk_reads := bk_reads b |}.

(** [self.store.method(...)]: a method of the store. *)
Definition on_store {A} (m : M A) (b : broker) : outcome StoreError A * broker :=
  ((m (bk_world b)).1, with_world b (m (bk_world b)).2).

(** [reader.read(&claim.selection)] *)
Definition read_native (request_id : ApprovalRequestId) (selection : ProviderCredentialSelection)
    (b : broker) : option string * broker :=
  (reader_read (length (bk_reads b)) selection,
   {| bk_world := bk_world b;
      bk_reads := bk_reads b ++ [(request_id, w_db (bk_world b))] |}).

Definition prepare_staged_credentials (request_id : ApprovalRequestId) (b : broker)
    : outcome BrokerError PreparedLaunch * broker :=
  match on_store (claim_staged_dispatch request_id) b with
  | (Ok claim, b) =>
      match read_native request_id (dc_selection claim) b with
      | (Some credential, b) =>
          (Ok {| pl_receipt := dc_receipt claim; pl_credential := credential |}, b)
      | (None, b) =>
          match on_store (fail_dispatch_claim (br_run_id (dc_receipt claim))) b with
          | (Ok _, b) => (Err BrokerCredential, b)
          | (Err _, b) => (Err BrokerRecovery, b)
          | (Panic, b) => (Panic, b)
          | (Diverge, b) => (Diverge, b)
          end
      end
  | (Err _, b) => (Err BrokerAuthorization, b)
  | (Panic, b) => (Panic, b)
  | (Diverge, b) => (Diverge, b)
  end.

End dispatch.
