(* ===== verification/DaemonStore.v ===== *)
(** * Approvals, life cycle and recovery

    Models the methods of [Store] in [crates/bastet-daemon/src/lib.rs] that
    create and decide approvals, cancel staged runs, move the daemon through its
    life cycle, and bring a database found on disk back to a consistent state. *)
From S2P Require Import Prelude Policy Identity Catalog Office Meeting.
From S2P Require Import Deliverable Approval Graph Execution M3 Mvp Protocol Store.
From S2P Require Import Launch StagedLaunches GraphStore FinishRun CatalogStore.
From S2P Require Import CredentialGrants Dispatch.

Definition lifecycle_name (value : DaemonLifecycle) : string :=
  match value with
  | LcStarting => "starting" | LcReady => "ready" | LcCheckpointing => "checkpointing"
  | LcSuspended => "suspended" | LcStopping => "stopping" | LcRecovering => "recovering"
  end.

Definition parse_lifecycle (value : string) : DaemonLifecycle :=
  if bool_decide (value = "ready") then LcReady else
  if bool_decide (value = "checkpointing") then LcCheckpointing else
  if bool_decide (value = "suspended") then LcSuspended else
  if bool_decide (value = "stopping") then LcStopping else
  if bool_decide (value = "recovering") then LcRecovering else LcStarting.

Section daemon.
Context `{Environment} `{Digest} `{Serializer} `{Formats}.

(** ** Approvals *)

Definition needs_credential (request : ApprovalRequest) : bool :=
  bool_decide (is_Some request.(ar_action).(aa_scope).(sc_credential_binding)).

Definition create_approval (request : ApprovalRequest) : M ApprovalReceipt := transact (
  let! d := get in
  let! catalog := lift (load_catalog d) in
  try InvalidApproval (validate_against request catalog) ;>
  (if needs_credential request then
     let! now := now_ms in
     lift (validate_time request now) ;>
     lift (validate_current_catalog d request)
   else mret tt) ;>
  let! t := timestamp in
  let! inserted := insert_approval_or_ignore request t in
  reject negb inserted with ApprovalConflict;;
  let! event := insert_event "approval.requested"
    [("request_id", jid request.(ar_id));
     ("risk", JText (risk_name request.(ar_action).(aa_risk)))] in
  mret {| apt_request_id := request.(ar_id); apt_event_sequence := ee_sequence event |}).

(** [expire_staged_launches] *)
Definition expire_staged_launches : M unit := transact (
  let! now := now_ms in
  expire now).

Definition approval_record (d : db) (id : ApprovalRequestId) (row : approval_row)
    : outcome StoreError ApprovalRecord :=
  let? request := from_str (aw_request row) in
  let? decision :=
    match aw_decision row with
    | Some json => let? decision := from_str json in Ok (Some decision)
    | None => Ok None
    end in
  Ok {| apr_request := request; apr_decision := decision;
        apr_staged_launch_state := (λ r, sw_state r.2) <$> staged_for d id |}.

Definition approval (request_id : ApprovalRequestId) : M ApprovalRecord :=
  expire_staged_launches ;>
  read_only (λ d,
    let? row := ok_or (d_approvals d !! request_id) ApprovalNotFound in
    approval_record d request_id row).

(** [ORDER BY a.rowid DESC] *)
Definition newer (a b : ApprovalRequestId * approval_row) : Prop :=
  aw_rowid b.2 ≤ aw_rowid a.2.
#[export] Instance newer_dec : RelDecision newer.
Proof. unfold newer. solve_decision. Defined.

Definition approvals : M (list ApprovalRecord) :=
  expire_staged_launches ;>
  read_only (λ d,
    map_try (λ r, approval_record d r.1 r.2) (merge_sort newer (map_to_list (d_approvals d)))).

(** The decision with the time of the daemon. *)
Definition decided_now (decision : ApprovalDecision) (now : Z) : ApprovalDecision :=
  {| ad_request_id := decision.(ad_request_id); ad_request_hash := decision.(ad_request_hash);
     ad_kind := decision.(ad_kind); ad_decided_at_ms := now; ad_actor := decision.(ad_actor) |}.

Definition decide_approval (command : DecideApprovalCommand) : M ApprovalReceipt := transact (
  let decision := da_decision command in
  let id := decision.(ad_request_id) in
  let approves := bool_decide (decision.(ad_kind) = Approve) in
  let! d := get in
  let! row := required (d_approvals d !! id) ApprovalNotFound in
  reject bool_decide (is_Some (aw_decision row)) with ApprovalConflict;;
  let! request := parse (aw_request row) in
  try InvalidApproval (request_validate_unchanged request) ;>
  let! decision :=
    if needs_credential request then
      reject approves && negb (da_credential_scope_acknowledged command)
        with CredentialGrantRejected;;
      let! now := now_ms in
      lift (validate_time request now) ;>
      (if approves then lift (validate_current_catalog d request) else mret tt) ;>
      mret (decided_now decision now)
    else mret decision in
  try InvalidApproval (verify_decision request decision) ;>
  let! t := timestamp in
  let! updated := decide_row id decision t in
  reject negb updated with ApprovalConflict;;
  (if needs_credential request && approves then issue request decision else mret tt) ;>
  on_decision request decision.(ad_kind) ;>
  let! event := insert_event
    match decision.(ad_kind) with
    | Approve => "approval.approved"
    | DenyDecision => "approval.denied"
    end
    [("request_id", jid id); ("actor", JText decision.(ad_actor))] in
  mret {| apt_request_id := id; apt_event_sequence := ee_sequence event |}).

Definition cancel_staged_run (run_id : RunId) (expected_revision : Z)
    : M (option CancelRunReceipt) := transact (
  let! d := get in
  match d_staged d !! run_id with
  | Some row =>
      if in_launch_state [SlAwaitingApproval; SlReady] row then
        let actual := ct_revision (d_identity d) in
        reject negb (bool_decide (actual = expected_revision))
          with RevisionConflict expected_revision actual;;
        cancel_for_request (sw_request_id row) "cancelled" ;>
        let! d := get in
        let! event := insert_event "run.staged_cancelled" [("run_id", jid run_id)] in
        mret (Some {| crr_run_id := run_id; crr_catalog_revision := ct_revision (d_identity d);
                      crr_event_sequence := ee_sequence event |})
      else mret None
  | None => mret None
  end).

(** ** Life cycle *)

Definition update_daemon (revision : Z) (lifecycle : string) : M unit :=
  sql_u64 revision ;>
  modify (λ d, put_daemon d {| dr_daemon_id := dr_daemon_id (d_daemon d); dr_revision := revision;
                               dr_lifecycle := lifecycle |}).

Definition snapshot : M DaemonSnapshot :=
  read_only (λ d, Ok {| dsn_daemon_id := dr_daemon_id (d_daemon d);
                        dsn_revision := dr_revision (d_daemon d);
                        dsn_lifecycle := parse_lifecycle (dr_lifecycle (d_daemon d)) |}).

Definition transition (lifecycle : DaemonLifecycle) (event_type : string) (p : payload)
    : M EventEnvelope := transact (
  let! d := get in
  update_daemon (dr_revision (d_daemon d) + 1) (lifecycle_name lifecycle) ;>
  insert_event event_type p).

Definition mark_ready : M EventEnvelope :=
  expire_staged_launches ;>
  transition LcReady "daemon.ready" [].

Definition insert_checkpoint (row : checkpoint_row) : M unit :=
  sql_u64 (cw_revision row) ;>
  let! d := get in
  reject existsb (λ c, bool_decide (cw_checkpoint_id c = cw_checkpoint_id row)) (d_checkpoints d)
    with Database;;
  modify (λ d, put_checkpoints d (d_checkpoints d ++ [row])).

Definition persist_checkpoint (command : CheckpointCommand) (required_lifecycle : option string)
    (final_lifecycle : DaemonLifecycle) (event_type : string) : M CheckpointReceipt := transact (
  let! d := get in
  let actual := dr_revision (d_daemon d) in
  let lifecycle := dr_lifecycle (d_daemon d) in
  reject negb (bool_decide (actual = cc_expected_revision command))
    with RevisionConflict (cc_expected_revision command) actual;;
  match required_lifecycle with
  | Some expected =>
      reject negb (bool_decide (lifecycle = expected)) with InvalidLifecycle expected lifecycle;;
      mret tt
  | None => mret tt
  end ;>
  (if bool_decide (final_lifecycle = LcStopping) then
     let! catalog := parse (ct_catalog (d_identity d)) in
     reject existsb run_is_active catalog.(ic_runs) with ProviderRunsActive;;
     mret tt
   else mret tt) ;>
  let revision := (actual + 1)%Z in
  update_daemon revision "checkpointing" ;>
  let! event := insert_event event_type [("reason", JText (cc_reason command))] in
  let! checkpoint_id := new_v4 in
  let! t := timestamp in
  insert_checkpoint {| cw_checkpoint_id := checkpoint_id; cw_revision := revision;
                       cw_event_sequence := ee_sequence event; cw_reason := cc_reason command;
                       cw_created_at := t |} ;>
  update_daemon revision (lifecycle_name final_lifecycle) ;>
  mret {| cpr_checkpoint_id := checkpoint_id; cpr_revision := revision;
          cpr_event_sequence := ee_sequence event |}).

Definition checkpoint (command : CheckpointCommand) : M CheckpointReceipt :=
  persist_checkpoint command (Some "ready") LcReady "daemon.checkpointed".
Definition shutdown (command : CheckpointCommand) : M CheckpointReceipt :=
  persist_checkpoint command None LcStopping "daemon.shutdown_requested".
Definition suspend (command : CheckpointCommand) : M CheckpointReceipt :=
  persist_checkpoint command (Some "ready") LcSuspended "daemon.suspended".

Definition resume (command : CheckpointCommand) : M EventEnvelope := transact (
  let! d := get in
  let actual := dr_revision (d_daemon d) in
  let lifecycle := dr_lifecycle (d_daemon d) in
  reject negb (bool_decide (actual = cc_expected_revision command))
    with RevisionConflict (cc_expected_revision command) actual;;
  reject negb (bool_decide (lifecycle = "suspended"))
    with InvalidLifecycle "suspended" lifecycle;;
  update_daemon (actual + 1) "ready" ;>
  insert_event "daemon.resumed" [("reason", JText (cc_reason command))]).

Definition events_after (sequence : Z) : M (list EventEnvelope) :=
  sql_u64 sequence ;>
  read_only (λ d, Ok (List.filter (λ e, (sequence <? ee_sequence e)%Z) (d_events d))).

Definition has_checkpoint_for_revision (revision : Z) : M bool :=
  read_only (λ d, Ok (existsb (λ c, bool_decide (cw_revision c = revision)) (d_checkpoints d))).

(** ** Recovery *)

(** The state of a run the daemon lost sight of. *)
Definition recovered_run (updated_at : string) (run : Run) : Run :=
  run_in_state RunUncertain run.(rn_started_at) run.(rn_finished_at) updated_at run.

Definition awaits_staged (run : Run) : bool :=
  in_run_state [RunAwaitingApproval] run.(rn_state) && bool_decide (run.(rn_started_at) = None).

(** One iteration of the loop over the runs: the run as it leaves it, and the
    number of runs changed. *)
Definition recover_run (d : db) (updated_at : string) (acc : list Run * Z) (run : Run)
    : outcome StoreError (list Run * Z) :=
  let '(runs, changed) := acc in
  if awaits_staged run then validate_staged_run d run ?; Ok (runs ++ [run], changed) else
  if in_run_state [RunStarting] run.(rn_state) && bool_decide (is_Some run.(rn_started_at))
     || in_run_state [RunRunning; RunCancelling; RunRecovering; RunAwaitingApproval] run.(rn_state)
  then
    let? _ := ok_or (checked_add U64_MAX run.(rn_metadata).(em_revision) 1) RevisionOverflow in
    let? changed := ok_or (checked_add U64_MAX changed 1) RevisionOverflow in
    Ok (runs ++ [recovered_run updated_at run], changed)
  else Ok (runs ++ [run], changed).

Definition with_runs (c : IdentityCatalog) (runs : list Run) : IdentityCatalog :=
  {| ic_credential_references := c.(ic_credential_references);
     ic_agent_providers := c.(ic_agent_providers); ic_model_providers := c.(ic_model_providers);
     ic_accounts := c.(ic_accounts); ic_models := c.(ic_models);
     ic_agent_instances := c.(ic_agent_instances); ic_projects := c.(ic_projects);
     ic_roles := c.(ic_roles); ic_sessions := c.(ic_sessions); ic_runs := runs |}.

Definition reconcile_catalog_for_recovery : M unit :=
  let! d := get in
  let! (catalog_revision, catalog) := lift (load_catalog_row d) in
  let! updated_at := timestamp in
  let! (runs, changed) := lift (fold_try (recover_run d updated_at) ([], 0%Z) catalog.(ic_runs)) in
  if (changed =? 0)%Z then mret tt else
  let catalog := with_runs catalog runs in
  try InvalidCatalog (validate_catalog catalog) ;>
  let! revision := next_revision catalog_revision in
  update_identity revision catalog updated_at ;>
  insert_event "catalog.runs_marked_uncertain"
    [("revision", JNumber revision); ("runs", JNumber changed)] ;>
  mret tt.

(** [ORDER BY execution_id] *)
Definition id_before (a b : GraphRunId * graph_row) : Prop := (value a.1 ≤ value b.1)%N.
#[export] Instance id_before_dec : RelDecision id_before.
Proof. unfold id_before. solve_decision. Defined.

Definition reconcile_graph (row : GraphRunId * graph_row) : M unit :=
  let! execution := parse (gw_execution row.2) in
  try InvalidGraph (validate_execution execution) ;>
  let '(execution, changed) := reconcile_after_restart execution in
  if changed =? 0 then mret tt else
  let! t := timestamp in
  update_graph_row row.1 execution t ;>
  insert_event "graph.running_nodes_marked_uncertain"
    [("execution_id", jid execution.(ge_id)); ("nodes", JNumber (Z.of_nat changed))] ;>
  mret tt.

Definition reconcile_graphs_for_recovery : M unit :=
  let! d := get in
  for_rows reconcile_graph (merge_sort id_before (map_to_list (d_graphs d))).

(** The part of [Store::open] that runs on a database already initialized. *)
Definition recover : M unit := transact (
  let! d := get in
  update_daemon (dr_revision (d_daemon d) + 1) "recovering" ;>
  insert_event "daemon.recovery_started" [] ;>
  reconcile_catalog_for_recovery ;>
  reconcile_graphs_for_recovery ;>
  reconcile_launches ;>
  let! now := now_ms in
  expire now).

(** What [apply_migrations] and the first [open] make of an empty file. *)
Definition empty_db (daemon_id : Uuid) (t : string) : db :=
  {| d_daemon := {| dr_daemon_id := daemon_id; dr_revision := 0; dr_lifecycle := "starting" |};
     d_events := []; d_checkpoints := [];
     d_identity := {| ct_revision := 0; ct_catalog := Text empty_identity; ct_updated_at := t |};
     d_m3 :=
       {| ct_revision := 0; ct_updated_at := t;
          ct_catalog := Text
            {| m3_office := {| oc_pet_profiles := []; oc_pet_assignments := []; oc_rooms := [] |};
               m3_meetings := {| mc_meetings := []; mc_decision_baselines := [] |};
               m3_deliverables :=
                 {| dc_documents := []; dc_costs := []; dc_knowledge_deliveries := [] |} |} |};
     d_graphs := ∅; d_runs := ∅; d_outputs := ∅; d_approvals := ∅; d_grants := ∅; d_plans := ∅;
     d_staged := ∅; d_claims := ∅ |}.

End daemon.
