(* ===== verification/Daemon.v ===== *)
(** * The daemon's threads

    The daemon serves requests and supervises providers in threads that share the
    store, the registry of run controllers, the count of active workers, and per
    run a cancellation token and a queue of cancel requests ([RunControllerRegistry]
    of [daemon/lib.rs], [ChannelRunController], [ProviderControl] and the
    [active] counter of [daemon/provider_executor.rs]).

    A thread is a program over the atomic accesses to what is shared ([action]):
    the code between two accesses is what the program does with the answers.  A
    step of the daemon lets one thread make one access, so that a run of the daemon
    is an arbitrary interleaving.  A method of the store is one access: it holds the
    mutex for its transaction ([mark_ready], [approval] and [approvals] hold it
    twice, for an expiry first).  The lock of the registry is never poisoned,
    because nothing panics while it is held; that a cancellation holds it for
    reading only removes interleavings. *)
From stdpp Require Import relations.
From S2P Require Import Prelude Policy Identity Catalog Protocol Store Dispatch.

(** ** Objects *)

(** A controller of the registry: the sender and the token of a channel. *)
Record ChannelRunController := {
  cr_run_id : RunId;
  cr_channel : nat;
}.
(** The acknowledgement is a channel of its own, with room for one answer. *)
Record CancelRequest := {
  cq_run_id : RunId;
  cq_acknowledgement : nat;
}.
(** [mpsc::sync_channel(1)] of a run with its cancellation token. *)
Record run_channel := {
  rc_queued : option CancelRequest;
  rc_receiver : bool;
  rc_cancelled : bool;
}.

Record daemon := {
  dm_broker : broker;
  dm_controllers : gmap RunId ChannelRunController;
  dm_active : Z;
  dm_channels : list run_channel;
  dm_acknowledgements : list (RunId * option bool);
  dm_ended : list (RunId * NormalizedRunState);   (* how workers' runs ended so far *)
}.

Definition set_broker (v : broker) (d : daemon) : daemon :=
  {| dm_broker := v; dm_controllers := dm_controllers d; dm_active := dm_active d;
     dm_channels := dm_channels d; dm_acknowledgements := dm_acknowledgements d;
     dm_ended := dm_ended d |}.
Definition set_controllers (v : gmap RunId ChannelRunController) (d : daemon) : daemon :=
  {| dm_broker := dm_broker d; dm_controllers := v; dm_active := dm_active d;
     dm_channels := dm_channels d; dm_acknowledgements := dm_acknowledgements d;
     dm_ended := dm_ended d |}.
Definition set_active (v : Z) (d : daemon) : daemon :=
  {| dm_broker := dm_broker d; dm_controllers := dm_controllers d; dm_active := v;
     dm_channels := dm_channels d; dm_acknowledgements := dm_acknowledgements d;
     dm_ended := dm_ended d |}.
Definition set_channels (v : list run_channel) (d : daemon) : daemon :=
  {| dm_broker := dm_broker d; dm_controllers := dm_controllers d; dm_active := dm_active d;
     dm_channels := v; dm_acknowledgements := dm_acknowledgements d; dm_ended := dm_ended d |}.
Definition set_acknowledgements (v : list (RunId * option bool)) (d : daemon) : daemon :=
  {| dm_broker := dm_broker d; dm_controllers := dm_controllers d; dm_active := dm_active d;
     dm_channels := dm_channels d; dm_acknowledgements := v; dm_ended := dm_ended d |}.
Definition set_ended (v : list (RunId * NormalizedRunState)) (d : daemon) : daemon :=
  {| dm_broker := dm_broker d; dm_controllers := dm_controllers d; dm_active := dm_active d;
     dm_channels := dm_channels d; dm_acknowledgements := dm_acknowledgements d;
     dm_ended := v |}.

Definition queue_request (v : option CancelRequest) (c : run_channel) : run_channel :=
  {| rc_queued := v; rc_receiver := rc_receiver c; rc_cancelled := rc_cancelled c |}.
Definition cancel_token (c : run_channel) : run_channel :=
  {| rc_queued := rc_queued c; rc_receiver := rc_receiver c; rc_cancelled := true |}.
Definition drop_receiver (c : run_channel) : run_channel :=
  {| rc_queued := None; rc_receiver := false; rc_cancelled := rc_cancelled c |}.

(** ** Programs *)

Inductive action : Type → Type :=
| Call {A} (method : M A) : action (outcome StoreError A)
| Register (run_id : RunId) (controller : ChannelRunController) : action bool
| Unregister (run_id : RunId) : action bool
| FindController (run_id : RunId) : action (option ChannelRunController)
| FetchAdd : action unit
| FetchSub : action unit
| HasActive : action bool
| OpenChannel : action nat
| CloseReceiver (channel : nat) : action unit
| IsCancelled (channel : nat) : action bool
| CancelToken (channel : nat) : action unit
| TrySend (channel : nat) (request : CancelRequest) : action bool
| TryRecv (channel : nat) : action (option CancelRequest)
| OpenAcknowledgement (run_id : RunId) : action nat
| Acknowledge (request : CancelRequest) (accepted : bool) : action unit
| AwaitAcknowledgement (acknowledgement : nat) : action (option bool)
| Spawn (channel : nat) (receipt : BeginGraphNodeRunReceipt) : action bool
| Ended (run_id : RunId) (state : NormalizedRunState) : action unit.

Inductive prog (A : Type) : Type :=
| Ret (a : A)
| Act {B : Type} (e : action B) (k : B → prog A).
Arguments Ret {A} a.
Arguments Act {A B} e k.

Fixpoint pbind {A B} (p : prog A) (k : A → prog B) : prog B :=
  match p with
  | Ret a => k a
  | Act e c => Act e (λ b, pbind (c b) k)
  end.

(** Fallible programs: [Err] leaves by the [?] operator, [Panic] unwinds, and
    [Diverge] is a loop out of fuel, a thread that goes on. *)
Definition task (E A : Type) : Type := prog (outcome E A).
Definition give {E A} (a : A) : task E A := Ret (Ok a).
Definition raise {E A} (e : E) : task E A := Ret (Err e).
Definition tlift {E A} (r : outcome E A) : task E A := Ret r.
Definition perform {E B} (e : action B) : task E B := Act e (λ b, Ret (Ok b)).
#[export] Instance task_bind {E} : MBind (task E) := λ _ _ k m,
  pbind m (λ r, match r with
                | Ok a => k a
                | Err e => Ret (Err e)
                | Panic => Ret Panic
                | Diverge => Ret Diverge
                end).
(** [.map_err(f)?] *)
Definition on_err {E F A} (f : E → F) (m : task E A) : task F A := pbind m (λ r, Ret (map_err f r)).
(** The result of a call as a value; a panic and a divergence are no results. *)
Definition result_of {E F A} (m : task E A) : task F (outcome E A) :=
  pbind m (λ r, match r with
                | Ok _ | Err _ => Ret (Ok r)
                | Panic => Ret Panic
                | Diverge => Ret Diverge
                end).
(** [catch_unwind] *)
Definition catch_unwind {E A} (m : task E A) (default : A) : task E A :=
  pbind m (λ r, Ret (match r with Panic => Ok default | _ => r end)).

Notation "'deny' b 'with' e ';;' k" := (if (b : bool) then raise e else k)
  (at level 199, b at level 99, e at level 99, k at level 199) : rust_scope.

(** [self.store.method(..)?] *)
Definition store {A} (method : M A) : task StoreError A := Act (Call method) Ret.

(** ** Accesses *)

(** [fetch_add] and [fetch_sub] wrap. *)
Definition usize_wrap (n : Z) : Z := n `mod` 2 ^ 64.

Definition on_channel (i : nat) (f : run_channel → run_channel) (d : daemon) : daemon :=
  set_channels (alter f i (dm_channels d)) d.

(** A full acknowledgement keeps its answer. *)
Definition answer_with (accepted : bool) (a : RunId * option bool) : RunId * option bool :=
  (a.1, match a.2 with Some b => Some b | None => Some accepted end).

(** What an access answers and leaves.  [lucky] tells whether the thread of a
    worker starts. *)
Definition exec (lucky : bool) {B} (e : action B) : daemon → B * daemon :=
  match e in action B return daemon → B * daemon with
  | Call method => λ d,
      let '(r, b) := on_store method (dm_broker d) in (r, set_broker b d)
  | Register run_id controller => λ d,
      if bool_decide (is_Some (dm_controllers d !! run_id)) then (false, d)
      else (true, set_controllers (<[run_id := controller]> (dm_controllers d)) d)
  | Unregister run_id => λ d,
      (bool_decide (is_Some (dm_controllers d !! run_id)),
       set_controllers (delete run_id (dm_controllers d)) d)
  | FindController run_id => λ d, (dm_controllers d !! run_id, d)
  | FetchAdd => λ d, (tt, set_active (usize_wrap (dm_active d + 1)) d)
  | FetchSub => λ d, (tt, set_active (usize_wrap (dm_active d - 1)) d)
  | HasActive => λ d, (negb (dm_active d =? 0)%Z, d)
  | OpenChannel => λ d,
      (length (dm_channels d),
       set_channels (dm_channels d ++
         [{| rc_queued := None; rc_receiver := true; rc_cancelled := false |}]) d)
  | CloseReceiver i => λ d, (tt, on_channel i drop_receiver d)
  | IsCancelled i => λ d,
      (match dm_channels d !! i with Some c => rc_cancelled c | None => false end, d)
  | CancelToken i => λ d, (tt, on_channel i cancel_token d)
  | TrySend i request => λ d,
      match dm_channels d !! i with
      | Some c =>
          if rc_receiver c && bool_decide (rc_queued c = None)
          then (true, on_channel i (queue_request (Some request)) d) else (false, d)
      | None => (false, d)
      end
  | TryRecv i => λ d,
      (match dm_channels d !! i with Some c => rc_queued c | None => None end,
       on_channel i (queue_request None) d)
  | OpenAcknowledgement run_id => λ d,
      (length (dm_acknowledgements d),
       set_acknowledgements (dm_acknowledgements d ++ [(run_id, None)]) d)
  | Acknowledge request accepted => λ d,
      (tt, set_acknowledgements
             (alter (answer_with accepted) (cq_acknowledgement request)
                (dm_acknowledgements d)) d)
  | AwaitAcknowledgement i => λ d,
      (match dm_acknowledgements d !! i with Some a => a.2 | None => None end, d)
  | Spawn _ _ => λ d, (lucky, d)
  | Ended run_id state => λ d, (tt, set_ended (dm_ended d ++ [(run_id, state)]) d)
  end.

(** The worker that an access starts. *)
Definition spawned {B} (e : action B) : B → option (nat * BeginGraphNodeRunReceipt) :=
  match e in action B return B → option (nat * BeginGraphNodeRunReceipt) with
  | Spawn channel receipt => λ b : bool, if b then Some (channel, receipt) else None
  | _ => λ _, None
  end.

(** ** Runs *)

Section runs.
Context {R : Type}.
Notation thread := (prog R).
(** The code of a worker, and the threads that may begin at any time: requests
    that arrive and what [main] does. *)
Context (worker : nat → BeginGraphNodeRunReceipt → thread) (begins : thread → Prop).

Record system := {
  sy_daemon : daemon;
  sy_threads : list thread;
}.

(** A new process on the same database. *)
Definition process_on (b : broker) : system :=
  {| sy_daemon := {| dm_broker := b; dm_controllers := ∅; dm_active := 0; dm_channels := [];
                     dm_acknowledgements := []; dm_ended := [] |};
     sy_threads := [] |}.

(** What the next access of a program does. *)
Definition run_action (lucky : bool) (p : thread) (d : daemon) : thread * daemon * list thread :=
  match p with
  | Ret r => (Ret r, d, [])
  | Act e k =>
      let '(b, d) := exec lucky e d in
      (k b, d, match spawned e b with
               | Some (channel, receipt) => [worker channel receipt]
               | None => []
               end)
  end.

Inductive daemon_step (s : system) : system → Prop :=
| step_thread i p lucky p' d new :
    sy_threads s !! i = Some p → run_action lucky p (sy_daemon s) = (p', d, new) →
    daemon_step s {| sy_daemon := d; sy_threads := <[i := p']> (sy_threads s) ++ new |}
| step_begin p :
    begins p → daemon_step s {| sy_daemon := sy_daemon s; sy_threads := sy_threads s ++ [p] |}.

(** One thread runs alone. *)
Fixpoint alone {A} (p : prog A) (d : daemon) : A * daemon :=
  match p with
  | Ret a => (a, d)
  | Act e k => let '(b, d) := exec true e d in alone (k b) d
  end.

End runs.
