(* ===== verification/Executor.v ===== *)
(** * The provider executor

    Models [daemon/provider_executor.rs]: the worker thread of a run, from its
    registration to the durable end of the run, the cancellation of a run, and the
    two runners that drive the adapters of CodexRun.v and AgyProcess.v.

    A worker is a program of Daemon.v.  What the adapters do is local to it; what
    the providers, the host and the clock answer is the [provider_world] of a run.
    Waiting between attempts is not modelled. *)
From Corelib Require Import Floats.SpecFloat.
From S2P Require Import Prelude Policy Identity Catalog Deliverable Approval Graph Execution.
From S2P Require Import M3 Mvp Protocol Store Workspace InputWriter ProcessChild.
From S2P Require Import Adapter CodexLifecycle CodexEvidence CodexServer CodexRun CodexStdio.
From S2P Require Import AgyStream AgyProcess Launch StagedLaunches GraphStore FinishRun.
From S2P Require Import CatalogStore Dispatch Daemon.

(** 50 milliseconds and two minutes. *)
Definition POLL_INTERVAL : Z := 50 * 1000000.
Definition PROVIDER_TIMEOUT : Z := 120 * 1000000000.

Inductive ProviderExecutorError := ControllerFailed | SpawnFailed.

Record ProviderOutcome := {
  po_terminal_state : NormalizedRunState;
  po_provider_session_id : option string;
  po_cost : CostEvidence;
  po_output_markdown : option string;
  po_failure : option AdapterFailure;
}.

Definition unknown_cost : CostEvidence :=
  {| ce_evidence_class := UnknownEvidence; ce_currency := None; ce_amount := None;
     ce_input_tokens := None; ce_output_tokens := None; ce_confidence := sf_0 |}.

Definition plain_failure (kind : AdapterFailureKind) (message_key : string) (retryable : bool)
    : AdapterFailure :=
  {| af_kind := kind; af_message_key := message_key; af_retryable := retryable;
     af_provider_code := None; af_redacted_detail := None |}.

(** [ProviderOutcome::cancelled], [cancelled_with_evidence] and [unavailable]. *)
Definition outcome_cancelled : ProviderOutcome :=
  {| po_terminal_state := RunCancelled; po_provider_session_id := None; po_cost := unknown_cost;
     po_output_markdown := None;
     po_failure := Some (plain_failure CancelledFailure "adapter.failure.cancelled" false) |}.
Definition cancelled_with_evidence (provider_session_id : option string) (cost : CostEvidence)
    : ProviderOutcome :=
  {| po_terminal_state := po_terminal_state outcome_cancelled;
     po_provider_session_id := provider_session_id; po_cost := cost;
     po_output_markdown := po_output_markdown outcome_cancelled;
     po_failure := po_failure outcome_cancelled |}.
Definition outcome_unavailable : ProviderOutcome :=
  {| po_terminal_state := RunUncertain; po_provider_session_id := None; po_cost := unknown_cost;
     po_output_markdown := None;
     po_failure := Some (plain_failure UnknownFailure "mvp.failure.unknown" false) |}.
Definition outcome_blocked (kind : AdapterFailureKind) (message_key : string) : ProviderOutcome :=
  {| po_terminal_state := RunBlocked; po_provider_session_id := None; po_cost := unknown_cost;
     po_output_markdown := None; po_failure := Some (plain_failure kind message_key false) |}.

Definition run_is_terminal (state : NormalizedRunState) : bool :=
  match state with
  | RunSucceeded | RunFailed | RunCancelled | RunBlocked | RunUncertain => true
  | _ => false
  end.

(** [outcome]: a success without an answer is a failure. *)
Definition final_outcome (terminal_state : NormalizedRunState)
    (provider_session_id : option string) (cost : CostEvidence) (output : option string)
    (failure : option AdapterFailure) : ProviderOutcome :=
  let output_missing := bool_decide (terminal_state = RunSucceeded)
    && match output with Some text => blank text | None => true end in
  {| po_terminal_state := if output_missing then RunFailed else terminal_state;
     po_provider_session_id := provider_session_id; po_cost := cost;
     po_output_markdown := output;
     po_failure := if output_missing
       then Some (plain_failure MalformedOutput "mvp.failure.invalid_output" true) else failure |}.

(** [configured_executable]: the variable, or the first directory of the path. *)
Definition configured_executable (is_file : string → bool) (variable : option string)
    (path : option (list string)) (name : string) : option string :=
  match variable with
  | Some file => if is_file file then Some file else None
  | None =>
      directories ← path;
      head (List.filter is_file (map (λ directory, directory +:+ "/" +:+ name) directories))
  end.

Section executor.
Context `{Environment} `{Digest} `{Serializer} `{Formats}.

Definition owner (node_id : GraphNodeId) : string :=
  "daemon-provider-" +:+ uuid_text (value node_id).

(** ** The durable end of a run *)

Definition finish_command (receipt : BeginGraphNodeRunReceipt) (outcome : ProviderOutcome)
    (catalog_revision graph_revision m3_revision : Z) : FinishGraphNodeRunCommand :=
  {| fg_expected_catalog_revision := catalog_revision;
     fg_expected_graph_revision := graph_revision; fg_expected_m3_revision := m3_revision;
     fg_node_id := br_node_id receipt; fg_run_id := br_run_id receipt;
     fg_owner := owner (br_node_id receipt); fg_terminal_state := po_terminal_state outcome;
     fg_failure := po_failure outcome;
     fg_provider_session_id := po_provider_session_id outcome;
     fg_output_markdown := po_output_markdown outcome; fg_cost := po_cost outcome |}.

(** A read that is tried again when the database fails. *)
Definition retrying {A} (read : M A) (again : task unit unit) (k : A → task unit unit)
    : task unit unit :=
  result ← result_of (store read);
  match result with
  | Ok a => k a
  | Err Database | Err Poisoned => again
  | _ => raise tt
  end.

(** The loop of [persist_outcome]. *)
Fixpoint persist_loop (fuel : nat) (receipt : BeginGraphNodeRunReceipt)
    (outcome : ProviderOutcome) : task unit unit :=
  match fuel with
  | O => tlift Diverge
  | S fuel =>
      let again := persist_loop fuel receipt outcome in
      retrying catalog again (λ catalog,
      retrying m3_catalog again (λ m3,
      retrying (graph_execution (br_execution_id receipt)) again (λ graph,
        result ← result_of (store (finish_graph_node_run (br_execution_id receipt)
          (finish_command receipt outcome (csn_revision catalog) graph.(ge_revision)
             (msn_revision m3))));
        match result with
        | Ok _ => give tt
        | Err (RevisionConflict _ _) | Err Database | Err Poisoned => again
        | Err (InvalidRunState _) | Err RunNotFound => give tt
        | _ => raise tt
        end)))
  end.

(** An output belongs to a success or a failure. *)
Definition publishable (outcome : ProviderOutcome) : ProviderOutcome :=
  match po_terminal_state outcome with
  | RunSucceeded | RunFailed => outcome
  | _ => {| po_terminal_state := po_terminal_state outcome;
            po_provider_session_id := po_provider_session_id outcome;
            po_cost := po_cost outcome; po_output_markdown := None;
            po_failure := po_failure outcome |}
  end.
Definition persist_outcome (fuel : nat) (receipt : BeginGraphNodeRunReceipt)
    (outcome : ProviderOutcome) : task unit unit := persist_loop fuel receipt (publishable outcome).

(** ** The worker *)

(** The trait [ProviderRunner]; the run knows its channel. *)
Class ProviderRunner := {
  provider_run : BeginGraphNodeRunReceipt → nat → task Empty_set ProviderOutcome;
}.

Context `{!ProviderRunner} {R : Type} (finished : R) (out_of_fuel : R).

(** The closure under [catch_unwind]. *)
Definition provider_run_checked (receipt : BeginGraphNodeRunReceipt) (channel : nat)
    : task Empty_set ProviderOutcome :=
  is_cancelled ← perform (IsCancelled channel);
  if is_cancelled : bool then give outcome_cancelled else
  preflight ← result_of (store (preflight_provider_launch receipt));
  if is_err preflight then
    is_cancelled ← perform (IsCancelled channel);
    give (if is_cancelled : bool then outcome_cancelled else outcome_unavailable)
  else provider_run receipt channel.

(** [while let Ok(request) = control.try_recv()] *)
Fixpoint answer_requests (fuel : nat) (channel : nat) (run_id : RunId)
    (terminal_state : NormalizedRunState) : task unit unit :=
  match fuel with
  | O => tlift Diverge
  | S fuel =>
      request ← perform (TryRecv channel);
      match request with
      | None => give tt
      | Some request =>
          let accepted := bool_decide (cq_run_id request = run_id)
                          && bool_decide (terminal_state = RunCancelled) in
          perform (Acknowledge request accepted) ;;
          answer_requests fuel channel run_id terminal_state
      end
  end.

Definition no_error {E A} (m : task Empty_set A) : task E A := on_err (λ e : Empty_set, match e with end) m.

(** The thread: the guard of the registration is dropped however it ends. *)
Definition provider_worker (fuel : nat) (channel : nat) (receipt : BeginGraphNodeRunReceipt)
    : prog R :=
  pbind (outcome ← no_error (catch_unwind (provider_run_checked receipt channel) outcome_unavailable);
         perform (Ended (br_run_id receipt) (po_terminal_state outcome)) ;;
         answer_requests fuel channel (br_run_id receipt) (po_terminal_state outcome) ;;
         persist_outcome fuel receipt outcome)
    (λ r, match r with
          | Diverge => Ret out_of_fuel
          | _ =>
              Act (Unregister (br_run_id receipt)) (λ _,
              Act FetchSub (λ _,
              Act (CloseReceiver channel) (λ _, Ret finished)))
          end).

Definition start (receipt : BeginGraphNodeRunReceipt) : task ProviderExecutorError unit :=
  let run_id := br_run_id receipt in
  channel ← perform OpenChannel;
  registered ← perform (Register run_id {| cr_run_id := run_id; cr_channel := channel |});
  deny negb registered with ControllerFailed;;
  perform FetchAdd ;;
  started ← perform (Spawn channel receipt);
  if started : bool then give tt else
  perform (CloseReceiver channel) ;;
  perform FetchSub ;;
  perform (Unregister run_id) ;;
  raise SpawnFailed.

(** Its error is printed. *)
Definition persist_start_failure (fuel : nat) (receipt : BeginGraphNodeRunReceipt)
    : task StoreError unit :=
  result_of (persist_outcome fuel receipt outcome_unavailable) ;; give tt.

(** ** Cancellation *)

(** [ChannelRunController::cancel] *)
Definition controller_cancel (controller : ChannelRunController) (run_id : RunId)
    : task unit unit :=
  deny negb (bool_decide (run_id = cr_run_id controller)) with tt;;
  acknowledgement ← perform (OpenAcknowledgement run_id);
  sent ← perform (TrySend (cr_channel controller)
                    {| cq_run_id := run_id; cq_acknowledgement := acknowledgement |});
  deny negb sent with tt;;
  perform (CancelToken (cr_channel controller)) ;;
  answer ← perform (AwaitAcknowledgement acknowledgement);
  match answer with
  | Some true => give tt
  | _ => raise tt
  end.

(** [RunControllerRegistry::cancel] *)
Definition registry_cancel (run_id : RunId) : task unit unit :=
  controller ← perform (FindController run_id);
  match controller with
  | Some controller => controller_cancel controller run_id
  | None => raise tt
  end.

End executor.

(** ** The runners *)

(** What surrounds the run of a provider: the pipe and the process that are
    started, and what each round of its loop observes. *)
Record provider_world `{Json} := {
  pw_stdio : StdioEnvironment;
  pw_pipe_fuel : nat;
  pw_pipe_steps : list bool;
  pw_host : agy_host;
  pw_cleanup : nat → Z → shutdown_schedule;
  pw_readings : nat → list Z;
  pw_tree : nat → fs_node;
  pw_timestamp : nat → string;
}.

Section runners.
Context `{Environment} `{Digest} `{Serializer} `{Formats} `{Json} `{!ServerWire}.
Context (receipt_json : nat → string).

(** The run is recorded as running, once. *)
Definition note_running (run_id : RunId) (session : option string) : task unit unit :=
  on_err (λ _, tt) (store (record_provider_running run_id session) ;; give tt).

Section codex.
Context {T : Type} {transport : AppServerTransport T} (close_checked : self T TransportError unit).
Context (instant_max : Z) (w : provider_world) (channel : nat) (receipt : BeginGraphNodeRunReceipt).

(** [server.into_transport().close_checked().map_err(..)?] *)
Definition close_server (s : tracked T) : outcome unit unit :=
  map_err (λ _, tt) (close_checked (sv_transport (td_server s))).2.

(** The loop of [run_codex_with_launcher]. *)
Fixpoint codex_loop (fuel round : nat) (session : option string) (cost : CostEvidence)
    (saw_running : bool) (s : tracked T) : task unit ProviderOutcome :=
  match fuel with
  | O => tlift Diverge
  | S fuel =>
      is_cancelled ← perform (IsCancelled channel);
      if is_cancelled : bool then
        tlift (close_server s) ;;
        give (cancelled_with_evidence session cost)
      else
        let '(s, update) := poll_update receipt_json instant_max (pw_readings w round)
                              (pw_tree w round) (pw_timestamp w round) POLL_INTERVAL s in
        match update with
        | Ok None => codex_loop fuel (S round) session cost saw_running s
        | Ok (Some (Evidence (Cost observed))) =>
            codex_loop fuel (S round) session observed saw_running s
        | Ok (Some (Evidence _)) => codex_loop fuel (S round) session cost saw_running s
        | Ok (Some (Lifecycle event)) =>
            let state := ev_state (nc_event event) in
            if run_is_terminal state then
              tlift (close_server s) ;;
              give (final_outcome state session cost
                      (final_output (tk_final_output (td_tracker s))) (nc_failure event))
            else if bool_decide (state = RunRunning) && negb saw_running then
              note_running (br_run_id receipt) session ;;
              codex_loop fuel (S round) session cost true s
            else codex_loop fuel (S round) session cost saw_running s
        | Err (TrackerAppServer (Transport TransportCancelled)) =>
            give (cancelled_with_evidence session cost)
        | Err _ => raise tt
        | Panic => tlift Panic
        | Diverge => tlift Diverge
        end
  end.

Definition codex_request : CodexRunRequest :=
  {| rq_run_id := br_run_id receipt; rq_model := br_model receipt; rq_prompt := br_prompt receipt;
     rq_cwd := br_workspace_root receipt; rq_approval_policy := Never;
     rq_sandbox_policy := TurnReadOnly; rq_effort := Some "medium" |}.

(** From the connected server on. *)
Definition run_server (fuel : nat) (server : CodexAppServer T) : task unit ProviderOutcome :=
  let '(server, started) := start_tracked_run (pw_tree w 0) codex_request server in
  match started with
  | Ok started =>
      codex_loop fuel 0 (Some (th_thread_id (st_thread started))) unknown_cost false
        {| td_server := server; td_tracker := st_tracker started |}
  | Err (TrackerAppServer (Transport TransportCancelled)) => give outcome_cancelled
  | Err _ => raise tt
  | Panic => tlift Panic
  | Diverge => tlift Diverge
  end.

End codex.

(** [connect_app_server_with_launcher_and_cancel] *)
Definition connect_app_server (w : provider_world)
    : outcome AppServerError (CodexAppServer StdioTransport) :=
  let? transport := map_err Transport
    (spawn_with_launcher_and_cancel (H0 := pw_stdio w) PROVIDER_TIMEOUT 0 (pw_pipe_steps w)) in
  let '(server, initialized) :=
    initialize (H0 := stdio_transport (H0 := pw_stdio w) (pw_pipe_fuel w)) (server_new transport) in
  let? _ := initialized in Ok server.

Definition run_codex (w : provider_world) (fuel : nat) (executable : option string)
    (receipt : BeginGraphNodeRunReceipt) (channel : nat) : task unit ProviderOutcome :=
  match executable with
  | None => raise tt
  | Some _ =>
      match connect_app_server w with
      | Ok server =>
          run_server (transport := stdio_transport (H0 := pw_stdio w) (pw_pipe_fuel w))
            (close_checked (H0 := pw_stdio w)) (@instant_max _ (pw_stdio w)) w channel receipt
            fuel server
      | Err (Transport TransportCancelled) => give outcome_cancelled
      | Err _ => raise tt
      | Panic => tlift Panic
      | Diverge => tlift Diverge
      end
  end.

(** The loop of [run_agy_with_launcher]. *)
Fixpoint agy_loop (w : provider_world) (channel : nat) (run_id : RunId) (fuel round : nat)
    (cost : CostEvidence) (saw_running : bool) (p : AgyProcess) : task unit ProviderOutcome :=
  match fuel with
  | O => tlift Diverge
  | S fuel =>
      is_cancelled ← perform (IsCancelled channel);
      if is_cancelled : bool then
        let '(p, closed) := cancel_and_close (pw_cleanup w) p in
        tlift (map_err (λ _, tt) closed) ;;
        give (cancelled_with_evidence (conversation_id p) cost)
      else
        let '(p, update) := agy_poll_update (H0 := pw_stdio w) receipt_json (pw_cleanup w) (pw_pipe_fuel w)
                              (pw_tree w round) (pw_timestamp w round) POLL_INTERVAL p in
        match update with
        | Ok None => agy_loop w channel run_id fuel (S round) cost saw_running p
        | Ok (Some (AgyCost observed)) =>
            agy_loop w channel run_id fuel (S round) observed saw_running p
        | Ok (Some (AgyWriteReceipt _)) => raise tt
        | Ok (Some (AgyLifecycle event failure)) =>
            if run_is_terminal (ev_state event) then
              give (final_outcome (ev_state event) (conversation_id p) cost
                      (agy_process_output p) failure)
            else if bool_decide (ev_state event = RunRunning) && negb saw_running then
              note_running run_id (conversation_id p) ;;
              agy_loop w channel run_id fuel (S round) cost true p
            else agy_loop w channel run_id fuel (S round) cost saw_running p
        | Err _ => raise tt
        | Panic => tlift Panic
        | Diverge => tlift Diverge
        end
  end.

Definition agy_request (receipt : BeginGraphNodeRunReceipt) : AgyRunRequest :=
  {| aq_run_id := br_run_id receipt; aq_model := br_model receipt; aq_effort := None;
     aq_prompt := br_prompt receipt; aq_cwd := br_workspace_root receipt; aq_read_only := true;
     aq_timeout := PROVIDER_TIMEOUT; aq_conversation_id := None |}.

Definition run_agy (w : provider_world) (fuel : nat) (executable : option string)
    (receipt : BeginGraphNodeRunReceipt) (channel : nat) : task unit ProviderOutcome :=
  match executable with
  | None => raise tt
  | Some _ =>
      match (agy_spawn (H0 := pw_stdio w) (pw_cleanup w) (pw_host w) (agy_request receipt) (not_started 0)).2 with
      | Ok p => agy_loop w channel (br_run_id receipt) fuel 0 unknown_cost false p
      | Err AgyStartCancelled => give outcome_cancelled
      | Err _ => raise tt
      | Panic => tlift Panic
      | Diverge => tlift Diverge
      end
  end.

(** ** The system's runner *)

Definition validate_online_cli_launch (receipt : BeginGraphNodeRunReceipt) : task StoreError unit :=
  store (preflight_provider_launch receipt) ;;
  plan ← store (read_only (λ d, plan_load d (br_run_id receipt)));
  tlift (validate_online_cli_requirements plan).

Definition or_unavailable (m : task unit ProviderOutcome) : task Empty_set ProviderOutcome :=
  pbind m (λ r, Ret (match r with
                     | Ok outcome => Ok outcome
                     | Err _ => Ok outcome_unavailable
                     | Panic => Panic
                     | Diverge => Diverge
                     end)).

(** [SystemProviderRunner]: no run under a selected account, none that the policy
    does not allow at this moment. *)
Definition system_run (worlds : RunId → provider_world) (fuel : nat)
    (codex_bin agy_bin : option string) (receipt : BeginGraphNodeRunReceipt) (channel : nat)
    : task Empty_set ProviderOutcome :=
  let w := worlds (br_run_id receipt) in
  if match br_launch_identity receipt with
     | Some identity => bool_decide (is_Some (pli_account identity))
     | None => true
     end then give (outcome_blocked Unsupported "adapter.failure.unsupported") else
  validated ← result_of (validate_online_cli_launch receipt);
  if is_err validated
  then give (outcome_blocked PermissionDenied "adapter.failure.permission_denied") else
  if String.eqb (br_adapter_kind receipt) "codex_cli"
  then or_unavailable (run_codex w fuel codex_bin receipt channel)
  else if String.eqb (br_adapter_kind receipt) "agy_cli"
  then or_unavailable (run_agy w fuel agy_bin receipt channel)
  else give outcome_unavailable.

#[local] Instance SystemProviderRunner (worlds : RunId → provider_world) (fuel : nat)
    (codex_bin agy_bin : option string) : ProviderRunner :=
  { provider_run := system_run worlds fuel codex_bin agy_bin }.

End runners.
