(* ===== verification/Routes.v ===== *)
(** * Requests to the daemon

    Models the handlers of [daemon/lib.rs] behind [build_router_with_execution]
    and the loops of [daemon/main.rs]: each is a program of Daemon.v that calls the
    methods of the store and the executor.  Requests and replies are the records of
    the protocol; their JSON and the HTTP around them are not modelled. *)
From S2P Require Import Prelude Policy Identity Catalog Deliverable Approval Graph Execution.
From S2P Require Import M3 Mvp Protocol Store Launch StagedLaunches GraphStore FinishRun.
From S2P Require Import CatalogStore CredentialGrants Dispatch DaemonStore Daemon Executor.

(** ** Requests *)

Record ClaimGraphNodesCommand := {
  cgn_expected_revision : Z;
  cgn_owner : string;
  cgn_limit : Z;
}.
Record ClaimGraphNodesReceipt := {
  cgr_execution_id : GraphRunId;
  cgr_revision : Z;
  cgr_claimed : list GraphNodeId;
}.
Record CompleteGraphNodeCommand := {
  cgc_expected_revision : Z;
  cgc_node_id : GraphNodeId;
  cgc_owner : string;
  cgc_succeeded : bool;
}.
Record CompleteGraphNodeReceipt := { cgt_execution_id : GraphRunId; cgt_revision : Z }.
Record ExecuteReadyGraphCommand := {
  erg_expected_catalog_revision : Z;
  erg_expected_graph_revision : Z;
}.
Record ExecuteReadyGraphReceipt := {
  err_execution_id : GraphRunId;
  err_run_ids : list RunId;
}.
Record CancelRunCommand := {
  crc_run_id : RunId;
  crc_expected_catalog_revision : Z;
}.

(** The routes, by method and path. *)
Inductive request :=
| GetHealth
| GetEvents (after_sequence : Z)
| GetCatalog
| PutCatalog (command : ReplaceCatalogCommand)
| GetM3
| PutM3 (command : ReplaceM3CatalogCommand)
| GetGraphs
| PostGraph (execution : GraphExecution)
| PostClaim (execution_id : GraphRunId) (command : ClaimGraphNodesCommand)
| PostRestart (execution_id : GraphRunId) (expected_graph_revision : Z)
| PostRetry (execution_id : GraphRunId) (command : RetryFailedGraphNodeCommand)
| PostRun (execution_id : GraphRunId) (command : BeginGraphNodeRunCommand)
| PostExecuteReady (execution_id : GraphRunId) (command : ExecuteReadyGraphCommand)
| PostFinish (execution_id : GraphRunId) (command : FinishGraphNodeRunCommand)
| PostComplete (execution_id : GraphRunId) (command : CompleteGraphNodeCommand)
| PostPrepareMvp (command : PrepareMvpCommand)
| PostAcceptDecision (command : AcceptDecisionBaselineCommand)
| PostDocument (command : CreateDocumentCommand)
| PostAcceptDocument (command : AcceptDocumentCommand)
| PostPrepareKnowledge (command : PrepareKnowledgeDeliveryCommand)
| PostCompleteKnowledge (command : CompleteKnowledgeDeliveryCommand)
| PostCost (command : RecordCostCommand)
| GetApprovals
| PostApproval (approval : ApprovalRequest)
| GetGrant (request_id : ApprovalRequestId)
| PostRevokeGrant (request_id : ApprovalRequestId) (actor : string)
| GetApproval (request_id : ApprovalRequestId)
| PostDecision (request_id : ApprovalRequestId) (command : DecideApprovalCommand)
| PostCheckpoint (command : CheckpointCommand)
| PostSuspend (command : CheckpointCommand)
| PostResume (command : CheckpointCommand)
| PostShutdown (command : CheckpointCommand)
| PostCancel (run_id : RunId) (command : CancelRunCommand).

Inductive reply :=
| ReSnapshot (r : DaemonSnapshot)
| ReEvents (r : list EventEnvelope)
| ReCatalog (r : CatalogSnapshot)
| ReCatalogReceipt (r : CatalogReceipt)
| ReM3 (r : M3CatalogSnapshot)
| ReGraphs (r : list GraphExecution)
| ReGraph (r : GraphExecutionReceipt)
| ReClaim (r : ClaimGraphNodesReceipt)
| ReBegin (r : BeginGraphNodeRunReceipt)
| ReExecuteReady (r : ExecuteReadyGraphReceipt)
| ReFinish (r : FinishGraphNodeRunReceipt)
| ReComplete (r : CompleteGraphNodeReceipt)
| RePrepareMvp (r : PrepareMvpReceipt)
| ReAcceptDecision (r : AcceptDecisionBaselineReceipt)
| ReDocument (r : DocumentReceipt)
| ReKnowledge (r : KnowledgeDeliveryReceipt)
| ReCost (r : CostReceipt)
| ReApprovals (r : list ApprovalRecord)
| ReApproval (r : ApprovalReceipt)
| ReGrant (r : CredentialGrantRecord)
| ReRecord (r : ApprovalRecord)
| ReCheckpoint (r : CheckpointReceipt)
| ReEvent (r : EventEnvelope)
| ReCancel (r : CancelRunReceipt)
| Finished.                          (* a thread that answers no request *)

(** [IntoResponse for ApiError]: the status of an error. *)
Definition status_of (e : StoreError) : Z :=
  match e with
  | RevisionConflict _ _ | InvalidLifecycle _ _ | ApprovalConflict | CredentialGrantRejected
  | GraphConflict | InvalidRunState _ | ProviderRunsActive => 409
  | ApprovalNotFound | RunNotFound | GraphNotFound | CredentialGrantNotFound => 404
  | RunControlRejected => 503
  | InvalidCatalog _ | InvalidApproval _ | InvalidGraph _ | InvalidM3 _ | InvalidMvp _
  | InvalidDocument _ | InvalidCost _ | Serialization => 400
  | _ => 500
  end.

(** [format!("{lifecycle:?}").to_lowercase()] *)
Definition lifecycle_debug (l : DaemonLifecycle) : string :=
  match l with
  | LcStarting => "starting" | LcReady => "ready" | LcCheckpointing => "checkpointing"
  | LcSuspended => "suspended" | LcStopping => "stopping" | LcRecovering => "recovering"
  end.

Section routes.
Context `{Environment} `{Digest} `{Serializer} `{Formats} (is_dir : string → bool) (fuel : nat).

(** ** Cancellation *)

Definition cancel_run (path_id : RunId) (command : CancelRunCommand)
    : task StoreError CancelRunReceipt :=
  deny negb (bool_decide (path_id = crc_run_id command)) with RunNotFound;;
  staged ← store (cancel_staged_run path_id (crc_expected_catalog_revision command));
  match staged with
  | Some receipt => give receipt
  | None =>
      store (preflight_provider_cancel path_id (crc_expected_catalog_revision command)) ;;
      on_err (λ _, RunControlRejected) (registry_cancel path_id) ;;
      store (record_provider_cancel_after_preflight path_id)
  end.

(** ** Execution *)

Definition begin_command (node_id : GraphNodeId) (catalog_revision graph_revision : Z)
    : BeginGraphNodeRunCommand :=
  {| bg_expected_catalog_revision := catalog_revision;
     bg_expected_graph_revision := graph_revision; bg_node_id := node_id;
     bg_owner := owner node_id |}.

(** The loop that begins a run per ready node, each at the revisions that the run
    before it left; the first failure ends it, and is reported when it is the
    first run's. *)
Fixpoint begin_ready (execution_id : GraphRunId) (catalog_revision graph_revision : Z)
    (receipts : list BeginGraphNodeRunReceipt) (ready : list (GraphNodeId * ProviderRunBinding))
    : task StoreError (list BeginGraphNodeRunReceipt) :=
  match ready with
  | [] => give receipts
  | (node_id, binding) :: ready =>
      begun ← result_of (store (begin_provider_graph_node_run execution_id
                (begin_command node_id catalog_revision graph_revision) binding));
      match begun with
      | Ok receipt =>
          begin_ready execution_id (br_catalog_revision receipt) (br_graph_revision receipt)
            (receipts ++ [receipt]) ready
      | Err error => if bool_decide (receipts = []) then raise error else give receipts
      | _ => tlift Panic
      end
  end.

Definition has_account (receipt : BeginGraphNodeRunReceipt) : bool :=
  match br_launch_identity receipt with
  | Some identity => bool_decide (is_Some (pli_account identity))
  | None => false
  end.

(** The loop that starts a worker per receipt. *)
Fixpoint start_ready (run_ids : list RunId) (receipts : list BeginGraphNodeRunReceipt)
    : task StoreError (list RunId) :=
  match receipts with
  | [] => give run_ids
  | receipt :: receipts =>
      if has_account receipt then start_ready (run_ids ++ [br_run_id receipt]) receipts else
      started ← result_of (start receipt);
      if is_err started then
        persist_start_failure fuel receipt ;;
        start_ready run_ids receipts
      else start_ready (run_ids ++ [br_run_id receipt]) receipts
  end.

(** The nodes that are ready and what each run is bound to. *)
Definition ready_bindings (catalog : IdentityCatalog) (m3 : M3Catalog)
    (execution : GraphExecution) (ready : list GraphNodeId)
    : outcome StoreError (list (GraphNodeId * ProviderRunBinding)) :=
  map_try (λ node_id,
    let? binding := resolve_provider_run_binding catalog m3 execution node_id in
    Ok (node_id, binding)) ready.

Definition execute_ready_graph (execution_id : GraphRunId) (command : ExecuteReadyGraphCommand)
    : task StoreError ExecuteReadyGraphReceipt :=
  snapshot ← store snapshot;
  deny negb (bool_decide (dsn_lifecycle snapshot = LcReady))
    with InvalidLifecycle "ready" (lifecycle_debug (dsn_lifecycle snapshot));;
  catalog ← store catalog;
  deny negb (bool_decide (csn_revision catalog = erg_expected_catalog_revision command))
    with RevisionConflict (erg_expected_catalog_revision command) (csn_revision catalog);;
  execution ← store (graph_execution execution_id);
  deny negb (bool_decide (execution.(ge_revision) = erg_expected_graph_revision command))
    with RevisionConflict (erg_expected_graph_revision command) execution.(ge_revision);;
  ready ← tlift (map_err InvalidGraph (claim_ready execution "daemon-provider-readiness" 2).2);
  deny bool_decide (ready = []) with InvalidGraph InvalidExecution;;
  m3 ← store m3_catalog;
  bindings ← tlift (ready_bindings (csn_catalog catalog) (msn_catalog m3) execution ready);
  receipts ← begin_ready execution_id (erg_expected_catalog_revision command)
               (erg_expected_graph_revision command) [] bindings;
  run_ids ← start_ready [] receipts;
  deny bool_decide (run_ids = []) with RunControlRejected;;
  give {| err_execution_id := execution_id; err_run_ids := run_ids |}.

(** ** The other handlers *)

Definition claim_nodes (id : GraphRunId) (command : ClaimGraphNodesCommand)
    : task StoreError ClaimGraphNodesReceipt :=
  claimed ← store (claim_graph_nodes id (cgn_expected_revision command) (cgn_owner command)
                     (cgn_limit command));
  execution ← store (graph_execution id);
  give {| cgr_execution_id := id; cgr_revision := execution.(ge_revision);
          cgr_claimed := claimed |}.

Definition complete_node (id : GraphRunId) (command : CompleteGraphNodeCommand)
    : task StoreError CompleteGraphNodeReceipt :=
  store (complete_graph_node id (cgc_expected_revision command) (cgc_node_id command)
           (cgc_owner command) (cgc_succeeded command)) ;;
  execution ← store (graph_execution id);
  give {| cgt_execution_id := id; cgt_revision := execution.(ge_revision) |}.

Definition post_decision (request_id : ApprovalRequestId) (command : DecideApprovalCommand)
    : task StoreError ApprovalReceipt :=
  deny negb (bool_decide ((da_decision command).(ad_request_id) = request_id))
    with InvalidApproval HashMismatch;;
  store (decide_approval command).

Definition shut_down (command : CheckpointCommand) : task StoreError CheckpointReceipt :=
  active ← perform HasActive;
  deny active with ProviderRunsActive;;
  store (shutdown command).

(** A handler that wraps the reply. *)
Definition reply_with {A} (f : A → reply) (m : task StoreError A) : task StoreError reply :=
  a ← m; give (f a).

(** [build_router_with_execution] *)
Definition route (r : request) : task StoreError reply :=
  match r with
  | GetHealth => reply_with ReSnapshot (store snapshot)
  | GetEvents after => reply_with ReEvents (store (events_after after))
  | GetCatalog => reply_with ReCatalog (store catalog)
  | PutCatalog c => reply_with ReCatalogReceipt (store (replace_catalog c))
  | GetM3 => reply_with ReM3 (store m3_catalog)
  | PutM3 c => reply_with ReCatalogReceipt (store (replace_m3_catalog c))
  | GetGraphs => reply_with ReGraphs (store graph_executions)
  | PostGraph e => reply_with ReGraph (store (create_graph_execution e))
  | PostClaim id c => reply_with ReClaim (claim_nodes id c)
  | PostRestart id revision => reply_with ReGraph (store (restart_missing_output_graph id revision))
  | PostRetry id c => reply_with ReGraph (store (retry_failed_graph_node id c))
  | PostRun id c => reply_with ReBegin (store (begin_graph_node_run id c))
  | PostExecuteReady id c => reply_with ReExecuteReady (execute_ready_graph id c)
  | PostFinish id c => reply_with ReFinish (store (finish_graph_node_run id c))
  | PostComplete id c => reply_with ReComplete (complete_node id c)
  | PostPrepareMvp c => reply_with RePrepareMvp (store (prepare_mvp is_dir c))
  | PostAcceptDecision c => reply_with ReAcceptDecision (store (accept_decision_baseline c))
  | PostDocument c => reply_with ReDocument (store (create_mvp_document c))
  | PostAcceptDocument c => reply_with ReDocument (store (accept_mvp_document c))
  | PostPrepareKnowledge c => reply_with ReKnowledge (store (prepare_knowledge_delivery c))
  | PostCompleteKnowledge c => reply_with ReKnowledge (store (complete_knowledge_delivery c))
  | PostCost c => reply_with ReCost (store (record_cost c))
  | GetApprovals => reply_with ReApprovals (store approvals)
  | PostApproval a => reply_with ReApproval (store (create_approval a))
  | GetGrant id => reply_with ReGrant (store (credential_grant id))
  | PostRevokeGrant id actor => reply_with ReGrant (store (revoke_credential_grant id actor))
  | GetApproval id => reply_with ReRecord (store (approval id))
  | PostDecision id c => reply_with ReApproval (post_decision id c)
  | PostCheckpoint c => reply_with ReCheckpoint (store (checkpoint c))
  | PostSuspend c => reply_with ReCheckpoint (store (suspend c))
  | PostResume c => reply_with ReEvent (store (resume c))
  | PostShutdown c => reply_with ReCheckpoint (shut_down c)
  | PostCancel run c => reply_with ReCancel (cancel_run run c)
  end.

(** A limit is a [usize]. *)
Definition typed (r : request) : Prop :=
  match r with
  | PostClaim _ c => (0 ≤ cgn_limit c ≤ USIZE_MAX)%Z
  | _ => True
  end.

(** ** The process *)

(** The loop of [checkpoint_for_signal]. *)
Fixpoint checkpoint_for_signal (rounds : nat) (reason : string) : task StoreError unit :=
  match rounds with
  | O => tlift Diverge
  | S rounds =>
      snapshot ← result_of (store snapshot);
      match snapshot with
      | Ok snapshot =>
          receipt ← result_of (store (shutdown
            {| cc_expected_revision := dsn_revision snapshot; cc_reason := reason |}));
          if is_ok receipt then give tt else checkpoint_for_signal rounds reason
      | _ => checkpoint_for_signal rounds reason
      end
  end.

(** What [main] does beside serving requests: the start, the ticks of the expiry
    and the checkpoint of a signal. *)
Inductive main_task : task StoreError reply → Prop :=
| main_ready : main_task (reply_with ReEvent (store mark_ready))
| main_expiry : main_task (reply_with (λ _, Finished) (store expire_staged_launches))
| main_signal rounds reason :
    main_task (reply_with (λ _, Finished) (checkpoint_for_signal rounds reason)).

Inductive begins : task StoreError reply → Prop :=
| begins_request r : typed r → begins (route r)
| begins_main p : main_task p → begins p.

Context `{!ProviderRunner}.

Definition daemon_worker : nat → BeginGraphNodeRunReceipt → task StoreError reply :=
  provider_worker (Ok Finished) Diverge fuel.

End routes.
