(* ===== verification/Http.v ===== *)
(** * The router of the daemon

    Models [build_router_with_execution] of [daemon/lib.rs] as the table of its
    routes, with the extractors of each handler, and what a handler's result
    becomes as a response.  The messages are those of [bastet-protocol]; their
    JSON is a parameter ([Serde]), and so is the router of the axum crate
    ([Axum]), of which [AxumLaws] states what its documentation says. *)
From S2P Require Import Prelude Policy Identity Catalog Deliverable Approval Graph Execution.
From S2P Require Import M3 Mvp Protocol Store Launch StagedLaunches GraphStore FinishRun.
From S2P Require Import CatalogStore CredentialGrants Dispatch DaemonStore Daemon Executor Routes.

(** ** Messages *)

(** What a client sends. *)
Inductive command_kind :=
| KReplaceCatalog | KReplaceM3 | KCreateGraph | KClaimNodes | KRestart | KRetry | KBeginRun
| KExecuteReady | KFinishRun | KCompleteNode | KPrepareMvp | KDecisionBaseline | KCreateDocument
| KAcceptDocument | KPrepareKnowledge | KCompleteKnowledge | KRecordCost | KCreateApproval
| KRevokeGrant | KDecideApproval | KCheckpointCommand | KCancelRun.
(** What it is sent back, with the version of the protocol. *)
Inductive receipt_kind :=
| KSnapshot | KCatalog | KCatalogReceipt | KM3 | KGraphs | KGraph | KClaimed | KBegun | KStarted
| KFinished | KCompleted | KPrepared | KBaseline | KDocument | KKnowledge | KCost | KApprovals
| KApproval | KGrant | KRecord | KCheckpoint | KEvent | KCancelled.
(** The events are sent as a list, without a version of their own. *)
Inductive message_kind := Command (k : command_kind) | Receipt (k : receipt_kind) | Events.

#[export] Instance command_kind_eq_dec : EqDecision command_kind.
Proof. solve_decision. Defined.
#[export] Instance receipt_kind_eq_dec : EqDecision receipt_kind.
Proof. solve_decision. Defined.
#[export] Instance message_kind_eq_dec : EqDecision message_kind.
Proof. solve_decision. Defined.

(** [CreateGraphExecutionCommand], [RestartMissingOutputGraphCommand],
    [CreateApprovalCommand] and [RevokeCredentialGrantCommand] have one field. *)
Definition command (k : command_kind) : Set :=
  match k with
  | KReplaceCatalog => ReplaceCatalogCommand
  | KReplaceM3 => ReplaceM3CatalogCommand
  | KCreateGraph => GraphExecution
  | KClaimNodes => ClaimGraphNodesCommand
  | KRestart => Z
  | KRetry => RetryFailedGraphNodeCommand
  | KBeginRun => BeginGraphNodeRunCommand
  | KExecuteReady => ExecuteReadyGraphCommand
  | KFinishRun => FinishGraphNodeRunCommand
  | KCompleteNode => CompleteGraphNodeCommand
  | KPrepareMvp => PrepareMvpCommand
  | KDecisionBaseline => AcceptDecisionBaselineCommand
  | KCreateDocument => CreateDocumentCommand
  | KAcceptDocument => AcceptDocumentCommand
  | KPrepareKnowledge => PrepareKnowledgeDeliveryCommand
  | KCompleteKnowledge => CompleteKnowledgeDeliveryCommand
  | KRecordCost => RecordCostCommand
  | KCreateApproval => ApprovalRequest
  | KRevokeGrant => string
  | KDecideApproval => DecideApprovalCommand
  | KCheckpointCommand => CheckpointCommand
  | KCancelRun => CancelRunCommand
  end.
Definition receipt (k : receipt_kind) : Set :=
  match k with
  | KSnapshot => DaemonSnapshot
  | KCatalog => CatalogSnapshot
  | KCatalogReceipt => CatalogReceipt
  | KM3 => M3CatalogSnapshot
  | KGraphs => list GraphExecution
  | KGraph => GraphExecutionReceipt
  | KClaimed => ClaimGraphNodesReceipt
  | KBegun => BeginGraphNodeRunReceipt
  | KStarted => ExecuteReadyGraphReceipt
  | KFinished => FinishGraphNodeRunReceipt
  | KCompleted => CompleteGraphNodeReceipt
  | KPrepared => PrepareMvpReceipt
  | KBaseline => AcceptDecisionBaselineReceipt
  | KDocument => DocumentReceipt
  | KKnowledge => KnowledgeDeliveryReceipt
  | KCost => CostReceipt
  | KApprovals => list ApprovalRecord
  | KApproval => ApprovalReceipt
  | KGrant => CredentialGrantRecord
  | KRecord => ApprovalRecord
  | KCheckpoint => CheckpointReceipt
  | KEvent => EventEnvelope
  | KCancelled => CancelRunReceipt
  end.

Record versioned (A : Set) := { vs_protocol_version : Z; vs_content : A }.
Arguments vs_protocol_version {A} v.
Arguments vs_content {A} v.

Definition message (k : message_kind) : Set :=
  match k with
  | Command k => command k
  | Receipt k => versioned (receipt k)
  | Events => list EventEnvelope
  end.

(** The receipt in a reply. *)
Definition stamped (k : receipt_kind) (r : receipt k) : { k : message_kind & message k } :=
  existT (Receipt k) {| vs_protocol_version := PROTOCOL_VERSION; vs_content := r |}.
Definition message_of (r : reply) : option { k : message_kind & message k } :=
  match r with
  | ReSnapshot r => Some (stamped KSnapshot r)
  | ReEvents r => Some (existT Events r)
  | ReCatalog r => Some (stamped KCatalog r)
  | ReCatalogReceipt r => Some (stamped KCatalogReceipt r)
  | ReM3 r => Some (stamped KM3 r)
  | ReGraphs r => Some (stamped KGraphs r)
  | ReGraph r => Some (stamped KGraph r)
  | ReClaim r => Some (stamped KClaimed r)
  | ReBegin r => Some (stamped KBegun r)
  | ReExecuteReady r => Some (stamped KStarted r)
  | ReFinish r => Some (stamped KFinished r)
  | ReComplete r => Some (stamped KCompleted r)
  | RePrepareMvp r => Some (stamped KPrepared r)
  | ReAcceptDecision r => Some (stamped KBaseline r)
  | ReDocument r => Some (stamped KDocument r)
  | ReKnowledge r => Some (stamped KKnowledge r)
  | ReCost r => Some (stamped KCost r)
  | ReApprovals r => Some (stamped KApprovals r)
  | ReApproval r => Some (stamped KApproval r)
  | ReGrant r => Some (stamped KGrant r)
  | ReRecord r => Some (stamped KRecord r)
  | ReCheckpoint r => Some (stamped KCheckpoint r)
  | ReEvent r => Some (stamped KEvent r)
  | ReCancel r => Some (stamped KCancelled r)
  | Finished => None
  end.

(** [serde_json] on these messages, on any units of text. *)
Class Serde := {
  octet : Set;
  to_vec : ∀ k, message k → option (list octet);
  from_slice : ∀ k, list octet → option (message k);
  error_body : StoreError → list octet;
}.

(** ** HTTP *)

Inductive Method := GET | POST | PUT.
#[export] Instance Method_eq_dec : EqDecision Method.
Proof. solve_decision. Defined.

Record http_request `{Serde} := {
  hq_method : Method;
  hq_path : string;
  hq_query : string;
  hq_body : list octet;
}.
Record http_response `{Serde} := {
  hr_status : Z;
  hr_body : list octet;
}.
Definition is_success (status : Z) : bool := (200 <=? status)%Z && (status <? 300)%Z.

(** A capture of a path: [{name}]. *)
Definition is_capture (segment : string) : bool :=
  match segment with String a _ => Ascii.eqb a "{" | EmptyString => false end.

(** What the captures of a path of the router take from a path. *)
Fixpoint captures (template path : list string) : option (list string) :=
  match template, path with
  | [], [] => Some []
  | t :: template, s :: path =>
      if is_capture t then
        if is_empty s then None else
        args ← captures template path; Some (s :: args)
      else if String.eqb t s then captures template path else None
  | _, _ => None
  end.
Definition match_of (template path : string) : option (list string) :=
  captures (split_at "/" template) (split_at "/" path).

(** What the program uses of axum: the choice of a route by the path, the
    extractors, with the limit of a body, and the statuses of its own answers. *)
Class Axum `{Serde} := {
  match_path : list string → string → option (nat * list string);
  uuid_parse : string → option Uuid;
  query_u64 : string → option Z;
  body_limit : Z;
  rejection_status : http_request → Z;
  rejection_body : list octet;
}.

(** A path that needs no decoding. *)
Definition plain_path_char (c : ascii) : bool :=
  let n := N_of_ascii c in
  ((97 <=? n) && (n <=? 122) || (48 <=? n) && (n <=? 57) || (n =? 45) || (n =? 47))%N.
Class AxumLaws `{Serde} `{!Axum} `{Formats} := {
  (** A path that one route matches is given to that route. *)
  match_only table path i template args :
    table !! i = Some template → match_of template path = Some args →
    all_chars plain_path_char path = true →
    (∀ j other, table !! j = Some other → is_Some (match_of other path) → j = i) →
    match_path table path = Some (i, args);
  (** A [Uuid] prints as lower-case hexadecimal digits and hyphens, and is read
      back. *)
  uuid_read u : uuid_parse (uuid_text u) = Some u;
  uuid_chars u : all_chars (λ c, plain_path_char c && negb (Ascii.eqb c "/")) (uuid_text u) = true;
  uuid_filled u : is_empty (uuid_text u) = false;
  (** An extractor rejects with the status of a client's error. *)
  rejection_is_client_error q : (400 <= rejection_status q < 500)%Z;
  (** A [usize] is read in its range. *)
  limits_read bytes c :
    from_slice (Command KClaimNodes) bytes = Some c → (0 <= cgn_limit c <= USIZE_MAX)%Z;
}.

(** ** Routes *)

Section router.
Context `{Serde} `{!Axum}.

Definition extractor : Type := list string → http_request → option request.

Definition plain (r : request) : extractor := λ _ _, Some r.
Definition with_query (f : Z → request) : extractor := λ _ q, f <$> query_u64 (hq_query q).
(** [Json(command)] *)
Definition json_body (k : command_kind) (q : http_request) : option (command k) :=
  if (Z.of_nat (length (hq_body q)) <=? body_limit)%Z
  then from_slice (Command k) (hq_body q) else None.
(** [AxumPath(id): AxumPath<Uuid>] *)
Definition path_id (args : list string) : option Uuid :=
  match args with [id] => uuid_parse id | _ => None end.

Definition json (k : command_kind) (f : command k → request) : extractor := λ _ q,
  f <$> json_body k q.
Definition with_id {i} (f : stable_id i → request) : extractor := λ args _,
  id ← path_id args; Some (f (mk_id id)).
Definition with_id_json {i} (k : command_kind) (f : stable_id i → command k → request)
    : extractor := λ args q,
  id ← path_id args; command ← json_body k q; Some (f (mk_id id) command).

(** The handlers of a path, by method. *)
Record endpoint := {
  ep_template : string;
  ep_get : option extractor;
  ep_post : option extractor;
  ep_put : option extractor;
}.
Definition get (template : string) (x : extractor) : endpoint :=
  {| ep_template := template; ep_get := Some x; ep_post := None; ep_put := None |}.
Definition post (template : string) (x : extractor) : endpoint :=
  {| ep_template := template; ep_get := None; ep_post := Some x; ep_put := None |}.
Definition get_put (template : string) (x y : extractor) : endpoint :=
  {| ep_template := template; ep_get := Some x; ep_post := None; ep_put := Some y |}.
Definition get_post (template : string) (x y : extractor) : endpoint :=
  {| ep_template := template; ep_get := Some x; ep_post := Some y; ep_put := None |}.
Definition on_method (m : Method) (e : endpoint) : option extractor :=
  match m with GET => ep_get e | POST => ep_post e | PUT => ep_put e end.

(** [build_router_with_execution] *)
Definition router : list endpoint := [
  get "/v1/health" (plain GetHealth);
  get "/v1/events" (with_query GetEvents);
  get_put "/v1/catalog" (plain GetCatalog) (json KReplaceCatalog PutCatalog);
  get_put "/v1/m3" (plain GetM3) (json KReplaceM3 PutM3);
  get_post "/v1/graphs" (plain GetGraphs) (json KCreateGraph PostGraph);
  post "/v1/graphs/{execution_id}/claim" (with_id_json KClaimNodes PostClaim);
  post "/v1/graphs/{execution_id}/restart-missing-output" (with_id_json KRestart PostRestart);
  post "/v1/graphs/{execution_id}/retry-failed" (with_id_json KRetry PostRetry);
  post "/v1/graphs/{execution_id}/runs" (with_id_json KBeginRun PostRun);
  post "/v1/graphs/{execution_id}/execute-ready" (with_id_json KExecuteReady PostExecuteReady);
  post "/v1/graphs/{execution_id}/runs/finish" (with_id_json KFinishRun PostFinish);
  post "/v1/graphs/{execution_id}/complete" (with_id_json KCompleteNode PostComplete);
  post "/v1/mvp/prepare" (json KPrepareMvp PostPrepareMvp);
  post "/v1/mvp/accept-decision" (json KDecisionBaseline PostAcceptDecision);
  post "/v1/mvp/document" (json KCreateDocument PostDocument);
  post "/v1/mvp/document/accept" (json KAcceptDocument PostAcceptDocument);
  post "/v1/mvp/knowledge/prepare" (json KPrepareKnowledge PostPrepareKnowledge);
  post "/v1/mvp/knowledge/complete" (json KCompleteKnowledge PostCompleteKnowledge);
  post "/v1/mvp/costs" (json KRecordCost PostCost);
  get_post "/v1/approvals" (plain GetApprovals) (json KCreateApproval PostApproval);
  get_post "/v1/credential-grants/{request_id}" (with_id GetGrant)
    (with_id_json KRevokeGrant PostRevokeGrant);
  get_post "/v1/approvals/{request_id}" (with_id GetApproval)
    (with_id_json KDecideApproval PostDecision);
  post "/v1/checkpoints" (json KCheckpointCommand PostCheckpoint);
  post "/v1/power/suspend" (json KCheckpointCommand PostSuspend);
  post "/v1/power/resume" (json KCheckpointCommand PostResume);
  post "/v1/shutdown" (json KCheckpointCommand PostShutdown);
  post "/v1/runs/{run_id}/cancel" (with_id_json KCancelRun PostCancel)
].
Definition templates : list string := ep_template <$> router.

(** The request that a handler is called with, or the status that the router
    answers by itself: no route, no such method, a rejected extraction. *)
Definition dispatch (q : http_request) : Z + request :=
  match match_path templates (hq_path q) with
  | None => inl 404%Z
  | Some (i, args) =>
      match router !! i ≫= on_method (hq_method q) with
      | None => inl 405%Z
      | Some x => match x args q with None => inl (rejection_status q) | Some r => inr r end
      end
  end.

(** [Json(reply)] and [IntoResponse for ApiError].  A handler that panics or goes
    on for ever answers nothing. *)
Definition respond (r : outcome StoreError reply) : option http_response :=
  match r with
  | Ok reply =>
      Some match message_of reply with
           | Some (existT k m) =>
               match to_vec k m with
               | Some body => {| hr_status := 200; hr_body := body |}
               | None => {| hr_status := 500; hr_body := rejection_body |}
               end
           | None => {| hr_status := 500; hr_body := rejection_body |}
           end
  | Err e => Some {| hr_status := status_of e; hr_body := error_body e |}
  | Panic | Diverge => None
  end.

(** A connection that is served. *)
Definition serve `{Environment} `{Digest} `{Serializer} `{Formats} (is_dir : string → bool)
    (fuel : nat) (q : http_request) : prog (option http_response) :=
  match dispatch q with
  | inl status => Ret (Some {| hr_status := status; hr_body := rejection_body |})
  | inr r => pbind (route is_dir fuel r) (λ r, Ret (respond r))
  end.

End router.
