(* ===== verification/Client.v ===== *)
(** * The client of the daemon

    Models [bastet-client]: the methods of [DaemonClient] and the transport over
    the local IPC ([transport.rs]).  The constructor for fixtures, which uses
    [reqwest], is for tests only and left out.

    A client is a program over what it does: it connects, sends a request and is
    told what the network answered, or accesses a state of its own ([Local]; the
    argument of the access tells how its calls of the system end). *)
From S2P Require Import Prelude Policy Identity Catalog Deliverable Approval Graph Execution.
From S2P Require Import M3 Mvp Protocol Store Launch StagedLaunches GraphStore FinishRun.
From S2P Require Import CatalogStore CredentialGrants Dispatch DaemonStore Daemon Executor Routes.
From S2P Require Import Http.

(** ** Programs *)

(** How connecting ends: with a connection whose handshake succeeded, at the
    deadline of connecting, with an error, or at the deadline of the request. *)
Inductive connection := Connected | ConnectLate | ConnectRefused | ConnectOverdue.

(** What arrives of a response's body. *)
Inductive frame `{Serde} := Data (bytes : list octet) | Trailers | Broken | Stalled.

(** What becomes of a request that was sent: a response, a connection that ends
    without one, or the deadline of the request. *)
Inductive answer `{Serde} := Answered (status : Z) (frames : list frame) | NoAnswer | Overdue.

Inductive access `{Serde} (D : Type) : Type → Type :=
| Connect : access D connection
| SendRequest (q : http_request) : access D answer
| Local {A} (f : (nat → nat) → D → A * D) : access D A.
Arguments Connect {_ D}.
Arguments SendRequest {_ D} q.
Arguments Local {_ D A} f.

Inductive cprog `{Serde} (D A : Type) : Type :=
| CRet (a : A)
| CAct {B} (e : access D B) (k : B → cprog D A).
Arguments CRet {_ D A} a.
Arguments CAct {_ D A B} e k.

Section programs.
Context `{Serde} {D : Type}.

Fixpoint cbind {A B} (p : cprog D A) (k : A → cprog D B) : cprog D B :=
  match p with
  | CRet a => k a
  | CAct e c => CAct e (λ b, cbind (c b) k)
  end.

Definition ctask (E A : Type) : Type := cprog D (outcome E A).
Definition cgive {E A} (a : A) : ctask E A := CRet (Ok a).
Definition craise {E A} (e : E) : ctask E A := CRet (Err e).
Definition clift {E A} (r : outcome E A) : ctask E A := CRet r.
Definition cperform {E B} (e : access D B) : ctask E B := CAct e (λ b, CRet (Ok b)).
#[export] Instance ctask_bind {E} : MBind (ctask E) := λ _ _ k m,
  cbind m (λ r, match r with
                | Ok a => k a
                | Err e => CRet (Err e)
                | Panic => CRet Panic
                | Diverge => CRet Diverge
                end).
Definition con_err {E F A} (f : E → F) (m : ctask E A) : ctask F A :=
  cbind m (λ r, CRet (map_err f r)).
Definition cresult_of {E F A} (m : ctask E A) : ctask F (outcome E A) :=
  cbind m (λ r, match r with
                | Ok _ | Err _ => CRet (Ok r)
                | Panic => CRet Panic
                | Diverge => CRet Diverge
                end).
End programs.
Arguments ctask {_} D E A.

(** ** The transport *)

Definition MAX_RESPONSE_BYTES : Z := 16 * 1024 * 1024.
Definition LOCAL_HTTP_ORIGIN : string := "http://bastet.local".

Inductive LocalTransportError :=
| EndpointUnavailable | ConnectTimedOut | RequestTimedOut | ConnectionFailed
| InvalidHttpResponse | ResponseTooLarge | ResponseBodyFailed | InvalidTarget.

Record LocalResponse `{Serde} := { lr_status : Z; lr_body : list octet }.

(** [url.strip_prefix(LOCAL_HTTP_ORIGIN).filter(|path| path.starts_with('/'))] *)
Definition request_target (url : string) : option string :=
  path ← str_strip_prefix LOCAL_HTTP_ORIGIN url;
  match path with
  | String a _ => if Ascii.eqb a "/" then Some path else None
  | EmptyString => None
  end.

Section client.
Context `{Serde} {D : Type}.
Notation task E A := (ctask D E A).

(** The loop that reads the body. *)
Fixpoint read_body (bytes : list octet) (frames : list frame)
    : outcome LocalTransportError (list octet) :=
  match frames with
  | [] => Ok bytes
  | Broken :: _ => Err ResponseBodyFailed
  | Stalled :: _ => Err RequestTimedOut
  | Trailers :: frames => read_body bytes frames
  | Data data :: frames =>
      if (MAX_RESPONSE_BYTES <? Z.of_nat (length bytes) + Z.of_nat (length data))%Z
      then Err ResponseTooLarge else read_body (bytes ++ data) frames
  end.

(** [LocalTransport::send] *)
Definition transport_send (method : Method) (url : string) (body : list octet)
    : task LocalTransportError LocalResponse :=
  connected ← cperform Connect;
  match connected with
  | ConnectLate => craise ConnectTimedOut
  | ConnectRefused => craise ConnectionFailed
  | ConnectOverdue => craise RequestTimedOut
  | Connected =>
      path ← clift (ok_or (request_target url) InvalidTarget);
      response ← cperform (SendRequest
        {| hq_method := method; hq_path := path; hq_query := EmptyString; hq_body := body |});
      match response with
      | NoAnswer => craise InvalidHttpResponse
      | Overdue => craise RequestTimedOut
      | Answered status frames =>
          bytes ← clift (read_body [] frames);
          cgive {| lr_status := status; lr_body := bytes |}
      end
  end.

(** ** Requests *)

Inductive ClientError :=
| CrTransport (e : LocalTransportError)
| LocalStatus (status : Z)
| InvalidResponse
| ProtocolMismatch (expected actual : Z).

Record ClientRequest := {
  cq_method : Method;
  cq_url : string;
  cq_body : outcome ClientError (option (list octet));
}.

Definition new_request (method : Method) (url : string) : ClientRequest :=
  {| cq_method := method; cq_url := url; cq_body := Ok None |}.
Definition http_get : string → ClientRequest := new_request GET.
Definition http_post : string → ClientRequest := new_request POST.
Definition http_put : string → ClientRequest := new_request PUT.

Definition with_json (k : command_kind) (value : command k) (r : ClientRequest) : ClientRequest :=
  {| cq_method := cq_method r; cq_url := cq_url r;
     cq_body := match to_vec (Command k) value with
                | Some bytes => Ok (Some bytes)
                | None => Err InvalidResponse
                end |}.

Definition send (r : ClientRequest) : task ClientError LocalResponse :=
  body ← clift (cq_body r);
  con_err CrTransport (transport_send (cq_method r) (cq_url r) (default [] body)).

Definition error_for_status (response : LocalResponse) : outcome ClientError LocalResponse :=
  if is_success (lr_status response) then Ok response else Err (LocalStatus (lr_status response)).

Definition read_json (k : message_kind) (response : LocalResponse)
    : outcome ClientError (message k) :=
  ok_or (from_slice k (lr_body response)) InvalidResponse.

Definition require_protocol (actual : Z) : outcome ClientError unit :=
  if (actual =? PROTOCOL_VERSION)%Z then Ok tt
  else Err (ProtocolMismatch PROTOCOL_VERSION actual).

(** [.send().await?.error_for_status()?.json::<T>().await?] and the check of the
    version, which end every method. *)
Definition receive (k : receipt_kind) (r : ClientRequest) : task ClientError (receipt k) :=
  response ← send r;
  response ← clift (error_for_status response);
  received ← clift (read_json (Receipt k) response);
  clift (require_protocol (vs_protocol_version received)) ;;
  cgive (vs_content received).

End client.
Arguments receive {_ D} k r.

(** ** [DaemonClient] *)

Record DaemonClient := { base_url : string }.

(** [Endpoint::for_database] tells whether there is an endpoint. *)
Definition for_database (endpoint : bool) : outcome ClientError DaemonClient :=
  if endpoint then Ok {| base_url := LOCAL_HTTP_ORIGIN |}
  else Err (CrTransport EndpointUnavailable).

Module Call.
Section methods.
Context `{Serde} `{Formats} {D : Type} (self : DaemonClient).
Notation call k := (ctask D ClientError (receipt k)).

Definition url (path : string) : string := base_url self +:+ path.
(** [format!("{}/v1/graphs/{}/...", self.base_url, execution_id.value())] *)
Definition id_url {i} (before : string) (id : stable_id i) (after : string) : string :=
  base_url self +:+ before +:+ uuid_text (value id) +:+ after.

Definition snapshot : call KSnapshot := receive KSnapshot (http_get (url "/v1/health")).
Definition checkpoint (expected_revision : Z) (reason : string) : call KCheckpoint :=
  receive KCheckpoint (with_json KCheckpointCommand
    {| cc_expected_revision := expected_revision; cc_reason := reason |}
    (http_post (url "/v1/checkpoints"))).
Definition catalog : call KCatalog := receive KCatalog (http_get (url "/v1/catalog")).
Definition replace_catalog (expected_revision : Z) (catalog : IdentityCatalog)
    : call KCatalogReceipt :=
  receive KCatalogReceipt (with_json KReplaceCatalog
    {| rc_expected_revision := expected_revision; rc_catalog := catalog |}
    (http_put (url "/v1/catalog"))).
Definition m3_catalog : call KM3 := receive KM3 (http_get (url "/v1/m3")).
Definition execute_ready_graph (execution_id : GraphRunId) (command : ExecuteReadyGraphCommand)
    : call KStarted :=
  receive KStarted (with_json KExecuteReady command
    (http_post (id_url "/v1/graphs/" execution_id "/execute-ready"))).
Definition graph_executions : call KGraphs := receive KGraphs (http_get (url "/v1/graphs")).
Definition create_graph_execution (execution : GraphExecution) : call KGraph :=
  receive KGraph (with_json KCreateGraph execution (http_post (url "/v1/graphs"))).
Definition restart_missing_output_graph (execution_id : GraphRunId) (expected_graph_revision : Z)
    : call KGraph :=
  receive KGraph (with_json KRestart expected_graph_revision
    (http_post (id_url "/v1/graphs/" execution_id "/restart-missing-output"))).
Definition retry_failed_graph_node (execution_id : GraphRunId)
    (command : RetryFailedGraphNodeCommand) : call KGraph :=
  receive KGraph (with_json KRetry command
    (http_post (id_url "/v1/graphs/" execution_id "/retry-failed"))).
Definition prepare_mvp (command : PrepareMvpCommand) : call KPrepared :=
  receive KPrepared (with_json KPrepareMvp command (http_post (url "/v1/mvp/prepare"))).
Definition accept_mvp_decision (command : AcceptDecisionBaselineCommand) : call KBaseline :=
  receive KBaseline (with_json KDecisionBaseline command
    (http_post (url "/v1/mvp/accept-decision"))).
Definition claim_graph_nodes (execution_id : GraphRunId) (command : ClaimGraphNodesCommand)
    : call KClaimed :=
  receive KClaimed (with_json KClaimNodes command
    (http_post (id_url "/v1/graphs/" execution_id "/claim"))).
Definition begin_graph_node_run (execution_id : GraphRunId) (command : BeginGraphNodeRunCommand)
    : call KBegun :=
  receive KBegun (with_json KBeginRun command
    (http_post (id_url "/v1/graphs/" execution_id "/runs"))).
Definition finish_graph_node_run (execution_id : GraphRunId)
    (command : FinishGraphNodeRunCommand) : call KFinished :=
  receive KFinished (with_json KFinishRun command
    (http_post (id_url "/v1/graphs/" execution_id "/runs/finish"))).
Definition complete_graph_node (execution_id : GraphRunId) (command : CompleteGraphNodeCommand)
    : call KCompleted :=
  receive KCompleted (with_json KCompleteNode command
    (http_post (id_url "/v1/graphs/" execution_id "/complete"))).
Definition create_mvp_document (command : CreateDocumentCommand) : call KDocument :=
  receive KDocument (with_json KCreateDocument command (http_post (url "/v1/mvp/document"))).
Definition accept_mvp_document (command : AcceptDocumentCommand) : call KDocument :=
  receive KDocument (with_json KAcceptDocument command
    (http_post (url "/v1/mvp/document/accept"))).
Definition prepare_knowledge_delivery (command : PrepareKnowledgeDeliveryCommand)
    : call KKnowledge :=
  receive KKnowledge (with_json KPrepareKnowledge command
    (http_post (url "/v1/mvp/knowledge/prepare"))).
Definition complete_knowledge_delivery (command : CompleteKnowledgeDeliveryCommand)
    : call KKnowledge :=
  receive KKnowledge (with_json KCompleteKnowledge command
    (http_post (url "/v1/mvp/knowledge/complete"))).
Definition record_cost (command : RecordCostCommand) : call KCost :=
  receive KCost (with_json KRecordCost command (http_post (url "/v1/mvp/costs"))).
Definition replace_m3_catalog (command : ReplaceM3CatalogCommand) : call KCatalogReceipt :=
  receive KCatalogReceipt (with_json KReplaceM3 command (http_put (url "/v1/m3"))).
Definition create_approval (request : ApprovalRequest) : call KApproval :=
  receive KApproval (with_json KCreateApproval request (http_post (url "/v1/approvals"))).
Definition approval (request_id : ApprovalRequestId) : call KRecord :=
  receive KRecord (http_get (id_url "/v1/approvals/" request_id "")).
Definition approvals : call KApprovals := receive KApprovals (http_get (url "/v1/approvals")).
Definition decide_approval_with_scope_review (decision : ApprovalDecision)
    (credential_scope_acknowledged : bool) : call KApproval :=
  receive KApproval (with_json KDecideApproval
    {| da_decision := decision;
       da_credential_scope_acknowledged := credential_scope_acknowledged |}
    (http_post (id_url "/v1/approvals/" decision.(ad_request_id) ""))).
Definition decide_approval (decision : ApprovalDecision) : call KApproval :=
  decide_approval_with_scope_review decision false.
Definition credential_grant (request_id : ApprovalRequestId) : call KGrant :=
  receive KGrant (http_get (id_url "/v1/credential-grants/" request_id "")).
Definition revoke_credential_grant (request_id : ApprovalRequestId) (actor : string)
    : call KGrant :=
  receive KGrant (with_json KRevokeGrant actor
    (http_post (id_url "/v1/credential-grants/" request_id ""))).
Definition cancel_run (run_id : RunId) (expected_catalog_revision : Z) : call KCancelled :=
  receive KCancelled (with_json KCancelRun
    {| crc_run_id := run_id; crc_expected_catalog_revision := expected_catalog_revision |}
    (http_post (id_url "/v1/runs/" run_id "/cancel"))).
Definition shutdown (expected_revision : Z) (reason : string) : call KCheckpoint :=
  receive KCheckpoint (with_json KCheckpointCommand
    {| cc_expected_revision := expected_revision; cc_reason := reason |}
    (http_post (url "/v1/shutdown"))).
Definition post_checkpoint (path : string) (expected_revision : Z) (reason : string)
    : call KCheckpoint :=
  receive KCheckpoint (with_json KCheckpointCommand
    {| cc_expected_revision := expected_revision; cc_reason := reason |}
    (http_post (url path))).
Definition suspend (expected_revision : Z) (reason : string) : call KCheckpoint :=
  post_checkpoint "/v1/power/suspend" expected_revision reason.
Definition resume (expected_revision : Z) (reason : string) : call KEvent :=
  receive KEvent (with_json KCheckpointCommand
    {| cc_expected_revision := expected_revision; cc_reason := reason |}
    (http_post (url "/v1/power/resume"))).

End methods.
End Call.
