(* ===== verification/Delivery.v ===== *)
(** * Deliveries of the desktop

    Models the parts of [apps/desktop/src-tauri/src/lib.rs] that write outside the
    daemon: [deliver_bastet_mind] and [append_once] on the files of a vault,
    [deliver_agent_memory_with] on the AgentMemoryOS command, and
    [export_document_file].

    Each call of the system is one access, so that a program may be interrupted
    between any two of them, and any of them may fail: the argument of an access
    is 0 for a call that succeeds.  The command of AgentMemoryOS, its store and its
    JSON are parameters, and so is the resolution of paths, which the program
    leaves to the system. *)
From S2P Require Import Prelude Policy Identity Deliverable LineDecoder WinEncoding Adapter Protocol Store Launch Http Client.

(** ** Files *)

Inductive entry := Regular (content : string) | Link (target : string) | Directory.
Notation files := (gmap string entry).

(** The system gives up after forty links. *)
Fixpoint follow (links : nat) (fs : files) (path : string) : option (string * entry) :=
  match fs !! path with
  | Some (Link target) => match links with O => None | S links => follow links fs target end
  | Some e => Some (path, e)
  | None => None
  end.
Definition resolve (fs : files) (path : string) : option (string * entry) := follow 40 fs path.

Definition is_file (fs : files) (path : string) : bool :=
  match resolve fs path with Some (_, Regular _) => true | _ => false end.
Definition is_directory (fs : files) (path : string) : bool :=
  match resolve fs path with Some (_, Directory) => true | _ => false end.

Definition join (directory name : string) : string := directory +:+ "/" +:+ name.

(** How opening a file ends. *)
Inductive opening := Opened | AlreadyExists | OpenFailed.

(** [OpenOptions::new().write(true).create_new(true).open(&path)] *)
Definition create_new (path : string) (system : nat) (fs : files) : opening * files :=
  match fs !! path with
  | Some _ => (AlreadyExists, fs)
  | None => if bool_decide (system = 0) then (Opened, <[path := Regular EmptyString]> fs)
            else (OpenFailed, fs)
  end.
(** [file.write_all(..)] at the end of the file that was opened: a call that fails
    may have written a part. *)
Definition write_all (path text : string) (system : nat) (fs : files) : bool * files :=
  match fs !! path with
  | Some (Regular content) =>
      let written := match system with O => text | S n => String.substring 0 n text end in
      (bool_decide (system = 0), <[path := Regular (content +:+ written)]> fs)
  | _ => (false, fs)
  end.
(** [std::fs::read_to_string] *)
Definition read_to_string (path : string) (system : nat) (fs : files) : option string :=
  if bool_decide (system = 0) then
    match resolve fs path with
    | Some (_, Regular content) =>
        if from_utf8 (String.list_ascii_of_string content) then Some content else None
    | _ => None
    end
  else None.
(** [OpenOptions::new().append(true).open(path)]: the file that is opened. *)
Definition open_append (path : string) (system : nat) (fs : files) : option string :=
  if bool_decide (system = 0) then
    match resolve fs path with Some (target, Regular _) => Some target | _ => None end
  else None.

(** Errors of the desktop are texts. *)
Inductive DesktopError := Told (s : string) | SystemError | FromClient (e : ClientError).

Section delivery.
Context `{Serde} `{Formats} (canonicalize : string → option string).
Context {D : Type} (files_of : D → files) (set_files : files → D → D).
Notation task := (ctask D DesktopError).

Definition on_files {A} (f : nat → files → A * files) : task A :=
  cperform (Local (λ system d, let '(a, fs) := f (system 0) (files_of d) in (a, set_files fs d))).
Definition see_files {A} (f : nat → files → A) : task A :=
  cperform (Local (λ system d, (f (system 0) (files_of d), d))).
Definition require {A} (o : option A) : task A := clift (ok_or o SystemError).

(** ** BastetMind *)

Definition append_once (path marker content : string) : task unit :=
  existing ← see_files (read_to_string path);
  existing ← require existing;
  if contains marker existing then cgive tt else
  target ← see_files (open_append path);
  target ← require target;
  written ← on_files (write_all target content);
  require (if written : bool then Some tt else None).

Definition newline_text : string := String "010" EmptyString.
Definition quote_text : string := String "034" EmptyString.

Definition marker_of (id : KnowledgeDeliveryId) : string := "bastet-delivery:" +:+ uuid_text (value id).
Definition note_name (id : KnowledgeDeliveryId) : string :=
  "Bastet Workstation Delivery " +:+ uuid_text (value id).
Definition note_body (id : KnowledgeDeliveryId) (preview delivered_on : string) : string :=
  "---" +:+ newline_text +:+ "type: output" +:+ newline_text +:+ "status: active" +:+ newline_text
  +:+ "created: " +:+ delivered_on +:+ newline_text
  +:+ "updated: " +:+ delivered_on +:+ newline_text
  +:+ "aliases: []" +:+ newline_text
  +:+ "tags: [Bastet-Workstation]" +:+ newline_text
  +:+ "sources: [" +:+ quote_text +:+ "[[40-輸出成果/Bastet Workstation Master Plan]]" +:+ quote_text
  +:+ "]" +:+ newline_text
  +:+ "confidence: high" +:+ newline_text +:+ "---" +:+ newline_text +:+ newline_text
  +:+ "<!-- " +:+ marker_of id +:+ " -->" +:+ newline_text +:+ newline_text
  +:+ "# " +:+ note_name id +:+ newline_text +:+ newline_text
  +:+ trim preview +:+ newline_text.
Definition index_entry (id : KnowledgeDeliveryId) : string :=
  newline_text +:+ "- [[40-輸出成果/" +:+ note_name id +:+ "]] — Bastet Workstation 明確交付。 <!-- "
  +:+ marker_of id +:+ " -->" +:+ newline_text.
Definition log_entry (id : KnowledgeDeliveryId) (delivered_on : string) : string :=
  newline_text +:+ newline_text +:+ "## [" +:+ delivered_on
  +:+ "] knowledge delivery | Bastet Workstation" +:+ newline_text +:+ newline_text
  +:+ "- 新增 [[40-輸出成果/" +:+ note_name id
  +:+ "]]；來源為已接受且已遮蔽的 Workstation artifact。 <!-- " +:+ marker_of id +:+ " -->" +:+ newline_text.

(** [Path::starts_with]: by components. *)
Definition below (root path : string) : bool :=
  String.eqb root path || String.prefix (root +:+ "/") path.

(** The note itself, written once. *)
Definition write_note (path body : string) : task unit :=
  opened ← on_files (create_new path);
  match opened with
  | Opened =>
      written ← on_files (write_all path body);
      require (if written : bool then Some tt else None)
  | AlreadyExists =>
      existing ← see_files (read_to_string path);
      existing ← require existing;
      if String.eqb existing body then cgive tt
      else craise (Told "BastetMind delivery path conflicts with different content")
  | OpenFailed => craise SystemError
  end.

Definition deliver_bastet_mind (root : string) (id : KnowledgeDeliveryId)
    (preview delivered_on : string) : task string :=
  root ← require (canonicalize root);
  output_dir ← require (canonicalize (join root "40-輸出成果"));
  let index := join root "index.md" in
  let log := join root "log.md" in
  valid ← see_files (λ _ fs, is_file fs (join root "AGENTS.md") && is_file fs index
                             && is_file fs log && below root output_dir);
  if negb valid then craise (Told "BASTET_MIND_ROOT is not a valid BastetMind vault") else
  write_note (join output_dir (note_name id +:+ ".md")) (note_body id preview delivered_on) ;;
  append_once index (marker_of id) (index_entry id) ;;
  append_once log (marker_of id) (log_entry id delivered_on) ;;
  cgive ("bastetmind:" +:+ marker_of id).

(** ** Exports *)

Definition export_document_file (root : string) (version : DocumentVersion) : task string :=
  root ← require (canonicalize root);
  directory ← see_files (λ _ fs, is_directory fs root);
  if negb directory then craise (Told "workspace is not a directory") else
  let path := join root ("bastet-report-" +:+ uuid_text (value version.(dv_id)) +:+ ".md") in
  opened ← on_files (create_new path);
  match opened with
  | Opened =>
      written ← on_files (write_all path version.(dv_markdown));
      require (if written : bool then Some tt else None) ;;
      synced ← see_files (λ system _, bool_decide (system = 0));
      require (if synced : bool then Some tt else None) ;;
      cgive path
  | AlreadyExists =>
      (* [symlink_metadata] does not follow a link. *)
      metadata ← see_files (λ system fs, if bool_decide (system = 0) then fs !! path else None);
      metadata ← require metadata;
      existing ← match metadata with
                 | Regular _ => see_files (read_to_string path)
                 | _ => cgive (Some EmptyString)
                 end;
      existing ← require existing;
      if match metadata with Regular _ => String.eqb existing version.(dv_markdown) | _ => false end
      then cgive path
      else craise (Told "export path contains different content; nothing was overwritten")
  | OpenFailed => craise SystemError
  end.

End delivery.

(** ** AgentMemoryOS *)

(** The command: what a run with some arguments prints and does to the memory, or
    that it could not be run. *)
Record tool_output := { to_success : bool; to_stdout : string }.
Class AgentMemory := {
  memory : Type;
  tool_run : list string → nat → memory → option tool_output * memory;
}.

Section memory.
Context `{Serde} `{Formats} `{Json} `{!AgentMemory}.
Context {D : Type} (memory_of : D → memory) (set_memory : memory → D → D).
Notation task := (ctask D DesktopError).

Definition run_tool (arguments : list string) : task tool_output :=
  output ← cperform (Local (λ system d,
    let '(o, m) := tool_run arguments (system 0) (memory_of d) in (o, set_memory m d)));
  clift (ok_or output SystemError).

Definition search_arguments (marker : string) : list string :=
  ["search"; marker; "--owner"; "bastet-workstation"; "--limit"; "20"; "--json"].
Definition add_arguments (marker content : string) : list string :=
  ["add"; content; "--owner"; "bastet-workstation"; "--scope"; "project"; "--type"; "fact";
   "--tag"; marker; "--confidence"; "1"; "--importance"; "0.9"].

Definition memory_content (id : KnowledgeDeliveryId) (preview : string) : string :=
  "[" +:+ marker_of id +:+ "] " +:+ trim preview.

(** The identifier of the first hit with this content. *)
Definition has_content (content : string) (item : Value) : bool :=
  match value_get item "content" ≫= as_str with Some c => String.eqb c content | None => false end.
Definition hit_id (content : string) (hits : Value) : option string :=
  items ← as_array hits; item ← List.find (has_content content) items;
  id ← value_get item "id"; as_str id.

Definition receipt_byte (b : ascii) : bool :=
  ascii_alphanumeric b || Ascii.eqb b "_" || Ascii.eqb b "-".

Definition deliver_agent_memory_with (id : KnowledgeDeliveryId) (preview : string) : task string :=
  let marker := marker_of id in
  let content := memory_content id preview in
  search ← run_tool (search_arguments marker);
  if negb (to_success search) then craise (Told "AgentMemoryOS reconciliation search failed") else
  hits ← clift (ok_or (value_from_str (to_stdout search)) SystemError);
  match hit_id content hits with
  | Some id => cgive ("agent-memory:" +:+ id)
  | None =>
      output ← run_tool (add_arguments marker content);
      if negb (to_success output) then craise (Told "AgentMemoryOS rejected the delivery") else
      if negb (from_utf8 (String.list_ascii_of_string (to_stdout output))) then craise SystemError else
      let id := trim (to_stdout output) in
      if is_empty id || negb (all_chars receipt_byte id)
      then craise (Told "AgentMemoryOS returned an invalid receipt")
      else cgive ("agent-memory:" +:+ id)
  end.

End memory.
