(* ===== verification/Projection.v ===== *)
(** * What the desktop shows

    Models the projections of [apps/desktop/src-tauri/src/lib.rs]: [project_m3],
    [work_projection], [pet_state], [failure_kind_label] and [run_can_cancel],
    which turn the answers of the daemon into what the window shows, the choice of
    the execution whose outputs are missing, and [agent_center_snapshot]. *)
From S2P Require Import Prelude LineDecoder Adapter CodexCommands AgyCommands CodexServer CodexStdio.
From S2P Require Import Policy Identity Catalog Office Meeting Deliverable Graph Execution.
From S2P Require Import M3 Mvp Protocol Store Launch StagedLaunches GraphStore Http Client.

(** ** Labels *)

Definition failure_kind_label (kind : AdapterFailureKind) : string :=
  match kind with
  | BinaryMissing | Unsupported => "provider_unavailable"
  | Authentication => "provider_authentication"
  | Quota => "provider_quota"
  | PermissionDenied => "provider_rejected"
  | Timeout => "provider_timeout"
  | CancelledFailure => "cancelled"
  | Crashed => "provider_crashed"
  | ProtocolDrift | MalformedOutput => "invalid_output"
  | UnknownFailure => "unknown"
  end.

Definition pet_state (state : GraphNodeState) : string :=
  match state with
  | Pending => "idle"
  | AwaitingApproval => "approval_required"
  | Running => "working"
  | Succeeded => "succeeded"
  | Failed | Cancelled => "failed"
  | Blocked => "blocked"
  | Uncertain => "waiting"
  end.

(** [format!("{:?}", ..).to_lowercase()] *)
Definition node_state_name (state : GraphNodeState) : string :=
  match state with
  | Pending => "pending" | AwaitingApproval => "awaitingapproval" | Running => "running"
  | Succeeded => "succeeded" | Failed => "failed" | Cancelled => "cancelled"
  | Blocked => "blocked" | Uncertain => "uncertain"
  end.
Definition target_name (target : KnowledgeTarget) : string :=
  match target with AgentMemoryOs => "agentmemoryos" | BastetMind => "bastetmind" end.
Definition delivery_state_name (state : DeliveryState) : string :=
  match state with Prepared => "prepared" | Delivered => "delivered" end.

Definition run_can_cancel (state : NormalizedRunState) (has_started : bool) : bool :=
  in_run_state [RunRunning; RunRecovering] state
  || bool_decide (state = RunAwaitingApproval) && negb has_started.

(** ** Records *)

Record RunProjection := {
  rpj_run_id : string;
  rpj_session_id : string;
  rpj_state : string;
  rpj_can_cancel : bool;
}.
Record WorkProjection := {
  wpj_revision : Z;
  wpj_sessions : nat;
  wpj_runs : list RunProjection;
}.
Record JoinedDraftProjection := {
  jd_execution_id : string;
  jd_title : string;
  jd_markdown : string;
}.
Record GraphNodeProjection := {
  gnp_execution_id : string;
  gnp_run_id : option string;
  gnp_node_id : string;
  gnp_failure_kind : option string;
  gnp_title : string;
  gnp_state : string;
  gnp_pet_state : string;
}.
Record DocumentProjection := {
  dpj_project_id : string;
  dpj_artifact_id : string;
  dpj_version_id : string;
  dpj_title : string;
  dpj_markdown : string;
  dpj_content_hash : string;
  dpj_accepted : bool;
}.
Record KnowledgeDeliveryProjection := {
  kdp_delivery_id : string;
  kdp_target : string;
  kdp_preview : string;
  kdp_state : string;
}.
Record MeetingProjection := {
  mpj_meeting_id : string;
  mpj_summary : string;
}.
Record M3Projection := {
  pj_revision : Z;
  pj_pet_profiles : list PetProfile;
  pj_pet_assignments : nat;
  pj_rooms : nat;
  pj_meetings : nat;
  pj_documents : nat;
  pj_costs : nat;
  pj_graph_nodes : list GraphNodeProjection;
  pj_awaiting_meetings : list MeetingProjection;
  pj_document_versions : list DocumentProjection;
  pj_knowledge_deliveries : list KnowledgeDeliveryProjection;
  pj_joined_drafts : list JoinedDraftProjection;
  pj_missing_output_execution_id : option string;
}.

(** ** Projections *)

(** A completed execution that lacks an output and has not been restarted. *)
Definition needs_output_recovery (executions : list GraphExecution) (execution : GraphExecution)
    : bool :=
  forallb (in_state Succeeded) execution.(ge_nodes)
  && existsb (λ node, bool_decide (find_output execution node.(ne_node_id) = None))
             execution.(ge_nodes)
  && negb (existsb (λ next,
             bool_decide (next.(ge_restarted_from_execution_id) = Some execution.(ge_id)))
           executions).

Section project.
Context `{Formats}.

Definition id_text {k} (id : stable_id k) : string := uuid_text (value id).

Definition joined_draft (m3 : M3Catalog) (execution : GraphExecution)
    : option JoinedDraftProjection :=
  if negb (forallb (in_state Succeeded) execution.(ge_nodes))
     || existsb (λ artifact, existsb (λ version,
          bool_decide (version.(dv_source_execution_id) = Some execution.(ge_id)))
          artifact.(da_versions)) m3.(m3_deliverables).(dc_documents)
  then None else
  join ← List.find (λ node, bool_decide (node.(gn_kind) = Graph.Join)) execution.(ge_graph).(wg_nodes);
  output ← find_output execution join.(gn_id);
  Some {| jd_execution_id := id_text execution.(ge_id);
          jd_title := default join.(gn_title) (find_map (str_strip_prefix "# ") (lines output.(no_markdown)));
          jd_markdown := output.(no_markdown) |}.

Definition project_meeting (meeting : ProjectMeeting) : MeetingProjection :=
  {| mpj_meeting_id := id_text meeting.(mt_metadata).(em_id);
     mpj_summary := match last meeting.(mt_rounds) with
                    | Some round => round.(mr_summary)
                    | None => EmptyString
                    end |}.

Definition project_version (document : DocumentArtifact) (version : DocumentVersion)
    : DocumentProjection :=
  {| dpj_project_id := id_text document.(da_project_id);
     dpj_artifact_id := id_text document.(da_metadata).(em_id);
     dpj_version_id := id_text version.(dv_id);
     dpj_title := document.(da_title);
     dpj_markdown := version.(dv_markdown);
     dpj_content_hash := version.(dv_content_hash);
     dpj_accepted := bool_decide (is_Some version.(dv_accepted_by)) |}.

Definition project_delivery (delivery : KnowledgeDelivery) : KnowledgeDeliveryProjection :=
  {| kdp_delivery_id := id_text delivery.(kd_metadata).(em_id);
     kdp_target := target_name delivery.(kd_target);
     kdp_preview := delivery.(kd_preview);
     kdp_state := delivery_state_name delivery.(kd_state) |}.

Definition project_node (execution : GraphExecution) (node : GraphNodeExecution)
    : option GraphNodeProjection :=
  definition ← List.find (λ definition, bool_decide (definition.(gn_id) = node.(ne_node_id)))
                 execution.(ge_graph).(wg_nodes);
  Some {| gnp_execution_id := id_text execution.(ge_id);
          gnp_run_id := id_text <$> node.(ne_run_id);
          gnp_node_id := id_text node.(ne_node_id);
          gnp_failure_kind := (λ failure, failure_kind_label failure.(af_kind)) <$> node.(ne_failure);
          gnp_title := definition.(gn_title);
          gnp_state := node_state_name node.(ne_state);
          gnp_pet_state := pet_state node.(ne_state) |}.

Definition project_m3 (snapshot : M3CatalogSnapshot) (executions : list GraphExecution)
    : M3Projection :=
  let m3 := msn_catalog snapshot in
  {| pj_joined_drafts := omap (joined_draft m3) executions;
     pj_missing_output_execution_id :=
       (λ execution, id_text execution.(ge_id)) <$>
         List.find (needs_output_recovery executions) executions;
     pj_revision := msn_revision snapshot;
     pj_pet_profiles := m3.(m3_office).(oc_pet_profiles);
     pj_pet_assignments := length m3.(m3_office).(oc_pet_assignments);
     pj_rooms := length m3.(m3_office).(oc_rooms);
     pj_meetings := length m3.(m3_meetings).(mc_meetings);
     pj_documents := length m3.(m3_deliverables).(dc_documents);
     pj_costs := length m3.(m3_deliverables).(dc_costs);
     pj_graph_nodes :=
       mjoin (map (λ execution, omap (project_node execution) execution.(ge_nodes)) executions);
     pj_awaiting_meetings :=
       map project_meeting
         (List.filter (λ meeting, bool_decide (meeting.(mt_state) = AwaitingDecision))
            m3.(m3_meetings).(mc_meetings));
     pj_document_versions :=
       mjoin (map (λ document, map (project_version document) document.(da_versions))
         m3.(m3_deliverables).(dc_documents));
     pj_knowledge_deliveries :=
       map project_delivery m3.(m3_deliverables).(dc_knowledge_deliveries) |}.

Definition project_run (run : Run) : RunProjection :=
  {| rpj_run_id := id_text run.(rn_metadata).(em_id);
     rpj_session_id := id_text run.(rn_session_id);
     rpj_state := run_state_name run.(rn_state);
     rpj_can_cancel := run_can_cancel run.(rn_state) (bool_decide (is_Some run.(rn_started_at))) |}.
Definition project_work (snapshot : CatalogSnapshot) : WorkProjection :=
  {| wpj_revision := csn_revision snapshot;
     wpj_sessions := length (csn_catalog snapshot).(ic_sessions);
     wpj_runs := map project_run (csn_catalog snapshot).(ic_runs) |}.

End project.

(** ** The agents that are installed

    Where the executables of the two agents are looked for, and what is asked of
    them.  A run of an executable and the pipe to the app server are those of
    CodexCommands.v, AgyCommands.v and CodexStdio.v. *)
Module AgentCenter.
Record AgentStatus := {
  ag_adapter_kind : string;
  ag_display_name : string;
  ag_installed : bool;
  ag_version : option string;
  ag_authenticated : option bool;
  ag_model_count : option nat;
  ag_models : list string;
  ag_reasoning_controls : list string;
  ag_operations : list string;
  ag_error_key : option string;
}.

(** [format!("{operation:?}").to_lowercase()] *)
Definition operation_name (operation : AdapterOperation) : string :=
  match operation with
  | Discover => "discover" | Install => "install" | Update => "update" | Version => "version"
  | Doctor => "doctor" | Authenticate => "authenticate"
  | InspectAuthentication => "inspectauthentication" | ListModels => "listmodels"
  | Start => "start" | Attach => "attach" | Prompt => "prompt" | Steer => "steer"
  | FollowUp => "followup" | Status => "status" | Explain => "explain" | Wait => "wait"
  | Identity.Cancel => "cancel" | Terminate => "terminate" | ExportSession => "exportsession"
  | ExportResult => "exportresult" | ExportUsage => "exportusage"
  end.

(** [configured_executable]: the value of the variable, and the directories of
    [PATH]. *)
Definition configured_executable (windows : bool) (is_file : string → bool)
    (variable : option string) (path : option (list string)) (name : string) : option string :=
  match variable with
  | Some path => if is_file path then Some path else None
  | None =>
      directories ← path;
      find_map (λ directory,
        let candidate := directory +:+ "/" +:+ (if windows then name +:+ ".exe" else name) in
        if is_file candidate then Some candidate else None) directories
  end.

Definition missing_agent (adapter_kind display_name : string) : AgentStatus :=
  {| ag_adapter_kind := adapter_kind; ag_display_name := display_name; ag_installed := false;
     ag_version := None; ag_authenticated := None; ag_model_count := None; ag_models := [];
     ag_reasoning_controls := []; ag_operations := [];
     ag_error_key := Some "agent.binary_missing" |}.

(** [Result::ok] *)
Definition ok {E A} (r : outcome E A) : option A := match r with Ok a => Some a | _ => None end.

Section inspect.
Context `{Json} `{!ServerWire} `{!StdioEnvironment}.
Context (windows : bool) (is_file : string → bool) (path : option (list string)).
(** A run of an executable with some arguments. *)
Context (run : string → list string → option CodexCommands.CommandOutput).

(** [connect_app_server(10 s).and_then(|server| server.list_models(None, 100))]; the
    steps of the start and the bound of the waits are those of the pipe. *)
Definition server_models (steps : list bool) (fuel : nat) : outcome AppServerError ModelCatalogPage :=
  let? transport := map_err Transport (spawn_with_launcher_and_cancel 10000000000 0 steps) in
  let '(server, initialized) :=
    initialize (H0 := stdio_transport fuel) (server_new transport) in
  let? _ := initialized in
  (list_models (H0 := stdio_transport fuel) None 100 server).2.

Definition inspect_codex (variable : option string) (steps : list bool) (fuel : nat)
    : AgentStatus :=
  match configured_executable windows is_file variable path "codex" with
  | None => missing_agent "codex_cli" "Codex CLI"
  | Some executable =>
      let models := match server_models steps fuel with
                    | Ok page => map md_model (mc_models page)
                    | _ => []
                    end in
      {| ag_adapter_kind := "codex_cli"; ag_display_name := "Codex CLI"; ag_installed := true;
         ag_version := CodexCommands.vr_version <$> ok (CodexCommands.version is_file run executable);
         ag_authenticated :=
           CodexCommands.as_authenticated <$>
             ok (CodexCommands.authentication_status is_file run executable);
         ag_model_count := Some (length models); ag_models := models;
         ag_reasoning_controls := ac_reasoning_controls CodexCommands.capabilities;
         ag_operations := map operation_name (ac_operations CodexCommands.capabilities);
         ag_error_key := None |}
  end.

Definition inspect_agy (variable : option string) : AgentStatus :=
  match configured_executable windows is_file variable path "agy" with
  | None => missing_agent "agy_cli" "Agy CLI"
  | Some executable =>
      let models := match AgyCommands.list_models is_file run executable with
                    | Ok models => map AgyCommands.md_id models
                    | _ => []
                    end in
      {| ag_adapter_kind := "agy_cli"; ag_display_name := "Agy CLI"; ag_installed := true;
         ag_version := CodexCommands.vr_version <$> ok (AgyCommands.version is_file run executable);
         ag_authenticated := None;
         ag_model_count := Some (length models); ag_models := models;
         ag_reasoning_controls := ac_reasoning_controls AgyCommands.capabilities;
         ag_operations := map operation_name (ac_operations AgyCommands.capabilities);
         ag_error_key := None |}
  end.

(** [inspect_agents] *)
Definition inspect_agents (codex_variable agy_variable : option string) (steps : list bool)
    (fuel : nat) : list AgentStatus :=
  [inspect_codex codex_variable steps fuel; inspect_agy agy_variable].

End inspect.
End AgentCenter.
