(* ===== verification/Desktop.v ===== *)
(** * The desktop application

    Models [apps/desktop/src-tauri]: the supervisor of the daemon's process
    ([supervisor.rs]) and the commands, the life cycle and the quitting of
    [lib.rs], as programs of Client.v on what the application's threads share.
    The window, the menus and the tray are not modelled: a menu or the system
    begins [request_checkpointed_exit], [request_suspend] or [request_resume]. *)
From S2P Require Import Prelude Policy Identity Catalog Office Meeting Deliverable Approval Graph Execution.
From S2P Require Import M3 Mvp Protocol Adapter Store Launch StagedLaunches GraphStore FinishRun.
From S2P Require Import CatalogStore CredentialGrants Dispatch DaemonStore Daemon Executor Routes.
From S2P Require Import Http Client Delivery Projection.

(** ** What the threads share *)

(** The fields of [Inner] that do not change. *)
Record supervisor := {
  sv_executable : string;
  sv_database : string;
  sv_diagnostics_dir : string;
}.

(** The child is known by the number of its process.  Of a process that the
    application has spawned, [ds_processes] holds the exit status, if it has
    exited. *)
Record desktop `{!AgentMemory} := {
  ds_child : option nat;
  ds_processes : list (option Z);
  ds_shutting_down : bool;
  ds_exit_authorized : bool;
  ds_exit_code : option Z;
  ds_emitted : list string;
  ds_files : files;
  ds_memory : memory;
}.

Section desktop_state.
Context `{!AgentMemory}.

Definition set_child (v : option nat) (d : desktop) : desktop :=
  {| ds_child := v; ds_processes := ds_processes d; ds_shutting_down := ds_shutting_down d;
     ds_exit_authorized := ds_exit_authorized d; ds_exit_code := ds_exit_code d;
     ds_emitted := ds_emitted d; ds_files := ds_files d; ds_memory := ds_memory d |}.
Definition set_processes (v : list (option Z)) (d : desktop) : desktop :=
  {| ds_child := ds_child d; ds_processes := v; ds_shutting_down := ds_shutting_down d;
     ds_exit_authorized := ds_exit_authorized d; ds_exit_code := ds_exit_code d;
     ds_emitted := ds_emitted d; ds_files := ds_files d; ds_memory := ds_memory d |}.
Definition set_shutting_down (v : bool) (d : desktop) : desktop :=
  {| ds_child := ds_child d; ds_processes := ds_processes d; ds_shutting_down := v;
     ds_exit_authorized := ds_exit_authorized d; ds_exit_code := ds_exit_code d;
     ds_emitted := ds_emitted d; ds_files := ds_files d; ds_memory := ds_memory d |}.
Definition set_exit_authorized (v : bool) (d : desktop) : desktop :=
  {| ds_child := ds_child d; ds_processes := ds_processes d; ds_shutting_down := ds_shutting_down d;
     ds_exit_authorized := v; ds_exit_code := ds_exit_code d;
     ds_emitted := ds_emitted d; ds_files := ds_files d; ds_memory := ds_memory d |}.
Definition set_exit_code (v : option Z) (d : desktop) : desktop :=
  {| ds_child := ds_child d; ds_processes := ds_processes d; ds_shutting_down := ds_shutting_down d;
     ds_exit_authorized := ds_exit_authorized d; ds_exit_code := v;
     ds_emitted := ds_emitted d; ds_files := ds_files d; ds_memory := ds_memory d |}.
Definition set_emitted (v : list string) (d : desktop) : desktop :=
  {| ds_child := ds_child d; ds_processes := ds_processes d; ds_shutting_down := ds_shutting_down d;
     ds_exit_authorized := ds_exit_authorized d; ds_exit_code := ds_exit_code d;
     ds_emitted := v; ds_files := ds_files d; ds_memory := ds_memory d |}.
Definition set_desktop_files (v : files) (d : desktop) : desktop :=
  {| ds_child := ds_child d; ds_processes := ds_processes d; ds_shutting_down := ds_shutting_down d;
     ds_exit_authorized := ds_exit_authorized d; ds_exit_code := ds_exit_code d;
     ds_emitted := ds_emitted d; ds_files := v; ds_memory := ds_memory d |}.
Definition set_desktop_memory (v : memory) (d : desktop) : desktop :=
  {| ds_child := ds_child d; ds_processes := ds_processes d; ds_shutting_down := ds_shutting_down d;
     ds_exit_authorized := ds_exit_authorized d; ds_exit_code := ds_exit_code d;
     ds_emitted := ds_emitted d; ds_files := ds_files d; ds_memory := v |}.
End desktop_state.

Section desktop.
Context `{!AgentMemory} `{Serde} `{Formats} `{Digest} `{Json}.
Notation task := (ctask desktop DesktopError).

(** An access to what the threads share, without and with calls of the system. *)
Definition local {A} (f : desktop → A * desktop) : task A := cperform (Local (λ _, f)).
Definition local_try {A} (f : (nat → nat) → desktop → outcome DesktopError A * desktop) : task A :=
  CAct (Local f) CRet.
Definition succeeds (system : nat) : bool := bool_decide (system = 0).

(** [.await.map_err(|error| error.to_string())?] *)
Definition told {A} (m : ctask desktop ClientError A) : task A := con_err FromClient m.
(** [let _ = app.emit(event, ..)] *)
Definition emit (event : string) : task unit :=
  local (λ d, (tt, set_emitted (ds_emitted d ++ [event]) d)).

(** ** The supervisor *)

(** [daemon_executable_from]: [beside] is the directory of the running program. *)
Definition daemon_executable_from (windows : bool) (explicit beside : option string) (fs : files)
    : outcome DesktopError string :=
  match explicit with
  | Some path => Ok path
  | None =>
      let? beside := ok_or beside SystemError in
      let sibling := join beside (if windows then "bastet-daemon.exe" else "bastet-daemon") in
      if is_file fs sibling then Ok sibling
      else Err (Told "daemon executable not found next to desktop binary")
  end.

Context (sv : supervisor) (exit_text : Z → string).

(** [compare_exchange(false, true)] *)
Definition begin_shutdown : task bool :=
  local (λ d, if ds_shutting_down d then (false, d) else (true, set_shutting_down true d)).
Definition cancel_shutdown : task unit := local (λ d, (tt, set_shutting_down false d)).
Definition authorize_exit : task unit := local (λ d, (tt, set_exit_authorized true d)).
Definition exit_authorized : task bool := local (λ d, (ds_exit_authorized d, d)).
Definition is_shutting_down : task bool := local (λ d, (ds_shutting_down d, d)).

(** [try_wait] of a process of the application. *)
Definition try_wait (system : nat) (i : nat) (d : desktop) : outcome DesktopError (option Z) :=
  if succeeds system then Ok (mjoin (ds_processes d !! i)) else Err SystemError.

(** The mutex of the child is held from the beginning to the end.  A write that
    fails is taken to leave the file as it was. *)
Definition record_previous_exit : task unit := local_try (λ system d,
  match ds_child d with
  | None => (Ok tt, d)
  | Some process =>
      match try_wait (system 0) process d with
      | Ok None => (Ok tt, d)
      | Ok (Some status) =>
          let path := join (sv_diagnostics_dir sv) "last-exit.txt" in
          let text := "daemon exited with " +:+ exit_text status +:+ newline_text in
          if succeeds (system 1)
          then (Ok tt, set_child None (set_desktop_files (<[path := Regular text]> (ds_files d)) d))
          else (Err SystemError, d)
      | Err e => (Err e, d)
      | Panic => (Panic, d)
      | Diverge => (Diverge, d)
      end
  end).

(** [OpenOptions::new().create(true).append(true).open(path)] *)
Definition diagnostic_log (path : string) (system : nat) (d : desktop)
    : outcome DesktopError unit * desktop :=
  if succeeds system then
    (Ok tt, match ds_files d !! path with
            | Some _ => d
            | None => set_desktop_files (<[path := Regular EmptyString]> (ds_files d)) d
            end)
  else (Err SystemError, d).

Definition spawn : task unit := local_try (λ system d,
  match ds_child d with
  | Some _ => (Ok tt, d)
  | None =>
      let '(out, d) := diagnostic_log (join (sv_diagnostics_dir sv) "daemon.stdout.log") (system 0) d in
      if is_err out then (Err SystemError, d) else
      let '(err, d) := diagnostic_log (join (sv_diagnostics_dir sv) "daemon.stderr.log") (system 1) d in
      if is_err err then (Err SystemError, d) else
      if succeeds (system 2)
      then (Ok tt, set_child (Some (length (ds_processes d)))
                     (set_processes (ds_processes d ++ [None]) d))
      else (Err (Told "failed to start daemon"), d)
  end).

Context (client : DaemonClient).

Fixpoint await_ready (attempts : nat) : task unit :=
  match attempts with
  | O => craise (Told "daemon did not become ready within three seconds; inspect diagnostics")
  | S attempts =>
      snapshot ← cresult_of (Call.snapshot client);
      if is_ok snapshot then cgive tt else await_ready attempts
  end.

Definition ensure_running : task unit :=
  shutting_down ← is_shutting_down;
  if shutting_down : bool then cgive tt else
  snapshot ← cresult_of (Call.snapshot client);
  if is_ok snapshot then cgive tt else
  record_previous_exit ;;
  spawn ;;
  await_ready 30.

(** The loop that [run] starts, for a number of rounds. *)
Fixpoint supervise (rounds : nat) : task unit :=
  match rounds with
  | O => clift Diverge
  | S rounds =>
      r ← cresult_of ensure_running;
      if is_err (r : outcome DesktopError unit)
      then emit "daemon-supervision-failed" ;; supervise rounds
      else supervise rounds
  end.

(** ** The life cycle *)

Definition checkpoint_for_quit : task CheckpointReceipt :=
  snapshot ← told (Call.snapshot client);
  told (Call.shutdown client (dsn_revision snapshot) "explicit desktop quit").

Definition suspend_if_ready : task CheckpointReceipt :=
  snapshot ← told (Call.snapshot client);
  if negb (bool_decide (dsn_lifecycle snapshot = LcReady))
  then craise (Told "daemon must be ready before suspend")
  else told (Call.suspend client (dsn_revision snapshot) "desktop preparing for system sleep").

Definition resume_if_suspended : task DaemonSnapshot :=
  snapshot ← told (Call.snapshot client);
  if bool_decide (dsn_lifecycle snapshot = LcSuspended) then
    told (Call.resume client (dsn_revision snapshot) "desktop resumed after system wake") ;;
    told (Call.snapshot client)
  else cgive snapshot.

Definition request_resume : task unit :=
  r ← cresult_of resume_if_suspended;
  emit (if is_ok (r : outcome DesktopError _) then "daemon-resumed-after-wake" else "daemon-resume-failed").
Definition request_suspend : task unit :=
  r ← cresult_of suspend_if_ready;
  emit (if is_ok (r : outcome DesktopError _) then "daemon-suspended-for-sleep" else "daemon-suspend-failed").

Definition request_checkpointed_exit : task unit :=
  first ← begin_shutdown;
  if negb first then cgive tt else
  receipt ← cresult_of checkpoint_for_quit;
  if is_ok (receipt : outcome DesktopError _) then
    emit "daemon-checkpointed-for-quit" ;;
    authorize_exit ;;
    local (λ d, (tt, set_exit_code (Some 0%Z) d))
  else
    cancel_shutdown ;;
    emit "quit-checkpoint-failed".

(** [RunEvent::ExitRequested]: an exit that is not authorized is prevented. *)
Definition exit_requested : task bool :=
  authorized ← exit_authorized;
  if authorized : bool then cgive true else request_checkpointed_exit ;; cgive false.

(** ** Commands *)

Definition daemon_snapshot : task DaemonSnapshot :=
  snapshot ← cresult_of (Call.snapshot client);
  (if is_err (snapshot : outcome ClientError _) then ensure_running else cgive tt) ;;
  told (Call.snapshot client).

Definition m3_projection : task M3Projection :=
  snapshot ← told (Call.m3_catalog client);
  graphs ← told (Call.graph_executions client);
  cgive (project_m3 snapshot graphs).

Definition work_projection : task WorkProjection :=
  snapshot ← told (Call.catalog client);
  cgive (project_work snapshot).

Definition approval_center_snapshot : task (list ApprovalRecord) := told (Call.approvals client).

Definition retry_missing_graph_outputs : task unit :=
  executions ← told (Call.graph_executions client);
  execution ← clift (ok_or (List.find (needs_output_recovery executions) executions)
                       (Told "no completed graph needs output recovery"));
  told (Call.restart_missing_output_graph client execution.(ge_id) execution.(ge_revision)) ;;
  cgive tt.

Definition retry_failed_mvp_node (execution_id : GraphRunId) (node_id : GraphNodeId) : task unit :=
  executions ← told (Call.graph_executions client);
  execution ← clift (ok_or (List.find (λ e, bool_decide (e.(ge_id) = execution_id)) executions)
                       (Told "graph not found"));
  told (Call.retry_failed_graph_node client execution_id
    {| rf_node_id := node_id; rf_expected_graph_revision := execution.(ge_revision) |}) ;;
  cgive tt.

Definition run_ready_mvp_nodes : task M3Projection :=
  identity ← told (Call.catalog client);
  executions ← told (Call.graph_executions client);
  execution ← clift (ok_or (List.find (λ e, existsb (in_state Pending) e.(ge_nodes)) executions)
                       (Told "no pending MVP graph nodes"));
  told (Call.execute_ready_graph client execution.(ge_id)
    {| erg_expected_catalog_revision := csn_revision identity;
       erg_expected_graph_revision := execution.(ge_revision) |}) ;;
  m3_projection.

Definition desktop_prepare_mvp (project_name workspace_root codex_model agy_model : string)
    : task PrepareMvpReceipt :=
  identity ← told (Call.catalog client);
  m3 ← told (Call.m3_catalog client);
  told (Call.prepare_mvp client
    {| pm_expected_catalog_revision := csn_revision identity;
       pm_expected_m3_revision := msn_revision m3; pm_project_name := project_name;
       pm_workspace_root := workspace_root; pm_codex_model := codex_model;
       pm_agy_model := agy_model |}).

(** [timestamp_ms().to_string()] is an argument of the commands that use it. *)
Definition desktop_accept_decision (meeting_id : MeetingId) (content accepted_at : string)
    : task AcceptDecisionBaselineReceipt :=
  m3 ← told (Call.m3_catalog client);
  told (Call.accept_mvp_decision client
    {| ab_expected_m3_revision := msn_revision m3; ab_meeting_id := meeting_id;
       ab_content := content; ab_accepted_by := "local-desktop-user"; ab_accepted_at := accepted_at |}).

Definition desktop_create_document (graph_execution_id : GraphRunId) (title markdown : string)
    : task DocumentReceipt :=
  m3 ← told (Call.m3_catalog client);
  told (Call.create_mvp_document client
    {| cd_expected_m3_revision := msn_revision m3; cd_graph_execution_id := graph_execution_id;
       cd_title := title; cd_markdown := markdown |}).

Definition desktop_accept_document (artifact_id : ArtifactId) (version_id : ArtifactVersionId)
    (content_hash accepted_at : string) : task DocumentReceipt :=
  m3 ← told (Call.m3_catalog client);
  told (Call.accept_mvp_document client
    {| ad_expected_m3_revision := msn_revision m3; ad_artifact_id := artifact_id;
       ad_version_id := version_id; ad_content_hash := content_hash;
       ad_accepted_by := "local-desktop-user"; ad_accepted_at := accepted_at |}).

Context (canonicalize : string → option string).

Definition export_mvp_document (artifact_id : ArtifactId) (version_id : ArtifactVersionId)
    : task string :=
  m3 ← told (Call.m3_catalog client);
  identity ← told (Call.catalog client);
  artifact ← clift (ok_or (List.find (λ item, bool_decide (item.(da_metadata).(em_id) = artifact_id))
                             (msn_catalog m3).(m3_deliverables).(dc_documents))
                      (Told "document not found"));
  version ← clift (ok_or (List.find (λ item, bool_decide (item.(dv_id) = version_id))
                            artifact.(da_versions))
                     (Told "document version not found"));
  clift (map_err (λ _, SystemError) (version_validate_unchanged version)) ;;
  if bool_decide (version.(dv_accepted_by) = None)
  then craise (Told "accept the document before exporting") else
  project ← clift (ok_or (List.find (λ item, bool_decide (item.(pj_metadata).(em_id) = artifact.(da_project_id)))
                            (csn_catalog identity).(ic_projects))
                     (Told "project not found"));
  export_document_file canonicalize ds_files set_desktop_files project.(pj_workspace_root) version.

Definition desktop_prepare_delivery (project_id : ProjectId) (artifact_version_id : ArtifactVersionId)
    (target : KnowledgeTarget) (preview : string) : task KnowledgeDeliveryReceipt :=
  m3 ← told (Call.m3_catalog client);
  told (Call.prepare_knowledge_delivery client
    {| pk_expected_m3_revision := msn_revision m3; pk_project_id := project_id;
       pk_artifact_version_id := artifact_version_id; pk_target := target; pk_preview := preview |}).

(** [YYYY-MM-DD] *)
Definition is_date (s : string) : bool :=
  bool_decide (String.length s = 10)
  && forallb (λ '(index, byte), if bool_decide (index = 4) || bool_decide (index = 7)
                                then Ascii.eqb byte "-" else ascii_digit byte)
       (enumerate (String.list_ascii_of_string s)).

(** [vault] is [BASTET_MIND_ROOT]; [memory_tool] tells whether the command of
    AgentMemoryOS is configured. *)
Definition deliver_knowledge (vault : option string) (memory_tool : bool)
    (delivery_id : KnowledgeDeliveryId) (delivered_on : string) : task KnowledgeDeliveryReceipt :=
  if negb (is_date delivered_on) then craise (Told "delivery date must be YYYY-MM-DD") else
  snapshot ← told (Call.m3_catalog client);
  delivery ← clift (ok_or (List.find (λ d, bool_decide (d.(kd_metadata).(em_id) = delivery_id))
                             (msn_catalog snapshot).(m3_deliverables).(dc_knowledge_deliveries))
                      (Told "knowledge delivery not found"));
  if negb (bool_decide (delivery.(kd_state) = Prepared))
  then craise (Told "knowledge delivery is not prepared") else
  receipt ← match delivery.(kd_target) with
            | AgentMemoryOs =>
                if negb memory_tool then craise (Told "AgentMemoryOS CLI is unavailable") else
                deliver_agent_memory_with ds_memory set_desktop_memory delivery_id delivery.(kd_preview)
            | BastetMind =>
                root ← clift (ok_or vault (Told "BASTET_MIND_ROOT is not configured"));
                deliver_bastet_mind canonicalize ds_files set_desktop_files root delivery_id
                  delivery.(kd_preview) delivered_on
            end;
  told (Call.complete_knowledge_delivery client
    {| ck_expected_m3_revision := msn_revision snapshot; ck_delivery_id := delivery_id;
       ck_destination_receipt := receipt |}).

(** The catalog with other pet profiles. *)
Definition with_profiles (m3 : M3Catalog) (profiles : list PetProfile) : M3Catalog :=
  {| m3_office := {| oc_pet_profiles := profiles;
                     oc_pet_assignments := m3.(m3_office).(oc_pet_assignments);
                     oc_rooms := m3.(m3_office).(oc_rooms) |};
     m3_meetings := m3.(m3_meetings); m3_deliverables := m3.(m3_deliverables) |}.
Definition is_builtin (profile : PetProfile) : bool :=
  bool_decide (profile.(pp_metadata).(em_id) = builtin_pet_profile.(pp_metadata).(em_id)).

Definition replace_profiles (snapshot : M3CatalogSnapshot) (profiles : list PetProfile) : task unit :=
  told (Call.replace_m3_catalog client
    {| rm_expected_revision := msn_revision snapshot;
       rm_catalog := with_profiles (msn_catalog snapshot) profiles |}) ;;
  cgive tt.

Definition apply_builtin_pet : task M3Projection :=
  snapshot ← told (Call.m3_catalog client);
  let profiles := (msn_catalog snapshot).(m3_office).(oc_pet_profiles) in
  (if negb (existsb is_builtin profiles)
   then replace_profiles snapshot (profiles ++ [builtin_pet_profile]) else cgive tt) ;;
  m3_projection.

Definition rollback_builtin_pet : task M3Projection :=
  snapshot ← told (Call.m3_catalog client);
  let office := (msn_catalog snapshot).(m3_office) in
  if existsb (λ a, bool_decide (a.(pa_pet_profile_id) = builtin_pet_profile.(pp_metadata).(em_id)))
       office.(oc_pet_assignments)
  then craise (Told "pet profile is assigned and cannot be rolled back") else
  let kept := List.filter (λ p, negb (is_builtin p)) office.(oc_pet_profiles) in
  (if negb (bool_decide (length kept = length office.(oc_pet_profiles)))
   then replace_profiles snapshot kept else cgive tt) ;;
  m3_projection.

Definition desktop_cancel_run (run_id : RunId) (expected_catalog_revision : Z)
    : task CancelRunReceipt :=
  told (Call.cancel_run client run_id expected_catalog_revision).

Definition desktop_decide_approval (request_id : ApprovalRequestId) (request_hash : string)
    (kind : ApprovalDecisionKind) (decided_at_ms : Z) (acknowledged : option bool)
    : task ApprovalReceipt :=
  told (Call.decide_approval_with_scope_review client
    {| ad_request_id := request_id; ad_request_hash := request_hash; ad_kind := kind;
       ad_decided_at_ms := decided_at_ms; ad_actor := "local-desktop-user" |}
    (default false acknowledged)).

End desktop.
