(* ===== verification/Samples.v ===== *)
(** * Concrete inputs

    Small graphs, executions, catalogs and requests on which the witnesses of the theorems
    evaluate the definitions. *)
From S2P Require Import Prelude Policy Identity Catalog Approval Graph Execution Mvp.

(** A stand-in for SHA-256 on which digests can be computed. *)
Definition sample_digest : Digest := λ s, s.

Definition id1 {k} : stable_id k := mk_id 1.
Definition id2 {k} : stable_id k := mk_id 2.
Definition id3 {k} : stable_id k := mk_id 3.
Definition id4 {k} : stable_id k := mk_id 4.

(** Two research branches and their join, the graph of an accepted decision. *)
Definition sample_graph : WorkflowGraph :=
  {| wg_decision_baseline_id := id1;
     wg_nodes :=
       [ {| gn_id := id1; gn_kind := Research; gn_role_id := id1; gn_title := "A"; gn_needs := [] |};
         {| gn_id := id2; gn_kind := Research; gn_role_id := id2; gn_title := "B"; gn_needs := [] |};
         {| gn_id := id3; gn_kind := Join; gn_role_id := id3; gn_title := "Join";
            gn_needs := [id1; id2] |} ] |}.

(** The same nodes with a dependency of the first branch on the join. *)
Definition cyclic_graph : WorkflowGraph :=
  {| wg_decision_baseline_id := id1;
     wg_nodes :=
       [ {| gn_id := id1; gn_kind := Research; gn_role_id := id1; gn_title := "A";
            gn_needs := [id3] |};
         {| gn_id := id2; gn_kind := Research; gn_role_id := id2; gn_title := "B"; gn_needs := [] |};
         {| gn_id := id3; gn_kind := Join; gn_role_id := id3; gn_title := "Join";
            gn_needs := [id1; id2] |} ] |}.

Definition sample_start : GraphExecution :=
  match start id1 sample_graph with
  | Ok e => e
  | _ => {| ge_id := id1; ge_graph := sample_graph; ge_nodes := []; ge_outputs := [];
            ge_restarted_from_execution_id := None; ge_revision := 0 |}
  end.

Definition run_ops (e : GraphExecution) (ops : list exec_op) : GraphExecution :=
  fold_left (@apply_op sample_digest) ops e.

Definition sample_failure : AdapterFailure :=
  {| af_kind := PermissionDenied; af_message_key := "mvp.failure.permission";
     af_retryable := false; af_provider_code := None; af_redacted_detail := None |}.

Definition states_of (e : GraphExecution) : list GraphNodeState := map ne_state e.(ge_nodes).

Definition launch_ops : list exec_op :=
  [ClaimNode id1 "worker"; BindRun id1 "worker" id1; StageNode id2 "worker" id2].

Definition both_succeed : list exec_op :=
  [ClaimReady "worker" 2; Complete id1 "worker" true; Complete id2 "worker" true;
   StageNode id3 "worker" id3].

Definition first_fails : list exec_op := [ClaimReady "worker" 1; Complete id1 "worker" false].

(** ** A catalog with one credential *)

Definition sample_metadata {k} (id : stable_id k) : EntityMetadata k :=
  {| em_id := id; em_revision := 0; em_created_at := "t0"; em_updated_at := "t0";
     em_provenance := {| pv_source_kind := "user"; pv_source_id := "s"; pv_recorded_by := "r" |};
     em_lifecycle := Active |}.

Definition sample_policy (layer : PolicyLayer) : ScopedPolicy :=
  {| sp_layer := layer;
     sp_ceiling := {| pc_filesystem := Use; pc_network := Use; pc_process := Use;
                      pc_device := Deny; pc_credential := Use;
                      pc_persistent_approval := false |} |}.

Definition sample_catalog : IdentityCatalog :=
  {| ic_credential_references :=
       [{| cr_metadata := sample_metadata id1; cr_backend := MacosKeychain; cr_service := "svc";
           cr_account_label := "label" |}];
     ic_agent_providers :=
       [{| ap_metadata := sample_metadata id1; ap_adapter_kind := "codex_cli";
           ap_display_name := "Codex" |}];
     ic_model_providers :=
       [{| mp_metadata := sample_metadata id1; mp_provider_key := "openai";
           mp_display_name := "OpenAI" |}];
     ic_accounts :=
       [{| acc_metadata := sample_metadata id1; acc_agent_provider_id := id1;
           acc_provider_identity := "user@example"; acc_credential_reference_id := Some id1 |}];
     ic_models :=
       [{| md_metadata := sample_metadata id1; md_model_provider_id := id1;
           md_provider_model_id := "model"; md_reasoning_controls := [] |}];
     ic_agent_instances :=
       [{| ai_metadata := sample_metadata id1; ai_agent_provider_id := id1;
           ai_account_id := Some id1; ai_default_model_id := Some id1 |}];
     ic_projects :=
       [{| pj_metadata := sample_metadata id1; pj_name := "project"; pj_workspace_root := "/w";
           pj_policy := sample_policy ProjectLayer |}];
     ic_roles :=
       [{| rl_metadata := sample_metadata id1; rl_name := "role"; rl_responsibilities := [];
           rl_policy := sample_policy RoleOrAgent |}];
     ic_sessions :=
       [{| ss_metadata := sample_metadata id1; ss_agent_instance_id := id1; ss_project_id := id1;
           ss_provider_session_id := None |}];
     ic_runs :=
       [{| rn_metadata := sample_metadata id1; rn_session_id := id1; rn_model_id := id1;
           rn_state := RunAwaitingApproval; rn_started_at := None; rn_finished_at := None |}] |}.

Definition sample_binding : CredentialGrantBinding :=
  {| cb_agent_provider_id := id1; cb_account_id := id1; cb_adapter_kind := "codex_cli";
     cb_provider_identity := "user@example"; cb_credential_reference_id := id1;
     cb_backend := MacosKeychain; cb_service := "svc"; cb_account_label := "label";
     cb_capability_key := "provider.authenticate" |}.

Definition sample_action (run_id : option RunId) : ApprovalAction :=
  {| aa_agent_instance_id := id1; aa_role_id := Some id1; aa_action_key := "credential.use";
     aa_reason_key := "reason"; aa_consequence_key := "consequence"; aa_risk := High;
     aa_scope := {| sc_project_id := id1; sc_run_id := run_id; sc_filesystem_roots := [];
                    sc_data_scopes := []; sc_network_destinations := [];
                    sc_credential_reference_ids := [id1]; sc_destination := None;
                    sc_credential_binding := Some sample_binding |};
     aa_requested_policy := sample_policy SingleRun |}.

(** A request with the hash of its own contents. *)
Definition sample_request `{Digest} `{Serializer} (run_id : option RunId) : ApprovalRequest :=
  {| ar_id := id1; ar_request_hash := canonical_hash id1 10 20 (sample_action run_id);
     ar_created_at_ms := 10; ar_expires_at_ms := 20; ar_action := sample_action run_id |}.

(** ** An encoding that is injective

    Stands for [serde_json] on the records that are hashed. *)

#[export] Instance ApprovalRisk_countable : Countable ApprovalRisk.
Proof.
  apply (inj_countable' (λ r, match r with Low => 0 | Medium => 1 | High => 2 | Critical => 3 end)
    (λ n, match n with 0 => Low | 1 => Medium | 2 => High | _ => Critical end)). by intros [].
Defined.
#[export] Instance CredentialBackend_countable : Countable CredentialBackend.
Proof.
  apply (inj_countable' (λ b, match b with MacosKeychain => 0 | WindowsCredentialManager => 1
      | LinuxSecretService => 2 end)
    (λ n, match n with 0 => MacosKeychain | 1 => WindowsCredentialManager
      | _ => LinuxSecretService end)). by intros [].
Defined.
#[export] Instance PermissionLevel_countable : Countable PermissionLevel.
Proof.
  apply (inj_countable' level_rank (λ n, match n with 0 => Deny | 1 => Observe | _ => Use end)).
  by intros [].
Defined.
#[export] Instance PolicyLayer_countable : Countable PolicyLayer.
Proof.
  apply (inj_countable' layer_rank (λ n, match n with 0 => Workstation | 1 => ProjectLayer
    | 2 => RoleOrAgent | _ => SingleRun end)). by intros [].
Defined.
#[export] Instance ScopedPolicy_countable : Countable ScopedPolicy.
Proof.
  apply (inj_countable' (λ p, (sp_layer p, pc_filesystem (sp_ceiling p), pc_network (sp_ceiling p),
      pc_process (sp_ceiling p), pc_device (sp_ceiling p), pc_credential (sp_ceiling p),
      pc_persistent_approval (sp_ceiling p)))
    (λ '(l, f, n, p, d, c, a), {| sp_layer := l; sp_ceiling := {| pc_filesystem := f;
      pc_network := n; pc_process := p; pc_device := d; pc_credential := c;
      pc_persistent_approval := a |} |})). by intros [? []].
Defined.
#[export] Instance CredentialGrantBinding_countable : Countable CredentialGrantBinding.
Proof.
  apply (inj_countable' (λ b, (cb_agent_provider_id b, cb_account_id b, cb_adapter_kind b,
      cb_provider_identity b, cb_credential_reference_id b, cb_backend b, cb_service b,
      cb_account_label b, cb_capability_key b))
    (λ '(a, b, c, d, e, f, g, h, i), Build_CredentialGrantBinding a b c d e f g h i)).
  by intros [].
Defined.
#[export] Instance ApprovalScope_countable : Countable ApprovalScope.
Proof.
  apply (inj_countable' (λ s, (sc_project_id s, sc_run_id s, sc_filesystem_roots s,
      sc_data_scopes s, sc_network_destinations s, sc_credential_reference_ids s,
      sc_destination s, sc_credential_binding s))
    (λ '(a, b, c, d, e, f, g, h), Build_ApprovalScope a b c d e f g h)). by intros [].
Defined.
#[export] Instance ApprovalAction_countable : Countable ApprovalAction.
Proof.
  apply (inj_countable' (λ s, (aa_agent_instance_id s, aa_role_id s, aa_action_key s,
      aa_reason_key s, aa_consequence_key s, aa_risk s, aa_scope s, aa_requested_policy s))
    (λ '(a, b, c, d, e, f, g, h), Build_ApprovalAction a b c d e f g h)). by intros [].
Defined.
#[export] Instance HashInput_countable : Countable HashInput.
Proof.
  apply (inj_countable' (λ h, (hi_schema h, hi_id h, hi_created_at_ms h, hi_expires_at_ms h,
      hi_action h))
    (λ '(a, b, c, d, e), Build_HashInput a b c d e)). by intros [].
Defined.

Fixpoint positive_string (p : positive) : string :=
  match p with
  | xH => EmptyString
  | xO p => String "0" (positive_string p)
  | xI p => String "1" (positive_string p)
  end.
Definition sample_serializer : Serializer := λ h, positive_string (encode h).

Lemma sample_serializer_inj (x y : HashInput) : sample_serializer x = sample_serializer y → x = y.
Proof.
  unfold sample_serializer. intros E. apply (inj encode).
  revert E. generalize (encode x) (encode y). intros p.
  induction p as [p IH|p IH|]; intros [q|q|]; cbn; try done; intros [= E]; f_equal; auto.
Qed.

(** ** Drawn identifiers *)

Definition sample_mvp_ids : mvp_ids :=
  {| mi_project := id1; mi_meeting := id1; mi_room := id1; mi_left_role := id1;
     mi_right_role := id2; mi_integrator_role := id3; mi_codex_provider := id1;
     mi_agy_provider := id2; mi_openai_provider := id1; mi_agy_model_provider := id2;
     mi_codex_model := id1; mi_agy_model := id2; mi_codex_agent := id1; mi_agy_agent := id2;
     mi_assignments := (id1, id2, id3) |}.
Definition sample_decision_ids : decision_ids :=
  {| di_baseline := id1; di_left := id1; di_right := id2; di_execution := id1; di_join := id3 |}.

Lemma sample_mvp_ids_distinct : distinct_mvp_ids sample_mvp_ids.
Proof.
  unfold distinct_mvp_ids. split_and!; try (by vm_compute); apply NoDup_ListNoDup;
    repeat constructor; cbn; intuition discriminate.
Qed.
Lemma sample_decision_ids_distinct : distinct_decision_ids sample_decision_ids.
Proof. apply NoDup_ListNoDup. repeat constructor; cbn; intuition discriminate. Qed.
