(* ===== verification/AdapterSamples.v ===== *)
(** * Concrete adapters

    JSON values, a scripted transport and a small environment of the pipe on
    which the witnesses evaluate the adapters. *)
From S2P Require Import Prelude Identity Workspace Samples OutputQueue InputWriter.
From S2P Require Import Adapter CodexLifecycle AgyStream CodexEvidence CodexServer CodexRun.
From S2P Require Import CodexStdio.

Inductive json :=
| JNull
| JBool (b : bool)
| JNumber (n : Z)
| JString (s : string)
| JArray (l : list json)
| JObject (l : list (string * json)).

Definition json_obj (v : json) : option (gmap string json) :=
  match v with JObject l => Some (list_to_map l) | _ => None end.

(** Messages of an app server in a notation of their own. *)
Definition json_of_message (line : string) : option json :=
  if String.prefix "note " line then
    Some (JObject [("method", JString line); ("params", JObject [])])
  else if String.eqb line "reply 0" then
    Some (JObject [("id", JNumber 0); ("result", JString "done")])
  else if String.eqb line "reply 1" then
    Some (JObject [("id", JNumber 1); ("result", JString "done again")])
  else if String.eqb line "busy 0" then
    Some (JObject [("id", JNumber 0);
                   ("error", JObject [("code", JNumber (-32001)); ("message", JString "busy")])])
  else None.

(** Lines of an Agy process in a notation of their own. *)
Definition json_of_line (line : string) : option json :=
  if String.eqb line "init" then
    Some (JObject [("event", JString "init"); ("conversation_id", JString "c1")])
  else if String.eqb line "result" then
    Some (JObject [("event", JString "result");
                   ("result", JObject [("conversation_id", JString "c1");
                                       ("status", JString "SUCCESS")])])
  else if String.prefix "text " line then
    Some (JObject [("event", JString "step_update");
                   ("step_update", JObject [("conversation_id", JString "c1");
                                            ("step_type", JString "agent_response");
                                            ("text_delta", JString line)])])
  else json_of_message line.

#[export] Instance sample_json : Json := {
  Value := json;
  as_str v := match v with JString s => Some s | _ => None end;
  as_u64 v := match v with JNumber n => Some n | _ => None end;
  as_i64 v := match v with JNumber n => Some n | _ => None end;
  as_array v := match v with JArray l => Some l | _ => None end;
  as_object := json_obj;
  json_string := JString;
  json_number := JNumber;
  json_bool := JBool;
  json_null := JNull;
  json_array := JArray;
  json_object m := JObject (map_to_list m);
  value_to_string v := match v with JString s => s | _ => "{}" end;
  value_from_str := json_of_line;
}.

(** A transport that answers from a script. *)
Record script := { sc_replies : list json; sc_notes : list AppServerNotification }.

Definition script_reply : self script TransportError json := λ s,
  match sc_replies s with
  | [] => (s, Err Unavailable)
  | r :: rs => ({| sc_replies := rs; sc_notes := sc_notes s |}, Ok r)
  end.
Definition script_note : self script TransportError (option AppServerNotification) := λ s,
  match sc_notes s with
  | [] => (s, Ok None)
  | n :: ns => ({| sc_replies := sc_replies s; sc_notes := ns |}, Ok (Some n))
  end.
#[export] Instance script_transport : AppServerTransport script := {
  tr_request _ _ := script_reply;
  tr_request_with_timeout _ _ _ := script_reply;
  tr_notify _ _ := mret tt;
  tr_next_notification := n ← script_note; slift (ok_or n TransportTimedOut);
  tr_poll_notification _ := script_note;
}.

#[export] Instance sample_wire : ServerWire := {
  thread_wire v := match value_get v "thread" with
                   | Some (JString id) => Some {| th_thread_id := id; th_session_id := None |}
                   | _ => None
                   end;
  turn_wire v := match value_get v "turn" with Some (JString id) => Some id | _ => None end;
  model_page_wire _ := None;
}.

Definition turn_note (name status : string) : AppServerNotification :=
  {| no_method := name;
     no_params := JObject [("turn", JObject [("id", JString "u1"); ("status", JString status)])] |}.
Definition started_note : AppServerNotification := turn_note "turn/started" "inProgress".
Definition completed_note : AppServerNotification := turn_note "turn/completed" "completed".
Definition answer_note (text : string) : AppServerNotification :=
  {| no_method := "item/completed";
     no_params := JObject [("threadId", JString "t1"); ("turnId", JString "u1");
       ("item", JObject [("type", JString "agentMessage"); ("phase", JString "final_answer");
                         ("text", JString text)])] |}.
Definition usage_note : AppServerNotification :=
  {| no_method := "thread/tokenUsage/updated";
     no_params := JObject [("threadId", JString "t1"); ("turnId", JString "u1");
       ("tokenUsage", JObject [("last", JObject [("inputTokens", JNumber 5);
          ("outputTokens", JNumber 7); ("totalTokens", JNumber 20)])])] |}.

Definition sample_server : CodexAppServer script :=
  {| sv_transport := {| sc_replies := [JObject [("thread", JString "t1")];
                                       JObject [("turn", JString "u1")]];
                        sc_notes := [started_note; completed_note] |};
     sv_initialized := true |}.

Definition empty_tree : fs_node := FDir (Some []).
Definition written_tree : fs_node := FDir (Some [("a", FFile (Some 1%Z) (Some "x"))]).

Definition sample_request (roots : list string) : CodexRunRequest :=
  {| rq_run_id := id1; rq_model := "m"; rq_prompt := "p"; rq_cwd := "/w";
     rq_approval_policy := Never; rq_sandbox_policy := TurnWorkspaceWrite roots false;
     rq_effort := None |}.

(** A hand-over that the worker takes at once, and that would reach its deadline. *)
Definition one_write : write_schedule :=
  {| ws_cancelled := false; ws_past_deadline := false;
     ws_send := [{| s_cancelled := false; s_past_deadline := false; s_sent := Sent;
                    s_past_deadline_again := false |};
                 {| s_cancelled := false; s_past_deadline := true; s_sent := Full;
                    s_past_deadline_again := true |}];
     ws_recv := [{| r_cancelled := false; r_received := Received (Ok tt);
                    r_before_deadline := true |};
                 {| r_cancelled := false; r_received := RecvTimeout;
                    r_before_deadline := false |}] |}.

(** A pipe on which a line may arrive at each question. *)
Definition sample_pipe (lines : nat → option string) : StdioEnvironment := {|
  instant n := Z.of_nat n;
  instant_max := 1000000;
  token_cancelled _ := false;
  queue_failed _ := false;
  received n _ := match lines n with Some line => Line (Some line) | None => Silence end;
  write_observed _ := one_write;
  child_shutdown _ _ := true;
  allocator _ := true;
  serialized _ := {| sz_buffers := [["{"%char; "}"%char]]; sz_error := None |};
|}.

(** The reply to the first request comes only after the second was written. *)
Definition late_lines (n : nat) : option string :=
  if Nat.ltb n 70 then None else if Nat.ltb n 74 then Some "reply 0"
  else if Nat.ltb n 80 then None else Some "reply 1".

(** Two notifications, the reply to the first request, another notification. *)
Definition sample_lines (n : nat) : option string :=
  if Nat.eqb n 7 then Some "note a" else if Nat.eqb n 12 then Some "note b"
  else if Nat.ltb n 16 then None else if Nat.ltb n 18 then Some "reply 0"
  else if Nat.ltb n 24 then None else Some "note c".
