(* ===== verification/StoreSpec.v ===== *)
(** * The abstract database

    What the transactions of the daemon may do to the database: [db_step] has a
    rule for each kind of change, with the conditions under which it may occur;
    [run_step], [grant_step] and [launch_step] are the state machines of a run,
    of a credential grant and of a staged launch.  StoreRefines.v shows that
    every method of the store is a sequence of these steps; here are the
    invariants that follow. *)
From stdpp Require Import relations.
From S2P Require Import Prelude Policy Identity Catalog Office Meeting.
From S2P Require Import Deliverable Approval Graph Execution ExecutionFacts M3 Mvp Protocol.
From S2P Require Import Store Launch StagedLaunches GraphStore CatalogStore CredentialGrants.

(** ** State machines *)

Definition final_run_states : list NormalizedRunState :=
  [RunCancelled; RunFailed; RunSucceeded; RunBlocked; RunUncertain].

(** A run, from its staging or start to a final state. *)
Inductive run_step : Run → Run → Prop :=
| rs_dispatch r t :
    rn_state r = RunAwaitingApproval → rn_started_at r = None →
    run_step r (run_in_state RunStarting (Some t) (rn_finished_at r) t r)
| rs_cancel_staged r t :
    rn_state r = RunAwaitingApproval → rn_started_at r = None →
    run_step r (run_in_state RunCancelled (rn_started_at r) (Some t) t r)
| rs_running r t :
    rn_state r = RunStarting →
    run_step r (run_in_state RunRunning (rn_started_at r) (rn_finished_at r) t r)
| rs_cancelling r t :
    rn_state r ∈ [RunStarting; RunRunning; RunRecovering; RunCancelling] →
    run_step r (run_in_state RunCancelling (rn_started_at r) (rn_finished_at r) t r)
| rs_finish r s t :
    rn_state r ∈ [RunStarting; RunRunning; RunCancelling] → s ∈ final_run_states →
    run_step r (run_in_state s (rn_started_at r) (Some t) t r)
| rs_lost r t :
    rn_state r ∈ [RunStarting; RunRunning; RunCancelling; RunRecovering; RunAwaitingApproval] →
    (rn_state r = RunAwaitingApproval → is_Some (rn_started_at r)) →
    run_step r (run_in_state RunUncertain (rn_started_at r) (rn_finished_at r) t r).

(** A grant is issued, and then spent or revoked, once. *)
Inductive grant_step : option grant_row → option grant_row → Prop :=
| gs_issue t :
    grant_step None (Some {| gr_issued_at_ms := t; gr_consumed_at_ms := None;
                             gr_revoked_at_ms := None; gr_revoked_by := None |})
| gs_consume t row :
    unspent row = true → (gr_issued_at_ms row ≤ t)%Z →
    grant_step (Some row)
      (Some {| gr_issued_at_ms := gr_issued_at_ms row; gr_consumed_at_ms := Some t;
               gr_revoked_at_ms := None; gr_revoked_by := gr_revoked_by row |})
| gs_revoke t by_ row :
    unspent row = true → (gr_issued_at_ms row ≤ t)%Z →
    grant_step (Some row)
      (Some {| gr_issued_at_ms := gr_issued_at_ms row; gr_consumed_at_ms := None;
               gr_revoked_at_ms := Some t; gr_revoked_by := Some by_ |}).

(** A staged launch becomes ready and is dispatched, or is cancelled before. *)
Inductive launch_step : option staged_row → option staged_row → Prop :=
| ls_stage req t :
    launch_step None
      (Some {| sw_request_id := req; sw_state := SlAwaitingApproval; sw_staged_at_ms := t;
               sw_finished_at_ms := None; sw_cancel_reason := None |})
| ls_ready row :
    sw_state row = SlAwaitingApproval →
    launch_step (Some row) (Some (move_staged SlReady row))
| ls_cancel row t reason :
    sw_state row ∈ [SlAwaitingApproval; SlReady] →
    launch_step (Some row) (Some (cancelled_row t reason row))
| ls_dispatch row :
    sw_state row = SlReady →
    launch_step (Some row) (Some (move_staged SlDispatching row))
| ls_lost row :
    sw_state row = SlDispatching →
    launch_step (Some row) (Some (move_staged SlUncertain row)).

(** ** The catalogs *)

(** Every run is still there, and moved by at most one step. *)
Definition runs_follow (c c' : IdentityCatalog) : Prop :=
  ∀ id r, find_run c id = Some r → ∃ r', find_run c' id = Some r' ∧ (r' = r ∨ run_step r r').

Section spec.
Context `{Digest} `{Serializer} `{Formats}.

Definition exec_step (e e' : GraphExecution) : Prop :=
  ∃ op, op_in_range op ∧ e' = apply_op e op.

(** A credential is asked for one run. *)
Definition names_run (r : ApprovalRequest) : Prop :=
  is_Some (sc_credential_binding (aa_scope (ar_action r))) → is_Some (sc_run_id (aa_scope (ar_action r))).

Definition spent (row : grant_row) : Prop := is_Some (gr_consumed_at_ms row).

Definition started (e : GraphExecution) : Prop :=
  ∃ id e0, start id e.(ge_graph) = Ok e0 ∧ ge_nodes e = ge_nodes e0 ∧ ge_outputs e = [].

(** ** Steps *)

Inductive db_step (d : db) : db → Prop :=
| st_event e :
    ee_sequence e = Z.of_nat (S (length (d_events d))) →
    db_step d (put_events d (d_events d ++ [e]))
| st_identity c c' t :
    ct_catalog (d_identity d) = Text c → valid_catalog c' → runs_follow c c' →
    (∀ m3, ct_catalog (d_m3 d) = Text m3 → validate_m3_catalog m3 c = Ok tt →
           validate_m3_catalog m3 c' = Ok tt) →
    db_step d (put_identity d {| ct_revision := ct_revision (d_identity d) + 1;
                                 ct_catalog := Text c'; ct_updated_at := t |})
| st_m3 c m3 t :
    ct_catalog (d_identity d) = Text c → validate_m3_catalog m3 c = Ok tt →
    db_step d (put_m3 d {| ct_revision := ct_revision (d_m3 d) + 1;
                           ct_catalog := Text m3; ct_updated_at := t |})
| st_exec id row e e' t :
    d_graphs d !! id = Some row → gw_execution row = Text e → rtc exec_step e e' →
    db_step d (put_graphs d (<[id := row_of_execution e' t]> (d_graphs d)))
| st_start e t :
    d_graphs d !! ge_id e = None → started e →
    db_step d (put_graphs d (<[ge_id e := row_of_execution e t]> (d_graphs d)))
| st_client e t :
    d_graphs d !! ge_id e = None → valid_exec e →
    db_step d (put_graphs d (<[ge_id e := row_of_execution e t]> (d_graphs d)))
| st_attempt run row :
    d_runs d !! run = None → (1 ≤ nw_attempt row)%Z →
    (∀ r, r ∈ attempts d (nw_execution_id row) (nw_node_id row) →
          (nw_attempt r.2 < nw_attempt row)%Z) →
    db_step d (put_runs d (<[run := row]> (d_runs d)))
| st_finished run row t s f :
    d_runs d !! run = Some row → s ∈ final_run_states →
    db_step d (put_runs d (<[run := finish_row t s f row]> (d_runs d)))
| st_output run row :
    d_outputs d !! run = None → is_Some (d_runs d !! run) →
    db_step d (put_outputs d (<[run := row]> (d_outputs d)))
| st_request id request row :
    d_approvals d !! id = None → aw_request row = Text request → ar_id request = id →
    request_validate_unchanged request = Ok tt → names_run request →
    aw_request_hash row = ar_request_hash request →
    aw_expires_at_ms row = ar_expires_at_ms request → aw_decision row = None →
    (∀ id' row', d_approvals d !! id' = Some row' → aw_request_hash row' ≠ aw_request_hash row) →
    db_step d (put_approvals d (<[id := row]> (d_approvals d)))
| st_decide id row request decision t :
    d_approvals d !! id = Some row → aw_decision row = None → aw_request row = Text request →
    verify_decision request decision = Ok tt →
    db_step d (put_approvals d (<[id := decided_row decision t row]> (d_approvals d)))
| st_issue id row request decision :
    d_approvals d !! id = Some row → aw_request row = Text request →
    aw_decision row = Some (Text decision) → ad_kind decision = Approve →
    is_Some (sc_credential_binding (aa_scope (ar_action request))) →
    d_grants d !! id = None →
    db_step d (put_grants d
      (<[id := {| gr_issued_at_ms := ad_decided_at_ms decision; gr_consumed_at_ms := None;
                  gr_revoked_at_ms := None; gr_revoked_by := None |}]> (d_grants d)))
| st_consume id g row request t :
    dr_lifecycle (d_daemon d) = "ready" →
    d_grants d !! id = Some g → unspent g = true → (gr_issued_at_ms g ≤ t)%Z →
    d_approvals d !! id = Some row → aw_request row = Text request →
    (ar_created_at_ms request ≤ t < ar_expires_at_ms request)%Z →
    validate_current_catalog d request = Ok tt →
    db_step d (put_grants d
      (<[id := {| gr_issued_at_ms := gr_issued_at_ms g; gr_consumed_at_ms := Some t;
                  gr_revoked_at_ms := None; gr_revoked_by := gr_revoked_by g |}]> (d_grants d)))
| st_revoke id g t by_ :
    d_grants d !! id = Some g → unspent g = true → (gr_issued_at_ms g ≤ t)%Z →
    db_step d (put_grants d
      (<[id := {| gr_issued_at_ms := gr_issued_at_ms g; gr_consumed_at_ms := None;
                  gr_revoked_at_ms := Some t; gr_revoked_by := Some by_ |}]> (d_grants d)))
| st_plan plan :
    d_plans d !! lp_run_id plan = None →
    db_step d (put_plans d
      (<[lp_run_id plan := {| pw_plan := Text plan; pw_hash := plan_hash plan |}]> (d_plans d)))
| st_stage run req t :
    d_staged d !! run = None → staged_for d req = None → is_Some (d_approvals d !! req) →
    is_Some (d_plans d !! run) →
    db_step d (put_staged d
      (<[run := {| sw_request_id := req; sw_state := SlAwaitingApproval; sw_staged_at_ms := t;
                   sw_finished_at_ms := None; sw_cancel_reason := None |}]> (d_staged d)))
| st_launch run row row' :
    d_staged d !! run = Some row → launch_step (Some row) (Some row') →
    (sw_state row' = SlReady → is_Some (d_grants d !! sw_request_id row)) →
    (sw_state row' = SlDispatching →
       ∃ g, d_grants d !! sw_request_id row = Some g ∧ spent g) →
    db_step d (put_staged d (<[run := row']> (d_staged d)))
| st_lost_launches :
    db_step d (put_staged d
      ((λ row, if in_launch_state [SlDispatching] row then move_staged SlUncertain row else row)
         <$> d_staged d))
| st_claim run req t :
    d_claims d !! run = None →
    (∀ run' row', d_claims d !! run' = Some row' → cl_request_id row' ≠ req) →
    (∃ g, d_grants d !! req = Some g ∧ spent g) →
    db_step d (put_claims d
      (<[run := {| cl_request_id := req; cl_claimed_at_ms := t |}]> (d_claims d)))
| st_daemon x : db_step d (put_daemon d x)
| st_checkpoint x : db_step d (put_checkpoints d (d_checkpoints d ++ [x])).

End spec.
