(* ===== verification/StoreRefines.v ===== *)
(** * The store refines the abstract database

    Every method of the store, when it succeeds, is a sequence of [db_step]s;
    when it fails it changes nothing. *)
From stdpp Require Import relations.
From S2P Require Import Prelude Policy Identity Catalog Office Meeting.
From S2P Require Import Deliverable Approval Graph Execution ExecutionFacts M3 Mvp Protocol.
From S2P Require Import Store StoreLogic Launch StagedLaunches GraphStore FinishRun CatalogStore.
From S2P Require Import CredentialGrants Dispatch DaemonStore StoreSpec.

(** ** Catalogs *)

Lemma find_by_update_first {k A} (md : A → EntityMetadata k) (l : list A) (i j : stable_id k) f :
  (∀ x, em_id (md (f x)) = em_id (md x)) →
  find_by md (update_first (has_metadata_id md i) f l) j
  = if decide (j = i) then f <$> find_by md l i else find_by md l j.
Proof.
  intros Hf. unfold find_by.
  assert (Hm : ∀ x, has_metadata_id md j (f x) = has_metadata_id md j x)
    by (intros; unfold has_metadata_id; by rewrite Hf).
  induction l as [|x l IH]; cbn [update_first List.find]; [by case_decide|].
  destruct (has_metadata_id md i x) eqn:Ei; cbn [List.find].
  - rewrite Hm. case_decide as Ej; [subst j; by rewrite Ei|].
    destruct (has_metadata_id md j x) eqn:Ex; [|done].
    apply bool_decide_eq_true in Ei, Ex. congruence.
  - rewrite IH. destruct (has_metadata_id md j x) eqn:Ex; [|done].
    case_decide; [|done]. subst j. congruence.
Qed.

Lemma find_run_id c id r : find_run c id = Some r → em_id (rn_metadata r) = id.
Proof. intros [_ E]%find_Some_elem. by apply bool_decide_eq_true in E. Qed.

Lemma runs_follow_refl c : runs_follow c c.
Proof. intros id r Hr. eauto. Qed.

Lemma runs_follow_with_run c id r f :
  find_run c id = Some r → run_step r (f r) →
  (∀ x, em_id (rn_metadata (f x)) = em_id (rn_metadata x)) →
  runs_follow c (with_run c id f).
Proof.
  intros Hr Hs Hf j x Hx. unfold find_run, with_run. cbn [ic_runs].
  rewrite find_by_update_first by done. fold (find_run c id) (find_run c j).
  case_decide as E; [|by eauto]. subst j. rewrite Hr in Hx |- *. simplify_eq. cbn. eauto.
Qed.

Lemma runs_follow_same c c' : ic_runs c' = ic_runs c → runs_follow c c'.
Proof. intros E id r. unfold find_run. rewrite E. eauto. Qed.

Lemma runs_follow_trans_same c c' c'' :
  ic_runs c'' = ic_runs c' → runs_follow c c' → runs_follow c c''.
Proof. intros E H id r Hr. unfold find_run. rewrite E. by apply H. Qed.

Lemma find_by_app {k A} (md : A → EntityMetadata k) l l' i x :
  find_by md l i = Some x → find_by md (l ++ l') i = Some x.
Proof.
  unfold find_by. induction l as [|y l IH]; simpl; [done|].
  destruct (has_metadata_id md i y); auto.
Qed.

Section refines.
Context `{Environment} `{Digest} `{Serializer} `{Formats}.

Lemma validate_m3_catalog_ok m3 c :
  validate_m3_catalog m3 c = Ok tt ↔
  valid_office m3.(m3_office) c ∧ valid_meetings m3.(m3_meetings) c m3.(m3_office) ∧
  valid_deliverables m3.(m3_deliverables).
Proof.
  unfold validate_m3_catalog. autorewrite with bastet_ok.
  rewrite validate_office_ok, validate_meetings_ok, validate_deliverables_ok. naive_solver.
Qed.

(** The state catalog refers to projects, roles and instances only. *)
Lemma validate_m3_catalog_ext m3 c c' :
  ic_projects c' = ic_projects c → ic_roles c' = ic_roles c →
  ic_agent_instances c' = ic_agent_instances c →
  validate_m3_catalog m3 c = Ok tt → validate_m3_catalog m3 c' = Ok tt.
Proof.
  intros Hp Hr Ha. rewrite !validate_m3_catalog_ok. intros ([] & [] & ?).
  assert (Ep : project_ids c' = project_ids c) by (unfold project_ids; by rewrite Hp).
  assert (Er : role_ids c' = role_ids c) by (unfold role_ids; by rewrite Hr).
  assert (Ea : instance_ids c' = instance_ids c) by (unfold instance_ids; by rewrite Ha).
  split_and!; [| |done].
  - split; rewrite ?Ep, ?Er, ?Ea; done.
  - split; try done. eapply Forall_impl; [done|]. intros m []. split; rewrite ?Er; done.
Qed.

Lemma valid_m3_validate m3 executions c :
  validate_m3 {| ms_catalog := m3; ms_graph_executions := executions |} c = Ok tt →
  valid_catalog c ∧ validate_m3_catalog m3 c = Ok tt.
Proof.
  rewrite validate_m3_ok, validate_m3_catalog_ok. intros []. cbn in *. done.
Qed.

(** *** Executions *)

Lemma exec_op op e e' :
  op_in_range op → settle e (Ok e') = apply_op e op → rtc exec_step e e'.
Proof. intros Hop E. apply rtc_once. exists op. split; [done|]. by rewrite <- E. Qed.

Lemma launch_node_steps e id owner run staged e' :
  launch_node e id owner run staged = Ok e' → rtc exec_step e e'.
Proof.
  unfold launch_node. intros E. destruct staged.
  - by apply (exec_op (StageNode id owner run)); [|cbn; rewrite E].
  - ok_inv. match goal with H : claim_node _ _ _ = _ |- _ => rename H into Hc end.
    transitivity x; [by apply (exec_op (ClaimNode id owner)); [|cbn; rewrite Hc]|].
    by apply (exec_op (BindRun id owner run)); [|cbn; rewrite E].
Qed.

Lemma finish_execution_steps command e s f o e' :
  finish_execution command e s f o = Ok e' → rtc exec_step e e'.
Proof.
  unfold finish_execution. intros E. ok_inv.
  match goal with H : finish_terminal _ _ _ _ _ = Ok ?x |- _ => rename H into Hf end.
  transitivity x;
    [by apply (exec_op (FinishTerminal (fg_node_id command) (fg_owner command) s f));
      [|cbn; rewrite Hf]|].
  destruct o as [o|]; [|simplify_eq; done].
  by apply (exec_op (RecordOutput o)); [|cbn; rewrite E].
Qed.

Lemma retry_execution_steps e id e' :
  retry_execution e id = Ok e' → rtc exec_step e e'.
Proof.
  unfold retry_execution. intros E. destruct (retry_failed e id) as [x r] eqn:Er. ok_inv.
  apply rtc_once. exists (RetryFailed id). split; [done|]. cbn. by rewrite Er.
Qed.

Lemma exec_step_frame e e' :
  rtc exec_step e e' → ge_id e' = ge_id e ∧ ge_graph e' = ge_graph e.
Proof.
  induction 1 as [|e e1 e2 (op & _ & ->) _ IH]; [done|].
  destruct (apply_op_frame e op) as [(? & ? & _) _]. destruct IH. split; congruence.
Qed.

Lemma exec_steps_valid e e' : rtc exec_step e e' → valid_exec e → valid_exec e'.
Proof. induction 1 as [|e e1 e2 (op & ? & ->) _ IH]; [done|]. auto using apply_op_valid. Qed.

(** ** Keys *)

(** A row carries its key and its revision; a request has one launch. *)
Record keyed (d : db) : Prop := {
  k_graph : ∀ id row e, d_graphs d !! id = Some row → gw_execution row = Text e →
    ge_id e = id ∧ gw_revision row = ge_revision e;
  k_staged : ∀ run run' row row', d_staged d !! run = Some row → d_staged d !! run' = Some row' →
    sw_request_id row = sw_request_id row' → run = run';
  k_plan : ∀ run row plan, d_plans d !! run = Some row → pw_plan row = Text plan →
    lp_run_id plan = run;
}.

Lemma launch_step_request row row' :
  launch_step (Some row) (Some row') → sw_request_id row' = sw_request_id row.
Proof. by inversion 1. Qed.

Lemma keyed_step d d' : keyed d → db_step d d' → keyed d'.
Proof.
  intros [Hg Hs Hp] Hstep. destruct Hstep; try (by split; cbn; eauto).
  - split; cbn; [|done|done]. intros ? ? ?. rewrite lookup_insert. case_decide; intros; simplify_eq/=; [|eauto].
    match goal with H : rtc exec_step _ _ |- _ => apply exec_step_frame in H as [E _] end.
    rewrite E. split; [|done]. by eapply Hg.
  - split; cbn; [|done|done]. intros ? ? ?. rewrite lookup_insert. case_decide; intros; simplify_eq/=; eauto.
  - split; cbn; [|done|done]. intros ? ? ?. rewrite lookup_insert. case_decide; intros; simplify_eq/=; eauto.
  - split; cbn; [done|done|]. intros ? ? ?. rewrite lookup_insert. case_decide; intros; simplify_eq/=; eauto.
  - split; cbn; [done| |done]. intros r1 r2 ? ?. rewrite !lookup_insert.
    repeat case_decide; intros; simplify_eq/=; eauto.
    + by edestruct staged_for_None.
    + by edestruct staged_for_None.
  - split; cbn; [done| |done]. intros r1 r2 ? ?. rewrite !lookup_insert.
    match goal with H : launch_step _ _ |- _ => apply launch_step_request in H as E end.
    repeat case_decide; intros; simplify_eq/=; eauto; eapply Hs; eauto; congruence.
  - split; cbn; [done| |done]. intros r1 r2 ? ?. rewrite !lookup_fmap_Some.
    intros (x & <- & Hx) (y & <- & Hy) E. eapply Hs; eauto.
    by destruct (in_launch_state _ x), (in_launch_state _ y).
Qed.

Lemma keyed_steps d d' : rtc db_step d d' → keyed d → keyed d'.
Proof. induction 1; eauto using keyed_step. Qed.

(** A method within a transaction refines the steps. *)
Definition refines {A} (m : M A) : Prop :=
  ∀ d0 d, keyed d0 → rtc db_step d0 d → wp m (λ _ d', rtc db_step d0 d') d.

(** ** Methods *)

(** Whatever a method returns, it has moved the database by steps. *)
Definition sound {A} (m : M A) : Prop :=
  ∀ w, keyed (w_db w) → rtc db_step (w_db w) (w_db (m w).2).

Lemma sound_transact {A} (m : M A) :
  (∀ d, keyed d → wp m (λ _ d', rtc db_step d d') d) → sound (transact m).
Proof.
  intros Hm w Hk. unfold transact. destruct (w_poisoned w); [done|].
  destruct (m w) as [[a| | |] w'] eqn:Em; try done. destruct (commits _); [|done].
  exact (Hm _ Hk w a w' eq_refl Em).
Qed.
Lemma sound_refines {A} (m : M A) : refines m → sound (transact m).
Proof. intros Hm. apply sound_transact. intros d Hk. by apply Hm. Qed.
Lemma sound_bind {A B} (m : M A) (k : A → M B) :
  sound m → (∀ a, sound (k a)) → sound (mbind m k).
Proof.
  intros Hm Hk w Hw. specialize (Hm w Hw). unfold mbind.
  destruct (m w) as [[a| | |] w'] eqn:Em; try done. cbn in Hm.
  etrans; [exact Hm|]. apply Hk. by eapply keyed_steps.
Qed.
Lemma sound_pure {A} (m : M A) : (∀ w, w_db (m w).2 = w_db w) → sound m.
Proof. intros Hm w _. by rewrite Hm. Qed.
Lemma read_only_db {A} (f : db → outcome StoreError A) w : w_db (read_only f w).2 = w_db w.
Proof. unfold read_only. by destruct (w_poisoned w). Qed.
Lemma sound_read_only {A} (f : db → outcome StoreError A) : sound (read_only f).
Proof. apply sound_pure, read_only_db. Qed.
Lemma sound_lift {A} (o : outcome StoreError A) : sound (lift o).
Proof. by apply sound_pure. Qed.
Lemma sound_reject {A} (b : bool) e (m : M A) : sound m → sound (reject b with e;; m).
Proof. destruct b; [intros _; by apply sound_pure|done]. Qed.
Lemma sound_new_id {k} : sound (@new_id _ k).
Proof. by apply sound_pure. Qed.

End refines.

(** ** Automation *)

Section rules.
Context `{Environment}.
Lemma wp_check_revision r Q d : Q tt d → wp (check_revision r) Q d.
Proof. intros HQ. unfold check_revision. by wp_read. Qed.

Lemma wp_update_daemon rev lc Q d :
  Q tt (put_daemon d {| dr_daemon_id := dr_daemon_id (d_daemon d); dr_revision := rev;
                        dr_lifecycle := lc |}) →
  wp (update_daemon rev lc) Q d.
Proof. intros HQ. by apply wp_bind, wp_sql_u64; intros _; apply wp_modify. Qed.
End rules.

(** [track C] justifies the statement just executed by the rules [C]. *)
Ltac track C :=
  lazymatch goal with
  | Hd : rtc db_step ?d0 ?d |- wp _ _ ?d' =>
      let H := fresh in
      assert (H : rtc db_step d0 d') by (eapply rtc_r; [exact Hd|C]); clear Hd; rename H into Hd
  | Hd : rtc db_step ?d0 ?d |- rtc db_step ?d0 ?d' => eapply rtc_r; [exact Hd|C]
  end.
Ltac track_event := track ltac:(apply st_event; assumption).

(** Reads, guards and events; the events are tracked, or not. *)
Ltac wp_go_with event :=
  repeat first [wp_read1 | lazymatch goal with
    | |- wp (insert_event _ _) _ _ => wp_write; event tt
    | |- wp (check_revision _) _ _ => apply wp_check_revision
    end].
Ltac wp_go := wp_go_with ltac:(fun _ => track_event).
Ltac wp_run := wp_go_with ltac:(fun _ => idtac).
Ltac destruct_unit H :=
  match type of H with _ = Ok ?u => destruct u end.
(** A call of a method known to refine the steps. *)
Ltac wp_call L :=
  match goal with
  | Hk : keyed ?d0, Hd : rtc db_step ?d0 ?d |- wp _ _ ?d =>
      eapply wp_mono; [apply (L d0 d Hk Hd)|clear Hd; cbv beta; intros ? ? Hd]
  end.

(** A method that is one transaction; an update of the daemon's row. *)
Ltac method := apply sound_transact; intros d Hk; pose proof (@rtc_refl _ db_step d) as Hd.
Ltac daemon := apply wp_update_daemon; track ltac:(apply st_daemon).

Section methods.
Context `{Environment} `{Digest} `{Serializer} `{Formats}.

Lemma valid_catalog_of c u : validate_catalog c = Ok u → valid_catalog c.
Proof. destruct u. apply validate_catalog_ok. Qed.
Lemma load_catalog_row_ok d rev c :
  load_catalog_row d = Ok (rev, c) →
  rev = ct_revision (d_identity d) ∧ ct_catalog (d_identity d) = Text c ∧ valid_catalog c.
Proof.
  unfold load_catalog_row. intros E. ok_inv.
  match goal with H : validate_catalog _ = _ |- _ => apply validate_catalog_ok in H end.
  by destruct (ct_catalog (d_identity d)); simplify_eq/=.
Qed.
Lemma load_graph_ok d id rev e :
  load_graph d id = Ok (rev, e) →
  ∃ row, d_graphs d !! id = Some row ∧ gw_execution row = Text e ∧ rev = gw_revision row.
Proof.
  unfold load_graph. intros E. ok_inv. eexists. split_and!; [done| |done].
  by destruct (gw_execution _); simplify_eq/=.
Qed.

(** [alter] on a row that exists. *)
Lemma alter_present {A} (m : gmap GraphRunId A) id row x :
  m !! id = Some row → alter (λ _, x) id m = <[id := x]> m.
Proof. intros E. apply map_eq. intros j. rewrite lookup_alter, lookup_insert. by case_decide; subst; rewrite ?E. Qed.

Lemma st_exec' d id row e e' t :
  d_graphs d !! id = Some row → gw_execution row = Text e → rtc exec_step e e' →
  db_step d (put_graphs d (alter (λ _, row_of_execution e' t) id (d_graphs d))).
Proof. intros E ? ?. rewrite (alter_present _ _ _ _ E). by eapply st_exec. Qed.

Lemma cancelled_follows d c run_id run t :
  find_run c run_id = Some run → rn_state run = RunAwaitingApproval → rn_started_at run = None →
  ct_catalog (d_identity d) = Text c → valid_catalog (cancelled_catalog c run t) →
  db_step d (put_identity d {| ct_revision := ct_revision (d_identity d) + 1;
    ct_catalog := Text (cancelled_catalog c run t); ct_updated_at := t |}).
Proof.
  intros Hr Hs Hn Hc Hv. eapply st_identity; [done|done| |].
  - unfold cancelled_catalog. rewrite (find_run_id _ _ _ Hr).
    apply runs_follow_with_run with run; [done|by apply rs_cancel_staged|done].
  - intros m3 _. by apply validate_m3_catalog_ext.
Qed.

Lemma staged_context_run d run b1 b2 u :
  validate_staged_context d run b1 b2 = Ok u →
  rn_state run = RunAwaitingApproval ∧ rn_started_at run = None ∧ rn_finished_at run = None.
Proof.
  unfold validate_staged_context.
  intros [((Ha & Hb)%orb_false_iff & Hc)%orb_false_iff _]%fail_if_ok.
  apply negb_false_iff, bool_decide_eq_true in Ha.
  apply bool_decide_eq_false, eq_None_not_Some in Hb, Hc. done.
Qed.

Lemma cancel_refines id reason : refines (cancel_for_request id reason).
Proof.
  intros d0 d Hk Hd. unfold cancel_for_request. wp_go. wp_match; [|by wp_go]. wp_go.
  wp_match; [by wp_go|]. wp_go.
  rename select (load_catalog_row d = _) into Hc. apply load_catalog_row_ok in Hc as (-> & Hc & _).
  rename select (load_graph d _ = _) into Hg. apply load_graph_ok in Hg as (row & Hg & He & _).
  rename select (validate_staged_context d _ _ _ = _) into Hx.
  apply staged_context_run in Hx as (Hs & Hn & _).
  rename select (cancel_staged_node _ _ _ _ = _) into Hcancel.
  rename select (validate_catalog _ = _) into Hv. apply valid_catalog_of in Hv.
  wp_write. track ltac:(by eapply cancelled_follows).
  wp_go. wp_write.
  destruct (k_graph _ (keyed_steps _ _ Hd Hk) _ _ _ Hg He) as [Hid _].
  match type of Hcancel with cancel_staged_node ?e ?n ?o ?r = _ =>
    pose proof (exec_op (CancelStaged n o r) _ _ I (f_equal (settle e) (eq_sym Hcancel))) as Hsteps
  end.
  rewrite (proj1 (exec_step_frame _ _ Hsteps)), Hid.
  track ltac:(by eapply st_exec').
  wp_go. wp_write; [|by wp_go; done].
  track ltac:(eapply st_finished; [done|]; set_solver).
  wp_go. wp_write; [|by wp_go; done].
  track ltac:(eapply st_launch; [done|by apply ls_cancel|done|done]).
  wp_go. wp_write.
  - track ltac:(by eapply st_revoke). by wp_go.
  - by wp_go.
Qed.

Lemma for_rows_refines {A} (f : A → M unit) l :
  (∀ x, refines (f x)) → refines (for_rows f l).
Proof.
  intros Hf d0 d Hk Hd. apply wp_for_rows; [|done]. intros x d' _ Hd'. by apply Hf.
Qed.

Lemma expire_refines now : refines (expire now).
Proof.
  intros d0 d Hk Hd. unfold expire. wp_go. apply for_rows_refines; [|done..].
  intros. apply cancel_refines.
Qed.

Lemma validate_against_unchanged r c u :
  validate_against r c = Ok u → request_validate_unchanged r = Ok tt ∧ names_run r.
Proof.
  intros E. destruct_unit E. split.
  - revert E. unfold validate_against. intros E. apply obind_ok in E as ([] & E & _). done.
  - intros [b Hb]. pose proof (validate_against_ok _ _ _ E Hb) as (_ & Hg & _). apply Hg.
Qed.

Lemma stage_refines plan d0 d :
  keyed d0 → rtc db_step d0 d → is_Some (d_plans d !! lp_run_id plan) →
  wp (stage plan) (λ _ d', rtc db_step d0 d') d.
Proof.
  intros Hk Hd Hp. unfold stage. wp_go.
  rename select (validate_against _ _ = _) into Hr. apply validate_against_unchanged in Hr as [Hr Hn].
  wp_write; [|by wp_go; done].
  track ltac:(by eapply st_request; eauto).
  wp_go. wp_write. track ltac:(eapply st_stage; [done|done| |done]; cbn; rewrite lookup_insert_eq; eauto).
  by wp_go.
Qed.

Lemma request_for_plan_binding plan r u :
  validate_request_for_plan plan r = Ok u → needs_credential r = true.
Proof.
  unfold validate_request_for_plan. intros E. ok_inv. bool_prop.
  rename select (approval_action plan = _) into Ha. unfold needs_credential.
  unfold approval_action in Ha. ok_inv.
  match goal with E : _ = ar_action r |- _ => by rewrite <- E end.
Qed.

Lemma on_decision_refines r kind d0 d :
  keyed d0 → rtc db_step d0 d →
  (kind = Approve → needs_credential r = true → is_Some (d_grants d !! ar_id r)) →
  wp (on_decision r kind) (λ _ d', rtc db_step d0 d') d.
Proof.
  intros Hk Hd Hg. unfold on_decision. wp_go. wp_match; [|by wp_go]. wp_go. wp_match; wp_go.
  - rename select (validate_request_for_plan _ _ = _) into Hb. apply request_for_plan_binding in Hb.
    wp_write; [|by wp_go; done].
    track ltac:(eapply st_launch; [done|apply ls_ready; set_solver| |done]; cbn;
      match goal with E : sw_request_id _ = ar_id r |- _ => rewrite E end; eauto).
    by wp_go.
  - by apply cancel_refines.
Qed.

Lemma issue_refines r decision d0 d row :
  keyed d0 → rtc db_step d0 d → d_approvals d !! ar_id r = Some row → aw_request row = Text r →
  aw_decision row = Some (Text decision) → ad_kind decision = Approve → needs_credential r = true →
  wp (issue r decision)
    (λ _ d', rtc db_step d0 d' ∧ is_Some (d_grants d' !! ar_id r)) d.
Proof.
  intros Hk Hd Hrow Hr Hdec Hkind Hneeds. unfold issue. wp_go. wp_write.
  apply bool_decide_eq_true in Hneeds. track ltac:(by eapply st_issue).
  wp_go. split; [done|]. cbn. rewrite lookup_insert_eq. eauto.
Qed.

Lemma expire_staged_sound : sound expire_staged_launches.
Proof. method. wp_go. by apply expire_refines. Qed.

Lemma create_approval_sound r : sound (create_approval r).
Proof.
  method. unfold create_approval. wp_go.
  rename select (validate_against _ _ = _) into Hr. apply validate_against_unchanged in Hr as [Hr Hn].
  wp_match; wp_go.
  - wp_write; [|by wp_go; done]. track ltac:(by eapply st_request; eauto). by wp_go.
  - wp_write; [|by wp_go; done]. track ltac:(by eapply st_request; eauto). by wp_go.
Qed.

Lemma approval_sound id : sound (approval id).
Proof. apply sound_bind; [apply expire_staged_sound|intros _; apply sound_read_only]. Qed.
Lemma approvals_sound : sound approvals.
Proof. apply sound_bind; [apply expire_staged_sound|intros _; apply sound_read_only]. Qed.

Lemma cancel_staged_run_sound run rev : sound (cancel_staged_run run rev).
Proof.
  method. wp_go. wp_match; [|by wp_go]. wp_match; [|by wp_go]. wp_go.
  wp_call (cancel_refines (sw_request_id s) "cancelled"). by wp_go.
Qed.

(** ** Life cycle *)

Lemma transition_sound lc ty p : sound (transition lc ty p).
Proof. method. wp_go. daemon. by wp_go. Qed.
Lemma mark_ready_sound : sound mark_ready.
Proof. apply sound_bind; [apply expire_staged_sound|intros _; apply transition_sound]. Qed.
Lemma resume_sound c : sound (resume c).
Proof. method. wp_go. daemon. by wp_go. Qed.

Lemma persist_checkpoint_sound c req lc ty : sound (persist_checkpoint c req lc ty).
Proof.
  method. wp_go. wp_match; wp_go; wp_match; wp_go;
    (daemon; wp_go; unfold insert_checkpoint; wp_go; wp_write; track ltac:(apply st_checkpoint);
     wp_go; daemon; by wp_go).
Qed.

(** ** Decisions and grants *)

Lemma decide_approval_sound command : sound (decide_approval command).
Proof.
  method. wp_go. rename select (aw_request _ = Text _) into Hrow.
  rename select ApprovalRequest into request. set (given := da_decision command) in *.
  eapply (wp_mono _ (λ decision d', d' = d ∧ ad_kind decision = ad_kind given ∧
                                     ad_request_id decision = ad_request_id given)).
  { destruct (needs_credential request); [|by wp_go]. wp_go. wp_match; by wp_go. }
  cbv beta. intros decision d' (-> & Hkind & Hid). wp_go.
  rename select (verify_decision _ _ = _) into Hv. destruct_unit Hv.
  pose proof Hv as Hv'. apply verify_decision_ok in Hv' as (_ & Hid' & _). rewrite Hid in Hid'.
  wp_write; [|by wp_go; done].
  simplify_eq. track ltac:(by eapply st_decide). wp_go.
  eapply (wp_mono _ (λ _ d', rtc db_step d d' ∧ (ad_kind decision = Approve →
    needs_credential request = true → is_Some (d_grants d' !! ar_id request)))).
  { rewrite <- Hkind. destruct (needs_credential request) eqn:En; cbn [andb]; [|wp_go; by split].
    bool_prop.
    case_bool_decide as Eap; [|wp_go; split; [done|intros Ek; by destruct Eap]].
    eapply wp_mono; [apply (issue_refines request decision d _ (decided_row decision t a));
      [done|done| |done..]; cbn; by rewrite <- Hid', lookup_insert_eq|naive_solver]. }
  cbv beta. intros [] d' [Hd' Hg]. clear Hd. wp_go.
  eapply wp_mono; [by eapply on_decision_refines|]. cbv beta. intros [] d'' Hd. by wp_go.
Qed.

Lemma grant_load_ok d id record :
  grant_load d id = Ok record →
  ∃ g row, d_grants d !! id = Some g ∧ d_approvals d !! id = Some row ∧
    aw_request row = Text (cg_request record) ∧ aw_decision row = Some (Text (cg_decision record)) ∧
    ad_kind (cg_decision record) = Approve ∧ ar_id (cg_request record) = id ∧
    verify_decision (cg_request record) (cg_decision record) = Ok tt ∧
    is_Some (sc_credential_binding (aa_scope (ar_action (cg_request record)))) ∧
    cg_issued_at_ms record = gr_issued_at_ms g ∧ cg_consumed_at_ms record = gr_consumed_at_ms g ∧
    cg_revoked_at_ms record = gr_revoked_at_ms g.
Proof.
  unfold grant_load. intros E. ok_inv. bool_prop.
  repeat match goal with j : json _ |- _ => destruct j; [|done] end.
  destruct (aw_request _) eqn:Ereq; simplify_eq/=. eexists _, _. split_and!; try done.
  by apply not_eq_None_Some.
Qed.

Lemma validate_time_ok r now u :
  validate_time r now = Ok u →
  (ar_created_at_ms r ≤ now < ar_expires_at_ms r)%Z ∧ (ar_expires_at_ms r ≤ I64_MAX)%Z.
Proof.
  unfold validate_time. intros [((E1 & E2)%orb_false_iff & E3)%orb_false_iff _]%fail_if_ok.
  apply Z.ltb_ge in E1, E3. apply Z.leb_gt in E2. lia.
Qed.

Lemma consume_credential_grant_sound id action : sound (consume_credential_grant id action).
Proof.
  method. wp_go. wp_write; [|by wp_go; done].
  rename select (grant_load d id = _) into Hl.
  apply grant_load_ok in Hl as (g' & row & Hg & Hrow & Hr & _).
  rename select (validate_time _ _ = _) into Ht. apply validate_time_ok in Ht as [Ht _].
  rename select (validate_current_catalog _ _ = _) into Hcat. destruct_unit Hcat. bool_prop.
  track ltac:(by eapply st_consume). by wp_go.
Qed.

Lemma revoke_credential_grant_sound id actor : sound (revoke_credential_grant id actor).
Proof.
  apply sound_reject. method. wp_go. wp_write; [|by wp_go; done].
  track ltac:(by eapply st_revoke). wp_go. wp_call (cancel_refines id "revoked"). by wp_go.
Qed.

Lemma credential_grant_sound id : sound (credential_grant id).
Proof. apply sound_pure. intros w. unfold credential_grant. by destruct (w_poisoned w). Qed.

End methods.
