(* ===== verification/StoreMethods.v ===== *)
(** * The methods of the store as abstract steps

    The rest of the refinement: dispatch, graph executions, catalogs and the
    first-run workflow. *)
From stdpp Require Import relations.
From S2P Require Import Prelude Policy Identity Catalog Office Meeting.
From S2P Require Import Deliverable Approval Graph Execution ExecutionFacts M3 Mvp Protocol.
From S2P Require Import Store StoreLogic Launch StagedLaunches GraphStore FinishRun CatalogStore.
From S2P Require Import CredentialGrants Dispatch DaemonStore StoreSpec StoreRefines.

Section methods.
Context `{Environment} `{Digest} `{Serializer} `{Formats}.

(** ** Dispatch *)

Section dispatch.
Context `{CredentialReader}.

(** The catalogs, with the row given by its columns. *)
Lemma st_identity' d row c c' :
  ct_revision row = (ct_revision (d_identity d) + 1)%Z → ct_catalog row = Text c' →
  ct_catalog (d_identity d) = Text c → valid_catalog c' → runs_follow c c' →
  (∀ m3, ct_catalog (d_m3 d) = Text m3 → validate_m3_catalog m3 c = Ok tt →
         validate_m3_catalog m3 c' = Ok tt) →
  db_step d (put_identity d row).
Proof. destruct row; cbn. intros -> ->. apply st_identity. Qed.

(** A run of the catalog moves by one step, and nothing else changes. *)
Lemma st_run d row c run_id run f :
  ct_revision row = (ct_revision (d_identity d) + 1)%Z → ct_catalog row = Text (with_run c run_id f) →
  ct_catalog (d_identity d) = Text c → find_run c run_id = Some run → run_step run (f run) →
  (∀ x, em_id (rn_metadata (f x)) = em_id (rn_metadata x)) →
  valid_catalog (with_run c run_id f) →
  db_step d (put_identity d row).
Proof.
  intros Hrev Hrow Hc Hr Hs Hf Hv. eapply st_identity'; [done..| |].
  - by eapply runs_follow_with_run.
  - intros m3 _. by apply validate_m3_catalog_ext.
Qed.

Lemma claim_staged_dispatch_sound id : sound (claim_staged_dispatch id).
Proof.
  method. wp_go.
  rename select (grant_load d id = _) into Hl.
  apply grant_load_ok in Hl as (g' & row & Hg & Hrow & Hr & _).
  rename select (validate_time _ _ = _) into Ht. apply validate_time_ok in Ht as [Ht _].
  rename select (validate_current_catalog _ _ = _) into Hcat. destruct_unit Hcat.
  rename select (validate_staged_run d _ = _) into Hs.
  apply staged_context_run in Hs as (Hstate & Hnone & _).
  rename select (validate_catalog _ = _) into Hv. apply valid_catalog_of in Hv.
  rename select (activate_staged_node _ _ _ _ = _) into Ha. bool_prop.
  wp_write; [|by wp_go; done]. track ltac:(by eapply st_consume). wp_go.
  wp_write; [|by wp_go; done].
  track ltac:(eapply st_launch; [done|apply ls_dispatch; set_solver|done|]; intros _; eexists;
    split; [cbn; match goal with E : sw_request_id _ = id |- _ => rewrite E end;
    apply lookup_insert_eq|by eexists]).
  wp_go. wp_write.
  track ltac:(apply st_claim; [done|done|]; eexists; split; [apply lookup_insert_eq|by eexists]).
  wp_go. wp_write. track ltac:(eapply st_run; [done..|by apply rs_dispatch|done|done]).
  wp_go. wp_write.
  match type of Ha with activate_staged_node ?e ?n ?o ?r = _ =>
    pose proof (exec_op (ActivateStaged n o r) _ _ I (f_equal (settle e) (eq_sym Ha))) as Hsteps
  end.
  track ltac:(by eapply st_exec'). by wp_go.
Qed.

Lemma wp_move_run_staged run from to Q d :
  (∀ row, d_staged d !! run = Some row → sw_state row = from →
   Q true (put_staged d (<[run := move_staged to row]> (d_staged d)))) →
  Q false d → wp (move_run_staged run from to) Q d.
Proof.
  intros Ht Hf. apply wp_bind, wp_get.
  destruct (d_staged d !! run) as [row|] eqn:E; [|by apply wp_ret].
  destruct (in_launch_state [from] row) eqn:Ei; [|by apply wp_ret].
  apply in_launch_state_true in Ei. apply wp_bind, wp_modify, wp_ret, Ht; [done|set_solver].
Qed.

Lemma fail_dispatch_claim_sound run : sound (fail_dispatch_claim run).
Proof.
  method. wp_go.
  rename select (validate_catalog _ = _) into Hv. apply valid_catalog_of in Hv.
  rename select (finish_terminal _ _ _ _ _ = _) into Hf.
  apply wp_move_run_staged; [intros row Hrow Hdisp|by wp_go; done].
  track ltac:(eapply st_launch; [done|by apply ls_lost|done|done]).
  wp_go. wp_write. unfold in_run_state in *. bool_prop.
  track ltac:(eapply st_run; [done..|apply rs_lost; [set_solver|]; by rename select (rn_state _ ∈ _) into Hs; apply list_elem_of_singleton in Hs as ->|done|done]).
  wp_go. wp_write.
  match type of Hf with finish_terminal ?e ?n ?o ?s ?f = _ =>
    pose proof (exec_op (FinishTerminal n o s f) _ _ I (f_equal (settle e) (eq_sym Hf))) as Hsteps
  end.
  track ltac:(by eapply st_exec'). by wp_go.
Qed.

(** The broker reads the native store between two transactions. *)
Lemma prepare_staged_credentials_sound id b :
  keyed (w_db (bk_world b)) →
  rtc db_step (w_db (bk_world b)) (w_db (bk_world (prepare_staged_credentials id b).2)).
Proof.
  intros Hk. unfold prepare_staged_credentials, on_store, read_native.
  pose proof (claim_staged_dispatch_sound id _ Hk) as Hc.
  destruct (claim_staged_dispatch id (bk_world b)) as [[claim| | |] w1]; try done.
  cbn in Hc |- *. destruct (reader_read _ _); [done|]. cbn.
  assert (Hf : rtc db_step (w_db (bk_world b))
    (w_db (fail_dispatch_claim (br_run_id (dc_receipt claim)) w1).2)).
  { etrans; [exact Hc|]. apply (fail_dispatch_claim_sound _ w1). by eapply keyed_steps. }
  by destruct (fail_dispatch_claim _ _) as [[| | |] ?].
Qed.

End dispatch.

(** ** Graph executions *)

Lemma alter_absent {A} (m : gmap GraphRunId A) id f : m !! id = None → alter f id m = m.
Proof. intros E. apply map_eq. intros j. rewrite lookup_alter. case_decide; subst; by rewrite ?E. Qed.

Lemma expect_graph_ok d id rev e :
  expect_graph d id rev = Ok e →
  ∃ row, d_graphs d !! id = Some row ∧ gw_execution row = Text e ∧ gw_revision row = rev.
Proof.
  unfold expect_graph. intros E. ok_inv. bool_prop. eexists. split_and!; [done| |done].
  by destruct (gw_execution _); simplify_eq/=.
Qed.

Lemma update_graph_sound {T} id rev ty (update : GraphExecution → outcome GraphError (T * GraphExecution)) :
  (∀ e r e', update e = Ok (r, e') → rtc exec_step e e') →
  sound (update_graph id rev ty update).
Proof.
  intros Hu. method. wp_go.
  rename select (expect_graph _ _ _ = _) into Hg. apply expect_graph_ok in Hg as (row & Hg & He & _).
  wp_write. track ltac:(by eapply st_exec'; eauto). by wp_go.
Qed.

Lemma claim_graph_nodes_sound id rev owner limit :
  op_in_range (ClaimReady owner limit) → sound (claim_graph_nodes id rev owner limit).
Proof.
  intros Hl. apply update_graph_sound. intros e r e' E.
  destruct (claim_ready e owner limit) as [x c] eqn:Ec. ok_inv. apply rtc_once.
  exists (ClaimReady owner limit). split; [done|]. cbn. by rewrite Ec.
Qed.

Lemma complete_graph_node_sound id rev node owner b :
  sound (complete_graph_node id rev node owner b).
Proof.
  apply update_graph_sound. intros e r e' E. ok_inv.
  apply (exec_op (Complete node owner b)); [done|]. cbn.
  by match goal with E : complete _ _ _ _ = _ |- _ => rewrite E end.
Qed.

Lemma sound_try {E A B} (f : E → StoreError) (o : outcome E A) (k : A → M B) :
  (∀ a, o = Ok a → sound (k a)) → sound (mbind (try f o) k).
Proof.
  intros Hk w Hw. unfold mbind, try. destruct o; cbn; try done. by apply Hk.
Qed.

Lemma create_graph_execution_sound e : sound (create_graph_execution e).
Proof.
  apply sound_try. intros [] Hv%validate_execution_ok. method. wp_go.
  wp_write; [|by wp_go; done]. track ltac:(by apply st_client). by wp_go.
Qed.

Lemma restart_as_started e id e' : restart_as e id = Ok e' → started e' ∧ ge_id e' = id.
Proof.
  unfold restart_as. intros E. ok_inv.
  match goal with E : start _ _ = Ok ?x |- _ => rename E into Hs, x into e0 end.
  assert (ge_id e0 = id ∧ ge_graph e0 = ge_graph e ∧ ge_outputs e0 = []) as (Hid & Hg & Ho).
  { unfold start in Hs. by ok_inv. }
  split; [|done]. exists id, e0. cbn. rewrite Hg. done.
Qed.

Lemma restart_missing_output_graph_sound id rev : sound (restart_missing_output_graph id rev).
Proof.
  method. wp_go. wp_match; [by wp_go|]. wp_go.
  rename select (restart_as _ _ = _) into Hr. apply restart_as_started in Hr as [Hs _].
  wp_write. track ltac:(by apply st_start). by wp_go.
Qed.

Lemma retry_failed_graph_node_sound id command : sound (retry_failed_graph_node id command).
Proof.
  method. wp_go.
  rename select (expect_graph _ _ _ = _) into Hg. apply expect_graph_ok in Hg as (row & Hg & He & _).
  rename select (retry_execution _ _ = _) into Hr. apply retry_execution_steps in Hr.
  wp_write. track ltac:(by eapply st_exec'). by wp_go.
Qed.

(** *** The begin of a run *)

Lemma max_attempt_ge l r : r ∈ l → (nw_attempt r.2 ≤ max_attempt l)%Z.
Proof. induction 1 as [|x l Hr IH]; unfold max_attempt in *; cbn [foldr]; lia. Qed.
Lemma next_attempt_ok d id node attempt r :
  next_attempt d id node = Ok attempt → r ∈ attempts d id node → (nw_attempt r.2 < attempt)%Z.
Proof.
  unfold next_attempt. intros E Hr%max_attempt_ge. ok_inv. lia.
Qed.

Lemma begin_plan_run id command identity execution binding session_id run_id attempt plan :
  begin_plan id command identity execution binding session_id run_id attempt = Ok plan →
  lp_run_id plan = run_id.
Proof. unfold begin_plan. intros E. by ok_inv. Qed.

Lemma runs_follow_push c session run : runs_follow c (push_run c session run).
Proof. intros id r Hr. exists r. split; [by apply find_by_app|by left]. Qed.

Lemma begin_graph_node_run_inner_sound id command expected :
  sound (begin_graph_node_run_inner id command expected).
Proof.
  method. wp_go.
  rename select (expect_graph _ _ _ = _) into Hg. apply expect_graph_ok in Hg as (row & Hg & He & _).
  rename select (launch_node _ _ _ _ _ = _) into Hl. apply launch_node_steps in Hl.
  rename select (next_attempt _ _ _ = _) into Hnext.
  match goal with |- wp (if ?b then _ else _) _ _ => set (staged := b) in * end.
  match goal with |- wp _ ?Q _ => eapply (wp_mono _ (λ _ d', d' = d)) end.
  { destruct staged; by wp_go. }
  clearbody staged. cbv beta. intros started_at ? ->. wp_go.
  rename select (validate_catalog _ = _) into Hv. apply valid_catalog_of in Hv.
  wp_write.
  track ltac:(eapply st_identity'; [done..|apply runs_follow_push|intros m3 _; by apply validate_m3_catalog_ext]).
  wp_go. wp_write. track ltac:(by eapply st_exec'). wp_go. wp_write.
  track ltac:(apply st_attempt; [done..|]; intros r; by apply next_attempt_ok).
  wp_go. unfold plan_insert. wp_write. track ltac:(by apply st_plan).
  wp_go.
  match goal with |- wp _ ?Q ?d' => eapply (wp_mono _ (λ _ d'', rtc db_step d d'')) end.
  { destruct staged; [|by wp_go]. apply stage_refines; [done..|]. cbn. rewrite lookup_insert_eq. eauto. }
  clear Hd. cbv beta. intros [] d' Hd. by wp_go.
Qed.

(** *** The end of a run *)

(** The new catalog keeps what the state catalog refers to. *)
Definition same_references (c c' : IdentityCatalog) : Prop :=
  ic_projects c' = ic_projects c ∧ ic_roles c' = ic_roles c ∧
  ic_agent_instances c' = ic_agent_instances c.

Lemma st_references d row c c' :
  ct_revision row = (ct_revision (d_identity d) + 1)%Z → ct_catalog row = Text c' →
  ct_catalog (d_identity d) = Text c → valid_catalog c' → runs_follow c c' →
  same_references c c' → db_step d (put_identity d row).
Proof.
  intros Hr Hrow Hc Hv Hf (Hp & Hro & Ha). eapply st_identity'; [done..|].
  intros m3 _. by apply validate_m3_catalog_ext.
Qed.

Lemma terminal_is_final state s : terminal_graph_state state = Some s → state ∈ final_run_states.
Proof. by destruct state; intros [=]; set_solver. Qed.

Lemma finish_identity_follows command c run session now c' s :
  finish_identity command c run session now = Ok c' → find_run c (fg_run_id command) = Some run →
  rn_state run ∈ [RunStarting; RunRunning; RunCancelling] →
  terminal_graph_state (fg_terminal_state command) = Some s →
  runs_follow c c' ∧ same_references c c'.
Proof.
  unfold finish_identity. intros E Hr Hs Ht%terminal_is_final. ok_inv.
  assert (Hf : runs_follow c (with_run c (fg_run_id command)
    (run_in_state (fg_terminal_state command) (rn_started_at run) (Some now) now)))
    by (by apply runs_follow_with_run with run; [|apply rs_finish|]).
  destruct (fg_provider_session_id command); ok_inv; done.
Qed.

Lemma finish_current_run d id command c e run session :
  finish_current d id command c e = Ok (run, session) →
  find_run c (fg_run_id command) = Some run ∧
  rn_state run ∈ [RunStarting; RunRunning; RunCancelling].
Proof. unfold finish_current. intros E. ok_inv. unfold in_run_state in *. bool_prop. done. Qed.

(** The state catalog, with the row given by its columns. *)
Lemma st_m3' d row c m3 :
  ct_revision row = (ct_revision (d_m3 d) + 1)%Z → ct_catalog row = Text m3 →
  ct_catalog (d_identity d) = Text c → validate_m3_catalog m3 c = Ok tt →
  db_step d (put_m3 d row).
Proof. destruct row; cbn. intros -> ->. apply st_m3. Qed.

Lemma finish_graph_node_run_sound id command : sound (finish_graph_node_run id command).
Proof.
  method. wp_go.
  match goal with |- context [fg_run_id (if ?b then _ else _)] =>
    set (given := if b then as_uncertain command else command) in *;
    assert (Hid : fg_run_id given = fg_run_id command) by (unfold given; by destruct b)
  end.
  clearbody given.
  rename select (finish_current _ _ _ _ _ = _) into Hcur.
  apply finish_current_run in Hcur as [Hr Hs]. rewrite <- Hid in Hr.
  rename select (finish_identity _ _ _ _ _ = _) into Hf.
  rename select (terminal_graph_state _ = _) into Hterm.
  destruct (finish_identity_follows _ _ _ _ _ _ _ Hf Hr Hs Hterm) as [Hfollow Hsame].
  apply terminal_is_final in Hterm.
  rename select (finish_execution _ _ _ _ _ = _) into Hx. apply finish_execution_steps in Hx.
  rename select (validate_catalog _ = _) into Hv. apply valid_catalog_of in Hv.
  match goal with H : validate_m3 _ _ = Ok ?u |- _ =>
    destruct u; apply valid_m3_validate in H as [_ Hm3] end.
  wp_write. track ltac:(by eapply st_references). wp_go.
  wp_write. track ltac:(by eapply st_m3'). wp_go.
  wp_write. track ltac:(by eapply st_exec'). wp_go.
  wp_write; [|by wp_go; done]. track ltac:(by apply st_finished). wp_go.
  match goal with |- wp _ _ ?d' => eapply (wp_mono _ (λ _ d'', rtc db_step d d'')) end.
  { wp_match; wp_go; [|done]. wp_write. track ltac:(by apply st_output). }
  clear Hd. cbv beta. intros [] d' Hd. by wp_go.
Qed.

(** ** The catalogs *)

Lemma find_run_elem c id r : find_run c id = Some r → r ∈ ic_runs c ∧ em_id (rn_metadata r) = id.
Proof. intros [Hr E]%find_Some_elem. by apply bool_decide_eq_true in E. Qed.

Lemma keeps_runs_follow previous c :
  for_each (keeps_run previous c) previous.(ic_runs) = Ok tt → runs_follow previous c.
Proof.
  rewrite for_each_ok. intros Hkeep id r [Hr <-]%find_run_elem. exists r. split; [|by left].
  rewrite Forall_forall in Hkeep. specialize (Hkeep _ Hr). unfold keeps_run in Hkeep.
  ok_inv. by bool_prop.
Qed.

Lemma replace_catalog_sound command : sound (replace_catalog command).
Proof.
  apply sound_try. intros [] Hv%validate_catalog_ok. method. wp_go.
  match goal with H : validate_m3 _ _ = Ok ?u, Hc : ct_catalog (d_m3 d) = _ |- _ =>
    destruct u; apply valid_m3_validate in H as [_ Hm3] end.
  rename select (for_each (keeps_run _ _) _ = _) into Hkeep. destruct_unit Hkeep.
  apply keeps_runs_follow in Hkeep. wp_write.
  track ltac:(eapply st_identity'; [done..|]; intros m3 Hm _; congruence). by wp_go.
Qed.

Lemma replace_m3_catalog_sound command : sound (replace_m3_catalog command).
Proof.
  method. wp_go. match goal with H : validate_m3_catalog _ _ = Ok ?u |- _ => destruct u end.
  wp_write. track ltac:(by eapply st_m3'). by wp_go.
Qed.

(** *** What a provider reports *)

Lemma running_follows c id run reported session now :
  find_run c id = Some run →
  let c1 := if in_run_state [RunStarting] (rn_state run)
            then with_run c id (run_in_state RunRunning (rn_started_at run) (rn_finished_at run) now)
            else c in
  let c2 := match reported with
            | Some s => with_provider_session c1 session s now
            | None => c1
            end in
  runs_follow c c2 ∧ same_references c c2.
Proof.
  intros Hr c1 c2. assert (Hc1 : runs_follow c c1 ∧ same_references c c1).
  { subst c1. unfold in_run_state. case_bool_decide as Es; [|by split; [apply runs_follow_refl|]].
    split; [|done]. eapply runs_follow_with_run; [done|apply rs_running; set_solver|done]. }
  subst c2. destruct reported; [|done]. exact Hc1.
Qed.

Lemma record_provider_running_sound run session : sound (record_provider_running run session).
Proof.
  apply sound_reject. method. wp_go.
  match goal with |- wp _ ?Q _ => eapply (wp_mono _ (λ _ d', d' = d)) end.
  { destruct (in_run_state [RunStarting] _); [by apply wp_check_revision|by wp_go]. }
  intros [] ? ->. cbv beta. wp_go.
  match goal with |- wp _ ?Q _ => eapply (wp_mono _ (λ _ d', d' = d)) end.
  { case_bool_decide; by wp_go. }
  intros [] ? ->. cbv beta.
  set (reported := match session with Some _ => _ | None => None end) in *. clearbody reported.
  wp_match; [by wp_go|]. wp_go.
  rename select (validate_catalog _ = _) into Hv. apply valid_catalog_of in Hv.
  rename select (find_run _ run = _) into Hr.
  wp_write. track ltac:(eapply st_references; [done..| |]; by apply running_follows). by wp_go.
Qed.

Lemma store_cancelling_refines c id run d0 d :
  rtc db_step d0 d → ct_catalog (d_identity d) = Text c → find_run c id = Some run →
  in_run_state [RunStarting; RunRunning; RunRecovering; RunCancelling] (rn_state run) = true →
  wp (store_cancelling (ct_revision (d_identity d)) c run) (λ _ d', rtc db_step d0 d') d.
Proof.
  intros Hd Hc Hr Hs. unfold store_cancelling. wp_go.
  rename select (validate_catalog _ = _) into Hv. apply valid_catalog_of in Hv.
  rewrite (find_run_id _ _ _ Hr) in *. apply bool_decide_eq_true in Hs.
  wp_write. track ltac:(eapply st_run; [done..|by apply rs_cancelling|done|done]). by wp_go.
Qed.

Lemma record_provider_cancel_after_preflight_sound run :
  sound (record_provider_cancel_after_preflight run).
Proof.
  method. wp_go.
  match goal with |- wp _ ?Q _ => eapply (wp_mono _ (λ _ d', rtc db_step d d')) end.
  { wp_match; [by wp_go|]. wp_match; [by eapply store_cancelling_refines|by wp_go]. }
  clear Hd. cbv beta. intros revision d' Hd. by wp_go.
Qed.

Lemma record_provider_cancel_accepted_sound run rev :
  sound (record_provider_cancel_accepted run rev).
Proof.
  method. wp_go.
  match goal with |- wp _ ?Q _ => eapply (wp_mono _ (λ _ d', rtc db_step d d')) end.
  { eapply store_cancelling_refines; try done. unfold in_run_state in *. bool_prop.
    apply bool_decide_eq_true. set_solver. }
  clear Hd. cbv beta. intros revision d' Hd. by wp_go.
Qed.

(** *** The first-run workflow *)

Lemma store_m3_refines c m3 d0 d :
  rtc db_step d0 d → ct_catalog (d_identity d) = Text c → validate_m3_catalog m3 c = Ok tt →
  wp (store_m3 (ct_revision (d_m3 d)) m3) (λ _ d', rtc db_step d0 d' ∧ d_graphs d' = d_graphs d) d.
Proof.
  intros Hd Hc Hm. unfold store_m3. wp_go. wp_write. track ltac:(by eapply st_m3'). by wp_go.
Qed.

Lemma validate_stored_m3 wrap c m3 executions u :
  validate_stored wrap c m3 executions = Ok u → validate_m3_catalog m3 c = Ok tt.
Proof. unfold validate_stored. destruct u. by intros [_ ?]%map_err_ok%valid_m3_validate. Qed.

Lemma accepted_started ids m3 c meeting content actor at_ m3' e :
  accept_mvp_decision ids m3 c meeting content actor at_ = (m3', Ok e) → started e.
Proof.
  unfold accept_mvp_decision. intros E. repeat case_match; simplify_eq.
  match goal with E : map_err _ _ = Ok _ |- _ => apply map_err_ok in E; rename E into Hs end.
  exists ids.(di_execution), e. unfold start in *. ok_inv. cbn.
  by match goal with E : validate_graph _ = Ok _ |- _ => rewrite E end.
Qed.

(** The methods that edit the state catalog end in the same way. *)
Ltac store_m3_call :=
  match goal with
  | H : validate_stored _ _ _ _ = Ok _ |- wp _ _ ?d =>
      apply validate_stored_m3 in H;
      eapply wp_mono; [by eapply (store_m3_refines _ _ d)|];
      cbv beta; intros ? ? [? ?]
  end.
Ltac m3_method :=
  method; wp_go; store_m3_call;
  match goal with
  | Hd : rtc db_step ?d ?d, Hd' : rtc db_step ?d ?d' |- _ => clear Hd
  end; by wp_go.

Lemma accept_decision_baseline_sound command : sound (accept_decision_baseline command).
Proof.
  method. unfold draw_decision_ids. wp_go.
  rename select (accept_mvp_decision _ _ _ _ _ _ _ = _) into Hacc. subst.
  apply accepted_started in Hacc. store_m3_call. clear Hd. wp_go.
  wp_write. rename select (rtc db_step d _) into Hd. track ltac:(by apply st_start). by wp_go.
Qed.

Lemma create_mvp_document_sound command : sound (create_mvp_document command).
Proof. m3_method. Qed.
Lemma accept_mvp_document_sound command : sound (accept_mvp_document command).
Proof. m3_method. Qed.
Lemma prepare_knowledge_delivery_sound command : sound (prepare_knowledge_delivery command).
Proof. m3_method. Qed.
Lemma complete_knowledge_delivery_sound command : sound (complete_knowledge_delivery command).
Proof. m3_method. Qed.
Lemma record_cost_sound command : sound (record_cost command).
Proof. m3_method. Qed.

(** A state catalog without assignments, rooms and meetings fits any identity
    catalog. *)
Lemma unconfigured_fits m3 c c' :
  m3_is_unconfigured m3 = true → validate_m3_catalog m3 c = Ok tt →
  validate_m3_catalog m3 c' = Ok tt.
Proof.
  destruct m3 as [[pets [|? ?] [|? ?]] [[|? ?] [|? ?]] m3d]; unfold m3_is_unconfigured;
    cbn [m3_office m3_meetings m3_deliverables oc_pet_assignments oc_rooms oc_pet_profiles
         mc_meetings mc_decision_baselines]; by rewrite ?andb_false_r.
Qed.

Lemma with_pets_fit m3 pets c :
  validate_m3_catalog m3 c = Ok tt →
  map (λ x, em_id (pp_metadata x)) pets
    = map (λ x, em_id (pp_metadata x)) (oc_pet_profiles (m3_office m3)) →
  Forall valid_profile pets → validate_m3_catalog (with_pets m3 pets) c = Ok tt.
Proof.
  rewrite !validate_m3_catalog_ok. intros ([] & [] & ?) Hid Hpets.
  split_and!; [split; cbn; by rewrite ?Hid|split; [|done..]|done].
  eapply Forall_impl; [done|]. intros m []. by split.
Qed.

(** The pets an unconfigured state catalog has are the builtin ones. *)
Lemma unconfigured_pets m3 :
  m3_is_unconfigured m3 = true → oc_pet_profiles (m3_office m3) ≠ [] →
  map (λ x, em_id (pp_metadata x)) (oc_pet_profiles (m3_office m3))
    = [em_id (pp_metadata builtin_pet_profile)] ∧
  Forall valid_profile (oc_pet_profiles (m3_office m3)).
Proof.
  unfold m3_is_unconfigured. intros [E|E]%orb_true_iff Hn; bool_prop; [done|].
  rename select (_ || _ = true) into E.
  apply orb_true_iff in E as [->%bool_decide_eq_true| ->%bool_decide_eq_true];
    (split; [done|]); apply Forall_singleton, validate_profile_ok; by vm_compute.
Qed.

Lemma prepared is_dir ids name root codex agy draft :
  prepare_draft is_dir ids name root codex agy = Ok draft →
  valid_catalog (mv_identity draft) ∧ validate_m3_catalog (mv_m3 draft) (mv_identity draft) = Ok tt ∧
  map (λ x, em_id (pp_metadata x)) (oc_pet_profiles (m3_office (mv_m3 draft)))
    = [em_id (pp_metadata builtin_pet_profile)].
Proof.
  unfold prepare_draft, validate_draft. intros E. ok_inv.
  repeat match goal with H : _ = Ok ?u |- _ => is_var u; destruct u end.
  rewrite validate_m3_catalog_ok, <- validate_catalog_ok, <- validate_office_ok,
    <- validate_meetings_ok.
  split_and!; try done.
  - cbn. unfold draft_office. cbv zeta. destruct ids.(mi_assignments) as [[]]. reflexivity.
Qed.

(** The state catalog that [prepare_mvp] stores. *)
Lemma prepared_fits m3 draft c :
  m3_is_unconfigured m3 = true → validate_m3_catalog draft c = Ok tt →
  map (λ x, em_id (pp_metadata x)) (oc_pet_profiles (m3_office draft))
    = [em_id (pp_metadata builtin_pet_profile)] →
  validate_m3_catalog (if bool_decide (oc_pet_profiles (m3_office m3) = []) then draft
     else with_pets draft (oc_pet_profiles (m3_office m3))) c = Ok tt.
Proof.
  intros Hu Hd Hpets. case_bool_decide as En; [done|].
  destruct (unconfigured_pets m3 Hu En) as [Hid Hv]. apply with_pets_fit; [done| |done].
  congruence.
Qed.

Lemma draw_mvp_ids_sound : sound draw_mvp_ids.
Proof. by apply sound_pure. Qed.

Lemma runs_follow_empty c : runs_follow empty_identity c.
Proof. intros id r [Hr _]%find_run_elem. by apply elem_of_nil in Hr. Qed.

Lemma prepare_mvp_sound is_dir command : sound (prepare_mvp is_dir command).
Proof.
  apply sound_bind; [apply draw_mvp_ids_sound|intros ids].
  apply sound_try. intros draft (Hv & Hm & Hpets)%prepared. method. wp_go. bool_prop.
  rename select (m3_is_unconfigured _ = true) into Hu.
  eapply prepared_fits in Hm; [|done..]. rename select IdentityCatalog into c. subst c.
  wp_write. track ltac:(eapply st_identity'; [done..|apply runs_follow_empty|];
    intros m3 Hm3; apply unconfigured_fits; congruence).
  wp_go. wp_write. track ltac:(by eapply st_m3'). by wp_go.
Qed.

End methods.
