(* ===== verification/StoreReachable.v ===== *)
(** * The databases there are

    Recovery refines the abstract database and settles it; the methods of the
    store are gathered in one type, [store_op]; [stored] is what they make of an
    empty file in any order, with restarts. *)
From stdpp Require Import relations.
From S2P Require Import Prelude Policy Identity Catalog Office Meeting.
From S2P Require Import Deliverable Approval Graph Execution ExecutionFacts M3 Mvp Protocol.
From S2P Require Import Store StoreLogic Launch StagedLaunches GraphStore FinishRun CatalogStore.
From S2P Require Import CredentialGrants Dispatch DaemonStore StoreSpec StoreRefines StoreMethods.

Section methods.
Context `{Environment} `{Digest} `{Serializer} `{Formats}.

(** ** Recovery *)

Definition idle_exec (e : GraphExecution) : Prop :=
  valid_exec e ∧ Forall (λ n, ne_state n ≠ Running) e.(ge_nodes).
Definition idle_row (row : graph_row) : Prop := ∃ e, gw_execution row = Text e ∧ idle_exec e.
Definition idle_runs (row : catalog_row IdentityCatalog) : Prop :=
  ∃ c, ct_catalog row = Text c ∧ valid_catalog c ∧ Forall (λ r, run_is_active r = false) (ic_runs c).

(** No run is active, no launch is being dispatched, no node is running; the
    catalog and every execution are well formed. *)
Record settled (d : db) : Prop := {
  sd_runs : idle_runs (d_identity d);
  sd_launches : ∀ run row, d_staged d !! run = Some row → sw_state row ≠ SlDispatching;
  sd_graphs : ∀ id row, d_graphs d !! id = Some row → idle_row row;
}.

(** What recovery makes of a run. *)
Lemma recover_run_ok d t runs n run runs' n' :
  recover_run d t (runs, n) run = Ok (runs', n') →
  ∃ run', runs' = runs ++ [run'] ∧ em_id (rn_metadata run') = em_id (rn_metadata run) ∧
    (run' = run ∨ run_step run run') ∧ run_is_active run' = false ∧
    (n ≤ n' ∧ (n' = n → run' = run))%Z.
Proof.
  unfold recover_run. intros E.
  destruct (awaits_staged run) eqn:Ea.
  { ok_inv. exists run. split_and!; try done; [by left|].
    by destruct run as [? ? ? [] []]. }
  destruct (in_run_state [RunStarting] _ && _ || _) eqn:Eb; ok_inv.
  - match goal with E : checked_add _ _ _ = Some n' |- _ => unfold checked_add in E; case_bool_decide; simplify_eq end.
    exists (recovered_run t run). split_and!; try done; [right|lia..].
    destruct run as [? ? ? [] []]; try done; apply rs_lost; cbn; try set_solver; done.
  - exists run. split_and!; try done; [by left|]. by destruct run as [? ? ? [] []].
Qed.

Lemma recover_runs_ok d t l runs n runs' n' :
  fold_try (recover_run d t) (runs, n) l = Ok (runs', n') →
  (n ≤ n')%Z ∧ ∃ l', runs' = runs ++ l' ∧ Forall (λ r, run_is_active r = false) l' ∧
    (n' = n → l' = l) ∧
    Forall2 (λ r r', em_id (rn_metadata r') = em_id (rn_metadata r) ∧ (r' = r ∨ run_step r r')) l l'.
Proof.
  revert runs n. induction l as [|run l IH]; intros runs n E; cbn [fold_try] in E.
  - simplify_eq. split; [lia|]. exists []. by rewrite app_nil_r.
  - ok_inv. match goal with H : recover_run _ _ _ _ = Ok ?x |- _ => destruct x as [runs1 n1];
      apply recover_run_ok in H as (run' & -> & Hid & Hstep & Ha & Hn & Heq) end.
    apply IH in E as (Hn' & l' & -> & Hl & Heq' & Hf). split; [lia|].
    exists (run' :: l'). rewrite <- app_assoc. split_and!; try done; [by constructor| |by constructor].
    intros ->. rewrite Heq, Heq' by lia. done.
Qed.

Lemma runs_follow_with_runs c runs :
  Forall2 (λ r r', em_id (rn_metadata r') = em_id (rn_metadata r) ∧ (r' = r ∨ run_step r r'))
    (ic_runs c) runs →
  runs_follow c (with_runs c runs).
Proof.
  intros Hf id r. unfold find_run, find_by. cbn [with_runs ic_runs].
  induction Hf as [|x y l l' [Hid Hs] Hf IH]; cbn; [done|]. unfold has_metadata_id at 1 3. rewrite Hid.
  case_bool_decide; [|done]. intros [= ->]. eauto.
Qed.

Lemma reconcile_catalog_refines d0 d :
  rtc db_step d0 d →
  wp reconcile_catalog_for_recovery (λ _ d', rtc db_step d0 d' ∧
    idle_runs (d_identity d') ∧ d_staged d' = d_staged d ∧ d_graphs d' = d_graphs d) d.
Proof.
  intros Hd. unfold reconcile_catalog_for_recovery. wp_go.
  rename select (load_catalog_row d = _) into Hc. apply load_catalog_row_ok in Hc as (-> & Hc & Hvc).
  rename select (fold_try _ _ _ = _) into Hr.
  apply recover_runs_ok in Hr as (_ & l' & -> & Hl & Heq & Hf). wp_match.
  - wp_go. split_and!; try done. eexists. split_and!; [done..|].
    rename select ((_ =? 0)%Z = true) into Ez. apply Z.eqb_eq in Ez. by rewrite <- (Heq Ez).
  - wp_go. rename select (validate_catalog _ = _) into Hv. apply valid_catalog_of in Hv.
    wp_write. track ltac:(eapply st_references; [done..|by apply runs_follow_with_runs|done]).
    wp_go. split_and!; try done. by eexists.
Qed.

Lemma reconcile_idle e e' changed :
  reconcile_after_restart e = (e', changed) → valid_exec e →
  idle_exec e' ∧ (changed = 0 → idle_exec e) ∧ rtc exec_step e e'.
Proof.
  intros E Hv. assert (Hs : rtc exec_step e e').
  { apply rtc_once. exists ReconcileAfterRestart. split; [done|]. unfold apply_op. by rewrite E. }
  pose proof (exec_steps_valid _ _ Hs Hv) as Hv'.
  unfold reconcile_after_restart in E. simplify_eq. split_and!; [split; [done|]|split; [done|]|done].
  - destruct (0 <? _); cbn; apply Forall_map, Forall_true; intros n; unfold in_state;
      cbn; case_bool_decide; done.
  - rename select (length _ = 0) into Hz. apply nil_length_inv in Hz.
    apply Forall_forall. intros n Hn Er. apply (elem_of_nil n). rewrite <- Hz.
    apply elem_of_filter_bool. split; [done|]. by apply bool_decide_eq_true.
Qed.

(** The rows that are left are as they were; the others are idle. *)
Record reconciling (d0 d1 : db) (l : list (GraphRunId * graph_row)) (d : db) : Prop := {
  rg_steps : rtc db_step d0 d;
  rg_nodup : NoDup l.*1;
  rg_left : ∀ id row, (id, row) ∈ l → d_graphs d !! id = Some row;
  rg_done : ∀ id row, d_graphs d !! id = Some row → (id, row) ∈ l ∨ idle_row row;
  rg_identity : d_identity d = d_identity d1;
  rg_staged : d_staged d = d_staged d1;
}.

Lemma reconcile_graph_refines d0 d1 r l d :
  reconciling d0 d1 (r :: l) d → wp (reconcile_graph r) (λ _, reconciling d0 d1 l) d.
Proof.
  intros [Hd Hnd Hleft Hdone Hi Hs]. destruct r as [id row].
  cbn in Hnd. apply NoDup_cons in Hnd as [Hnew Hnd].
  assert (Hrow : d_graphs d !! id = Some row) by (apply Hleft; left).
  unfold reconcile_graph. wp_go.
  rename select (reconcile_after_restart _ = _) into Hr.
  rename select (validate_execution _ = _) into Hv. destruct_unit Hv.
  apply validate_execution_ok in Hv. apply reconcile_idle in Hr as (Hidle' & Hidle & Hsteps); [|done].
  wp_match.
  - wp_go. rename select ((_ =? 0) = true) into Ez. apply Nat.eqb_eq in Ez.
    split; try done; [intros; apply Hleft; by right|].
    intros id' row' Hr'. destruct (Hdone _ _ Hr') as [[[= -> ->]|?]%elem_of_cons|?]; auto.
    right. eexists. split; [done|]. by apply Hidle.
  - wp_go. wp_write. track ltac:(by eapply st_exec'). wp_go.
    split; try done; cbn.
    + intros id' row' Hin. rewrite lookup_alter_ne; [apply Hleft; by right|].
      intros <-. apply Hnew. apply list_elem_of_fmap. by exists (id, row').
    + intros id' row'. rewrite lookup_alter. case_decide.
      * subst. rewrite Hrow. intros [= <-]. right. by eexists.
      * intros Hr'. destruct (Hdone _ _ Hr') as [[[= -> ->]|?]%elem_of_cons|?]; auto. done.
Qed.

Lemma reconcile_graphs_refines d0 d :
  rtc db_step d0 d →
  wp reconcile_graphs_for_recovery (λ _ d', rtc db_step d0 d' ∧
    (∀ id row, d_graphs d' !! id = Some row → idle_row row) ∧
    d_identity d' = d_identity d ∧ d_staged d' = d_staged d) d.
Proof.
  intros Hd. unfold reconcile_graphs_for_recovery. wp_go.
  eapply wp_mono.
  - apply (wp_for_rows_rest _ _ (reconciling d0 d)).
    { intros. by apply reconcile_graph_refines. }
    pose proof (merge_sort_Permutation id_before (map_to_list (d_graphs d))) as Hp.
    split; try done.
    + rewrite Hp. apply NoDup_fst_map_to_list.
    + intros id row. rewrite Hp. apply elem_of_map_to_list.
    + intros id row Hr. left. rewrite Hp. by apply elem_of_map_to_list.
  - cbv beta. intros [] d' [? _ _ Hdone ? ?]. split_and!; try done.
    intros id row Hr. destruct (Hdone _ _ Hr) as [?%elem_of_nil|]; done.
Qed.

Lemma reconcile_launches_refines d0 d :
  rtc db_step d0 d →
  wp reconcile_launches (λ _ d', rtc db_step d0 d' ∧
    (∀ run row, d_staged d' !! run = Some row → sw_state row ≠ SlDispatching) ∧
    d_identity d' = d_identity d ∧ d_graphs d' = d_graphs d) d.
Proof.
  intros Hd. unfold reconcile_launches. wp_go. wp_write. track ltac:(apply st_lost_launches).
  assert (Hl : ∀ run row, ((λ row, if in_launch_state [SlDispatching] row
    then move_staged SlUncertain row else row) <$> d_staged d) !! run = Some row →
    sw_state row ≠ SlDispatching).
  { intros run row (x & <- & _)%lookup_fmap_Some. destruct (in_launch_state _ x) eqn:E; [done|].
    intros Ex. unfold in_launch_state in E. bool_prop. set_solver. }
  wp_go. wp_match; wp_go; done.
Qed.

Lemma Forall_update_first {A} (P : A → Prop) p f l :
  Forall P l → (∀ x, P x → P (f x)) → Forall P (update_first p f l).
Proof. intros Hl Hf. induction Hl; cbn; [done|]. destruct (p _); auto. Qed.

Lemma cancel_staged_idle e id owner run e' :
  cancel_staged_node e id owner run = Ok e' → idle_exec e → idle_exec e'.
Proof.
  intros E [Hv Hi]. pose proof (cancel_staged_refines _ _ _ _ _ Hv E) as Hf. split.
  - replace e' with (apply_op e (CancelStaged id owner run)); [by apply apply_op_valid|].
    unfold apply_op. by rewrite E.
  - clear E Hv. induction Hf as [|x y l l' Hs Hf IH]; [done|].
    apply Forall_cons in Hi as [Hx Hl]. constructor; [|by apply IH]. by inversion Hs; subst.
Qed.

Lemma cancel_settled id reason d :
  settled d → wp (cancel_for_request id reason) (λ _ d', settled d') d.
Proof.
  intros Hset. pose proof Hset as [(c & Hc & Hvc & Hruns) Hl Hg]. unfold cancel_for_request. wp_run.
  wp_match; [|by wp_run]. wp_run. wp_match; [by wp_run|]. wp_run.
  rename select (load_catalog_row d = _) into Hcat. apply load_catalog_row_ok in Hcat as (-> & Hcat & _).
  rename select (load_graph d _ = _) into Hload. apply load_graph_ok in Hload as (row & Hrow & He & _).
  rename select (cancel_staged_node _ _ _ _ = _) into Hcancel.
  rename select (validate_catalog _ = _) into Hv. apply valid_catalog_of in Hv.
  apply cancel_staged_idle in Hcancel; [|destruct (Hg _ _ Hrow) as (? & ? & ?); congruence].
  wp_write. wp_run. wp_write. wp_run. wp_write; [|by wp_run; done]. wp_run.
  wp_write; [|by wp_run; done].
  match goal with |- wp _ _ ?d' => assert (Hs : settled d') end.
  { split; cbn.
    - eexists. split_and!; [done..|]. rewrite Hc in Hcat. simplify_eq.
      apply Forall_update_first; done.
    - intros run' row' [[_ <-]|[_ Hr]]%lookup_insert_Some; [done|by eapply Hl].
    - intros id' row' [(_ & x & _ & ->)|[_ Hr]]%lookup_alter_Some; [by eexists|by eapply Hg]. }
  destruct Hs. wp_run. wp_write; wp_run; by split.
Qed.

Lemma expire_settled now d : settled d → wp (expire now) (λ _ d', settled d') d.
Proof.
  intros Hs. unfold expire. wp_run. apply wp_for_rows; [|done]. intros. by apply cancel_settled.
Qed.

Lemma recover_refines d :
  keyed d →
  wp (let! d := get in
      update_daemon (dr_revision (d_daemon d) + 1) "recovering" ;>
      insert_event "daemon.recovery_started" [] ;>
      reconcile_catalog_for_recovery ;> reconcile_graphs_for_recovery ;> reconcile_launches ;>
      let! now := now_ms in expire now) (λ _ d', rtc db_step d d' ∧ settled d') d.
Proof.
  intros Hk. assert (Hd : rtc db_step d d) by done. wp_go. daemon. wp_go.
  eapply wp_mono; [by apply reconcile_catalog_refines|]. clear Hd.
  cbv beta. intros [] d1 (Hd & Hruns & _ & _). wp_go.
  eapply wp_mono; [by apply reconcile_graphs_refines|]. clear Hd.
  cbv beta. intros [] d2 (Hd & Hg & Hi & _). wp_go.
  eapply wp_mono; [by apply reconcile_launches_refines|]. clear Hd.
  cbv beta. intros [] d3 (Hd & Hl & Hi' & Hg'). wp_go.
  apply wp_conj; [by apply expire_refines|]. apply expire_settled.
  split; [by rewrite Hi', Hi|done|by rewrite Hg'].
Qed.

Lemma recover_sound : sound recover.
Proof. apply sound_transact. intros d Hk. eapply wp_mono; [by apply recover_refines|]. by intros ? ? []. Qed.

(** ** All methods *)

Section all.
Context (is_dir : string → bool) `{CredentialReader}.

Inductive store_op :=
| OpRecover
| OpReplaceCatalog (c : ReplaceCatalogCommand)
| OpReplaceM3Catalog (c : ReplaceM3CatalogCommand)
| OpPrepareMvp (c : PrepareMvpCommand)
| OpAcceptDecisionBaseline (c : AcceptDecisionBaselineCommand)
| OpCreateDocument (c : CreateDocumentCommand)
| OpAcceptDocument (c : AcceptDocumentCommand)
| OpPrepareDelivery (c : PrepareKnowledgeDeliveryCommand)
| OpCompleteDelivery (c : CompleteKnowledgeDeliveryCommand)
| OpRecordCost (c : RecordCostCommand)
| OpPreflightCancel (run : RunId) (revision : Z)
| OpProviderRunning (run : RunId) (session : option string)
| OpCancelAfterPreflight (run : RunId)
| OpCancelAccepted (run : RunId) (revision : Z)
| OpCreateGraph (e : GraphExecution)
| OpRestartGraph (id : GraphRunId) (revision : Z)
| OpRetryNode (id : GraphRunId) (c : RetryFailedGraphNodeCommand)
| OpClaimNodes (id : GraphRunId) (revision : Z) (owner : string) (limit : Z)
| OpCompleteNode (id : GraphRunId) (revision : Z) (node : GraphNodeId) (owner : string)
    (succeeded : bool)
| OpBegin (id : GraphRunId) (c : BeginGraphNodeRunCommand)
| OpBeginProvider (id : GraphRunId) (c : BeginGraphNodeRunCommand) (b : ProviderRunBinding)
| OpPreflightLaunch (receipt : BeginGraphNodeRunReceipt)
| OpFinish (id : GraphRunId) (c : FinishGraphNodeRunCommand)
| OpCreateApproval (r : ApprovalRequest)
| OpApproval (id : ApprovalRequestId)
| OpApprovals
| OpDecide (c : DecideApprovalCommand)
| OpCancelStaged (run : RunId) (revision : Z)
| OpGrant (id : ApprovalRequestId)
| OpConsumeGrant (id : ApprovalRequestId) (action : ApprovalAction)
| OpRevokeGrant (id : ApprovalRequestId) (actor : string)
| OpDispatch (id : ApprovalRequestId)
| OpMarkReady
| OpCheckpoint (c : CheckpointCommand)
| OpSuspend (c : CheckpointCommand)
| OpShutdown (c : CheckpointCommand)
| OpResume (c : CheckpointCommand)
| OpExpire.

(** The parameters that are unsigned in the program. *)
Definition in_range (op : store_op) : Prop :=
  match op with OpClaimNodes _ _ owner limit => op_in_range (ClaimReady owner limit) | _ => True end.

(** How a method ends, and the state it leaves. *)
Definition ended {E A} (r : outcome E A * broker) : outcome unit unit * broker :=
  (match r.1 with Ok _ => Ok tt | Err _ => Err tt | Panic => Panic | Diverge => Diverge end, r.2).

Definition run_op (op : store_op) (b : broker) : outcome unit unit * broker :=
  match op with
  | OpRecover => ended (on_store recover b)
  | OpReplaceCatalog c => ended (on_store (replace_catalog c) b)
  | OpReplaceM3Catalog c => ended (on_store (replace_m3_catalog c) b)
  | OpPrepareMvp c => ended (on_store (prepare_mvp is_dir c) b)
  | OpAcceptDecisionBaseline c => ended (on_store (accept_decision_baseline c) b)
  | OpCreateDocument c => ended (on_store (create_mvp_document c) b)
  | OpAcceptDocument c => ended (on_store (accept_mvp_document c) b)
  | OpPrepareDelivery c => ended (on_store (prepare_knowledge_delivery c) b)
  | OpCompleteDelivery c => ended (on_store (complete_knowledge_delivery c) b)
  | OpRecordCost c => ended (on_store (record_cost c) b)
  | OpPreflightCancel run rev => ended (on_store (preflight_provider_cancel run rev) b)
  | OpProviderRunning run session => ended (on_store (record_provider_running run session) b)
  | OpCancelAfterPreflight run => ended (on_store (record_provider_cancel_after_preflight run) b)
  | OpCancelAccepted run rev => ended (on_store (record_provider_cancel_accepted run rev) b)
  | OpCreateGraph e => ended (on_store (create_graph_execution e) b)
  | OpRestartGraph id rev => ended (on_store (restart_missing_output_graph id rev) b)
  | OpRetryNode id c => ended (on_store (retry_failed_graph_node id c) b)
  | OpClaimNodes id rev owner limit => ended (on_store (claim_graph_nodes id rev owner limit) b)
  | OpCompleteNode id rev node owner ok => ended (on_store (complete_graph_node id rev node owner ok) b)
  | OpBegin id c => ended (on_store (begin_graph_node_run id c) b)
  | OpBeginProvider id c binding => ended (on_store (begin_provider_graph_node_run id c binding) b)
  | OpPreflightLaunch receipt => ended (on_store (preflight_provider_launch receipt) b)
  | OpFinish id c => ended (on_store (finish_graph_node_run id c) b)
  | OpCreateApproval r => ended (on_store (create_approval r) b)
  | OpApproval id => ended (on_store (approval id) b)
  | OpApprovals => ended (on_store approvals b)
  | OpDecide c => ended (on_store (decide_approval c) b)
  | OpCancelStaged run rev => ended (on_store (cancel_staged_run run rev) b)
  | OpGrant id => ended (on_store (credential_grant id) b)
  | OpConsumeGrant id action => ended (on_store (consume_credential_grant id action) b)
  | OpRevokeGrant id actor => ended (on_store (revoke_credential_grant id actor) b)
  | OpDispatch id => ended (prepare_staged_credentials id b)
  | OpMarkReady => ended (on_store mark_ready b)
  | OpCheckpoint c => ended (on_store (checkpoint c) b)
  | OpSuspend c => ended (on_store (suspend c) b)
  | OpShutdown c => ended (on_store (shutdown c) b)
  | OpResume c => ended (on_store (resume c) b)
  | OpExpire => ended (on_store expire_staged_launches b)
  end.

Lemma begin_graph_node_run_sound id c : sound (begin_graph_node_run id c).
Proof. apply begin_graph_node_run_inner_sound. Qed.
Lemma begin_provider_graph_node_run_sound id c b : sound (begin_provider_graph_node_run id c b).
Proof. apply begin_graph_node_run_inner_sound. Qed.
Lemma preflight_provider_cancel_sound run rev : sound (preflight_provider_cancel run rev).
Proof. apply sound_read_only. Qed.
Lemma preflight_provider_launch_sound r : sound (preflight_provider_launch r).
Proof. apply sound_read_only. Qed.
Lemma checkpoint_sound c : sound (checkpoint c).
Proof. apply persist_checkpoint_sound. Qed.
Lemma suspend_sound c : sound (suspend c).
Proof. apply persist_checkpoint_sound. Qed.
Lemma shutdown_sound c : sound (shutdown c).
Proof. apply persist_checkpoint_sound. Qed.

#[local] Hint Resolve recover_sound replace_catalog_sound replace_m3_catalog_sound
  prepare_mvp_sound accept_decision_baseline_sound create_mvp_document_sound
  accept_mvp_document_sound prepare_knowledge_delivery_sound complete_knowledge_delivery_sound
  record_cost_sound record_provider_running_sound record_provider_cancel_after_preflight_sound
  record_provider_cancel_accepted_sound create_graph_execution_sound
  restart_missing_output_graph_sound retry_failed_graph_node_sound claim_graph_nodes_sound
  complete_graph_node_sound begin_graph_node_run_sound begin_provider_graph_node_run_sound
  finish_graph_node_run_sound create_approval_sound approval_sound approvals_sound
  decide_approval_sound cancel_staged_run_sound credential_grant_sound
  consume_credential_grant_sound revoke_credential_grant_sound mark_ready_sound checkpoint_sound
  suspend_sound shutdown_sound resume_sound expire_staged_sound preflight_provider_cancel_sound
  preflight_provider_launch_sound : store.

Lemma ended_steps {A} (m : M A) b :
  sound m → keyed (database b) → rtc db_step (database b) (database (ended (on_store m b)).2).
Proof. intros Hm. apply Hm. Qed.

Lemma run_op_steps op b :
  in_range op → keyed (database b) →
  rtc db_step (database b) (database (run_op op b).2).
Proof.
  intros Hop Hk. destruct op; unfold run_op;
    try (apply ended_steps; [solve [eauto with store nocore]|exact Hk]).
  by apply prepare_staged_credentials_sound.
Qed.

(** ** The databases there are *)

(** A process that opens the database anew: its mutex is not poisoned. *)
Definition reopened (b : broker) : broker :=
  with_world b {| w_db := w_db (bk_world b); w_clock := w_clock (bk_world b);
                  w_uuid := w_uuid (bk_world b); w_commits := w_commits (bk_world b);
                  w_poisoned := false |}.

(** From an empty file, by any methods with any arguments, and restarts. *)
Inductive stored : broker → Prop :=
| stored_new w id t :
    w_db w = empty_db id t → stored {| bk_world := w; bk_reads := [] |}
| stored_reopened b : stored b → stored (reopened b)
| stored_op b op : stored b → in_range op → stored (run_op op b).2.

Lemma keyed_empty id t : keyed (empty_db id t).
Proof. by split. Qed.

Lemma stored_steps b : stored b → ∃ id t, rtc db_step (empty_db id t) (database b).
Proof.
  induction 1 as [w id t E|b Hb (id & t & IH)|b op Hb (id & t & IH) Hop];
    [exists id, t; unfold database; cbn; by rewrite E|by exists id, t|].
  exists id, t. etrans; [exact IH|]. apply run_op_steps; [done|].
  eapply keyed_steps; [exact IH|apply keyed_empty].
Qed.

Lemma stored_keyed b : stored b → keyed (database b).
Proof. intros (id & t & Hs)%stored_steps. eapply keyed_steps; [exact Hs|apply keyed_empty]. Qed.

End all.
End methods.
