(* ===== verification/StoreFacts.v ===== *)
(** * Invariants of the abstract database

    What every [db_step] preserves, and how a database follows another one. *)
From stdpp Require Import relations.
From S2P Require Import Prelude Policy Identity Catalog Office Meeting.
From S2P Require Import Deliverable Approval Graph Execution ExecutionFacts M3 Mvp Protocol.
From S2P Require Import Store StoreLogic Launch StagedLaunches GraphStore FinishRun CatalogStore.
From S2P Require Import CredentialGrants Dispatch DaemonStore StoreSpec StoreRefines.

(** A column, or several, that is unique. *)
Definition unique_by {K A B} `{Countable K} (key : A → B) (m : gmap K A) : Prop :=
  ∀ i j a b, m !! i = Some a → m !! j = Some b → key a = key b → i = j.

Section unique.
Context {K A B : Type} `{Countable K} (key : A → B).

Lemma unique_by_new (m : gmap K A) k x :
  unique_by key m → (∀ j b, m !! j = Some b → key b ≠ key x) → unique_by key (<[k := x]> m).
Proof.
  intros Hm Hx i j a b. rewrite !lookup_insert. repeat case_decide; subst; try done.
  - intros [= <-] Hb E. by destruct (Hx _ _ Hb).
  - intros Ha [= <-] E. by destruct (Hx _ _ Ha).
  - apply Hm.
Qed.
Lemma unique_by_update (m : gmap K A) k x y :
  unique_by key m → m !! k = Some y → key x = key y → unique_by key (<[k := x]> m).
Proof.
  intros Hm Hy E i j a b. rewrite !lookup_insert. repeat case_decide; subst; try done.
  - intros [= <-] Hb E'. eapply Hm; [done..|congruence].
  - intros Ha [= <-] E'. eapply Hm; [done..|congruence].
  - apply Hm.
Qed.
Lemma unique_by_fmap (f : A → A) (m : gmap K A) :
  unique_by key m → (∀ x, key (f x) = key x) → unique_by key (f <$> m).
Proof.
  intros Hm Hf i j a b (x & <- & Hx)%lookup_fmap_Some (y & <- & Hy)%lookup_fmap_Some.
  rewrite !Hf. by apply Hm.
Qed.
End unique.

Section facts.
Context `{Environment} `{Digest} `{Serializer} `{Formats}.

(** ** Well-formed rows *)

Definition catalogs_wf (d : db) : Prop :=
  ∃ c m3, ct_catalog (d_identity d) = Text c ∧ ct_catalog (d_m3 d) = Text m3 ∧
    valid_catalog c ∧ validate_m3_catalog m3 c = Ok tt.

Definition graph_wf (id : GraphRunId) (row : graph_row) : Prop :=
  ∃ e, gw_execution row = Text e ∧ ge_id e = id ∧ gw_revision row = ge_revision e ∧ valid_exec e.

(** A request is the one that was hashed, asks for a credential for a run only, and
    its decision is one of it. *)
Definition approval_wf (id : ApprovalRequestId) (row : approval_row) : Prop :=
  ∃ r, aw_request row = Text r ∧ ar_id r = id ∧ request_validate_unchanged r = Ok tt ∧ names_run r ∧
    aw_request_hash row = ar_request_hash r ∧
    ∀ j, aw_decision row = Some j → ∃ decision, j = Text decision ∧ verify_decision r decision = Ok tt.

(** A grant is that of an approved request with a credential; it has been spent
    or revoked at most once, and not before it was issued. *)
Definition grant_wf (d : db) (id : ApprovalRequestId) (g : grant_row) : Prop :=
  (∃ row r decision, d_approvals d !! id = Some row ∧ aw_request row = Text r ∧
     aw_decision row = Some (Text decision) ∧ ad_kind decision = Approve ∧
     is_Some (sc_credential_binding (aa_scope (ar_action r)))) ∧
  (∀ t, gr_consumed_at_ms g = Some t → (gr_issued_at_ms g ≤ t)%Z ∧ gr_revoked_at_ms g = None) ∧
  (∀ t, gr_revoked_at_ms g = Some t → (gr_issued_at_ms g ≤ t)%Z ∧ is_Some (gr_revoked_by g)).

Definition plan_wf (run : RunId) (row : plan_row) : Prop :=
  ∃ plan, pw_plan row = Text plan ∧ lp_run_id plan = run ∧ pw_hash row = plan_hash plan.

(** A launch is ready only with a grant, and leaves only after it was spent. *)
Definition staged_wf (d : db) (run : RunId) (row : staged_row) : Prop :=
  is_Some (d_approvals d !! sw_request_id row) ∧ is_Some (d_plans d !! run) ∧
  (sw_state row = SlReady → is_Some (d_grants d !! sw_request_id row)) ∧
  (sw_state row ∈ [SlDispatching; SlUncertain] →
     ∃ g, d_grants d !! sw_request_id row = Some g ∧ spent g).

Definition claim_wf (d : db) (row : claim_row) : Prop :=
  ∃ g, d_grants d !! cl_request_id row = Some g ∧ spent g.

Record well_formed (d : db) : Prop := {
  wf_catalogs : catalogs_wf d;
  wf_events : ∀ i e, d_events d !! i = Some e → ee_sequence e = Z.of_nat (S i);
  wf_graphs : map_Forall graph_wf (d_graphs d);
  wf_attempts : unique_by (λ row, (nw_execution_id row, nw_node_id row, nw_attempt row)) (d_runs d);
  wf_outputs : ∀ run, is_Some (d_outputs d !! run) → is_Some (d_runs d !! run);
  wf_approvals : map_Forall approval_wf (d_approvals d);
  wf_hashes : unique_by aw_request_hash (d_approvals d);
  wf_grants : map_Forall (grant_wf d) (d_grants d);
  wf_plans : map_Forall plan_wf (d_plans d);
  wf_staged : map_Forall (staged_wf d) (d_staged d);
  wf_launches : unique_by sw_request_id (d_staged d);
  wf_claims : map_Forall (λ _, claim_wf d) (d_claims d);
  wf_claimed : unique_by cl_request_id (d_claims d);
}.

(** ** Following *)

(** How the tables of [d'] continue those of [d]. *)
Record follows (d d' : db) : Prop := {
  fo_events : d_events d `prefix_of` d_events d';
  fo_checkpoints : d_checkpoints d `prefix_of` d_checkpoints d';
  fo_plans : d_plans d ⊆ d_plans d';
  fo_outputs : d_outputs d ⊆ d_outputs d';
  fo_claims : d_claims d ⊆ d_claims d';
  fo_graphs : ∀ id row e, d_graphs d !! id = Some row → gw_execution row = Text e →
    ∃ row' e', d_graphs d' !! id = Some row' ∧ gw_execution row' = Text e' ∧ rtc exec_step e e';
  fo_runs : ∀ run row, d_runs d !! run = Some row → ∃ row', d_runs d' !! run = Some row' ∧
    nw_execution_id row' = nw_execution_id row ∧ nw_node_id row' = nw_node_id row ∧
    nw_attempt row' = nw_attempt row ∧ nw_launch_identity row' = nw_launch_identity row;
  fo_approvals : ∀ id row, d_approvals d !! id = Some row → ∃ row', d_approvals d' !! id = Some row' ∧
    aw_request row' = aw_request row ∧ aw_request_hash row' = aw_request_hash row ∧
    (is_Some (aw_decision row) → aw_decision row' = aw_decision row);
  fo_grants : ∀ id g, d_grants d !! id = Some g → ∃ g', d_grants d' !! id = Some g' ∧
    (g' = g ∨ unspent g = true ∧ unspent g' = false);
  fo_staged : ∀ run row, d_staged d !! run = Some row → ∃ row', d_staged d' !! run = Some row' ∧
    rtc (λ a b, launch_step (Some a) (Some b)) row row';
  fo_catalog : ∀ c id r, ct_catalog (d_identity d) = Text c → find_run c id = Some r →
    ∃ c' r', ct_catalog (d_identity d') = Text c' ∧ find_run c' id = Some r' ∧ rtc run_step r r';
}.

Lemma follows_refl d : follows d d.
Proof. split; eauto 6 using rtc_refl. Qed.

Lemma follows_trans d d' d'' : follows d d' → follows d' d'' → follows d d''.
Proof.
  intros [E1 C1 P1 O1 L1 G1 R1 A1 N1 S1 K1] [E2 C2 P2 O2 L2 G2 R2 A2 N2 S2 K2].
  split; try (etrans; done).
  - intros id row e Hr He. destruct (G1 _ _ _ Hr He) as (? & ? & Hr' & He' & ?).
    destruct (G2 _ _ _ Hr' He') as (? & ? & ? & ? & ?). eauto 6 using rtc_trans.
  - intros run row Hr. destruct (R1 _ _ Hr) as (? & Hr' & ? & ? & ? & ?).
    destruct (R2 _ _ Hr') as (? & ? & ? & ? & ? & ?). eexists. split_and!; [done|congruence..].
  - intros id row Hr. destruct (A1 _ _ Hr) as (x & Hr' & ? & ? & Hd).
    destruct (A2 _ _ Hr') as (? & ? & ? & ? & Hd'). eexists. split_and!; [done|congruence..|].
    intros Hs. rewrite Hd', Hd; try done. by rewrite Hd.
  - intros id g Hr. destruct (N1 _ _ Hr) as (x & Hr' & Hx). destruct (N2 _ _ Hr') as (y & ? & Hy).
    exists y. split; [done|]. destruct Hx as [->|[? ?]], Hy as [->|[? ?]]; auto.
  - intros run row Hr. destruct (S1 _ _ Hr) as (? & Hr' & ?).
    destruct (S2 _ _ Hr') as (? & ? & ?). eauto using rtc_trans.
  - intros c id r Hc Hr. destruct (K1 _ _ _ Hc Hr) as (? & ? & Hc' & Hr' & ?).
    destruct (K2 _ _ _ Hc' Hr') as (? & ? & ? & ? & ?). eauto 6 using rtc_trans.
Qed.

Lemma follows_step d d' : db_step d d' → follows d d'.
Proof.
  destruct (follows_refl d). destruct 1; split; cbn; try done; try (by apply insert_subseteq);
    try (by eexists).
  - intros c0 id r Hc Hr. assert (c0 = c) as -> by congruence.
    match goal with F : runs_follow _ _ |- _ => destruct (F _ _ Hr) as (r' & ? & [->|?]) end;
      eauto 6 using rtc_refl, rtc_once.
  - intros i x e0. rewrite lookup_insert. case_decide; [subst|by eauto]. intros Hx He0.
    assert (e0 = e) as -> by congruence. eauto.
  - intros i x e0. rewrite lookup_insert. case_decide; [subst|by eauto]. intros. simplify_eq.
  - intros i x e0. rewrite lookup_insert. case_decide; [subst|by eauto]. intros. simplify_eq.
  - intros i x. rewrite lookup_insert. case_decide; [subst|by eauto]. intros. simplify_eq.
  - intros i x. rewrite lookup_insert. case_decide; [subst|by eauto]. intros. simplify_eq. by eauto 6.
  - intros i x. rewrite lookup_insert. case_decide; [subst|by eauto]. intros. simplify_eq.
  - intros i x. rewrite lookup_insert. case_decide; [subst|by eauto]. intros. simplify_eq.
    eexists. split_and!; [done..|]. intros []. congruence.
  - intros i x. rewrite lookup_insert. case_decide; [subst|by eauto]. intros. simplify_eq.
  - intros i x. rewrite lookup_insert. case_decide; [subst|by eauto]. intros. simplify_eq.
    eauto 6.
  - intros i x. rewrite lookup_insert. case_decide; [subst|by eauto]. intros. simplify_eq.
    eauto 6.
  - intros i x. rewrite lookup_insert. case_decide; [subst|by eauto]. intros. simplify_eq.
  - intros i x. rewrite lookup_insert. case_decide; [subst|by eauto]. intros. simplify_eq.
    eauto using rtc_once.
  - intros i x Hx. rewrite lookup_fmap, Hx. cbn. eexists. split; [done|].
    destruct (in_launch_state _ x) eqn:E; [|done]. apply in_launch_state_true in E.
    apply rtc_once, ls_lost. set_solver.
Qed.

Lemma follows_steps d d' : rtc db_step d d' → follows d d'.
Proof. induction 1; eauto using follows_refl, follows_trans, follows_step. Qed.

(** *** Rows that refer to other tables *)

Lemma grant_wf_follows d d' id g : follows d d' → grant_wf d id g → grant_wf d' id g.
Proof.
  intros F [(row & r & decision & Hrow & Hr & Hd & ?) ?]. split; [|done].
  destruct (fo_approvals _ _ F _ _ Hrow) as (row' & ? & Hr' & _ & Hd').
  exists row', r, decision. rewrite Hr', Hd' by (rewrite Hd; eauto). done.
Qed.
Lemma spent_follows d d' id :
  follows d d' → (∃ g, d_grants d !! id = Some g ∧ spent g) →
  ∃ g, d_grants d' !! id = Some g ∧ spent g.
Proof.
  intros F (g & Hg & [t Hs]). destruct (fo_grants _ _ F _ _ Hg) as (g' & ? & [->|[Hu _]]).
  - exists g. split; [done|]. by exists t.
  - unfold unspent in Hu. rewrite Hs in Hu. done.
Qed.
Lemma staged_wf_follows d d' run row : follows d d' → staged_wf d run row → staged_wf d' run row.
Proof.
  intros F ([a Ha] & [p Hp] & Hready & Hspent). split_and!.
  - destruct (fo_approvals _ _ F _ _ Ha) as (? & ? & _). eauto.
  - exists p. by eapply lookup_weaken, fo_plans.
  - intros [g Hg]%Hready. destruct (fo_grants _ _ F _ _ Hg) as (? & ? & _). eauto.
  - intros Hs. eapply spent_follows; eauto.
Qed.
Lemma claim_wf_follows d d' row : follows d d' → claim_wf d row → claim_wf d' row.
Proof. apply spent_follows. Qed.

Lemma started_valid e : started e → valid_exec e.
Proof.
  intros (id & e0 & Hs & Hn & Ho). pose proof (reachable_is_valid _ (reach_start _ _ _ Hs)) as [].
  assert (ge_graph e0 = ge_graph e) as Hg by (unfold start in Hs; by ok_inv).
  split; rewrite ?Hn, ?Ho, <- ?Hg; try done; [apply NoDup_nil_2|by intros ? ?%elem_of_nil].
Qed.

Lemma well_formed_empty id t : well_formed (empty_db id t).
Proof.
  split; try done; try (apply map_Forall_empty).
  - eexists _, _. split_and!; try done. by apply validate_catalog_ok.
  - by intros run [].
Qed.

Lemma well_formed_step d d' : well_formed d → db_step d d' → well_formed d'.
Proof.
  intros Hwf Hstep. pose proof (follows_step _ _ Hstep) as F. destruct Hwf as [Hc He Hg Ha Ho Hp Hh Hgr Hpl Hs Hl Hcl Hcd].
  assert (Hgr' : map_Forall (grant_wf d') (d_grants d))
    by (eapply map_Forall_impl; [exact Hgr|]; intros; by eapply grant_wf_follows).
  assert (Hs' : map_Forall (staged_wf d') (d_staged d))
    by (eapply map_Forall_impl; [exact Hs|]; intros; by eapply staged_wf_follows).
  assert (Hcl' : map_Forall (λ _, claim_wf d') (d_claims d))
    by (eapply map_Forall_impl; [exact Hcl|]; intros; by eapply claim_wf_follows).
  clear Hgr Hs Hcl. destruct Hstep; split; cbn; try done.
  - intros i x. rewrite lookup_app_Some. intros [?|[Hi E]]; [by apply He|].
    apply list_lookup_singleton_Some in E as [Ei ->].
    rename select (ee_sequence _ = _) into Hs. rewrite Hs. lia.
  - destruct Hc as (c0 & m3 & Hc & Hm & _ & Hv). exists c', m3.
    assert (c0 = c) as -> by congruence. split_and!; auto.
  - destruct Hc as (c0 & m30 & Hc & Hm & Hv & _). assert (c0 = c) as -> by congruence. by exists c, m3.
  - apply map_Forall_insert_2; [|done].
    destruct (Hg _ _ ltac:(eassumption)) as (e0 & ? & Hid & _ & Hv).
    assert (e0 = e) as -> by congruence. rename select (rtc exec_step _ _) into Hsteps.
    exists e'. split_and!; try done; [|by eapply exec_steps_valid].
    by rewrite (proj1 (exec_step_frame _ _ Hsteps)).
  - apply map_Forall_insert_2; [|done]. exists e. split_and!; try done. by apply started_valid.
  - apply map_Forall_insert_2; [|done]. by exists e.
  - apply unique_by_new; [done|]. intros j b Hb [= E1 E2 E3].
    rename select (∀ r, _ → _) into Hnew.
    assert (Hin : (j, b) ∈ attempts d (nw_execution_id row) (nw_node_id row)).
    { apply elem_of_filter_bool. split; [by apply elem_of_map_to_list|]. cbn.
      by rewrite !bool_decide_eq_true_2. }
    specialize (Hnew _ Hin). cbn in Hnew. lia.
  - intros r [x Hx]. rewrite lookup_insert. case_decide; eauto.
  - by eapply unique_by_update.
  - intros r [x Hx]. rewrite lookup_insert. case_decide; eauto.
  - intros r. rewrite lookup_insert. case_decide; [by subst|apply Ho].
  - apply map_Forall_insert_2; [|done]. eexists. split_and!; try done. congruence.
  - by apply unique_by_new.
  - apply map_Forall_insert_2; [|done].
    destruct (Hp _ _ ltac:(eassumption)) as (r & Hr & ? & ? & ? & ? & _). exists r. split_and!; try done.
    cbn. intros j [= <-]. eexists. split; [done|]. congruence.
  - by eapply unique_by_update.
  - apply map_Forall_insert_2; [|done]. split; [|done]. cbn. eauto 9.
  - apply map_Forall_insert_2; [|done]. destruct (Hgr' _ _ ltac:(eassumption)) as [? _].
    split; [done|]. cbn. split; [by intros ? [= <-]|done].
  - apply map_Forall_insert_2; [|done]. destruct (Hgr' _ _ ltac:(eassumption)) as [? _].
    split; [done|]. cbn. split; [done|]. intros ? [= <-]. eauto.
  - apply map_Forall_insert_2; [|done]. by exists plan.
  - apply map_Forall_insert_2; [|done]. split_and!; cbn; try done. intros. set_solver.
  - apply unique_by_new; [done|]. intros j b Hb. by eapply staged_for_None.
  - apply map_Forall_insert_2; [|done].
    destruct (Hs' _ _ ltac:(eassumption)) as (Hap & Hplan & _ & Hspent).
    rename select (launch_step _ _) into Hl'. pose proof (launch_step_request _ _ Hl') as Er.
    unfold staged_wf. cbn. rewrite Er. split_and!; try done. intros Hin.
    inversion Hl'; subst; cbn in Hin; by set_solver.
  - eapply unique_by_update; [done..|]. by apply launch_step_request.
  - intros run row (x & <- & Hx)%lookup_fmap_Some.
    destruct (Hs' _ _ Hx) as (Hap & Hplan & Hready & Hspent).
    destruct (in_launch_state _ x) eqn:E; [|done]. apply in_launch_state_true in E.
    split_and!; try done. cbn. intros _. apply Hspent. set_solver.
  - apply unique_by_fmap; [done|]. intros x. by destruct (in_launch_state _ x).
  - by apply map_Forall_insert_2.
  - apply unique_by_new; [done|]. intros. cbn. eauto.
Qed.

Lemma well_formed_steps d d' : rtc db_step d d' → well_formed d → well_formed d'.
Proof. induction 1; eauto using well_formed_step. Qed.

End facts.
