(* ===== verification/StoreEffects.v ===== *)
(** * What the methods do

    Failure leaves the database alone; and the effect of a method that
    succeeds, by executing it symbolically. *)
From stdpp Require Import relations.
From S2P Require Import Prelude Policy Identity Catalog Office Meeting.
From S2P Require Import Deliverable Approval Graph Execution ExecutionFacts M3 Mvp Protocol.
From S2P Require Import Store StoreLogic Launch StagedLaunches GraphStore FinishRun CatalogStore.
From S2P Require Import CredentialGrants Dispatch DaemonStore StoreSpec StoreRefines StoreMethods.
From S2P Require Import StoreReachable StoreFacts.

Section effects.
Context `{Environment} `{Digest} `{Serializer} `{Formats}.

(** ** Failure *)

(** A method that does not succeed leaves the database as it was. *)
Definition atomic {A} (m : M A) : Prop :=
  ∀ w, is_ok (m w).1 = false → w_db (m w).2 = w_db w.
(** Nor does one that succeeds. *)
Definition silent {A} (m : M A) : Prop := ∀ w, w_db (m w).2 = w_db w.

Lemma atomic_transact {A} (m : M A) : atomic (transact m).
Proof. intros w. apply transact_rolls_back. Qed.
Lemma atomic_silent {A} (m : M A) : silent m → atomic m.
Proof. intros Hm w _. apply Hm. Qed.
Lemma atomic_bind {A B} (m : M A) (k : A → M B) :
  silent m → (∀ a, atomic (k a)) → atomic (mbind m k).
Proof.
  intros Hm Hk w. specialize (Hm w). unfold mbind.
  destruct (m w) as [[a| | |] w']; cbn in *; try done. rewrite <- Hm. apply Hk.
Qed.
Lemma atomic_reject {A} (b : bool) e (m : M A) : atomic m → atomic (reject b with e;; m).
Proof. by destruct b. Qed.
Lemma silent_lift {A} (o : outcome StoreError A) : silent (lift o).
Proof. done. Qed.
Lemma silent_read_only {A} (f : db → outcome StoreError A) : silent (read_only f).
Proof. intros w. apply read_only_db. Qed.
Lemma silent_draw_mvp_ids : silent draw_mvp_ids.
Proof. done. Qed.
Lemma silent_credential_grant id : silent (credential_grant id).
Proof. intros w. unfold credential_grant. by destruct (w_poisoned w). Qed.

(** A method that refuses to run once the mutex is poisoned. *)
Definition closed {A} (m : M A) : Prop :=
  ∀ w, w_poisoned w = true →
    is_ok (m w).1 = false ∧ w_db (m w).2 = w_db w ∧ w_poisoned (m w).2 = true.
(** One that does not touch the mutex. *)
Definition aside {A} (m : M A) : Prop :=
  ∀ w, w_db (m w).2 = w_db w ∧ w_poisoned (m w).2 = w_poisoned w.

Lemma closed_transact {A} (m : M A) : closed (transact m).
Proof. intros w Hw. unfold transact. by rewrite Hw. Qed.
Lemma closed_read_only {A} (f : db → outcome StoreError A) : closed (read_only f).
Proof. intros w Hw. unfold read_only. by rewrite Hw. Qed.
Lemma closed_credential_grant id : closed (credential_grant id).
Proof. intros w Hw. unfold credential_grant. by rewrite Hw. Qed.
Lemma closed_bind {A B} (m : M A) (k : A → M B) : closed m → closed (mbind m k).
Proof.
  intros Hm w Hw. unfold mbind. destruct (Hm w Hw) as (Hr & Hd & Hp).
  by destruct (m w) as [[a| | |] w'].
Qed.
Lemma closed_aside {A B} (m : M A) (k : A → M B) :
  aside m → (∀ a, closed (k a)) → closed (mbind m k).
Proof.
  intros Hm Hk w Hw. unfold mbind. destruct (Hm w) as (Hd & Hp).
  destruct (m w) as [[a| | |] w']; cbn in *; rewrite Hw in Hp; try done.
  rewrite <- Hd. by apply Hk.
Qed.
Lemma closed_reject {A} (b : bool) e (m : M A) : closed m → closed (reject b with e;; m).
Proof. by destruct b. Qed.
Lemma aside_lift {A} (o : outcome StoreError A) : aside (lift o).
Proof. done. Qed.
Lemma aside_draw_mvp_ids : aside draw_mvp_ids.
Proof. done. Qed.

(** ** Shutting down *)

Lemma shutdown_effect command w receipt w' :
  shutdown command w = (Ok receipt, w') →
  dr_revision (d_daemon (w_db w)) = cc_expected_revision command ∧
  (∃ c, ct_catalog (d_identity (w_db w)) = Text c ∧
        Forall (λ r, run_is_active r = false) (ic_runs c)) ∧
  parse_lifecycle (dr_lifecycle (d_daemon (w_db w'))) = LcStopping ∧
  dr_revision (d_daemon (w_db w')) = (cc_expected_revision command + 1)%Z ∧
  ∃ e x, d_events (w_db w') = d_events (w_db w) ++ [e] ∧
    d_checkpoints (w_db w') = d_checkpoints (w_db w) ++ [x] ∧
    cw_revision x = cpr_revision receipt ∧ cw_event_sequence x = ee_sequence e ∧
    cpr_event_sequence receipt = ee_sequence e ∧
    ee_event_type e = "daemon.shutdown_requested".
Proof.
  unfold shutdown, persist_checkpoint. by_transact. wp_run.
  rewrite bool_decide_true by done. wp_run. bool_prop.
  rename select (existsb run_is_active _ = false) into Hruns.
  apply wp_update_daemon. wp_run. unfold insert_checkpoint. wp_run. wp_write. wp_run.
  apply wp_update_daemon. wp_run. db_simpl. split_and!; try done.
  - eexists. split; [done|]. apply Forall_forall. intros r Hr. rewrite existsb_false in Hruns. auto.
  - cbn. congruence.
  - by eexists _, _.
Qed.

End effects.

(** Unfolds the method the goal is about, up to its transaction. *)
Ltac head_of t := lazymatch t with ?f _ => head_of f | _ => t end.
Ltac solve_atomic :=
  repeat lazymatch goal with
  | |- atomic (transact _) => apply atomic_transact
  | |- atomic (read_only _) => apply atomic_silent, silent_read_only
  | |- atomic (credential_grant _) => apply atomic_silent, silent_credential_grant
  | |- atomic (mbind (try _ _) _) => apply atomic_bind; [apply silent_lift|intros ?]
  | |- atomic (mbind draw_mvp_ids _) => apply atomic_bind; [apply silent_draw_mvp_ids|intros ?]
  | |- atomic (if _ then throw _ else _) => apply atomic_reject
  | |- atomic ?m => let h := head_of m in unfold h; cbv zeta
  end.

Ltac solve_closed :=
  repeat lazymatch goal with
  | |- closed (transact _) => apply closed_transact
  | |- closed (read_only _) => apply closed_read_only
  | |- closed (credential_grant _) => apply closed_credential_grant
  | |- closed (mbind (try _ _) _) => apply closed_aside; [apply aside_lift|intros ?]
  | |- closed (mbind draw_mvp_ids _) => apply closed_aside; [apply aside_draw_mvp_ids|intros ?]
  | |- closed (mbind _ _) => apply closed_bind
  | |- closed (if _ then throw _ else _) => apply closed_reject
  | |- closed ?m => let h := head_of m in unfold h; cbv zeta
  end.

Section failure.
Context `{Environment} `{Digest} `{Serializer} `{Formats} `{CredentialReader}.
Context (is_dir : string → bool).

(** The methods that are one transaction: the others expire launches first, or
    read the native store in between. *)
Definition single (op : store_op) : bool :=
  match op with OpApproval _ | OpApprovals | OpMarkReady | OpDispatch _ => false | _ => true end.

Lemma atomic_ended {A} (m : M A) b :
  atomic m → is_ok (ended (on_store m b)).1 = false →
  database (ended (on_store m b)).2 = database b.
Proof.
  intros Hm Ho. apply Hm. revert Ho. cbn. by destruct (m (bk_world b)).1.
Qed.

Lemma single_atomic op b :
  single op = true → is_ok (run_op is_dir op b).1 = false →
  database (run_op is_dir op b).2 = database b.
Proof.
  intros Hs. destruct op; try discriminate Hs; unfold run_op; apply atomic_ended;
    solve_atomic.
Qed.

Lemma closed_ended {A} (m : M A) b :
  closed m → w_poisoned (bk_world b) = true →
  is_ok (ended (on_store m b)).1 = false ∧ database (ended (on_store m b)).2 = database b ∧
  w_poisoned (bk_world (ended (on_store m b)).2) = true.
Proof.
  intros Hm Hb. destruct (Hm _ Hb) as (Ho & Hd & Hp). split_and!; [|done..].
  revert Ho. cbn. by destruct (m (bk_world b)).1.
Qed.

Lemma closed_claim id : closed (claim_staged_dispatch id).
Proof. apply closed_transact. Qed.

Lemma run_op_closed op b :
  w_poisoned (bk_world b) = true →
  is_ok (run_op is_dir op b).1 = false ∧ database (run_op is_dir op b).2 = database b ∧
  w_poisoned (bk_world (run_op is_dir op b).2) = true.
Proof.
  intros Hb. destruct op; unfold run_op; try (apply closed_ended; [solve_closed|exact Hb]).
  unfold ended, prepare_staged_credentials, on_store.
  destruct (closed_claim id _ Hb) as (Hr & Hd & Hp).
  by destruct (claim_staged_dispatch id (bk_world b)) as [[| | |] w'].
Qed.

End failure.

(** ** What can be observed of a database *)

Definition run_in (d : db) (run : RunId) (s : NormalizedRunState) : Prop :=
  ∃ c r, ct_catalog (d_identity d) = Text c ∧ find_run c run = Some r ∧ rn_state r = s.
Definition launch_in (d : db) (run : RunId) (id : ApprovalRequestId) (s : StagedLaunchState) : Prop :=
  ∃ row, d_staged d !! run = Some row ∧ sw_request_id row = id ∧ sw_state row = s.
Definition node_in (d : db) (execution : GraphRunId) (node : GraphNodeId) (s : GraphNodeState)
    (run : RunId) : Prop :=
  ∃ row e n, d_graphs d !! execution = Some row ∧ gw_execution row = Text e ∧
    find_execution e node = Some n ∧ ne_state n = s ∧ ne_run_id n = Some run.

Lemma find_run_with_run c id r f :
  find_run c id = Some r → (∀ x, em_id (rn_metadata (f x)) = em_id (rn_metadata x)) →
  find_run (with_run c id f) id = Some (f r).
Proof.
  intros Hr Hf. unfold find_run, with_run. cbn [ic_runs].
  rewrite find_by_update_first by done. rewrite decide_True by done.
  unfold find_run in Hr. by rewrite Hr.
Qed.

(** ** Nodes *)

Lemma find_update id f nodes n :
  List.find (has_id id) nodes = Some n → (∀ x, ne_node_id (f x) = ne_node_id x) →
  List.find (has_id id) (update_first (has_id id) f nodes) = Some (f n).
Proof.
  intros Hn Hf. induction nodes as [|x nodes IH]; [done|]. cbn in Hn |- *.
  destruct (has_id id x) eqn:E; cbn.
  - simplify_eq. unfold has_id in *. by rewrite Hf, E.
  - by rewrite E, IH.
Qed.
Lemma find_map_nodes id g nodes :
  (∀ x, ne_node_id (g x) = ne_node_id x) →
  List.find (has_id id) (map g nodes) = g <$> List.find (has_id id) nodes.
Proof.
  intros Hg. induction nodes as [|x nodes IH]; [done|]. cbn. unfold has_id at 1 3. rewrite Hg.
  by destruct (bool_decide _).
Qed.

Section nodes.
Context `{Digest}.

Lemma activate_finds e id owner run e' :
  activate_staged_node e id owner run = Ok e' →
  ∃ n, find_execution e' id = Some n ∧ ne_state n = Running ∧ ne_run_id n = Some run.
Proof.
  unfold activate_staged_node. intros E. ok_inv. bool_prop.
  rename select (find_execution e id = _) into Hn. eexists. split; [by apply find_update|]. done.
Qed.

Lemma finish_finds e id owner s f e' :
  valid_exec e → finish_terminal e id owner s f = Ok e' →
  ∃ n, find_execution e id = Some n ∧ find_execution e' id = Some (finished owner s f n).
Proof.
  intros Hv. unfold finish_terminal. intros E. ok_inv. bool_prop.
  match goal with Hn : find_execution e id = Some ?n |- _ => exists n; split; [done|];
    pose proof (find_update id (finished owner s f) _ _ Hn (λ _, eq_refl)) as Hu end.
  destruct (is_dead_end s) eqn:Ed; [|by simplify_eq].
  destruct (ve_graph _ Hv) as [Hnd _ _ Hac _].
  destruct (block_dependents_correct (ge_graph e) Hnd id
      (update_first (has_id id) (finished owner s f) (ge_nodes e))
      ltac:(rewrite execution_ids_update; [apply Hv|done])
      (bump (set_nodes e (update_first (has_id id) (finished owner s f) (ge_nodes e)))))
    as (ids & Hs & _); [done|done|intros Hc; apply Hac; by exists id|].
  rewrite Hs in E. simplify_eq. unfold find_execution. cbn [ge_nodes set_nodes].
  rewrite find_map_nodes by apply mark_id. rewrite Hu. cbn. f_equal. unfold mark, in_state.
  rewrite bool_decide_false; [done|]. by destruct s.
Qed.

End nodes.

(** ** Dispatch *)

(** A request approved by a decision that fits it. *)
Definition approved (d : db) (id : ApprovalRequestId) (r : ApprovalRequest) : Prop :=
  ∃ row decision, d_approvals d !! id = Some row ∧ aw_request row = Text r ∧
    aw_decision row = Some (Text decision) ∧ ad_kind decision = Approve ∧
    verify_decision r decision = Ok tt.
Definition usable_grant (d : db) (id : ApprovalRequestId) (t : Z) : Prop :=
  ∃ g, d_grants d !! id = Some g ∧ unspent g = true ∧ (gr_issued_at_ms g ≤ t)%Z.
Definition spent_at (d : db) (id : ApprovalRequestId) (t : Z) : Prop :=
  ∃ g, d_grants d !! id = Some g ∧ gr_consumed_at_ms g = Some t ∧ gr_revoked_at_ms g = None.

Section dispatch.
Context `{Environment} `{Digest} `{Serializer} `{Formats} `{CredentialReader}.

Lemma plan_load_row d run plan :
  plan_load d run = Ok plan → is_Some (d_runs d !! run) ∧ lp_run_id plan = run.
Proof. unfold plan_load. intros E. ok_inv. bool_prop. eauto. Qed.

(** The checks at the time of use include the policy of the plan. *)
Lemma current_catalog_policy d r run plan c :
  validate_current_catalog d r = Ok tt → sc_run_id (aa_scope (ar_action r)) = Some run →
  plan_load d run = Ok plan → ct_catalog (d_identity d) = Text c →
  validate_current_policy plan c = Ok tt.
Proof.
  intros Hv Hrun Hplan Hc. destruct (plan_load_row _ _ _ Hplan) as [[row Hrow] _].
  unfold validate_current_catalog in Hv. repeat ok_step.
  rename select (load_catalog d = _) into Hcat. unfold load_catalog, load_catalog_row in Hcat.
  rewrite Hc in Hcat. cbn [from_str obind] in Hcat. ok_inv.
  rename select (List.find _ _ = Some _) into Hf. apply find_Some_elem in Hf as [_ Hid].
  apply bool_decide_eq_true in Hid. rewrite Hrun in Hid. injection Hid as Hid.
  rewrite Hid, Hrow in Hv. unfold validate_graph_run in Hv. rewrite Hid in Hv. repeat ok_step.
  match goal with H : plan_load d run = Ok ?p |- _ => rewrite Hplan in H; injection H as <- end.
  by match goal with H : validate_current_policy _ _ = Ok ?u |- _ => destruct u end.
Qed.

(** What a claim at the time [t] needs and does. *)
Definition claimed (d : db) (id : ApprovalRequestId) (t : Z) (claim : DispatchClaim) (d' : db)
    : Prop :=
  ∃ r plan c, let run := br_run_id (dc_receipt claim) in
    dr_lifecycle (d_daemon d) = "ready" ∧ approved d id r ∧ usable_grant d id t ∧
    (ar_created_at_ms r ≤ t < ar_expires_at_ms r)%Z ∧
    sc_run_id (aa_scope (ar_action r)) = Some run ∧ plan_load d run = Ok plan ∧
    ct_catalog (d_identity d) = Text c ∧
    validate_current_catalog d r = Ok tt ∧ validate_current_policy plan c = Ok tt ∧
    validate_online_cli_requirements plan = Ok tt ∧ matches_receipt plan (dc_receipt claim) = true ∧
    launch_in d run id SlReady ∧ run_in d run RunAwaitingApproval ∧
    spent_at d' id t ∧ launch_in d' run id SlDispatching ∧ run_in d' run RunStarting ∧
    node_in d' (lp_execution_id plan) (lp_node_id plan) Running run ∧
    d_claims d' !! run = Some {| cl_request_id := id; cl_claimed_at_ms := t |}.

Lemma claim_effect id w claim w' :
  keyed (w_db w) → claim_staged_dispatch id w = (Ok claim, w') →
  claimed (w_db w) id (clock (w_clock w)) claim (w_db w').
Proof.
  intros Hk. unfold claim_staged_dispatch. by_clocked_transact. set (d := w_db w) in *. wp_run.
  rename select (grant_load d id = _) into Hl.
  apply grant_load_ok in Hl as (g' & row & Hg & Hrow & Hr & Hdec & Hkind & _ & Hver & _).
  rename select (validate_time _ _ = _) into Ht. apply validate_time_ok in Ht as [Ht _].
  rename select (validate_current_catalog _ _ = _) into Hcat. destruct_unit Hcat.
  rename select (validate_staged_run d _ = _) into Hs. apply staged_context_run in Hs as (Hstate & _).
  rename select (activate_staged_node _ _ _ _ = _) into Ha. apply activate_finds in Ha as (n & Hn & Hrun & Hid).
  rename select (validate_online_cli_requirements _ = _) into Hcli. destruct_unit Hcli.
  rename select (plan_load d _ = _) into Hplan. rename select (d_graphs d !! _ = _) into Hgraph. bool_prop.
  wp_write; [|by wp_run]. wp_run. wp_write; [|by wp_run]. wp_run. wp_write. wp_run. wp_write. wp_run.
  wp_write. wp_run.
  unfold claimed, approved, usable_grant, spent_at, launch_in, run_in, node_in. db_simpl.
  match goal with Hp : plan_load d ?run = Ok ?plan, Hr : sc_run_id (aa_scope (ar_action ?r)) = _,
      Hc : ct_catalog (d_identity d) = Text ?c |- _ => exists r, plan, c end.
  cbn [br_run_id dc_receipt].
  match goal with H : match d_staged d !! ?r with _ => _ end = true |- _ =>
    destruct (d_staged d !! r) as [row1|] eqn:Hrow1; [|done] end.
  bool_prop. pose proof (k_staged _ Hk) as Huniq.
  match goal with H1 : d_staged d !! ?r = Some row1, H2 : staged_for _ _ = Some (?r', _) |- _ =>
    assert (r' = r) as -> by (eapply Huniq; [done..|congruence]) end.
  split_and!; try done.
  - eexists _, _. by split_and!.
  - eexists. by split_and!.
  - apply Ht.
  - apply Ht.
  - by eapply current_catalog_policy.
  - unfold matches_receipt. cbn. apply plan_load_row in Hplan as [_ ->].
    by rewrite !bool_decide_true.
  - exists row1. split_and!; [done..|]. rename select (in_launch_state _ _ = true) into Hl.
    apply in_launch_state_true in Hl. set_solver.
  - eexists _, _. by split_and!.
  - eexists. split; [apply lookup_insert_eq|done].
  - eexists. split; [apply lookup_insert_eq|done].
  - eexists _, _. split_and!; [done|by apply find_run_with_run|done].
  - eexists _, _, _. rewrite lookup_alter_eq, Hgraph. by split_and!.
  - apply lookup_insert_eq.
Qed.

End dispatch.

(** ** Expected revisions *)

Definition graph_at (d : db) (id : GraphRunId) (revision : Z) : Prop :=
  ∃ row, d_graphs d !! id = Some row ∧ gw_revision row = revision.

(** The command was made from another revision than the stored one. *)
Definition stale (d : db) (op : store_op) : Prop :=
  let identity revision := ct_revision (d_identity d) ≠ revision in
  let m3 revision := ct_revision (d_m3 d) ≠ revision in
  let daemon revision := dr_revision (d_daemon d) ≠ revision in
  match op with
  | OpReplaceCatalog c => identity (rc_expected_revision c)
  | OpReplaceM3Catalog c => m3 (rm_expected_revision c)
  | OpPrepareMvp c => identity (pm_expected_catalog_revision c) ∨ m3 (pm_expected_m3_revision c)
  | OpAcceptDecisionBaseline c => m3 (ab_expected_m3_revision c)
  | OpCreateDocument c => m3 (cd_expected_m3_revision c)
  | OpAcceptDocument c => m3 (ad_expected_m3_revision c)
  | OpPrepareDelivery c => m3 (pk_expected_m3_revision c)
  | OpCompleteDelivery c => m3 (ck_expected_m3_revision c)
  | OpRecordCost c => m3 (rk_expected_m3_revision c)
  | OpPreflightCancel _ revision | OpCancelAccepted _ revision => identity revision
  | OpRestartGraph id revision | OpClaimNodes id revision _ _ | OpCompleteNode id revision _ _ _ =>
      ¬ graph_at d id revision
  | OpRetryNode id c => ¬ graph_at d id (rf_expected_graph_revision c)
  | OpBegin id c | OpBeginProvider id c _ =>
      identity (bg_expected_catalog_revision c) ∨ ¬ graph_at d id (bg_expected_graph_revision c)
  | OpFinish id c =>
      identity (fg_expected_catalog_revision c) ∨ m3 (fg_expected_m3_revision c) ∨
      ¬ graph_at d id (fg_expected_graph_revision c)
  | OpCheckpoint c | OpSuspend c | OpShutdown c | OpResume c => daemon (cc_expected_revision c)
  | _ => False
  end.

(** A method that cannot succeed. *)
Definition refused {A} (m : M A) (w : world) : Prop := is_ok (m w).1 = false.

Section stale.
Context `{Environment} `{Digest} `{Serializer} `{Formats} `{CredentialReader}.
Context (is_dir : string → bool).

Lemma refused_transact {A} (m : M A) w : wp m (λ _ _, False) (w_db w) → refused (transact m) w.
Proof.
  intros Hm. unfold refused. destruct (transact m w) as [[a| | |] w'] eqn:E; try done.
  by destruct (transact_wp _ _ _ _ _ Hm E).
Qed.
Lemma refused_bind {A B} (m : M A) (k : A → M B) w :
  silent m → (∀ a w', w_db w' = w_db w → refused (k a) w') → refused (mbind m k) w.
Proof.
  intros Hm Hk. unfold refused, mbind in *. specialize (Hm w).
  destruct (m w) as [[a| | |] w']; try done. by apply Hk.
Qed.
Lemma refused_read_only {A} (f : db → outcome StoreError A) w :
  is_ok (f (w_db w)) = false → refused (read_only f) w.
Proof. intros Hf. unfold refused, read_only. by destruct (w_poisoned w). Qed.

Lemma expect_graph_at d id revision e : expect_graph d id revision = Ok e → graph_at d id revision.
Proof. intros (row & ? & _ & ?)%expect_graph_ok. by exists row. Qed.
Lemma expect_m3_at d revision m3 : expect_m3 d revision = Ok m3 → ct_revision (d_m3 d) = revision.
Proof. unfold expect_m3. intros E. ok_inv. by bool_prop. Qed.

Ltac stale_at :=
  repeat lazymatch goal with
  | |- refused (transact _) _ => fail
  | |- refused ?m _ => let h := head_of m in unfold h
  end;
  apply refused_transact; wp_run; bool_prop;
  repeat match goal with
  | H : expect_graph _ _ _ = Ok _ |- _ => apply expect_graph_at in H
  | H : expect_m3 _ _ = Ok _ |- _ => apply expect_m3_at in H
  | H : d_graphs ?d !! ?id = Some ?row, E : gw_revision ?row = ?revision |- _ =>
      assert (graph_at d id revision) by (by exists row); clear H
  end; try tauto.

Lemma refused_ended {A} (m : M A) b :
  refused m (bk_world b) → is_ok (ended (on_store m b)).1 = false.
Proof. unfold refused. cbn. by destruct (m (bk_world b)).1. Qed.

Lemma stale_refused op b : stale (database b) op → is_ok (run_op is_dir op b).1 = false.
Proof.
  unfold database. destruct op; try (intros Hs; destruct Hs; fail); unfold run_op; intros Hs;
    apply refused_ended; unfold stale in Hs; cbv zeta in Hs.
  - apply refused_bind; [apply silent_lift|]. intros _ w Hw. rewrite <- Hw in Hs. stale_at.
  - stale_at.
  - apply refused_bind; [apply silent_draw_mvp_ids|]. intros ids w Hw. rewrite <- Hw in Hs.
    apply refused_bind; [apply silent_lift|]. clear Hw. intros draft w' Hw. rewrite <- Hw in Hs.
    stale_at.
  - stale_at.
  - stale_at.
  - stale_at.
  - stale_at.
  - stale_at.
  - stale_at.
  - apply refused_read_only. cbv beta zeta. by rewrite bool_decide_false.
  - stale_at.
  - stale_at.
  - stale_at.
  - stale_at.
  - stale_at.
  - stale_at.
  - stale_at.
  - stale_at.
  - stale_at.
  - stale_at.
  - stale_at.
  - stale_at.
Qed.

End stale.

(** ** The reads of the native store *)

Section secrets.
Context `{Environment} `{Digest} `{Serializer} `{Formats}.

(** A read of the native store: the grant was spent and the launch dispatching
    in the committed database, which the present one continues. *)
Definition read_after_spending (now : db) (read : ApprovalRequestId * db) : Prop :=
  rtc db_step read.2 now ∧ (∃ t, spent_at read.2 read.1 t) ∧
  ∃ run, launch_in read.2 run read.1 SlDispatching.

Definition reads_spent (b : broker) : Prop :=
  NoDup (bk_reads b).*1 ∧ Forall (read_after_spending (database b)) (bk_reads b).

End secrets.

(** ** Expiry *)

(** The launches of the request are cancelled. *)
Definition all_cancelled (d : db) (id : ApprovalRequestId) : Prop :=
  ∀ run row, d_staged d !! run = Some row → sw_request_id row = id → sw_state row = SlCancelled.

Section expiry.
Context `{Environment} `{Digest} `{Serializer} `{Formats}.

(** A cancellation touches the launch of its request only. *)
Lemma cancel_effect id reason d :
  keyed d → wp (cancel_for_request id reason) (λ _ d',
    keyed d' ∧ d_approvals d' = d_approvals d ∧ all_cancelled d' id ∧
    ∀ run row, d_staged d' !! run = Some row → sw_request_id row ≠ id →
      d_staged d !! run = Some row) d.
Proof.
  intros Hk. eapply wp_mono.
  { apply wp_conj; [by apply (cancel_refines id reason d d)|].
    apply (λ H, wp_mono _ (λ _ d', d_approvals d' = d_approvals d ∧ all_cancelled d' id ∧
      ∀ run row, d_staged d' !! run = Some row → sw_request_id row ≠ id →
        d_staged d !! run = Some row) _ d H (λ _ _ x, x)).
    unfold cancel_for_request. wp_run. wp_match.
    - wp_run. wp_match.
      + wp_run. split_and!; [done| |done]. rename select (staged_for d id = _) into Hs.
        apply staged_for_Some in Hs as [Hrow Hid]. intros run row Hr E.
        match goal with Hrow : d_staged d !! _ = Some ?x, E' : in_launch_state _ ?x = true |- _ =>
          assert (row = x) as -> by (pose proof (k_staged _ Hk _ _ _ _ Hr Hrow ltac:(congruence)); congruence);
          by apply in_launch_state_true, list_elem_of_singleton in E' end.
      + wp_run. wp_write. wp_run. wp_write. wp_run. wp_write; [|by wp_run]. wp_run.
        wp_write; [|by wp_run].
        match goal with |- wp _ _ ?d' => assert (Hd' : d_approvals d' = d_approvals d ∧
          all_cancelled d' id ∧ ∀ run row, d_staged d' !! run = Some row → sw_request_id row ≠ id →
          d_staged d !! run = Some row) end.
        { unfold all_cancelled. db_simpl. split_and!; [done| |].
          - intros run' row' [[_ <-]|[Hne Hr]]%lookup_insert_Some E; [done|].
            destruct Hne. eapply (k_staged _ Hk); [done..|]. congruence.
          - intros run' row' [[_ <-]|[_ Hr]]%lookup_insert_Some E; [done|exact Hr]. }
        clear -Hd'. wp_run. wp_write; wp_run; exact Hd'.
    - wp_run. split_and!; [done| |done]. intros run row Hr E.
      by destruct (staged_for_None _ _ _ _ ltac:(eassumption) Hr). }
  cbv beta. intros [] d' (Hs & ?). split; [by eapply keyed_steps|done].
Qed.

Lemma expired_row_ext d d' now r :
  d_approvals d' = d_approvals d → expired_row d' now r = expired_row d now r.
Proof. intros E. unfold expired_row. by rewrite E. Qed.

Lemma expired_row_waiting d now r :
  expired_row d now r = true → sw_state r.2 ∈ [SlAwaitingApproval; SlReady].
Proof.
  unfold expired_row. destruct (d_approvals d !! _); [|done].
  intros [_ [[E _]%andb_true_iff|[E _]%andb_true_iff]%orb_true_iff]%andb_true_iff;
    apply in_launch_state_true in E; set_solver.
Qed.

Lemma expire_effect now d :
  keyed d → wp (expire now) (λ _ d', ∀ run row, d_staged d' !! run = Some row →
    expired_row d' now (run, row) = false) d.
Proof.
  intros Hk. unfold expire. wp_run. eapply wp_mono.
  - apply (wp_for_rows_rest _ _ (λ l d', keyed d' ∧ d_approvals d' = d_approvals d ∧
      ∀ run row, d_staged d' !! run = Some row → expired_row d now (run, row) = true →
        sw_request_id row ∈ l)).
    + intros id l d1 (Hk1 & Ha & Hl). eapply wp_mono; [by apply cancel_effect|].
      cbv beta. intros [] d2 (Hk2 & Ha2 & Hnot & Hrest). split_and!; [done|congruence|].
      intros run row Hr He. destruct (decide (sw_request_id row = id)) as [E|E].
      * apply expired_row_waiting in He. cbn in He. rewrite (Hnot _ _ Hr E) in He. set_solver.
      * pose proof (Hl _ _ (Hrest _ _ Hr E) He). set_solver.
    + split_and!; [done..|]. intros run row Hr He. apply elem_of_map. exists (run, row).
      split; [|done]. rewrite merge_sort_Permutation. apply elem_of_filter_bool.
      by rewrite elem_of_map_to_list.
  - cbv beta. intros [] d' (_ & Ha & Hl) run row Hr. rewrite (expired_row_ext d) by done.
    destruct (expired_row d now (run, row)) eqn:E; [|done].
    by apply Hl, elem_of_nil in E.
Qed.

Lemma steps_request row row' :
  rtc (λ a b, launch_step (Some a) (Some b)) row row' → sw_request_id row' = sw_request_id row.
Proof.
  induction 1 as [|a b c Hab _ IH]; [done|]. rewrite IH. inversion Hab; by subst.
Qed.
(** A staged run that is cancelled has its launch cancelled. *)
Lemma cancel_staged_effect run revision w receipt w' :
  keyed (w_db w) → cancel_staged_run run revision w = (Ok (Some receipt), w') →
  crr_run_id receipt = run ∧ ∃ id, launch_in (w_db w') run id SlCancelled.
Proof.
  intros Hk E. enough (Hq : ∀ r, Some receipt = Some r →
    crr_run_id r = run ∧ ∃ id, launch_in (w_db w') run id SlCancelled) by by apply Hq.
  revert E. unfold cancel_staged_run. by_transact. wp_run. wp_match; [|by wp_run]. wp_match; [|by wp_run].
  wp_run. eapply wp_mono.
  { apply wp_conj; [by eapply cancel_effect|by eapply cancel_refines]. }
  cbv beta. intros [] d' ((_ & _ & Hall & _) & Hs). wp_run. intros r [= <-]. split; [done|].
  rename select (d_staged _ !! run = Some _) into Hrow.
  destruct (fo_staged _ _ (follows_steps _ _ Hs) _ _ Hrow) as (row & Hrow' & Hsteps).
  exists (sw_request_id s), row. split_and!; [exact Hrow'| |]; [|eapply Hall; [exact Hrow'|]]; by apply steps_request.
Qed.

(** A cancelled launch stays so. *)
Lemma cancelled_launch_follows d d' run id :
  follows d d' → launch_in d run id SlCancelled → launch_in d' run id SlCancelled.
Proof.
  intros Hf (row & Hrow & Hid & Hs). destruct (fo_staged _ _ Hf _ _ Hrow) as (row' & Hrow' & Hsteps).
  enough (row' = row) as -> by by exists row.
  clear -Hsteps Hs. induction Hsteps as [|a b c Hab _ IH]; [done|].
  inversion Hab; subst; rewrite Hs in *; set_solver.
Qed.

End expiry.

(** ** The journal *)

(** In a numbered list the entries after a number are the rest of the list. *)
Lemma filter_numbered (l : list EventEnvelope) base n :
  (∀ k e, l !! k = Some e → ee_sequence e = Z.of_nat (S (base + k))) →
  List.filter (λ e, (Z.of_nat n <? ee_sequence e)%Z) l = drop (n - base) l.
Proof.
  revert base. induction l as [|e l IH]; intros base Hs; [by rewrite drop_nil|]. cbn [List.filter].
  rewrite (IH (S base)) by (intros k x Hx; rewrite (Hs (S k) x Hx); lia).
  rewrite (Hs 0 e eq_refl).
  destruct (Z.ltb_spec (Z.of_nat n) (Z.of_nat (S (base + 0)))).
  - replace (n - base) with 0 by lia. by replace (n - S base) with 0 by lia.
  - by replace (n - base) with (S (n - S base)) by lia.
Qed.

(** ** The end of a run *)

(** The output of the node in the execution and in the ledger. *)
Definition output_recorded `{Digest} (d : db) (id : GraphRunId) (node : GraphNodeId) (run : RunId)
    (markdown : string) : Prop :=
  ∃ row e o ledger, d_graphs d !! id = Some row ∧ gw_execution row = Text e ∧
    o ∈ ge_outputs e ∧ no_node_id o = node ∧ no_run_id o = run ∧ no_markdown o = markdown ∧
    no_content_hash o = output_hash markdown ∧ d_outputs d !! run = Some ledger ∧
    ow_execution_id ledger = id ∧ ow_node_id ledger = node ∧ ow_markdown ledger = markdown ∧
    ow_content_hash ledger = output_hash markdown.

(** What is recorded of a run that ends in the state [s] of its node. *)
Record finish_recorded `{Digest} (d : db) (id : GraphRunId) (given : FinishGraphNodeRunCommand)
    (s : GraphNodeState) : Prop := {
  fr_run : run_in d (fg_run_id given) (fg_terminal_state given);
  fr_node : node_in d id (fg_node_id given) s (fg_run_id given);
  fr_attempt : ∃ row, d_runs d !! fg_run_id given = Some row ∧
    nw_terminal_state row = Some (fg_terminal_state given) ∧ is_Some (nw_finished_at row) ∧
    nw_failure row = sanitize_adapter_failure <$> fg_failure given;
  fr_output : ∀ markdown, fg_output_markdown given = Some markdown →
    output_recorded d id (fg_node_id given) (fg_run_id given) markdown;
  fr_success : s = Succeeded → is_Some (fg_output_markdown given) ∧ fg_failure given = None;
  fr_cost : ∃ m3 record, ct_catalog (d_m3 d) = Text m3 ∧
    record ∈ dc_costs (m3_deliverables m3) ∧ cl_run_id record = fg_run_id given ∧
    cl_amount record = ce_amount (fg_cost given);
}.

Section finish.
Context `{Environment} `{Digest} `{Serializer} `{Formats}.

Lemma finish_identity_run given c run session now c' :
  finish_identity given c run session now = Ok c' → find_run c (fg_run_id given) = Some run →
  ∃ r, find_run c' (fg_run_id given) = Some r ∧ rn_state r = fg_terminal_state given.
Proof.
  unfold finish_identity. intros E Hr. ok_inv.
  pose proof (find_run_with_run c (fg_run_id given) run (run_in_state (fg_terminal_state given)
    (rn_started_at run) (Some now) now) Hr (λ _, eq_refl)) as Hf.
  exists (run_in_state (fg_terminal_state given) (rn_started_at run) (Some now) now run).
  split; [|done]. destruct (fg_provider_session_id given); ok_inv; exact Hf.
Qed.

Lemma finish_current_node d id command c e run session :
  finish_current d id command c e = Ok (run, session) →
  find_session c (rn_session_id run) = Some session ∧ ∃ n, find_execution e (fg_node_id command) = Some n ∧ ne_run_id n = Some (fg_run_id command).
Proof.
  unfold finish_current. intros E. ok_inv. bool_prop.
  split; [done|]. destruct (find_execution e _) as [n|]; [|done]. eauto.
Qed.

Lemma finish_execution_node given e s f o e' n :
  valid_exec e → finish_execution given e s f o = Ok e' →
  find_execution e (fg_node_id given) = Some n →
  find_execution e' (fg_node_id given) = Some (finished (fg_owner given) s f n) ∧
  ∀ output, o = Some output → output ∈ ge_outputs e'.
Proof.
  unfold finish_execution. intros Hv E Hn. ok_inv.
  rename select (finish_terminal _ _ _ _ _ = _) into Hf.
  destruct (finish_finds _ _ _ _ _ _ Hv Hf) as (n' & Hn' & Hx). simplify_eq.
  destruct o as [o|]; [|simplify_eq; by split].
  unfold record_output in E. ok_inv. split; [done|]. intros output [= ->]. cbn. set_solver.
Qed.

Lemma finish_output_ok given s o :
  finish_output given s = Ok o →
  (s = Succeeded → is_Some (fg_output_markdown given)) ∧
  o = (λ markdown, {| no_node_id := fg_node_id given; no_run_id := fg_run_id given;
         no_content_hash := output_hash markdown; no_markdown := markdown |})
      <$> fg_output_markdown given.
Proof.
  unfold finish_output, output_create.
  destruct (fg_output_markdown given) as [markdown|]; intros E; ok_inv; bool_prop; [|by split].
  split; [by eexists|done].
Qed.

(** The session of the run, and what is stored of its selection, as the catalog
    has them. *)
Definition selection_of (d : db) (run : RunId)
    (selection : option ProviderLaunchIdentity * bool) : Prop :=
  ∃ c r session, ct_catalog (d_identity d) = Text c ∧ find_run c run = Some r ∧
    find_session c (rn_session_id r) = Some session ∧
    finish_selection d run (ss_agent_instance_id session) (ss_project_id session) (rn_model_id r)
      = Ok selection.

Lemma finish_effect id command w receipt w' :
  finish_graph_node_run id command w = (Ok receipt, w') →
  ∃ selected (malformed : bool) s, let given := if malformed then as_uncertain command else command in
    selection_of (w_db w) (fg_run_id command) (selected, malformed) ∧
    terminal_graph_state (fg_terminal_state given) = Some s ∧
    finish_recorded (w_db w') id given s.
Proof.
  unfold finish_graph_node_run. by_transact. set (d := w_db w). clearbody d. wp_run.
  match goal with |- context [fg_run_id (if ?b then as_uncertain command else command)] =>
    remember (if b then as_uncertain command else command) as given eqn:Hgiven;
    assert (Hg : fg_run_id given = fg_run_id command ∧ fg_node_id given = fg_node_id command)
      by (rewrite Hgiven; by destruct b);
    assert (Hback : ∀ P : FinishGraphNodeRunCommand → Prop,
      P given → P (if b then as_uncertain command else command)) by (by rewrite Hgiven);
    clear Hgiven; rename b into malformed
  end.
  destruct Hg as (Hrun & Hnode).
  rename select (finish_current _ _ _ _ _ = _) into Hcur.
  pose proof (finish_current_run _ _ _ _ _ _ _ Hcur) as [Hr _].
  apply finish_current_node in Hcur as (Hsession & n & Hn & Hnr).
  rewrite <- Hrun in Hr, Hnr. rewrite <- Hnode in Hn.
  rename select (sound_graph _ _ = _) into Hs. unfold sound_graph in Hs. ok_inv.
  rename select (validate_execution _ = _) into Hv. apply validate_execution_ok in Hv.
  rename select (finish_execution _ _ _ _ _ = _) into Hx.
  eapply finish_execution_node in Hx as [Hx Hout]; [|done..].
  rename select (finish_output _ _ = _) into Ho. apply finish_output_ok in Ho as [Hsucc ->].
  rename select (finish_identity _ _ _ _ _ = _) into Hf.
  eapply finish_identity_run in Hf as (r' & Hr' & Hstate); [|done].
  rename select (terminal_graph_state _ = Some _) into Hterm.
  rename select (d_graphs d !! id = _) into Hgraph.
  wp_write. wp_run. wp_write. wp_run. wp_write. wp_run. wp_write; [|by wp_run]. wp_run.
  match goal with |- wp _ _ ?d1 => eapply (wp_mono _ (λ _ d', d_identity d' = d_identity d1 ∧
    d_m3 d' = d_m3 d1 ∧ d_graphs d' = d_graphs d1 ∧ d_runs d' = d_runs d1 ∧
    ∀ markdown, fg_output_markdown given = Some markdown → ∃ ledger,
      d_outputs d' !! fg_run_id given = Some ledger ∧ ow_execution_id ledger = id ∧
      ow_node_id ledger = fg_node_id given ∧ ow_markdown ledger = markdown ∧
      ow_content_hash ledger = output_hash markdown)) end.
  { destruct (fg_output_markdown given) as [markdown|]; cbn [fmap option_fmap option_map]; wp_run; [|done].
    wp_write. split_and!; try done. intros ? [= <-]. cbn. rewrite lookup_insert_eq. by eexists. }
  cbv beta. intros [] d' (Hi & Hm & Hg & Hrs & Hl). wp_run. exists o, malformed. eexists.
  cbv zeta. apply Hback. clear Hback. split_and!; [|done|].
  - rewrite Hrun in Hr. by eexists _, _, _.
  - db_simpl. split; unfold run_in, node_in, output_recorded; db_simpl; rewrite ?Hi, ?Hm, ?Hg, ?Hrs.
    + by eexists _, _.
    + eexists _, _, _. rewrite lookup_alter_eq, Hgraph. by split_and!.
    + eexists. rewrite lookup_insert_eq. split_and!; [done|done|by eexists|done].
    + intros markdown E. destruct (Hl _ E) as (ledger & Hledger & ? & ? & ? & ?).
      eexists _, _, {| no_node_id := fg_node_id given; no_run_id := fg_run_id given;
        no_content_hash := output_hash markdown; no_markdown := markdown |}, ledger.
      rewrite lookup_alter_eq, Hgraph. split_and!; try done. apply Hout. by rewrite E.
    + intros ->. split; [by apply Hsucc|]. rename select (_ && _ = false) into E.
      rewrite bool_decide_true in E by done. cbn [andb] in E. bool_prop.
      apply eq_None_not_Some. intros [x Hx']. apply E. rewrite Hx'. by eexists.
    + unfold cost_record. destruct (attribution o malformed) as [[[? ?] ?] ?].
      eexists _, _. split; [done|]. cbn. split_and!; [apply list_elem_of_In, in_or_app; right; left; reflexivity|done|done].
Qed.

End finish.
