(* ===== verification/StoreEnds.v ===== *)
(** * How the methods end

    A total-correctness logic for errors: [raises P o] says that a routine ends,
    with which errors, and whether it may panic; [ends P m d] says the same of a
    computation started on the database [d].  The routines are walked through
    guard by guard; those with loops of their own end for the reason proved in
    ExecutionFacts.v.  Two things can panic: the clock, when it stands before the
    epoch, and the checks of a request that binds a credential to no run. *)
From S2P Require Import Prelude Policy Identity Catalog Office Meeting.
From S2P Require Import Deliverable Approval Graph Execution ExecutionFacts M3 Mvp Protocol.
From S2P Require Import Store StoreLogic Launch StagedLaunches GraphStore FinishRun CatalogStore.
From S2P Require Import CredentialGrants Dispatch DaemonStore StoreSpec StoreRefines StoreMethods.
From S2P Require Import StoreReachable StoreFacts.

(** ** Routines *)

(** Whether a panic is an end that is allowed. *)
Class Panics := panics : Prop.
Definition tolerant : Panics := True.
Definition strict : Panics := False.

(** The routine ends, and what it reports satisfies [P]. *)
Definition raises `{Panics} {E A} (P : E → Prop) (o : outcome E A) : Prop :=
  match o with Ok _ => True | Err e => P e | Panic => panics | Diverge => False end.

Lemma raises_strict {E A} (o : outcome E A) : raises (H := strict) (λ _, True) o → returns o.
Proof. by destruct o. Qed.
Lemma raises_no_loop `{Panics} {E A} P (o : outcome E A) : raises P o → o ≠ Diverge.
Proof. by destruct o. Qed.

(** Not the error that is answered by trying again. *)
Definition calm (e : StoreError) : Prop :=
  match e with RevisionConflict _ _ => False | _ => True end.

(** Predicates that all other errors satisfy. *)
Class Lenient (P : StoreError → Prop) : Prop := lenient : ∀ e, calm e → P e.
#[export] Instance lenient_calm : Lenient calm.
Proof. by intros e. Qed.
#[export] Instance lenient_any : Lenient (λ _, True).
Proof. by intros e. Qed.
#[export] Instance lenient_or (Q : StoreError → Prop) : Lenient (λ e, calm e ∨ Q e).
Proof. intros e. by left. Qed.

Section raises.
Context `{!Panics} {E : Type}.
Implicit Types P : E → Prop.

Lemma raises_obind {A B} P (m : outcome E A) (k : A → outcome E B) :
  raises P m → (∀ a, m = Ok a → raises P (k a)) → raises P (obind m k).
Proof. destruct m; cbn; auto. Qed.
Lemma raises_reject {A} P (b : bool) e (k : outcome E A) :
  P e → (b = false → raises P k) → raises P (fail_if b with e;; k).
Proof. destruct b; cbn; auto. Qed.
Lemma raises_ok_or {A} P (o : option A) (e : E) : P e → raises P (ok_or o e).
Proof. by destruct o. Qed.
Lemma raises_expect {A} P (o : option A) : panics ∨ is_Some o → raises P (expect o).
Proof. intros [|[a ->]]; [by destruct o|done]. Qed.
Lemma raises_map_err {F A} P (f : F → E) (m : outcome F A) :
  raises (λ e, P (f e)) m → raises P (map_err f m).
Proof. by destruct m. Qed.
Lemma raises_returns {A} P (m : outcome E A) : returns m → (∀ e, P e) → raises P m.
Proof. destruct m; cbn; auto; done. Qed.
Lemma raises_weaken {A} P Q (m : outcome E A) :
  raises P m → (∀ e, P e → Q e) → raises Q m.
Proof. destruct m; cbn; auto. Qed.
Lemma raises_halts {A} P (m : outcome E A) : raises (λ _, True) m → (∀ e, P e) → raises P m.
Proof. intros Hm HP. by eapply raises_weaken. Qed.
Lemma raises_for_each {A} P (f : A → outcome E unit) l :
  (∀ x, raises P (f x)) → raises P (for_each f l).
Proof. intros Hf. induction l; cbn; [done|]. apply raises_obind; auto. Qed.
Lemma raises_fold_try {A S} P (f : S → A → outcome E S) l s :
  (∀ s x, raises P (f s x)) → raises P (fold_try f s l).
Proof.
  intros Hf. revert s. induction l as [|x l IH]; intros s; cbn; [done|].
  apply raises_obind; auto.
Qed.
Lemma raises_map_try {A B} P (f : A → outcome E B) l :
  (∀ x, raises P (f x)) → raises P (map_try f l).
Proof.
  intros Hf. induction l as [|x l IH]; cbn; [done|].
  apply raises_obind; [auto|]. intros. by apply raises_obind.
Qed.

End raises.

Create HintDb raises.
Create HintDb halts.
Create HintDb ends.
#[export] Hint Resolve raises_ok_or : raises.

(** The predicate holds of an error at hand. *)
Ltac solve_error :=
  intros; cbv beta; lazymatch goal with
  | |- True => exact I
  | |- _ ≠ _ => discriminate
  | |- _ => apply lenient; exact I
  end.

(** Walks through the guards and lookups of a routine. *)
Ltac raises_step :=
  lazymatch goal with
  | |- raises _ (obind _ _) => apply raises_obind; [|intros ? ?]
  | |- raises _ (Ok _) => exact I
  | |- raises _ (Err _) => cbn [raises]; solve_error
  | |- raises _ (ok_or _ _) => apply raises_ok_or; solve_error
  | |- raises _ (map_err _ _) => apply raises_map_err
  | |- raises _ (for_each _ _) => apply raises_for_each; intros ?
  | |- raises _ (fold_try _ _ _) => apply raises_fold_try; intros ? ?
  | |- raises _ (map_try _ _) => apply raises_map_try; intros ?
  | |- raises _ (if ?b then Err _ else _) =>
      first [apply raises_reject; [solve_error|intros ?]|destruct b eqn:?]
  | |- raises _ (let _ := _ in _) => cbv zeta
  | |- raises _ (if ?b then _ else _) => destruct b eqn:?
  | |- raises _ (match ?x with _ => _ end) => destruct x eqn:?
  | |- raises _ _ =>
      first [solve [eauto with raises typeclass_instances]
            |apply raises_returns; [solve [eauto with bastet]|solve_error]
            |apply raises_halts; [solve [eauto with halts]|solve_error]]
  end.
Ltac solve_raises := repeat (raises_step; cbv beta).

(** ** Routines of the core crate *)

Notation halts := (raises (λ _, True)).

Section core.
Context `{!Panics} `{Digest} `{Serializer}.

Lemma request_validate_unchanged_halts r : halts (request_validate_unchanged r).
Proof. unfold request_validate_unchanged. solve_raises. Qed.
Lemma verify_decision_halts r x : halts (verify_decision r x).
Proof. unfold verify_decision. solve_raises. Qed.
Lemma validate_action_halts a p : halts (validate_action a p).
Proof. unfold validate_action, validate_action_binding. solve_raises. Qed.
#[local] Hint Resolve request_validate_unchanged_halts validate_action_halts : halts.
Lemma validate_against_halts r c : panics ∨ names_run r → halts (validate_against r c).
Proof.
  intros [Hp|Hr].
  { unfold validate_against, validate_run_scope, validate_credential_scope,
      validate_credential_binding, find_item. solve_raises. apply raises_expect. by left. }
  apply raises_returns; [|done]. apply validate_against_returns. intros b Hb. apply Hr. by exists b.
Qed.
(** A request is created for a run when it binds a credential. *)
Lemma request_create_names id a b x p r : request_create id a b x p = Ok r → panics ∨ names_run r.
Proof.
  intros (Hv & _ & ->)%request_create_ok. right. intros [c Hc]. apply (vg_run _ _ (va_grant _ _ Hv c Hc)).
Qed.
Lemma request_create_halts id a b x p : halts (request_create id a b x p).
Proof. unfold request_create. solve_raises. Qed.

Lemma output_validate_halts o : halts (output_validate o).
Proof. unfold output_validate. solve_raises. Qed.
Lemma output_create_halts n r m : halts (output_create n r m).
Proof. unfold output_create. solve_raises. Qed.
#[local] Hint Resolve output_validate_halts : halts.
Lemma record_output_halts e o : halts (record_output e o).
Proof. unfold record_output. solve_raises. Qed.
Lemma restart_as_halts e id : halts (restart_as e id).
Proof. unfold restart_as, start. solve_raises. Qed.
Lemma claim_node_halts e id owner : halts (claim_node e id owner).
Proof. unfold claim_node. solve_raises. Qed.
Lemma stage_node_halts e id owner run : halts (stage_node e id owner run).
Proof. unfold stage_node, dependencies_succeeded. solve_raises. Qed.
Lemma bind_run_halts e id owner run : halts (bind_run e id owner run).
Proof. unfold bind_run. solve_raises. Qed.
Lemma activate_staged_node_halts e id owner run : halts (activate_staged_node e id owner run).
Proof. unfold activate_staged_node. solve_raises. Qed.

(** The loop that blocks the dependents of a node ends on valid executions. *)
Lemma block_dependents_halts e id f :
  valid_exec e → (∀ x, ne_node_id (f x) = ne_node_id x) →
  halts (block_dependents (bump (set_nodes e (update_first (has_id id) f (ge_nodes e)))) id).
Proof.
  intros Hv Hf. destruct (ve_graph _ Hv) as [Hnd _ _ Hac _].
  destruct (block_dependents_correct (ge_graph e) Hnd id
      (update_first (has_id id) f (ge_nodes e))
      ltac:(rewrite execution_ids_update; [apply Hv|done])
      (bump (set_nodes e (update_first (has_id id) f (ge_nodes e)))))
    as (ids & Hs & _); [done|done|intros Hc; apply Hac; by exists id|]. by rewrite Hs.
Qed.
#[local] Hint Resolve block_dependents_halts : halts.
Lemma finish_terminal_halts e id owner s f : valid_exec e → halts (finish_terminal e id owner s f).
Proof. intros Hv. unfold finish_terminal. solve_raises. Qed.
Lemma complete_halts e id owner ok : valid_exec e → halts (complete e id owner ok).
Proof. intros Hv. unfold complete. solve_raises. Qed.
Lemma cancel_staged_node_halts e id owner run :
  valid_exec e → halts (cancel_staged_node e id owner run).
Proof. intros Hv. unfold cancel_staged_node. solve_raises. Qed.
Lemma retry_failed_halts e id : valid_exec e → halts (retry_failed e id).2.
Proof.
  intros Hv. destruct (find_execution e id) as [n|] eqn:Hn.
  - destruct (in_state Failed n) eqn:Hs.
    + apply in_state_true in Hs. by destruct (retry_failed_correct e id n Hv Hn Hs) as (? & -> & _).
    + unfold retry_failed. by rewrite Hn, Hs.
  - unfold retry_failed. by rewrite Hn.
Qed.
Lemma claim_loop_halts graph states owner limit claimed nodes :
  halts (claim_loop graph states owner limit claimed nodes).2.
Proof.
  revert claimed. induction nodes as [|n nodes IH]; intros claimed; cbn; [done|].
  destruct (_ || _).
  - specialize (IH claimed). by destruct (claim_loop _ _ _ _ _ _).
  - destruct (find_node _ _); [|done]. destruct (needs_succeeded _ _).
    + specialize (IH (claimed ++ [ne_node_id n])). by destruct (claim_loop _ _ _ _ _ _).
    + specialize (IH claimed). by destruct (claim_loop _ _ _ _ _ _).
Qed.
Lemma claim_ready_halts e owner limit : halts (claim_ready e owner limit).2.
Proof.
  unfold claim_ready. destruct (_ || _); [done|].
  pose proof (claim_loop_halts (ge_graph e) (state_map (ge_nodes e)) owner limit [] (ge_nodes e)).
  by destruct (claim_loop _ _ _ _ _ _) as [? [| | |]].
Qed.

End core.
#[export] Hint Resolve request_validate_unchanged_halts verify_decision_halts
  validate_against_halts request_create_names request_create_halts output_create_halts record_output_halts
  restart_as_halts claim_node_halts stage_node_halts bind_run_halts activate_staged_node_halts
  finish_terminal_halts complete_halts cancel_staged_node_halts : halts.

Section store.
Context `{!Panics} `{Environment} `{Digest} `{Serializer} `{Formats}.

Lemma from_str_raises {A} P `{Lenient P} (j : json A) : raises P (from_str j).
Proof. destruct j; cbn; [done|]. solve_error. Qed.
#[local] Hint Resolve from_str_raises : raises.

Lemma load_catalog_row_raises P `{Lenient P} d : raises P (load_catalog_row d).
Proof. unfold load_catalog_row. solve_raises. Qed.
#[local] Hint Resolve load_catalog_row_raises : raises.
Lemma load_catalog_raises P `{Lenient P} d : raises P (load_catalog d).
Proof. unfold load_catalog. solve_raises. Qed.
#[local] Hint Resolve load_catalog_raises : raises.
Lemma load_graph_raises P `{Lenient P} d id : raises P (load_graph d id).
Proof. unfold load_graph. solve_raises. Qed.
#[local] Hint Resolve load_graph_raises : raises.
Lemma replace_execution_raises P `{Lenient P} l e : raises P (replace_execution l e).
Proof. unfold replace_execution. solve_raises. Qed.
#[local] Hint Resolve replace_execution_raises : raises.
Lemma ledger_raises P `{Lenient P} d e : raises P (validate_graph_output_ledger d e).
Proof. unfold validate_graph_output_ledger. solve_raises. Qed.
#[local] Hint Resolve ledger_raises : raises.
Lemma load_graph_executions_raises P `{Lenient P} d : raises P (load_graph_executions d).
Proof. unfold load_graph_executions. solve_raises. Qed.
#[local] Hint Resolve load_graph_executions_raises : raises.
Lemma sound_graph_raises P `{Lenient P} d e : raises P (sound_graph d e).
Proof. unfold sound_graph. solve_raises. Qed.
#[local] Hint Resolve sound_graph_raises : raises.
Lemma validate_m3_catalog_raises P `{Lenient P} m c : raises P (validate_m3_catalog m c).
Proof. unfold validate_m3_catalog. solve_raises. Qed.
#[local] Hint Resolve validate_m3_catalog_raises : raises.
#[local] Hint Resolve validate_m3_returns : bastet.
Lemma validate_m3_with_raises P `{Lenient P} d e m c : raises P (validate_m3_with d e m c).
Proof. unfold validate_m3_with. solve_raises. Qed.
#[local] Hint Resolve validate_m3_with_raises : raises.
Lemma launch_policy_validate_raises P `{Lenient P} s : raises P (launch_policy_validate s).
Proof. unfold launch_policy_validate. solve_raises. Qed.
#[local] Hint Resolve launch_policy_validate_raises : raises.
Lemma launch_policy_capture_raises P `{Lenient P} c p r : raises P (launch_policy_capture c p r).
Proof. unfold launch_policy_capture. solve_raises. Qed.
#[local] Hint Resolve launch_policy_capture_raises : raises.
Lemma requirements_raises P `{Lenient P} plan : raises P (validate_online_cli_requirements plan).
Proof. unfold validate_online_cli_requirements. solve_raises. Qed.
#[local] Hint Resolve requirements_raises : raises.
Lemma current_policy_raises P `{Lenient P} plan c : raises P (validate_current_policy plan c).
Proof. unfold validate_current_policy. solve_raises. Qed.
#[local] Hint Resolve current_policy_raises : raises.
Lemma load_launch_identity_raises P `{Lenient P} d run : raises P (load_launch_identity d run).
Proof. unfold load_launch_identity. solve_raises. Qed.
#[local] Hint Resolve load_launch_identity_raises : raises.
Lemma plan_load_raises P `{Lenient P} d run : raises P (plan_load d run).
Proof. unfold plan_load. solve_raises. Qed.
#[local] Hint Resolve plan_load_raises : raises.
Lemma graph_node_prompt_raises P `{Lenient P} e n b : raises P (graph_node_prompt e n b).
Proof. unfold graph_node_prompt. solve_raises. Qed.
#[local] Hint Resolve graph_node_prompt_raises : raises.
Lemma selected_account_raises P `{Lenient P} c a : raises P (selected_account c a).
Proof. unfold selected_account. solve_raises. Qed.
#[local] Hint Resolve selected_account_raises : raises.
Lemma resolve_provider_run_binding_raises P `{Lenient P} c m e n : raises P (resolve_provider_run_binding c m e n).
Proof. unfold resolve_provider_run_binding. solve_raises. Qed.
#[local] Hint Resolve resolve_provider_run_binding_raises : raises.
Lemma approval_action_raises P `{Lenient P} plan : raises P (approval_action plan).
Proof. unfold approval_action. solve_raises. Qed.
#[local] Hint Resolve approval_action_raises : raises.
Lemma request_for_plan_raises P `{Lenient P} plan r : raises P (validate_request_for_plan plan r).
Proof. unfold validate_request_for_plan. solve_raises. Qed.
#[local] Hint Resolve request_for_plan_raises : raises.
Lemma current_role_policy_raises P `{Lenient P} c plan : raises P (current_role_policy c plan).
Proof. unfold current_role_policy. solve_raises. Qed.
#[local] Hint Resolve current_role_policy_raises : raises.
Lemma decision_and_grant_state_raises P `{Lenient P} d r s j : raises P (validate_decision_and_grant_state d r s j).
Proof. unfold validate_decision_and_grant_state. solve_raises. Qed.
#[local] Hint Resolve decision_and_grant_state_raises : raises.
Lemma staged_node_raises P `{Lenient P} d run plan c : raises P (validate_staged_node d run plan c).
Proof. unfold validate_staged_node. solve_raises. Qed.
#[local] Hint Resolve staged_node_raises : raises.
Lemma live_authority_raises P `{Lenient P} d r plan c e :
  panics ∨ names_run r → raises P (validate_live_authority d r plan c e).
Proof. intros Hr. unfold validate_live_authority. solve_raises. Qed.
#[local] Hint Resolve live_authority_raises : raises.
(** The request of a plan is for the run of the plan. *)
Lemma approval_action_names plan action :
  approval_action plan = Ok action → is_Some (sc_run_id (aa_scope action)).
Proof. unfold approval_action. intros E. ok_inv. by eexists. Qed.
Lemma request_for_plan_names plan r u : validate_request_for_plan plan r = Ok u → panics ∨ names_run r.
Proof.
  unfold validate_request_for_plan. intros E. ok_inv. right. intros _. bool_prop.
  rename select (ar_action r = _) into Ha. rewrite Ha. by eapply approval_action_names.
Qed.
#[local] Hint Resolve request_for_plan_names : raises halts.
Lemma staged_context_raises P `{Lenient P} d run a b : raises P (validate_staged_context d run a b).
Proof. unfold validate_staged_context. solve_raises. Qed.
#[local] Hint Resolve staged_context_raises : raises.
Lemma staged_run_raises P `{Lenient P} d run : raises P (validate_staged_run d run).
Proof. unfold validate_staged_run. solve_raises. Qed.
#[local] Hint Resolve staged_run_raises : raises.
Lemma validate_time_raises P `{Lenient P} r t : raises P (validate_time r t).
Proof. unfold validate_time. solve_raises. Qed.
#[local] Hint Resolve validate_time_raises : raises.
Lemma validate_graph_run_raises P `{Lenient P} d r c m run role row : raises P (validate_graph_run d r c m run role row).
Proof. unfold validate_graph_run. solve_raises. Qed.
#[local] Hint Resolve validate_graph_run_raises : raises.
Lemma current_catalog_raises P `{Lenient P} d r :
  panics ∨ names_run r → raises P (validate_current_catalog d r).
Proof. intros Hr. unfold validate_current_catalog. solve_raises. Qed.
#[local] Hint Resolve current_catalog_raises : raises.
Lemma grant_load_raises P `{Lenient P} d id : raises P (grant_load d id).
Proof. unfold grant_load. solve_raises. Qed.
#[local] Hint Resolve grant_load_raises : raises.
Lemma next_attempt_raises P `{Lenient P} d e n : raises P (next_attempt d e n).
Proof. unfold next_attempt. solve_raises. Qed.
#[local] Hint Resolve next_attempt_raises : raises.
Lemma begin_plan_raises P `{Lenient P} id c i e b s r a : raises P (begin_plan id c i e b s r a).
Proof. unfold begin_plan. solve_raises. Qed.
#[local] Hint Resolve begin_plan_raises : raises.
Lemma finish_selection_raises P `{Lenient P} d r a p m : raises P (finish_selection d r a p m).
Proof.
  unfold finish_selection. apply raises_obind; [|by intros; solve_raises].
  pose proof (load_launch_identity_raises P d r) as Hl.
  destruct (load_launch_identity d r) as [|[]| |]; cbn in Hl |- *; try done.
Qed.
#[local] Hint Resolve finish_selection_raises : raises.
Lemma finish_current_raises P `{Lenient P} d id c i e : raises P (finish_current d id c i e).
Proof. unfold finish_current. solve_raises. Qed.
#[local] Hint Resolve finish_current_raises : raises.
Lemma finish_output_raises P `{Lenient P} c s : raises P (finish_output c s).
Proof. unfold finish_output. solve_raises. Qed.
#[local] Hint Resolve finish_output_raises : raises.
Lemma finish_identity_raises P `{Lenient P} c i r s t : raises P (finish_identity c i r s t).
Proof. unfold finish_identity. solve_raises. Qed.
#[local] Hint Resolve finish_identity_raises : raises.
Lemma preflight_run_raises P `{Lenient P} d r s : raises P (preflight_run d r s).
Proof. unfold preflight_run. solve_raises. Qed.
#[local] Hint Resolve preflight_run_raises : raises.
Lemma preflight_inputs_raises P `{Lenient P} d r p s i : raises P (preflight_inputs d r p s i).
Proof. unfold preflight_inputs. solve_raises. Qed.
#[local] Hint Resolve preflight_inputs_raises : raises.
Lemma keeps_run_raises P `{Lenient P} a b r : raises P (keeps_run a b r).
Proof. unfold keeps_run. solve_raises. Qed.
#[local] Hint Resolve keeps_run_raises : raises.
Lemma introduces_run_raises P `{Lenient P} a r : raises P (introduces_run a r).
Proof. unfold introduces_run. solve_raises. Qed.
#[local] Hint Resolve introduces_run_raises : raises.
Lemma document_sources_raises P `{Lenient P} e : raises P (document_sources e).
Proof. unfold document_sources. solve_raises. Qed.
#[local] Hint Resolve document_sources_raises : raises.
Lemma validate_stored_raises P `{Lenient P} w i m l :
  (∀ t, P (w t)) → raises P (validate_stored w i m l).
Proof.
  intros Hw. apply raises_map_err, raises_returns; [apply validate_m3_returns|]. intros. apply Hw.
Qed.
Lemma recover_run_raises P `{Lenient P} d t acc run : raises P (recover_run d t acc run).
Proof. unfold recover_run. solve_raises. Qed.
#[local] Hint Resolve recover_run_raises : raises.
Lemma approval_record_raises P `{Lenient P} d id row : raises P (approval_record d id row).
Proof. unfold approval_record. solve_raises. Qed.
#[local] Hint Resolve approval_record_raises : raises.

End store.
#[export] Hint Resolve validate_m3_returns : bastet.
#[export] Hint Resolve from_str_raises load_catalog_row_raises load_catalog_raises load_graph_raises replace_execution_raises
  ledger_raises load_graph_executions_raises sound_graph_raises validate_m3_catalog_raises
  validate_m3_with_raises launch_policy_validate_raises launch_policy_capture_raises requirements_raises
  current_policy_raises load_launch_identity_raises plan_load_raises graph_node_prompt_raises
  selected_account_raises resolve_provider_run_binding_raises approval_action_raises request_for_plan_raises
  current_role_policy_raises decision_and_grant_state_raises staged_node_raises live_authority_raises
  staged_context_raises staged_run_raises validate_time_raises validate_graph_run_raises
  current_catalog_raises grant_load_raises next_attempt_raises begin_plan_raises
  finish_selection_raises finish_current_raises finish_output_raises finish_identity_raises
  preflight_run_raises preflight_inputs_raises keeps_run_raises introduces_run_raises
  document_sources_raises validate_stored_raises recover_run_raises approval_record_raises : raises.
#[export] Hint Resolve request_for_plan_names request_create_names : raises halts.

(** ** Computations *)

(** The clock does not stand before the epoch, where [timestamp] panics. *)
Class ClockSound `{Environment} (p : Panics) : Prop := clock_sound : panics ∨ ∀ n, (0 ≤ clock n)%Z.
#[export] Instance clock_tolerated `{Environment} : ClockSound tolerant.
Proof. by left. Qed.

Section ends.
Context {may : Panics} `{Environment} `{!ClockSound may}.

Definition ends {A} (P : StoreError → Prop) (m : M A) (d : db) : Prop :=
  ∀ w, w_db w = d → raises P (m w).1.

Lemma ends_ret {A} P (a : A) d : ends P (mret a) d.
Proof. by intros w _. Qed.
Lemma ends_throw {A} (P : StoreError → Prop) e d : P e → ends P (throw e : M A) d.
Proof. by intros He w _. Qed.
Lemma ends_lift {A} P (o : outcome StoreError A) d : raises P o → ends P (lift o) d.
Proof. by intros Ho w _. Qed.
Lemma ends_bind {A B} P (m : M A) (k : A → M B) d :
  ends P m d → wp m (λ a d', ends P (k a) d') d → ends P (mbind m k) d.
Proof.
  intros Hm Hk w Hw. specialize (Hm w Hw). unfold mbind.
  destruct (m w) as [[a| | |] w'] eqn:E; try done. exact (Hk w a w' Hw E w' eq_refl).
Qed.
Lemma ends_reject {A} (P : StoreError → Prop) (b : bool) e (m : M A) d :
  P e → (b = false → ends P m d) → ends P (reject b with e;; m) d.
Proof. destruct b; [intros; by apply ends_throw|auto]. Qed.
Lemma ends_transact {A} (P : StoreError → Prop) (m : M A) d :
  P Database → P Poisoned → ends P m d → ends P (transact m) d.
Proof.
  intros HD HP Hm w Hw. unfold transact. destruct (w_poisoned w); [done|].
  specialize (Hm w Hw). destruct (m w) as [[a| | |] w']; try done. by destruct (commits _).
Qed.
Lemma ends_read_only {A} (P : StoreError → Prop) (f : db → outcome StoreError A) d :
  P Poisoned → raises P (f d) → ends P (read_only f) d.
Proof. intros HP Hf w <-. unfold read_only. by destruct (w_poisoned w). Qed.
Lemma ends_for_rows {A} P (I : db → Prop) (f : A → M unit) l d :
  (∀ x d, I d → ends P (f x) d ∧ wp (f x) (λ _, I) d) → I d → ends P (for_rows f l) d.
Proof.
  intros Hf. revert d. induction l as [|x l IH]; intros d Hd; [apply ends_ret|].
  destruct (Hf x d Hd) as [He Hw]. apply ends_bind; [exact He|].
  eapply wp_mono; [exact Hw|]. intros [] d' Hd'. by apply IH.
Qed.
(** A part of which nothing need be known. *)
Lemma wp_any {A} (m : M A) (Q : A → db → Prop) d : (∀ a d', Q a d') → wp m Q d.
Proof. intros HQ w a w' _ _. apply HQ. Qed.

Lemma ends_sql_u64 (P : StoreError → Prop) n d : P Database → ends P (sql_u64 n) d.
Proof. intros HP. apply ends_reject; [done|]. intros _. apply ends_ret. Qed.
Lemma ends_timestamp P d : ends P timestamp d.
Proof.
  intros w _. unfold timestamp, mbind, now. cbn. destruct (Z.ltb_spec (clock (w_clock w)) 0); cbn; [|done].
  destruct clock_sound as [|Hc]; [done|]. specialize (Hc (w_clock w)). lia.
Qed.
Lemma ends_now_ms P `{Lenient P} d : ends P now_ms d.
Proof.
  apply ends_bind; [by intros w _|]. apply wp_any. intros t d'.
  apply ends_reject; [solve_error|]. intros. apply ends_ret.
Qed.
Lemma ends_entity_metadata {k} P (id : stable_id k) t d : ends P (entity_metadata id t) d.
Proof. apply ends_bind; [apply ends_timestamp|]. apply wp_any. intros. apply ends_ret. Qed.
Lemma ends_insert_event P ty p d : ends P (insert_event ty p) d.
Proof.
  apply ends_bind; [by intros w _|]. apply wp_any. intros.
  apply ends_bind; [apply ends_timestamp|]. apply wp_any. intros. by intros w _.
Qed.

End ends.

(** The database after a part: as it executes, or anything. *)
Ltac ends_after :=
  repeat (lazymatch goal with
          | |- wp _ _ _ => first [wp_read1 | wp_write | wp_match | apply wp_any; intros ? ?]
          end; cbv beta).

(** One part of a computation, and its course. *)
Ltac ends_prim :=
  lazymatch goal with
  | |- ends _ get _ => exact (λ _ _, I)
  | |- ends _ (modify _) _ => exact (λ _ _, I)
  | |- ends _ (mret _) _ => apply ends_ret
  | |- ends _ new_v4 _ => exact (λ _ _, I)
  | |- ends _ new_id _ => exact (λ _ _, I)
  | |- ends _ timestamp _ => apply ends_timestamp
  | |- ends _ now_ms _ => apply ends_now_ms; apply _
  | |- ends _ (entity_metadata _ _) _ => apply ends_entity_metadata
  | |- ends _ (insert_event _ _) _ => apply ends_insert_event
  | |- ends _ (sql_u64 _) _ => apply ends_sql_u64; solve_error
  | |- ends _ (lift _) _ => apply ends_lift; solve_raises
  | |- ends _ (try _ _) _ => apply ends_lift, raises_map_err; solve_raises
  | |- ends _ (parse _) _ => apply ends_lift; solve_raises
  | |- ends _ (required _ _) _ => apply ends_lift; solve_raises
  | |- ends _ (next_revision _) _ => apply ends_lift; solve_raises
  | |- ends _ _ _ => solve [eauto with ends typeclass_instances]
  end.
Ltac ends_step :=
  lazymatch goal with
  | |- ends _ (mbind _ _) _ => apply ends_bind; [|ends_after]
  | |- ends _ (throw _) _ => apply ends_throw; solve_error
  | |- ends _ (if _ then throw _ else _) _ => apply ends_reject; [solve_error|intros ?]
  | |- ends _ (transact _) _ => apply ends_transact; [solve_error|solve_error|]
  | |- ends _ (read_only _) _ => apply ends_read_only; [solve_error|solve_raises]
  | |- ends _ (let _ := _ in _) _ => progress cbv zeta
  | |- ends _ (match ?p with pair _ _ => _ end) _ => first [is_var p; destruct p|destruct p eqn:?]
  | |- ends _ (match ?x with _ => _ end) _ => destruct x eqn:?
  | |- ends _ _ _ => ends_prim
  end; cbv beta.
Ltac solve_ends := repeat ends_step.

Section methods.
Context {may : Panics} `{Environment} `{Digest} `{Serializer} `{Formats} `{CredentialReader} `{!ClockSound may}.

Lemma ends_update_identity P `{Lenient P} r c t d : ends P (update_identity r c t) d.
Proof. unfold update_identity. solve_ends. Qed.
#[local] Hint Resolve ends_update_identity : ends.
Lemma ends_update_m3 P `{Lenient P} r c t d : ends P (update_m3 r c t) d.
Proof. unfold update_m3. solve_ends. Qed.
#[local] Hint Resolve ends_update_m3 : ends.
Lemma ends_update_graph_row P `{Lenient P} id e t d : ends P (update_graph_row id e t) d.
Proof. unfold update_graph_row. solve_ends. Qed.
#[local] Hint Resolve ends_update_graph_row : ends.
Lemma ends_insert_graph_or_ignore P `{Lenient P} e t d : ends P (insert_graph_or_ignore e t) d.
Proof. unfold insert_graph_or_ignore. solve_ends. Qed.
#[local] Hint Resolve ends_insert_graph_or_ignore : ends.
Lemma ends_insert_graph P `{Lenient P} e t d : ends P (insert_graph e t) d.
Proof. unfold insert_graph. solve_ends. Qed.
#[local] Hint Resolve ends_insert_graph : ends.
Lemma ends_insert_node_run P `{Lenient P} run row d : ends P (insert_node_run run row) d.
Proof. unfold insert_node_run. solve_ends. Qed.
#[local] Hint Resolve ends_insert_node_run : ends.
Lemma ends_finish_node_run P `{Lenient P} only run t s f d : ends P (finish_node_run only run t s f) d.
Proof. unfold finish_node_run. solve_ends. Qed.
#[local] Hint Resolve ends_finish_node_run : ends.
Lemma ends_insert_output P `{Lenient P} id o t d : ends P (insert_output id o t) d.
Proof. unfold insert_output. solve_ends. Qed.
#[local] Hint Resolve ends_insert_output : ends.
Lemma ends_insert_approval_or_ignore P `{Lenient P} r t d : ends P (insert_approval_or_ignore r t) d.
Proof. unfold insert_approval_or_ignore. solve_ends. Qed.
#[local] Hint Resolve ends_insert_approval_or_ignore : ends.
Lemma ends_decide_row P `{Lenient P} id x t d : ends P (decide_row id x t) d.
Proof. unfold decide_row. solve_ends. Qed.
#[local] Hint Resolve ends_decide_row : ends.
Lemma ends_insert_grant P `{Lenient P} id t d : ends P (insert_grant id t) d.
Proof. unfold insert_grant. solve_ends. Qed.
#[local] Hint Resolve ends_insert_grant : ends.
Lemma ends_consume_row P `{Lenient P} id t d : ends P (consume_row id t) d.
Proof. unfold consume_row. solve_ends. Qed.
#[local] Hint Resolve ends_consume_row : ends.
Lemma ends_revoke_row P `{Lenient P} id f b d : ends P (revoke_row id f b) d.
Proof. unfold revoke_row. solve_ends. Qed.
#[local] Hint Resolve ends_revoke_row : ends.
Lemma ends_insert_plan P `{Lenient P} run plan h d : ends P (insert_plan run plan h) d.
Proof. unfold insert_plan. solve_ends. Qed.
#[local] Hint Resolve ends_insert_plan : ends.
Lemma ends_insert_staged P `{Lenient P} run r t d : ends P (insert_staged run r t) d.
Proof. unfold insert_staged. solve_ends. Qed.
#[local] Hint Resolve ends_insert_staged : ends.
Lemma ends_move_request P `{Lenient P} id l f d : ends P (move_request id l f) d.
Proof. unfold move_request. solve_ends. Qed.
#[local] Hint Resolve ends_move_request : ends.
Lemma ends_insert_claim P `{Lenient P} run r t d : ends P (insert_claim run r t) d.
Proof. unfold insert_claim. solve_ends. Qed.
#[local] Hint Resolve ends_insert_claim : ends.
Lemma ends_move_run_staged P `{Lenient P} run a b d : ends P (move_run_staged run a b) d.
Proof. unfold move_run_staged. solve_ends. Qed.
#[local] Hint Resolve ends_move_run_staged : ends.
Lemma ends_plan_insert P `{Lenient P} plan d : ends P (plan_insert plan) d.
Proof. unfold plan_insert. solve_ends. Qed.
#[local] Hint Resolve ends_plan_insert : ends.
Lemma ends_check_revision P `{Lenient P} run d : ends P (check_revision run) d.
Proof. unfold check_revision. solve_ends. Qed.
#[local] Hint Resolve ends_check_revision : ends.
Lemma ends_stage P `{Lenient P} plan d : ends P (stage plan) d.
Proof. unfold stage. solve_ends. Qed.
#[local] Hint Resolve ends_stage : ends.
Lemma ends_issue P `{Lenient P} r x d : ends P (issue r x) d.
Proof. unfold issue. solve_ends. Qed.
#[local] Hint Resolve ends_issue : ends.
Lemma ends_store_m3 P `{Lenient P} n m d : ends P (store_m3 n m) d.
Proof. unfold store_m3. solve_ends. Qed.
#[local] Hint Resolve ends_store_m3 : ends.
Lemma ends_store_cancelling P `{Lenient P} n c run d : ends P (store_cancelling n c run) d.
Proof. unfold store_cancelling. solve_ends. Qed.
#[local] Hint Resolve ends_store_cancelling : ends.
Lemma ends_update_daemon P `{Lenient P} n l d : ends P (update_daemon n l) d.
Proof. unfold update_daemon. solve_ends. Qed.
#[local] Hint Resolve ends_update_daemon : ends.
Lemma ends_insert_checkpoint P `{Lenient P} row d : ends P (insert_checkpoint row) d.
Proof. unfold insert_checkpoint. solve_ends. Qed.
#[local] Hint Resolve ends_insert_checkpoint : ends.

(** The stored executions are valid, and the stored requests that bind a
    credential name their run. *)
Record good (d : db) : Prop := {
  good_keyed : keyed d;
  good_graphs : map_Forall graph_wf (d_graphs d);
  good_requests : map_Forall (λ _ row, ∀ r, aw_request row = Text r → names_run r) (d_approvals d);
}.

Lemma good_well_formed d : well_formed d → keyed d → good d.
Proof.
  intros Hd Hk. split; [done|apply Hd|]. intros id row Hrow r Hr.
  destruct (wf_approvals _ Hd _ _ Hrow) as (r' & Hr' & _ & _ & Hn & _). assert (r' = r) as -> by congruence. done.
Qed.
Lemma good_graph d id row e :
  good d → d_graphs d !! id = Some row → gw_execution row = Text e → valid_exec e.
Proof.
  intros [_ Hg _] Hrow He. destruct (Hg _ _ Hrow) as (e' & He' & _ & _ & Hv).
  rewrite He in He'. by injection He' as ->.
Qed.
Lemma good_load_graph d id r e : good d → load_graph d id = Ok (r, e) → valid_exec e.
Proof.
  intros Hd. unfold load_graph. intros E. ok_inv.
  destruct (gw_execution _) eqn:He; [|done]. simplify_eq/=. by eapply good_graph.
Qed.
Lemma sound_graph_valid d e u : sound_graph d e = Ok u → valid_exec e.
Proof. unfold sound_graph. intros E. ok_inv. by apply validate_execution_ok. Qed.
Lemma good_step d d' : good d → db_step d d' → good d'.
Proof.
  intros [Hk Hg Ha] Hs. split; [by eapply keyed_step| |]; [clear Ha|clear Hg];
    destruct Hs; try done; cbn.
  - apply map_Forall_insert_2; [|done].
    destruct (Hg _ _ ltac:(eassumption)) as (e0 & ? & Hid & _ & Hv).
    assert (e0 = e) as -> by congruence. rename select (rtc exec_step _ _) into Hsteps.
    exists e'. split_and!; try done; [|by eapply exec_steps_valid].
    by rewrite (proj1 (exec_step_frame _ _ Hsteps)).
  - apply map_Forall_insert_2; [|done]. exists e. split_and!; try done. by apply started_valid.
  - apply map_Forall_insert_2; [|done]. by exists e.
  - apply map_Forall_insert_2; [|done]. intros r Hr. by assert (r = request) as -> by congruence.
  - apply map_Forall_insert_2; [|done]. cbn. by eapply (map_Forall_lookup_1 _ _ _ _ Ha).
Qed.
Lemma good_request d id row r :
  good d → d_approvals d !! id = Some row → aw_request row = Text r → panics ∨ names_run r.
Proof. intros Hd Hrow Hr. right. by apply (good_requests _ Hd _ _ Hrow). Qed.
Lemma good_grant d id record :
  good d → grant_load d id = Ok record → panics ∨ names_run (cg_request record).
Proof. intros Hd. unfold grant_load. intros E. ok_inv. cbn.
  eapply good_request; [done..|]. unfold from_str in *. by destruct (aw_request _); simplify_eq.
Qed.
Lemma good_steps d d' : rtc db_step d d' → good d → good d'.
Proof. induction 1; eauto using good_step. Qed.

Lemma expect_graph_halts d id r : halts (expect_graph d id r).
Proof. unfold expect_graph. solve_raises. Qed.
Lemma expect_m3_halts d r : halts (expect_m3 d r).
Proof. unfold expect_m3. solve_raises. Qed.
Lemma launch_node_halts e id owner run b : halts (launch_node e id owner run b).
Proof. unfold launch_node. solve_raises. Qed.
Lemma retry_execution_halts e id : valid_exec e → halts (retry_execution e id).
Proof.
  intros Hv. unfold retry_execution. pose proof (retry_failed_halts e id Hv) as Hr.
  destruct (retry_failed e id) as [e' [| | |]]; by cbn in *.
Qed.
Lemma finish_execution_halts c e s f o : valid_exec e → halts (finish_execution c e s f o).
Proof. intros Hv. unfold finish_execution. solve_raises. Qed.
Lemma accept_mvp_decision_halts ids m3 c m t a at_ :
  halts (accept_mvp_decision ids m3 c m t a at_).2.
Proof.
  unfold accept_mvp_decision. repeat case_match; cbn [snd]; try exact I.
  unfold start. solve_raises.
Qed.
Lemma prepare_draft_halts is_dir ids a b c x : halts (prepare_draft is_dir ids a b c x).
Proof. unfold prepare_draft, validate_draft. solve_raises. Qed.
Lemma ends_draw_mvp_ids P d : ends P draw_mvp_ids d.
Proof. unfold draw_mvp_ids. solve_ends. Qed.
Lemma ends_draw_decision_ids P d : ends P draw_decision_ids d.
Proof. unfold draw_decision_ids. solve_ends. Qed.
#[local] Hint Resolve ends_draw_mvp_ids ends_draw_decision_ids : ends.
Lemma version_create_halts id v parent t l : halts (version_create id v parent t l).
Proof. unfold version_create. solve_raises. Qed.
Lemma bind_join_receipt_halts v e n x : halts (bind_join_receipt v e n x).
Proof. unfold bind_join_receipt. solve_raises. Qed.
Lemma accept_halts v a at_ : halts (accept v a at_).
Proof. unfold accept, version_validate_unchanged. solve_raises. Qed.
Lemma prepare_halts m p v t x : halts (prepare m p v t x).
Proof. unfold prepare. solve_raises. Qed.
Lemma record_delivered_halts v r : halts (record_delivered v r).
Proof. unfold record_delivered. solve_raises. Qed.
#[local] Hint Resolve version_create_halts bind_join_receipt_halts accept_halts prepare_halts
  record_delivered_halts prepare_draft_halts expect_graph_halts expect_m3_halts launch_node_halts retry_execution_halts
  finish_execution_halts : halts.
#[local] Hint Extern 2 (valid_exec _) => eapply good_load_graph; eassumption : halts.
#[local] Hint Extern 2 (valid_exec _) => eapply sound_graph_valid; eassumption : halts.

Lemma good_put_grants d x : good d → good (put_grants d x).
Proof. intros [[] ? ?]. split; [by split|done..]. Qed.
Lemma good_put_approvals d id row row' :
  good d → d_approvals d !! id = Some row → aw_request row' = aw_request row →
  good (put_approvals d (<[id := row']> (d_approvals d))).
Proof.
  intros [[] ? Ha] Hrow E. split; [by split|done|]. apply map_Forall_insert_2; [|done].
  intros r. rewrite E. by apply (Ha _ _ Hrow).
Qed.
Lemma good_put_events d x : good d → good (put_events d x).
Proof. intros [[] ? ?]. split; [by split|done..]. Qed.
#[local] Hint Resolve good_put_grants good_put_approvals good_put_events : ends.
#[local] Hint Extern 2 (panics ∨ _) => eapply good_grant; eassumption : raises halts.
#[local] Hint Extern 2 (panics ∨ _) => eapply good_request; eassumption : raises halts.

(** ** Methods *)

Lemma ends_cancel_for_request P `{Lenient P} id reason d :
  good d → ends P (cancel_for_request id reason) d.
Proof.
  intros Hd. unfold cancel_for_request. solve_ends.
Qed.
#[local] Hint Resolve ends_cancel_for_request : ends.
Lemma ends_on_decision P `{Lenient P} r kind d : good d → ends P (on_decision r kind) d.
Proof. intros Hd. unfold on_decision. solve_ends. Qed.
#[local] Hint Resolve ends_on_decision : ends.
Lemma ends_expire P `{Lenient P} now d : good d → ends P (expire now) d.
Proof.
  intros Hd. unfold expire. solve_ends. apply ends_for_rows with good; [|done].
  intros id d' Hd'. split; [by apply ends_cancel_for_request|].
  eapply wp_mono; [apply (cancel_refines id _ d' d'); [apply Hd'|done]|]. intros [] d'' Hs.
  by eapply good_steps.
Qed.
#[local] Hint Resolve ends_expire : ends.
Lemma ends_create_graph_execution e d : good d → ends (λ _, True) (create_graph_execution e) d.
Proof. intros Hd. unfold create_graph_execution. solve_ends. Qed.
#[local] Hint Resolve ends_create_graph_execution : ends.
Lemma ends_restart_missing_output_graph id r d : good d → ends (λ _, True) (restart_missing_output_graph id r) d.
Proof. intros Hd. unfold restart_missing_output_graph. solve_ends. Qed.
#[local] Hint Resolve ends_restart_missing_output_graph : ends.
Lemma ends_retry_failed_graph_node id c d : good d → ends (λ _, True) (retry_failed_graph_node id c) d.
Proof. intros Hd. unfold retry_failed_graph_node. solve_ends. Qed.
#[local] Hint Resolve ends_retry_failed_graph_node : ends.
Lemma ends_graph_execution id d : good d → ends (λ _, True) (graph_execution id) d.
Proof. intros Hd. unfold graph_execution. solve_ends. Qed.
#[local] Hint Resolve ends_graph_execution : ends.
Lemma ends_graph_executions d : good d → ends (λ _, True) (graph_executions) d.
Proof. intros Hd. unfold graph_executions. solve_ends. Qed.
#[local] Hint Resolve ends_graph_executions : ends.
Lemma ends_claim_graph_nodes id r o l d : good d → ends (λ _, True) (claim_graph_nodes id r o l) d.
Proof.
  intros Hd. unfold claim_graph_nodes, update_graph. solve_ends.
  match goal with H : claim_ready ?e _ _ = _ |- _ =>
    pose proof (claim_ready_halts e o l) as Hc; by rewrite H in Hc end.
Qed.
#[local] Hint Resolve ends_claim_graph_nodes : ends.
Lemma ends_complete_graph_node id r n o ok d : good d → ends (λ _, True) (complete_graph_node id r n o ok) d.
Proof. intros Hd. unfold complete_graph_node, update_graph. solve_ends. Qed.
#[local] Hint Resolve ends_complete_graph_node : ends.
Lemma ends_begin_graph_node_run_inner id c b d : good d → ends (λ _, True) (begin_graph_node_run_inner id c b) d.
Proof. intros Hd. unfold begin_graph_node_run_inner. solve_ends. Qed.
#[local] Hint Resolve ends_begin_graph_node_run_inner : ends.
Lemma ends_begin_graph_node_run id c d : good d → ends (λ _, True) (begin_graph_node_run id c) d.
Proof. intros Hd. unfold begin_graph_node_run. solve_ends. Qed.
#[local] Hint Resolve ends_begin_graph_node_run : ends.
Lemma ends_begin_provider_graph_node_run id c b d : good d → ends (λ _, True) (begin_provider_graph_node_run id c b) d.
Proof. intros Hd. unfold begin_provider_graph_node_run. solve_ends. Qed.
#[local] Hint Resolve ends_begin_provider_graph_node_run : ends.
Lemma ends_preflight_provider_launch r d : good d → ends (λ _, True) (preflight_provider_launch r) d.
Proof. intros Hd. unfold preflight_provider_launch. solve_ends. Qed.
#[local] Hint Resolve ends_preflight_provider_launch : ends.
Lemma ends_finish_graph_node_run id c d : good d → ends (λ _, True) (finish_graph_node_run id c) d.
Proof. intros Hd. unfold finish_graph_node_run. solve_ends. Qed.
#[local] Hint Resolve ends_finish_graph_node_run : ends.

(** At the revisions that the command expects, the end of a run reports no
    conflict. *)
Lemma ends_finish_current id c d :
  good d → ct_revision (d_identity d) = fg_expected_catalog_revision c →
  ct_revision (d_m3 d) = fg_expected_m3_revision c →
  (∀ row, d_graphs d !! id = Some row → gw_revision row = fg_expected_graph_revision c) →
  ends calm (finish_graph_node_run id c) d.
Proof.
  intros Hd Hc Hm Hg. unfold finish_graph_node_run. do 2 ends_step; [solve_ends|]. cbv zeta.
  rewrite Hc, Hm, !(bool_decide_eq_true_2 (_ = _)) by done. cbn [negb]. cbv iota.
  ends_step; [ends_prim|]. rename select (d_graphs d !! id = _) into Hrow.
  rewrite (Hg _ Hrow), (bool_decide_eq_true_2 (_ = _)) by done. cbn [negb]. cbv iota. solve_ends.
Qed.
(** What a read reports is not tried again. *)
Definition final {A} (o : outcome StoreError A) : Prop :=
  raises (λ e, e ≠ Database) o ∧ raises (λ e, e ≠ Poisoned) o.

Lemma catalog_final d : final (
  let? catalog := from_str (ct_catalog (d_identity d)) in
  map_err InvalidCatalog (validate_catalog catalog) ?;
  Ok {| csn_revision := ct_revision (d_identity d); csn_catalog := catalog |}).
Proof. split; unfold from_str; solve_raises. Qed.
Lemma m3_final d : final (
  let? catalog := from_str (ct_catalog (d_m3 d)) in
  let? identity := from_str (ct_catalog (d_identity d)) in
  validate_m3_catalog catalog identity ?;
  Ok {| msn_revision := ct_revision (d_m3 d); msn_catalog := catalog |}).
Proof. split; unfold validate_m3_catalog, from_str; solve_raises. Qed.
Lemma graph_final d id : final (
  let? (_, execution) := load_graph d id in
  sound_graph d execution ?;
  Ok execution).
Proof. split; unfold load_graph, sound_graph, validate_graph_output_ledger, from_str; solve_raises. Qed.

Lemma ends_catalog d : good d → ends (λ _, True) (catalog) d.
Proof. intros Hd. unfold catalog. solve_ends. Qed.
#[local] Hint Resolve ends_catalog : ends.
Lemma ends_m3_catalog d : good d → ends (λ _, True) (m3_catalog) d.
Proof. intros Hd. unfold m3_catalog. solve_ends. Qed.
#[local] Hint Resolve ends_m3_catalog : ends.
Lemma ends_replace_catalog c d : good d → ends (λ _, True) (replace_catalog c) d.
Proof. intros Hd. unfold replace_catalog. solve_ends. Qed.
#[local] Hint Resolve ends_replace_catalog : ends.
Lemma ends_replace_m3_catalog c d : good d → ends (λ _, True) (replace_m3_catalog c) d.
Proof. intros Hd. unfold replace_m3_catalog. solve_ends. Qed.
#[local] Hint Resolve ends_replace_m3_catalog : ends.
Lemma ends_preflight_provider_cancel run r d : good d → ends (λ _, True) (preflight_provider_cancel run r) d.
Proof. intros Hd. unfold preflight_provider_cancel. solve_ends. Qed.
#[local] Hint Resolve ends_preflight_provider_cancel : ends.
Lemma ends_record_provider_running run x d : good d → ends (λ _, True) (record_provider_running run x) d.
Proof. intros Hd. unfold record_provider_running. solve_ends. Qed.
#[local] Hint Resolve ends_record_provider_running : ends.
Lemma ends_record_provider_cancel_after_preflight run d : good d → ends (λ _, True) (record_provider_cancel_after_preflight run) d.
Proof. intros Hd. unfold record_provider_cancel_after_preflight. solve_ends. Qed.
#[local] Hint Resolve ends_record_provider_cancel_after_preflight : ends.
Lemma ends_record_provider_cancel_accepted run r d : good d → ends (λ _, True) (record_provider_cancel_accepted run r) d.
Proof. intros Hd. unfold record_provider_cancel_accepted. solve_ends. Qed.
#[local] Hint Resolve ends_record_provider_cancel_accepted : ends.
Lemma ends_accept_decision_baseline c d : good d → ends (λ _, True) (accept_decision_baseline c) d.
Proof.
  intros Hd. unfold accept_decision_baseline. solve_ends.
  match goal with H : accept_mvp_decision ?ids ?m3 ?c ?m ?t ?a ?at_ = _ |- _ =>
    pose proof (accept_mvp_decision_halts ids m3 c m t a at_) as Hc; by rewrite H in Hc end.
Qed.
#[local] Hint Resolve ends_accept_decision_baseline : ends.
Lemma ends_create_mvp_document c d : good d → ends (λ _, True) (create_mvp_document c) d.
Proof. intros Hd. unfold create_mvp_document. solve_ends. Qed.
#[local] Hint Resolve ends_create_mvp_document : ends.
Lemma ends_accept_mvp_document c d : good d → ends (λ _, True) (accept_mvp_document c) d.
Proof. intros Hd. unfold accept_mvp_document. solve_ends. Qed.
#[local] Hint Resolve ends_accept_mvp_document : ends.
Lemma ends_prepare_knowledge_delivery c d : good d → ends (λ _, True) (prepare_knowledge_delivery c) d.
Proof. intros Hd. unfold prepare_knowledge_delivery. solve_ends. Qed.
#[local] Hint Resolve ends_prepare_knowledge_delivery : ends.
Lemma ends_complete_knowledge_delivery c d : good d → ends (λ _, True) (complete_knowledge_delivery c) d.
Proof. intros Hd. unfold complete_knowledge_delivery. solve_ends. Qed.
#[local] Hint Resolve ends_complete_knowledge_delivery : ends.
Lemma ends_record_cost c d : good d → ends (λ _, True) (record_cost c) d.
Proof. intros Hd. unfold record_cost. solve_ends. Qed.
#[local] Hint Resolve ends_record_cost : ends.
Lemma ends_credential_grant id d : good d → ends (λ _, True) (credential_grant id) d.
Proof. intros Hd. apply (ends_read_only _ (λ d, grant_load d id)); [done|solve_raises]. Qed.
#[local] Hint Resolve ends_credential_grant : ends.
Lemma ends_consume_credential_grant id a d : good d → ends (λ _, True) (consume_credential_grant id a) d.
Proof. intros Hd. unfold consume_credential_grant. solve_ends. Qed.
#[local] Hint Resolve ends_consume_credential_grant : ends.
Lemma ends_revoke_credential_grant id a d : good d → ends (λ _, True) (revoke_credential_grant id a) d.
Proof. intros Hd. unfold revoke_credential_grant. solve_ends. Qed.
#[local] Hint Resolve ends_revoke_credential_grant : ends.
Lemma ends_create_approval r d :
  panics ∨ names_run r → good d → ends (λ _, True) (create_approval r) d.
Proof. intros Hr Hd. unfold create_approval. solve_ends. Qed.
#[local] Hint Resolve ends_create_approval : ends.
Lemma ends_expire_staged_launches d : good d → ends (λ _, True) (expire_staged_launches) d.
Proof. intros Hd. unfold expire_staged_launches. solve_ends. Qed.
#[local] Hint Resolve ends_expire_staged_launches : ends.
Lemma ends_decide_approval c d : good d → ends (λ _, True) (decide_approval c) d.
Proof. intros Hd. unfold decide_approval, issue. solve_ends. Qed.
#[local] Hint Resolve ends_decide_approval : ends.
Lemma ends_cancel_staged_run run r d : good d → ends (λ _, True) (cancel_staged_run run r) d.
Proof. intros Hd. unfold cancel_staged_run. solve_ends. Qed.
#[local] Hint Resolve ends_cancel_staged_run : ends.
Lemma ends_transition l t x d : good d → ends (λ _, True) (transition l t x) d.
Proof. intros Hd. unfold transition. solve_ends. Qed.
#[local] Hint Resolve ends_transition : ends.
Lemma ends_checkpoint c d : good d → ends (λ _, True) (checkpoint c) d.
Proof. intros Hd. unfold checkpoint, persist_checkpoint. solve_ends. Qed.
#[local] Hint Resolve ends_checkpoint : ends.
Lemma ends_shutdown c d : good d → ends (λ _, True) (shutdown c) d.
Proof. intros Hd. unfold shutdown, persist_checkpoint. solve_ends. Qed.
#[local] Hint Resolve ends_shutdown : ends.
Lemma ends_suspend c d : good d → ends (λ _, True) (suspend c) d.
Proof. intros Hd. unfold suspend, persist_checkpoint. solve_ends. Qed.
#[local] Hint Resolve ends_suspend : ends.
Lemma ends_resume c d : good d → ends (λ _, True) (resume c) d.
Proof. intros Hd. unfold resume. solve_ends. Qed.
#[local] Hint Resolve ends_resume : ends.
Lemma ends_prepare_mvp is_dir c d : good d → ends (λ _, True) (prepare_mvp is_dir c) d.
Proof. intros Hd. unfold prepare_mvp. solve_ends. Qed.
Lemma ends_approval id d : good d → ends (λ _, True) (approval id) d.
Proof. intros Hd. unfold approval. solve_ends. Qed.
Lemma ends_approvals d : good d → ends (λ _, True) approvals d.
Proof. intros Hd. unfold approvals. solve_ends. Qed.
Lemma ends_mark_ready d : good d → ends (λ _, True) mark_ready d.
Proof. intros Hd. unfold mark_ready, transition. solve_ends. Qed.
Lemma ends_reconcile_launches P `{Lenient P} d : ends P reconcile_launches d.
Proof. unfold reconcile_launches. solve_ends. Qed.
Lemma ends_reconcile_graph P `{Lenient P} row d : ends P (reconcile_graph row) d.
Proof. unfold reconcile_graph. solve_ends. Qed.
Lemma ends_reconcile_graphs P `{Lenient P} d : ends P reconcile_graphs_for_recovery d.
Proof.
  unfold reconcile_graphs_for_recovery. solve_ends. apply ends_for_rows with (λ _, True); [|done].
  intros row d' _. split; [by apply ends_reconcile_graph|]. by apply wp_any.
Qed.
Lemma ends_reconcile_catalog P `{Lenient P} d : ends P reconcile_catalog_for_recovery d.
Proof. unfold reconcile_catalog_for_recovery. solve_ends. Qed.
#[local] Hint Extern 2 (valid_exec _) => eapply good_graph; eassumption : halts.
Lemma ends_fail_dispatch_claim run d : good d → ends (λ _, True) (fail_dispatch_claim run) d.
Proof. intros Hd. unfold fail_dispatch_claim. solve_ends. Qed.

(** As [track], when the end of the rest is to be shown. *)
Ltac carry C :=
  lazymatch goal with
  | Hd : rtc db_step ?d0 ?d |- ends _ _ ?d' =>
      let H := fresh in
      assert (H : rtc db_step d0 d') by (eapply rtc_r; [exact Hd|C]); clear Hd; rename H into Hd
  end.

(** Recovery: what precedes the expiry leaves valid executions. *)
Lemma ends_recover d : good d → ends (λ _, True) recover d.
Proof.
  intros Hg. unfold recover. assert (Hd : rtc db_step d d) by done.
  apply ends_transact; [done..|]. apply ends_bind; [ends_prim|wp_run].
  apply ends_bind; [ends_prim|apply wp_update_daemon]. carry ltac:(apply st_daemon).
  apply ends_bind; [ends_prim|wp_write]. carry ltac:(by apply st_event).
  apply ends_bind; [by apply ends_reconcile_catalog|].
  eapply wp_mono; [by apply reconcile_catalog_refines|]. clear Hd. intros [] d1 (Hd & _).
  apply ends_bind; [by apply ends_reconcile_graphs|].
  eapply wp_mono; [by apply reconcile_graphs_refines|]. clear Hd. intros [] d2 (Hd & _).
  apply ends_bind; [by apply ends_reconcile_launches|].
  eapply wp_mono; [by apply reconcile_launches_refines|]. clear Hd. intros [] d3 (Hd & _).
  apply ends_bind; [ends_prim|wp_run].
  apply ends_expire; [apply _|]. by eapply good_steps.
Qed.
Lemma ends_claim_staged_dispatch run d : good d → ends (λ _, True) (claim_staged_dispatch run) d.
Proof. intros Hd. unfold claim_staged_dispatch. solve_ends. Qed.

(** ** All methods *)

#[local] Hint Resolve ends_prepare_mvp ends_approval ends_approvals ends_mark_ready
  ends_recover : ends.

Lemma on_store_ends {A} (m : M A) b :
  ends (λ _, True) m (database b) → halts (ended (on_store m b)).1.
Proof. intros Hm. specialize (Hm _ eq_refl). revert Hm. cbn. by destruct (m (bk_world b)).1. Qed.

Lemma prepare_ends id b :
  good (database b) → halts (ended (prepare_staged_credentials id b)).1.
Proof.
  intros Hd. unfold prepare_staged_credentials, on_store.
  pose proof (ends_claim_staged_dispatch id _ Hd _ eq_refl) as Hc.
  pose proof (claim_staged_dispatch_sound id (bk_world b) (good_keyed _ Hd)) as Hs.
  destruct (claim_staged_dispatch id (bk_world b)) as [[claim|e| |] w]; cbn in *; try done.
  destruct (reader_read _ _); [done|]. cbn.
  pose proof (ends_fail_dispatch_claim (br_run_id (dc_receipt claim)) _ (good_steps _ _ Hs Hd) _ eq_refl) as Hf.
  by destruct (fail_dispatch_claim (br_run_id (dc_receipt claim)) w) as [[| | |] ?].
Qed.

(** The calls that create an approval name its run when they bind a credential. *)
Definition op_names_run (op : store_op) : Prop :=
  match op with OpCreateApproval r => names_run r | _ => True end.

Lemma run_op_ends is_dir op b :
  panics ∨ op_names_run op → good (database b) → halts (run_op is_dir op b).1.
Proof.
  intros Hr Hd. destruct op; unfold run_op;
    try (apply on_store_ends; solve [eauto with ends typeclass_instances]).
  by apply prepare_ends.
Qed.

Lemma op_names_run_dec op :
  op_names_run op ∨ ∃ r, op = OpCreateApproval r ∧
    is_Some (sc_credential_binding (aa_scope (ar_action r))) ∧ sc_run_id (aa_scope (ar_action r)) = None.
Proof.
  destruct op; try (by left). cbn. unfold names_run.
  destruct (sc_run_id _) eqn:E; [left; by eexists|].
  destruct (sc_credential_binding _) eqn:E'; [right|left; by intros []].
  eexists. rewrite E, E'. split_and!; [done|by eexists|done].
Qed.

Lemma good_stored is_dir b : stored is_dir b → good (database b).
Proof.
  intros Hb. apply good_well_formed; [|by eapply stored_keyed].
  apply stored_steps in Hb as (id & t & Hs). eapply well_formed_steps; [exact Hs|].
  apply well_formed_empty.
Qed.

End methods.
