(* ===== verification/DaemonFacts.v ===== *)
(** * Runs of the daemon

    The runs of the threads of Daemon.v, Executor.v and Routes.v ([running]), and
    what holds in every interleaving because of the accesses that the threads
    make at all ([only]): the store stays one that its methods make. *)
From stdpp Require Import relations.
From S2P Require Import Prelude Policy Identity Catalog Deliverable Approval Graph Execution.
From S2P Require Import ExecutionFacts M3 Mvp Protocol Store Launch StagedLaunches GraphStore.
From S2P Require Import FinishRun CatalogStore CredentialGrants Dispatch DaemonStore StoreReachable StoreFacts.
From S2P Require Import Adapter CodexServer CodexRun AgyStream AgyProcess Daemon Executor Routes.

(** ** Programs that only make some accesses *)

Fixpoint only {A} (P : ∀ B, action B → Prop) (p : prog A) : Prop :=
  match p with
  | Ret _ => True
  | @Act _ B e k => P B e ∧ ∀ b, only P (k b)
  end.

Section only.
Context (P : ∀ B, action B → Prop).

Lemma only_pbind {A B} (p : prog A) (k : A → prog B) :
  only P p → (∀ a, only P (k a)) → only P (pbind p k).
Proof. intros Hp Hk. induction p as [a|B' e c IH]; cbn in *; [apply Hk|]. destruct Hp. auto. Qed.
Lemma only_pbind_inv {A B} (p : prog A) (k : A → prog B) : only P (pbind p k) → only P p.
Proof. induction p as [a|B' e c IH]; cbn; [done|]. intros []. auto. Qed.
Lemma only_bind {E A B} (m : task E A) (k : A → task E B) :
  only P m → (∀ a, only P (k a)) → only P (m ≫= k).
Proof. intros Hm Hk. apply only_pbind; [done|]. intros []; [apply Hk|done..]. Qed.
Lemma only_give {E A} (a : A) : only P (give a : task E A).
Proof. done. Qed.
Lemma only_raise {E A} (e : E) : only P (raise e : task E A).
Proof. done. Qed.
Lemma only_tlift {E A} (r : outcome E A) : only P (tlift r).
Proof. done. Qed.
Lemma only_perform {E B} (e : action B) : P B e → only P (perform e : task E B).
Proof. by split. Qed.
Lemma only_store {A} (m : M A) : P _ (Call m) → only P (store m).
Proof. by split. Qed.
Lemma only_on_err {E F A} (f : E → F) (m : task E A) : only P m → only P (on_err f m).
Proof. intros Hm. by apply only_pbind. Qed.
Lemma only_result_of {E F A} (m : task E A) : only P m → only P (result_of m : task F _).
Proof. intros Hm. apply only_pbind; [done|]. by intros []. Qed.
Lemma only_catch {E A} (m : task E A) a : only P m → only P (catch_unwind m a).
Proof. intros Hm. by apply only_pbind. Qed.

Lemma only_and (P' : ∀ B, action B → Prop) {A} (p : prog A) :
  only P p → only P' p → only (λ B e, P B e ∧ P' B e) p.
Proof. induction p as [a|B' e c IH]; cbn; [done|]. intros [] []. auto. Qed.
Lemma only_mono (P' : ∀ B, action B → Prop) {A} (p : prog A) :
  (∀ B e, P B e → P' B e) → only P p → only P' p.
Proof. intros HP. induction p as [a|B' e c IH]; cbn; [done|]. intros []. auto. Qed.
End only.

Create HintDb programs discriminated.
#[export] Hint Resolve only_bind only_give only_raise only_tlift only_perform only_store
  only_on_err only_result_of only_catch : programs.

(** Walks through a program, up to the accesses. *)
Ltac walk :=
  repeat first
    [ progress cbn beta iota
    | lazymatch goal with
      | |- only _ (give _) => exact I
      | |- only _ (raise _) => exact I
      | |- only _ (tlift _) => exact I
      | |- only _ (Ret _) => exact I
      | |- only _ (perform _) => apply only_perform; try exact I
      | |- only _ (store _) => apply only_store
      | |- only _ (on_err _ _) => apply only_on_err
      | |- only _ (result_of _) => apply only_result_of
      | |- only _ (catch_unwind _ _) => apply only_catch
      | |- only _ (if ?b then _ else _) => destruct b
      | |- only _ (match ?x with _ => _ end) => destruct x
      | |- only _ (@base.mbind _ _ _ _ _ _) => apply only_bind; [|intros ?]
      | |- only _ (pbind _ _) => apply only_pbind; [|intros ?]
      | |- only _ (Act _ _) => split; [try exact I|intros ?]
      end ].

(** Programs that only call methods of the store. *)
Section calls.
Context `{Environment} `{Digest} `{Serializer} `{Formats}.
Context (P : ∀ B, action B → Prop) (Hcall : ∀ A (m : M A), P _ (Call m)).

Lemma persist_only receipt outcome n : only P (persist_loop n receipt outcome).
Proof.
  induction n as [|n IH]; [done|]. cbn [persist_loop]. unfold retrying. walk; auto.
Qed.
Lemma begin_only id ready : ∀ catalog graph receipts,
  only P (begin_ready id catalog graph receipts ready).
Proof.
  induction ready as [|[node binding] ready IH]; intros catalog graph receipts; cbn [begin_ready]; walk; auto.
Qed.
Lemma signal_only reason n : only P (checkpoint_for_signal n reason).
Proof. induction n as [|n IH]; [done|]. cbn [checkpoint_for_signal]. walk; auto. Qed.
End calls.

(** ** The store *)

Section store.
Context `{Environment} `{Digest} `{Serializer} `{Formats} `{CredentialReader}
  (is_dir : string → bool).

(** The store stays one that its methods make, and its tables continue. *)
Definition keeps_stored {A} (m : M A) : Prop :=
  ∀ b, stored is_dir b → stored is_dir (on_store m b).2 ∧
    follows (database b) (database (on_store m b).2).

Definition calls_keep (B : Type) (e : action B) : Prop :=
  match e with Call m => keeps_stored m | _ => True end.

Lemma keeps_op {A} op (m : M A) :
  (∀ b, (run_op is_dir op b).2 = (on_store m b).2) → in_range op → keeps_stored m.
Proof.
  intros Hop Hr b Hb. rewrite <- Hop. split; [by apply stored_op|].
  apply follows_steps, run_op_steps; [done|by eapply stored_keyed].
Qed.

Lemma keeps_same {A} (m : M A) : (∀ w, (m w).2 = w) → keeps_stored m.
Proof.
  intros Hm b Hb. unfold on_store. cbn. rewrite Hm. split; [by destruct b|apply follows_refl].
Qed.
Lemma keeps_read {A} (f : db → outcome StoreError A) : keeps_stored (read_only f).
Proof. apply keeps_same. intros w. unfold read_only. by destruct (w_poisoned w). Qed.
Lemma keeps_events after : keeps_stored (events_after after).
Proof.
  apply keeps_same. intros w. unfold events_after, sql_u64, read_only, mbind, throw, mret.
  destruct (_ <? _)%Z; [done|]. by destruct (w_poisoned w).
Qed.

Ltac keeps_by op := cbn; apply (keeps_op op); [reflexivity|done].

Context (fuel : nat) `{!ProviderRunner}.
Context (Hrunner : ∀ receipt channel, only calls_keep (provider_run receipt channel)).

Lemma keeps_retrying {A} (read : M A) again k :
  keeps_stored read → only calls_keep again → (∀ a, only calls_keep (k a)) →
  only calls_keep (retrying read again k).
Proof.
  intros Hr Ha Hk. unfold retrying. walk; first [done|apply Hk].
Qed.

Lemma keeps_persist receipt outcome n : only calls_keep (persist_loop n receipt outcome).
Proof.
  induction n as [|n IH]; [done|]. cbn [persist_loop].
  apply keeps_retrying; [apply keeps_read|done|intros c].
  apply keeps_retrying; [apply keeps_read|done|intros m3].
  apply keeps_retrying; [apply keeps_read|done|intros g]. walk; try done.
  match goal with |- calls_keep _ (Call (finish_graph_node_run ?id ?c)) => keeps_by (OpFinish id c) end.
Qed.

Lemma keeps_answers channel run state n : only calls_keep (answer_requests n channel run state).
Proof. induction n as [|n IH]; [done|]. cbn [answer_requests]. walk. done. Qed.

Lemma keeps_worker channel receipt : only calls_keep (daemon_worker fuel channel receipt).
Proof.
  unfold daemon_worker, provider_worker, no_error, provider_run_checked. walk; try done.
  - keeps_by (OpPreflightLaunch receipt).
  - apply keeps_answers.
  - apply keeps_persist.
Qed.

Lemma keeps_begin id ready : ∀ catalog graph receipts,
  only calls_keep (begin_ready id catalog graph receipts ready).
Proof.
  induction ready as [|[node binding] ready IH]; intros catalog graph receipts; cbn [begin_ready]; walk; try done.
  keeps_by (OpBeginProvider id (begin_command node catalog graph) binding).
Qed.

Lemma keeps_start receipts : ∀ run_ids, only calls_keep (start_ready fuel run_ids receipts).
Proof.
  induction receipts as [|r receipts IH]; intros run_ids; cbn [start_ready]; unfold start, persist_start_failure;
    walk; try apply IH; try done. apply keeps_persist.
Qed.

Lemma keeps_signal reason n : only calls_keep (checkpoint_for_signal n reason).
Proof.
  induction n as [|n IH]; [done|]. cbn [checkpoint_for_signal]. walk; try done; [apply keeps_read|].
  match goal with |- calls_keep _ (Call (shutdown ?c)) => keeps_by (OpShutdown c) end.
Qed.

Lemma keeps_reply {A} (f : A → reply) (m : task StoreError A) :
  only calls_keep m → only calls_keep (reply_with f m).
Proof. intros Hm. by apply only_bind. Qed.
Lemma keeps_call {A} (f : A → reply) (m : M A) :
  keeps_stored m → only calls_keep (reply_with f (store m)).
Proof. intros Hm. by apply keeps_reply, only_store. Qed.

Lemma keeps_claim id c :
  (0 ≤ cgn_limit c ≤ USIZE_MAX)%Z → only calls_keep (claim_nodes id c).
Proof.
  intros Hl. unfold claim_nodes. walk; [|apply keeps_read].
  apply (keeps_op (OpClaimNodes id (cgn_expected_revision c) (cgn_owner c) (cgn_limit c)));
    [reflexivity|cbn; lia].
Qed.
Lemma keeps_complete id c : only calls_keep (complete_node id c).
Proof.
  unfold complete_node. walk; [|apply keeps_read].
  keeps_by (OpCompleteNode id (cgc_expected_revision c) (cgc_node_id c) (cgc_owner c) (cgc_succeeded c)).
Qed.
Lemma keeps_decide id c : only calls_keep (post_decision id c).
Proof. unfold post_decision. walk. keeps_by (OpDecide c). Qed.
Lemma keeps_shut_down c : only calls_keep (shut_down c).
Proof. unfold shut_down. walk. keeps_by (OpShutdown c). Qed.
Lemma keeps_cancel run c : only calls_keep (cancel_run run c).
Proof.
  unfold cancel_run, registry_cancel, controller_cancel. walk.
  - keeps_by (OpCancelStaged run (crc_expected_catalog_revision c)).
  - keeps_by (OpPreflightCancel run (crc_expected_catalog_revision c)).
  - keeps_by (OpCancelAfterPreflight run).
Qed.
Lemma keeps_execute id c : only calls_keep (execute_ready_graph fuel id c).
Proof.
  unfold execute_ready_graph. walk; try apply keeps_read; [apply keeps_begin|apply keeps_start].
Qed.

Ltac route_by op := apply keeps_call; keeps_by op.

Lemma keeps_route r : typed r → only calls_keep (route is_dir fuel r).
Proof.
  intros Ht. destruct r as [|after| |c| |c| |e|id c|id rev|id c|id c|id c|id c|id c|c|c|c|c|c|c|c| |a|id|id actor|id|id c|c|c|c|c|run c]; cbn [route].
  1,3,5,7: apply keeps_call, keeps_read.
  - apply keeps_call, keeps_events.
  - route_by (OpReplaceCatalog c).
  - route_by (OpReplaceM3Catalog c).
  - route_by (OpCreateGraph e).
  - by apply keeps_reply, keeps_claim.
  - route_by (OpRestartGraph id rev).
  - route_by (OpRetryNode id c).
  - route_by (OpBegin id c).
  - apply keeps_reply, keeps_execute.
  - route_by (OpFinish id c).
  - apply keeps_reply, keeps_complete.
  - route_by (OpPrepareMvp c).
  - route_by (OpAcceptDecisionBaseline c).
  - route_by (OpCreateDocument c).
  - route_by (OpAcceptDocument c).
  - route_by (OpPrepareDelivery c).
  - route_by (OpCompleteDelivery c).
  - route_by (OpRecordCost c).
  - route_by OpApprovals.
  - route_by (OpCreateApproval a).
  - route_by (OpGrant id).
  - route_by (OpRevokeGrant id actor).
  - route_by (OpApproval id).
  - apply keeps_reply, keeps_decide.
  - route_by (OpCheckpoint c).
  - route_by (OpSuspend c).
  - route_by (OpResume c).
  - apply keeps_reply, keeps_shut_down.
  - apply keeps_reply, keeps_cancel.
Qed.

Lemma keeps_begins p : begins is_dir fuel p → only calls_keep p.
Proof.
  intros [r Ht|q Hq]; [by apply keeps_route|]. destruct Hq.
  - route_by OpMarkReady.
  - route_by OpExpire.
  - apply keeps_reply, keeps_signal.
Qed.

(** ** Runs *)

Notation worker := (daemon_worker fuel).

(** A process that opened a database, the steps of its threads, and the next
    process on what a crash left of it. *)
Inductive running : system (R := outcome StoreError reply) → Prop :=
| running_start b : stored is_dir b → running (process_on b)
| running_step s s' : running s → daemon_step worker (begins is_dir fuel) s s' → running s'
| running_restart s : running s →
    running (process_on (run_op is_dir OpRecover (reopened (dm_broker (sy_daemon s)))).2).

Notation tables d := (database (dm_broker d)).

Lemma exec_keeps lucky {B} (e : action B) d :
  calls_keep B e → stored is_dir (dm_broker d) →
  stored is_dir (dm_broker (exec lucky e d).2) ∧ follows (tables d) (tables (exec lucky e d).2).
Proof.
  pose proof (follows_refl (tables d)). destruct e; cbn; intros He Hd; try done.
  - by apply He.
  - by case_bool_decide.
  - destruct (dm_channels d !! channel) as [c|]; [|done]. by destruct (_ && _).
Qed.

Lemma running_keeps s :
  running s → stored is_dir (dm_broker (sy_daemon s)) ∧ Forall (only calls_keep) (sy_threads s).
Proof.
  induction 1 as [b Hb|s s' Hs [Hd Ht] Hstep|s Hs [Hd _]]; [by split| |].
  - inversion Hstep as [i p lucky p' d new Hi Hr|p Hp]; subst; cbn.
    + pose proof (Forall_lookup_1 _ _ _ _ Ht Hi) as Hp. destruct p as [r|B e k]; cbn in Hr.
      * simplify_eq. split; [done|]. rewrite app_nil_r. by apply Forall_insert.
      * destruct Hp as [He Hk]. pose proof (exec_keeps lucky e _ He Hd) as [Hd' _].
        destruct (exec lucky e (sy_daemon s)) as [b d'] eqn:E. simplify_eq. cbn in *. split; [done|].
        apply Forall_app. split; [by apply Forall_insert|].
        destruct (spawned e b) as [[channel receipt]|]; [|done].
        apply Forall_singleton, keeps_worker.
    + split; [done|]. apply Forall_app. split; [done|]. by apply Forall_singleton, keeps_begins.
  - split; [|done]. apply (stored_op _ _ OpRecover); [by apply stored_reopened|done].
Qed.

(** The tables continue from step to step, and over a restart. *)
Lemma step_follows s s' :
  running s → daemon_step worker (begins is_dir fuel) s s' →
  follows (tables (sy_daemon s)) (tables (sy_daemon s')).
Proof.
  intros [Hd Ht]%running_keeps Hstep. inversion Hstep as [i p lucky p' d new Hi Hr|p Hp]; subst; cbn;
    [|apply follows_refl].
  pose proof (Forall_lookup_1 _ _ _ _ Ht Hi) as Hp. destruct p as [r|B e k]; cbn in Hr.
  - simplify_eq. apply follows_refl.
  - destruct Hp as [He _]. pose proof (exec_keeps lucky e _ He Hd) as [_ Hf].
    destruct (exec lucky e (sy_daemon s)) as [b d']. by simplify_eq.
Qed.
Lemma restart_follows s :
  running s → follows (tables (sy_daemon s))
    (database (run_op is_dir OpRecover (reopened (dm_broker (sy_daemon s)))).2).
Proof.
  intros [Hd _]%running_keeps. pose proof (stored_reopened is_dir _ Hd) as Hr.
  apply (follows_steps (database (reopened (dm_broker (sy_daemon s))))).
  apply run_op_steps; [done|by eapply stored_keyed].
Qed.

End store.

(** ** The system's runner *)

Section system_runner.
Context `{Environment} `{Digest} `{Serializer} `{Formats}.
Context `{Json} `{!ServerWire} (receipt_json : nat → string).

(** The accesses of the system's runner: the token of its channel, and three
    methods of the store. *)
Section accesses.
Context (P : ∀ B, action B → Prop) (receipt : BeginGraphNodeRunReceipt) (channel : nat).
Context (Hcancelled : P _ (IsCancelled channel))
  (Hpreflight : P _ (Call (preflight_provider_launch receipt)))
  (Hplan : P _ (Call (read_only (λ d, plan_load d (br_run_id receipt)))))
  (Hrunning : ∀ session, P _ (Call (record_provider_running (br_run_id receipt) session))).

Lemma note_only session : only P (note_running (br_run_id receipt) session).
Proof. unfold note_running. walk. apply Hrunning. Qed.

Lemma codex_loop_only {T} {transport : AppServerTransport T} close imax w fuel :
  ∀ round session cost saw s,
  only P (codex_loop receipt_json close imax w channel receipt fuel round session cost saw s).
Proof.
  induction fuel as [|fuel IH]; intros round session cost saw s; [done|]. cbn [codex_loop].
  apply only_bind; [by apply only_perform|intros []]; [by apply only_bind|].
  destruct (poll_update _ _ _ _ _ _ _) as [s' [[[event|[]]|]|[[[]| |]| | |]| |]]; try done; try apply IH.
  destruct (run_is_terminal _); [by apply only_bind|]. destruct (_ && _); [|apply IH].
  apply only_bind; [apply note_only|intros []; apply IH].
Qed.

Lemma agy_loop_only w fuel : ∀ round cost saw p,
  only P (agy_loop receipt_json w channel (br_run_id receipt) fuel round cost saw p).
Proof.
  induction fuel as [|fuel IH]; intros round cost saw p; [done|]. cbn [agy_loop].
  apply only_bind; [by apply only_perform|intros []].
  { destruct (cancel_and_close _ _). by apply only_bind. }
  destruct (agy_poll_update _ _ _ _ _ _ _) as [p' [[[event failure|observed|r]|]|e| |]]; try done; try apply IH.
  destruct (run_is_terminal _); [done|]. destruct (_ && _); [|apply IH].
  apply only_bind; [apply note_only|intros []; apply IH].
Qed.

Lemma runner_only worlds fuel codex_bin agy_bin :
  only P (system_run receipt_json worlds fuel codex_bin agy_bin receipt channel).
Proof.
  unfold system_run. destruct (match br_launch_identity receipt with Some _ => _ | None => _ end); [done|].
  apply only_bind; [apply only_result_of; unfold validate_online_cli_launch; by walk|].
  intros r. destruct (is_err r); [done|]. destruct (String.eqb _ _).
  - apply only_pbind; [|by intros]. unfold run_codex. destruct codex_bin; [|done].
    destruct (connect_app_server _) as [server|[[]| |]| |]; try done. unfold run_server.
    destruct (start_tracked_run _ _ _) as [s' [started|[[[]| |]| | |]| |]]; try done.
    apply codex_loop_only.
  - destruct (String.eqb _ _); [|done]. apply only_pbind; [|by intros]. unfold run_agy.
    destruct agy_bin; [|done].
    destruct (agy_spawn _ _ _ _).2 as [p|[]| |]; try done. apply agy_loop_only.
Qed.
End accesses.

Lemma keeps_system_run `{CredentialReader} is_dir worlds fuel codex_bin agy_bin receipt channel :
  only (calls_keep is_dir) (system_run receipt_json worlds fuel codex_bin agy_bin receipt channel).
Proof.
  apply runner_only; [done|..|intros session]; [|apply keeps_read|]; cbn.
  - apply (keeps_op is_dir (OpPreflightLaunch receipt)); [reflexivity|done].
  - apply (keeps_op is_dir (OpProviderRunning (br_run_id receipt) session)); [reflexivity|done].
Qed.

End system_runner.
