(* ===== verification/DaemonBooks.v ===== *)
(** * Registrations and counts

    In every interleaving each registration of a controller and each count of an
    active worker belongs to one thread, which gives it back before it ends or
    hands it over to the worker that it starts. *)
From stdpp Require Import relations.
From S2P Require Import Prelude Policy Identity Catalog Deliverable Approval Graph Execution.
From S2P Require Import ExecutionFacts M3 Mvp Protocol Store Launch StagedLaunches GraphStore.
From S2P Require Import FinishRun CatalogStore CredentialGrants Dispatch DaemonStore StoreReachable.
From S2P Require Import Adapter CodexServer CodexRun AgyStream AgyProcess Daemon Executor Routes.
From S2P Require Import DaemonFacts.

(** ** What a program owes *)

(** A program that starts with the registrations [regs] and has counted itself [n]
    times ends with [Q]: it gives back what it registers and counts, or hands it
    over to the worker that it starts. *)
Fixpoint owes {A} (Q : A → list RunId → nat → Prop) (regs : list RunId) (n : nat) (p : prog A)
    : Prop :=
  match p with
  | Ret a => Q a regs n
  | @Act _ B e k =>
      match e in action B return (B → list RunId → nat → Prop) → Prop with
      | Register run_id _ => λ next, next true (run_id :: regs) n ∧ next false regs n
      | Unregister run_id => λ next,
          ∃ rest, regs ≡ₚ run_id :: rest ∧ ∀ b, next b rest n
      | FetchAdd => λ next, next tt regs (S n)
      | FetchSub => λ next, ∃ m, n = S m ∧ next tt regs m
      | Spawn _ receipt => λ next,
          (∃ rest m, regs ≡ₚ br_run_id receipt :: rest ∧ n = S m ∧ next true rest m) ∧
          next false regs n
      | _ => λ next, ∀ b, next b regs n
      end (λ b regs n, owes Q regs n (k b))
  end.

(** Accesses that neither register nor count. *)
Definition uncounted (B : Type) (e : action B) : Prop :=
  match e with
  | Register _ _ | Unregister _ | FetchAdd | FetchSub | Spawn _ _ => False
  | _ => True
  end.

Section owes.

Lemma owes_mono {A} (Q Q' : A → list RunId → nat → Prop) p regs n :
  (∀ a regs n, Q a regs n → Q' a regs n) → owes Q regs n p → owes Q' regs n p.
Proof.
  intros HQ. revert regs n. induction p as [a|B e k IH]; intros regs n; cbn; [apply HQ|].
  destruct e; try (by intros Hk b; apply IH, Hk).
  - intros [H1 H2]. split; by apply IH.
  - intros (rest & Hp & Hk). exists rest. split; [done|]. intros b. apply IH, Hk.
  - apply IH.
  - intros (m & Hn & Hk). exists m. split; [done|]. by apply IH.
  - intros [(rest & m & Hp & Hn & Hk) Hf]. split; [|by apply IH]. exists rest, m.
    split_and!; try done. by apply IH.
Qed.

Lemma owes_pbind {A B} (Q : B → list RunId → nat → Prop) (p : prog A) (k : A → prog B) regs n :
  owes (λ a regs n, owes Q regs n (k a)) regs n p → owes Q regs n (pbind p k).
Proof.
  revert regs n. induction p as [a|B' e c IH]; intros regs n; cbn; [done|].
  destruct e; try (by intros Hk b; apply IH, Hk).
  - intros [H1 H2]. split; by apply IH.
  - intros (rest & Hp & Hk). exists rest. split; [done|]. intros b. apply IH, Hk.
  - apply IH.
  - intros (m & Hn & Hk). exists m. split; [done|]. by apply IH.
  - intros [(rest & m & Hp & Hn & Hk) Hf]. split; [|by apply IH]. exists rest, m.
    split_and!; try done. by apply IH.
Qed.

Lemma owes_only {A} (Q : A → list RunId → nat → Prop) p regs n :
  only uncounted p → (∀ a, Q a regs n) → owes Q regs n p.
Proof.
  intros Hp HQ. induction p as [a|B e k IH]; cbn in *; [apply HQ|]. destruct Hp as [He Hk].
  destruct e; try done; intros b; apply IH, Hk.
Qed.

(** The rest of a program after a part that does not count. *)
Lemma owes_after {A B} (Q : B → list RunId → nat → Prop) (p : prog A) (k : A → prog B) regs n :
  only uncounted p → (∀ a, owes Q regs n (k a)) → owes Q regs n (pbind p k).
Proof. intros Hp Hk. by apply owes_pbind, owes_only. Qed.

Lemma owes_perm {A} (Q : A → list RunId → nat → Prop) regs regs' n p :
  (∀ a regs regs' n, regs ≡ₚ regs' → Q a regs n → Q a regs' n) →
  regs ≡ₚ regs' → owes Q regs n p → owes Q regs' n p.
Proof.
  intros HQ. revert regs regs' n. induction p as [a|B e k IH]; intros regs regs' n Hp; cbn; [by eapply HQ|].
  destruct e; try (by intros Hk b; eapply IH).
  - intros [H1 H2]. split; (eapply IH; [|done]); [by constructor|done].
  - intros (rest & Hr & Hk). exists rest. split; [by rewrite <- Hp|done].
  - by eapply IH.
  - intros (m & Hn & Hk). exists m. split; [done|]. by eapply IH.
  - intros [(rest & m & Hr & Hn & Hk) Hf]. split; [|by eapply IH]. exists rest, m.
    split_and!; try done. by rewrite <- Hp.
Qed.

End owes.

Section counting.
Context `{Environment} `{Digest} `{Serializer} `{Formats} `{CredentialReader}
  (is_dir : string → bool) (fuel : nat) `{!ProviderRunner}.
Context (Hrunner : ∀ receipt channel, only uncounted (provider_run receipt channel)).

Notation thread := (task StoreError reply).

(** A thread that has ended owes nothing. *)
Definition paid (r : outcome StoreError reply) (regs : list RunId) (n : nat) : Prop :=
  r = Diverge ∨ regs = [] ∧ n = 0.

Lemma uncounted_answers channel run state n : only uncounted (answer_requests n channel run state).
Proof. induction n as [|n IH]; [done|]. cbn [answer_requests]. walk. done. Qed.

Lemma worker_pays channel receipt :
  owes paid [br_run_id receipt] 1 (daemon_worker fuel channel receipt).
Proof.
  unfold daemon_worker, provider_worker. apply owes_after.
  { unfold no_error, provider_run_checked. walk; try done; [apply uncounted_answers|by apply persist_only]. }
  intros [[]|[]| |]; cbn; try (by left);
    (exists []; split; [done|]; intros _; exists 0; split; [done|]; intros _; by right).
Qed.

(** A start leaves nothing behind, or a worker that owes. *)
Lemma start_pays receipt (Q : outcome ProviderExecutorError unit → list RunId → nat → Prop) :
  (∀ r, Q r [] 0) → owes Q [] 0 (start receipt).
Proof.
  intros HQ. unfold start. cbn. intros channel. split; [|apply HQ]. cbn. split; [|].
  - exists [], 0. split_and!; [done|done|apply HQ].
  - intros _. exists 0. split; [done|]. exists []. split; [done|]. intros _. apply HQ.
Qed.

Lemma start_ready_pays receipts :
  ∀ run_ids (Q : outcome StoreError (list RunId) → list RunId → nat → Prop),
  (∀ r, Q r [] 0) → owes Q [] 0 (start_ready fuel run_ids receipts).
Proof.
  induction receipts as [|r receipts IH]; intros run_ids Q HQ; cbn [start_ready]; [apply HQ|].
  destruct (has_account r); [by apply IH|]. apply owes_pbind.
  unfold result_of. apply owes_pbind, start_pays. intros [[]|e| |]; cbn; try apply HQ; [by apply IH|].
  apply owes_after; [|intros [[]|e'| |]; cbn; try apply HQ; by apply IH].
  unfold persist_start_failure. walk. by apply persist_only.
Qed.

(** A step that does not count, at a point where nothing is owed. *)
Lemma owes_step {A} (m : task StoreError A) {B} (k : A → task StoreError B)
    (Q : outcome StoreError B → list RunId → nat → Prop) :
  (∀ r, Q r [] 0) → only uncounted m → (∀ a, owes Q [] 0 (k a)) → owes Q [] 0 (m ≫= k).
Proof. intros HQ Hm Hk. apply owes_after; [done|]. intros [a|e| |]; [apply Hk|apply HQ..]. Qed.

Lemma execute_pays id c : owes paid [] 0 (reply_with ReExecuteReady (execute_ready_graph fuel id c)).
Proof.
  assert (Hp : ∀ r, paid r [] 0) by (intros; by right).
  apply owes_pbind.
  set (Q := λ (a : outcome StoreError ExecuteReadyGraphReceipt) regs n, owes paid regs n _).
  assert (HQ : ∀ r, Q r [] 0) by (intros [?|?| |]; apply Hp). clearbody Q.
  unfold execute_ready_graph.
  apply owes_step; [done|by repeat split|intros snapshot]. destruct (negb _); [apply HQ|].
  apply owes_step; [done|by repeat split|intros catalog]. destruct (negb _); [apply HQ|].
  apply owes_step; [done|by repeat split|intros execution]. destruct (negb _); [apply HQ|].
  apply owes_step; [done|done|intros ready]. destruct (bool_decide _); [apply HQ|].
  apply owes_step; [done|by repeat split|intros m3]. apply owes_step; [done|done|intros bindings].
  apply owes_step; [done|by apply begin_only|intros receipts].
  apply owes_pbind, start_ready_pays. intros [ids|e| |]; [|apply HQ..].
  destruct (bool_decide _); apply HQ.
Qed.

Lemma uncounted_reply {A} (f : A → reply) (m : task StoreError A) :
  only uncounted m → only uncounted (reply_with f m).
Proof. intros Hm. by apply only_bind. Qed.

Lemma uncounted_route r : (∀ id c, r ≠ PostExecuteReady id c) → only uncounted (route is_dir fuel r).
Proof.
  intros Hr. destruct r; cbn [route]; try (by destruct (Hr _ _ eq_refl)); apply uncounted_reply;
    try (by apply only_store);
    unfold claim_nodes, complete_node, post_decision, shut_down, cancel_run, registry_cancel, controller_cancel;
    walk; done.
Qed.

Lemma begins_pays p : begins is_dir fuel p → owes paid [] 0 p.
Proof.
  assert (Hp : ∀ r, paid r [] 0) by (intros; by right).
  intros [r _|q Hq].
  - assert (Hr : (∃ id c, r = PostExecuteReady id c) ∨ ∀ id c, r ≠ PostExecuteReady id c).
    { destruct r; try (by right). left. eauto. }
    destruct Hr as [(id & c & ->)|Hr]; [apply execute_pays|]. by apply owes_only; [apply uncounted_route|].
  - apply owes_only; [|done]. destruct Hq; apply uncounted_reply; try (by apply only_store).
    by apply signal_only.
Qed.

(** ** The books *)

(** What each thread owes. *)
Notation books := (list (list RunId * nat)).

Record balanced (s : system (R := outcome StoreError reply)) (b : books) : Prop := {
  bl_threads : Forall2 (λ p a, owes paid a.1 a.2 p) (sy_threads s) b;
  bl_controllers : (map_to_list (dm_controllers (sy_daemon s))).*1 ≡ₚ b ≫= fst;
  bl_active : dm_active (sy_daemon s) = usize_wrap (Z.of_nat (sum_list_with snd b));
}.

(** What a worker that is started owes. *)
Definition books_of (receipt : option (nat * BeginGraphNodeRunReceipt)) : books :=
  match receipt with Some (_, receipt) => [([br_run_id receipt], 1)] | None => [] end.

Lemma wrap_add n m : usize_wrap (usize_wrap n + m) = usize_wrap (n + m).
Proof. unfold usize_wrap. by rewrite Zplus_mod_idemp_l. Qed.

(** An access, in the books of its thread and beside the books of the others. *)
Lemma exec_balanced lucky {B} (e : action B) (k : B → thread) d regs n others m b d' :
  owes paid regs n (Act e k) → exec lucky e d = (b, d') →
  (map_to_list (dm_controllers d)).*1 ≡ₚ regs ++ others →
  dm_active d = usize_wrap (Z.of_nat (n + m)) →
  ∃ regs' n', owes paid regs' n' (k b) ∧
    (map_to_list (dm_controllers d')).*1 ≡ₚ
      regs' ++ others ++ (books_of (spawned e b) ≫= fst) ∧
    dm_active d' = usize_wrap (Z.of_nat (n' + m + sum_list_with snd (books_of (spawned e b)))).
Proof.
  intros Ho He Hc Ha.
  (* accesses that leave the registry and the count as they are *)
  assert (Hsame : ∀ regs' n', owes paid regs' n' (k b) → dm_controllers d' = dm_controllers d →
    dm_active d' = dm_active d → spawned e b = None → regs' = regs → n' = n →
    ∃ regs' n', owes paid regs' n' (k b) ∧
    (map_to_list (dm_controllers d')).*1 ≡ₚ
      regs' ++ others ++ (books_of (spawned e b) ≫= fst) ∧
    dm_active d' = usize_wrap (Z.of_nat (n' + m + sum_list_with snd (books_of (spawned e b))))).
  { intros regs' n' Hk Hc' Ha' -> -> ->. exists regs, n. split; [done|]. cbn.
    rewrite app_nil_r, Nat.add_0_r, Hc', Ha'. by split. }
  destruct e; cbn in Ho, He; try (simplify_eq; by eapply Hsame).
  - case_bool_decide as Hd; simplify_eq; [destruct Ho; by eapply Hsame|].
    exists (run_id :: regs), n. split; [apply Ho|]. cbn. rewrite app_nil_r, Nat.add_0_r.
    split; [|done]. rewrite map_to_list_insert by (by apply eq_None_not_Some). cbn. by rewrite Hc.
  - simplify_eq. destruct Ho as (rest & Hr & Hk). exists rest, n. split; [apply Hk|]. cbn.
    rewrite app_nil_r, Nat.add_0_r. split; [|done]. rewrite Hr in Hc. cbn in Hc.
    assert (run_id ∈ (map_to_list (dm_controllers d)).*1) as Hin by (rewrite Hc; by left).
    apply list_elem_of_fmap in Hin as ([i c] & -> & Hin). apply elem_of_map_to_list in Hin.
    apply (map_to_list_delete (M := gmap RunId)) in Hin. rewrite <- Hin in Hc. cbn in Hc.
    by apply Permutation_cons_inv in Hc.
  - simplify_eq. exists regs, (S n). split; [done|]. cbn. rewrite app_nil_r, Nat.add_0_r.
    split; [done|]. rewrite Ha, wrap_add. f_equal. lia.
  - simplify_eq. destruct Ho as (n' & -> & Hk). exists regs, n'. split; [done|]. cbn.
    rewrite app_nil_r, Nat.add_0_r. split; [done|]. rewrite Ha. unfold Z.sub. rewrite wrap_add. f_equal. lia.
  - destruct (dm_channels d !! channel) as [c|]; [destruct (_ && _)|]; simplify_eq; by eapply Hsame.
  - simplify_eq. destruct b; cbn; [|destruct Ho; by eapply Hsame].
    destruct Ho as [(rest & n' & Hr & -> & Hk) _]. exists rest, n'. split; [done|].
    split; [rewrite Hc, Hr; cbn; by rewrite Permutation_cons_append, <- app_assoc|].
    rewrite Ha. f_equal. lia.
Qed.

(** The book of one thread apart from those of the others. *)
Lemma books_insert (b : books) i a : b !! i = Some a →
  ∃ rest, b ≡ₚ a :: rest ∧ ∀ a', <[i := a']> b ≡ₚ a' :: rest.
Proof.
  intros Hi. exists (take i b ++ drop (S i) b). split.
  - rewrite <- (take_drop_middle b i a Hi) at 1. by rewrite <- Permutation_middle.
  - intros a'. rewrite insert_take_drop by (by eapply lookup_lt_Some). by rewrite <- Permutation_middle.
Qed.

Lemma step_balanced s s' b :
  balanced s b → daemon_step (daemon_worker fuel) (begins is_dir fuel) s s' → ∃ b', balanced s' b'.
Proof.
  intros [Ht Hc Ha] Hstep. inversion Hstep as [i p lucky p' d new Hi Hr|p Hp]; subst.
  - destruct (Forall2_lookup_l _ _ _ _ _ Ht Hi) as ([regs n] & Hb & Ho). destruct p as [r|B e k]; cbn in Hr.
    + simplify_eq. exists b. split; cbn; [|done..]. rewrite app_nil_r. by rewrite list_insert_id.
    + destruct (exec lucky e (sy_daemon s)) as [x d'] eqn:E.
      destruct (books_insert b i (regs, n) Hb) as (rest & Hrest & Hins).
      rewrite Hrest in Hc, Ha. cbn in Hc, Ha.
      destruct (exec_balanced _ _ _ _ _ _ _ _ _ _ Ho E Hc Ha) as (regs' & n' & Hk & Hc' & Hn').
      injection Hr as <- <- <-.
      exists (<[i := (regs', n')]> b ++ books_of (spawned e x)). split; cbn.
      * apply Forall2_app; [by apply Forall2_insert|].
        destruct (spawned e x) as [[channel receipt]|]; constructor; [apply worker_pays|constructor].
      * rewrite Hc', bind_app, Hins. cbn. by rewrite <- app_assoc.
      * by rewrite Hn', sum_list_with_app, Hins.
  - exists (b ++ [([], 0)]). split; cbn.
    + apply Forall2_app; [done|]. constructor; [by apply begins_pays|constructor].
    + rewrite bind_app. cbn. by rewrite app_nil_r.
    + rewrite sum_list_with_app. cbn. by rewrite !Nat.add_0_r.
Qed.

(** However the threads of a daemon are interleaved, its books balance. *)
Lemma running_balanced s : running is_dir fuel s → ∃ b, balanced s b.
Proof.
  induction 1 as [b Hb|s s' Hs [b Hb] Hstep|s Hs _]; [by exists []| |by exists []].
  by eapply step_balanced.
Qed.

(** The books of threads that have all ended are empty. *)
Lemma ended_books (threads : list thread) (b : books) :
  Forall2 (λ p a, owes paid a.1 a.2 p) threads b →
  Forall (λ p, ∃ r, p = Ret r ∧ r ≠ Diverge) threads →
  b ≫= fst = [] ∧ sum_list_with snd b = 0.
Proof.
  induction 1 as [|p [regs n] threads b Hp _ IH]; [done|].
  intros [(r & -> & Hr) [Hregs Hn]%IH]%Forall_cons. cbn in *. rewrite Hregs, Hn.
  destruct Hp as [?|[-> ->]]; [by destruct Hr|done].
Qed.

End counting.

(** ** The system's runner *)

Section system_runner.
Context `{Environment} `{Digest} `{Serializer} `{Formats}.
Context `{Json} `{!ServerWire} (receipt_json : nat → string).

Lemma uncounted_system_run worlds fuel codex_bin agy_bin receipt channel :
  only uncounted (system_run receipt_json worlds fuel codex_bin agy_bin receipt channel).
Proof. by apply runner_only. Qed.

End system_runner.
