(* ===== verification/DaemonCancel.v ===== *)
(** * Acknowledged cancellations

    A rely-guarantee logic for the programs of Daemon.v: [honest Q p d] says that
    from [d] on, whatever the other threads do in between ([later]), the program
    keeps the invariant [sound] and ends with [Q].  It shows that a cancellation
    is acknowledged only for a run whose worker ended it cancelled. *)
From stdpp Require Import relations.
From S2P Require Import Prelude Policy Identity Catalog Deliverable Approval Graph Execution.
From S2P Require Import ExecutionFacts M3 Mvp Protocol Store Launch StagedLaunches GraphStore.
From S2P Require Import FinishRun CatalogStore CredentialGrants Dispatch DaemonStore StoreReachable.
From S2P Require Import Adapter CodexServer CodexRun AgyStream AgyProcess Daemon Executor Routes.
From S2P Require Import StoreLogic StoreFacts StoreEffects StoreEnds DaemonFacts.

(** ** The logic *)

(** An acknowledgement belongs to a run. *)
Definition slot (i : nat) (run : RunId) (d : daemon) : Prop :=
  ∃ a, dm_acknowledgements d !! i = Some (run, a).
Definition ended_cancelled (run : RunId) (d : daemon) : Prop := (run, RunCancelled) ∈ dm_ended d.

(** The launch of a run is cancelled in the store of the daemon. *)
Definition launch_cancelled (run : RunId) (d : daemon) : Prop :=
  ∃ id, launch_in (database (dm_broker d)) run id SlCancelled.

(** What other threads leave of what a thread knows. *)
Record later (d d' : daemon) : Prop := {
  lt_slot i run : slot i run d → slot i run d';
  lt_ended run : ended_cancelled run d → ended_cancelled run d';
  lt_launch run : launch_cancelled run d → launch_cancelled run d';
}.

Section honest.
Context `{Environment} `{Digest} `{Serializer} `{Formats} `{CredentialReader}
  (is_dir : string → bool).

(** Positive answers are given for runs that ended cancelled, and what is queued
    for a worker knows its run. *)
Record sound (d : daemon) : Prop := {
  sd_stored : stored is_dir (dm_broker d);
  sd_answers i run : dm_acknowledgements d !! i = Some (run, Some true) → ended_cancelled run d;
  sd_queued i c request : dm_channels d !! i = Some c → rc_queued c = Some request →
    slot (cq_acknowledgement request) (cq_run_id request) d;
}.

(** What a thread has to know before an access. *)
Definition allowed {B} (e : action B) (d : daemon) : Prop :=
  match e with
  | Call m => keeps_stored is_dir m
  | TrySend _ request => slot (cq_acknowledgement request) (cq_run_id request) d
  | Acknowledge request accepted => accepted = true → ∀ run,
      slot (cq_acknowledgement request) run d → ended_cancelled run d
  | _ => True
  end.

Fixpoint honest {A} (Q : A → daemon → Prop) (p : prog A) (d : daemon) : Prop :=
  match p with
  | Ret a => ∀ d', later d d' → sound d' → Q a d'
  | @Act _ B e k => ∀ d' lucky b d'', later d d' → sound d' → exec lucky e d' = (b, d'') →
      allowed e d' ∧ honest Q (k b) d''
  end.

#[export] Instance later_preorder : PreOrder later.
Proof. split; [by split|]. intros x y z [] []. split; auto. Qed.

(** Accesses that leave acknowledgements, ends and queues as they are. *)
Lemma later_same d d' :
  dm_acknowledgements d' = dm_acknowledgements d → dm_ended d' = dm_ended d →
  follows (database (dm_broker d)) (database (dm_broker d')) → later d d'.
Proof.
  intros Ha He Hf. split; intros *; unfold slot, ended_cancelled; rewrite ?Ha, ?He; try done.
  intros [id Hid]. exists id. by eapply cancelled_launch_follows.
Qed.

(** Accesses that know what they do to the store. *)
Lemma exec_later lucky {B} (e : action B) d b d' :
  exec lucky e d = (b, d') → sound d → calls_keep is_dir B e → later d d'.
Proof.
  intros Hx Hs He. pose proof (follows_refl (database (dm_broker d))) as Hf. revert Hx.
  destruct e; cbn; try (intros [= <- <-]; by apply later_same).
  - intros [= <- <-]. apply later_same; [done..|]. by apply He, sd_stored.
  - case_bool_decide; intros [= <- <-]; by apply later_same.
  - destruct (dm_channels d !! channel) as [c|]; [destruct (_ && _)|]; intros [= <- <-];
      by apply later_same.
  - intros [= <- <-]. split; [|done..]. intros i run [a Hi]. exists a. cbn. by apply lookup_app_l_Some.
  - intros [= <- <-]. split; [|done..]. intros i run [a Hi]. unfold slot. cbn.
    destruct (decide (cq_acknowledgement request = i)) as [->|Hn].
    + rewrite list_lookup_alter_eq, Hi. eexists. done.
    + rewrite list_lookup_alter_ne by done. by exists a.
  - intros [= <- <-]. split; [done| |done]. intros run Hrun. unfold ended_cancelled. cbn. set_solver.
Qed.
Lemma allowed_keep {B} (e : action B) d : allowed e d → calls_keep is_dir B e.
Proof. by destruct e. Qed.

(** The queues of a daemon whose channels come from another's. *)
Lemma sound_channels d d' :
  sound d → dm_broker d' = dm_broker d → dm_acknowledgements d' = dm_acknowledgements d →
  dm_ended d' = dm_ended d →
  (∀ i c request, dm_channels d' !! i = Some c → rc_queued c = Some request →
     slot (cq_acknowledgement request) (cq_run_id request) d) → sound d'.
Proof.
  intros [Hb Ha Hq] Eb Ea Ee Hc. split; rewrite ?Eb, ?Ea; unfold ended_cancelled, slot; rewrite ?Ee, ?Ea; eauto.
Qed.

Lemma alter_queued f i d j c request :
  (∀ c, rc_queued (f c) = rc_queued c ∨ rc_queued (f c) = None) → sound d →
  dm_channels (on_channel i f d) !! j = Some c → rc_queued c = Some request →
  slot (cq_acknowledgement request) (cq_run_id request) d.
Proof.
  intros Hf Hs Hc Hq. cbn in Hc. destruct (decide (i = j)) as [->|Hn].
  - rewrite list_lookup_alter_eq in Hc. apply fmap_Some in Hc as (c' & Hc' & ->).
    destruct (Hf c') as [Hf'|Hf']; rewrite Hf' in Hq; [|done]. by eapply sd_queued.
  - rewrite list_lookup_alter_ne in Hc by done. by eapply sd_queued.
Qed.

Lemma exec_sound lucky {B} (e : action B) d b d' :
  sound d → allowed e d → exec lucky e d = (b, d') → sound d'.
Proof.
  intros Hs Ha He. pose proof (exec_later _ _ _ _ _ He Hs (allowed_keep _ _ Ha)) as Hl.
  destruct e; cbn in Ha, He; try (simplify_eq; done).
  - simplify_eq. split; cbn; [by apply Ha, sd_stored|apply Hs..].
  - case_bool_decide; simplify_eq; [done|]. apply (sound_channels d); try done. apply Hs.
  - simplify_eq. apply (sound_channels d); try done. apply Hs.
  - simplify_eq. apply (sound_channels d); try done. apply Hs.
  - simplify_eq. apply (sound_channels d); try done. apply Hs.
  - simplify_eq. apply (sound_channels d); try done. cbn. intros i c request [Hi|[Hi Hc]]%lookup_app_Some.
    + by eapply sd_queued.
    + apply list_lookup_singleton_Some in Hc as [_ <-]. done.
  - simplify_eq. apply (sound_channels d); try done. intros *. apply alter_queued; [by right|done].
  - simplify_eq. apply (sound_channels d); try done. intros *. apply alter_queued; [by left|done].
  - destruct (dm_channels d !! channel) as [c|] eqn:Ec; [destruct (_ && _)|]; simplify_eq; try done.
    apply (sound_channels d); try done. cbn. intros j c' request' Hc' Hq.
    destruct (decide (channel = j)) as [->|Hn].
    + rewrite list_lookup_alter_eq, Ec in Hc'. injection Hc' as <-. by injection Hq as <-.
    + rewrite list_lookup_alter_ne in Hc' by done. by eapply sd_queued.
  - simplify_eq. apply (sound_channels d); try done. intros *. apply alter_queued; [by right|done].
  - simplify_eq. destruct Hs as [Hb Hans Hq]. split; cbn; [done| |].
    + intros i run [Hi|[Hi Hc]]%lookup_app_Some; [by eapply Hans|].
      apply list_lookup_singleton_Some in Hc as [_ ?]. simplify_eq.
    + intros i c request Hc Hr. eapply Hl, Hq; eauto.
  - simplify_eq. destruct Hs as [Hb Hans Hq]. split; cbn; [done| |].
    + intros i run Hi. destruct (decide (cq_acknowledgement request = i)) as [<-|Hn].
      * rewrite list_lookup_alter_eq in Hi. apply fmap_Some in Hi as ([run' [a|]] & Hi & [= <- <-]); [by eapply Hans|].
        apply Ha; [done|]. by exists None.
      * rewrite list_lookup_alter_ne in Hi by done. by eapply Hans.
    + intros i c request' Hc Hr. eapply Hl, Hq; eauto.
  - simplify_eq. destruct Hs as [Hb Hans Hq]. split; cbn; [done| |].
    + intros i r Hi. eapply Hl, Hans, Hi.
    + intros i c request' Hc Hr. eapply Hq; eauto.
Qed.

Lemma honest_later {A} (Q : A → daemon → Prop) p d d' : later d d' → honest Q p d → honest Q p d'.
Proof.
  intros Hl. destruct p as [a|B e k]; cbn.
  - intros HQ x Hx. apply HQ. by transitivity d'.
  - intros Hk x lucky b y Hx. apply Hk. by transitivity d'.
Qed.

Lemma honest_pbind {A B} (Q : B → daemon → Prop) (p : prog A) (k : A → prog B) d :
  honest (λ a d, honest Q (k a) d) p d → honest Q (pbind p k) d.
Proof.
  revert d. induction p as [a|B' e c IH]; intros d; cbn.
  - intros Hp. destruct (k a) as [a'|B' e c]; cbn in *.
    + intros d' Hl Hs. by apply (Hp d').
    + intros d' lucky b d'' Hl Hs. by apply (Hp d').
  - intros Hp x lucky b y Hl Hs He. destruct (Hp _ _ _ _ Hl Hs He). auto.
Qed.

Lemma honest_mono {A} (Q Q' : A → daemon → Prop) p d :
  (∀ a d, Q a d → Q' a d) → honest Q p d → honest Q' p d.
Proof.
  intros HQ. revert d. induction p as [a|B e k IH]; intros d; cbn; [auto|].
  intros Hp x lucky b y Hl Hs He. destruct (Hp _ _ _ _ Hl Hs He). auto.
Qed.

(** ** Programs *)

(** Accesses that are always allowed. *)
Definition plain (B : Type) (e : action B) : Prop :=
  match e with TrySend _ _ | Acknowledge _ _ => False | _ => True end.
Definition modest (B : Type) (e : action B) : Prop := calls_keep is_dir B e ∧ plain B e.

Lemma honest_only {A} (Q : A → daemon → Prop) p d :
  only modest p → (∀ a d', later d d' → sound d' → Q a d') → honest Q p d.
Proof.
  revert d. induction p as [a|B e k IH]; intros d; cbn; [auto|].
  intros [[He Hp] Hk] HQ x lucky b y Hl Hs Hx. split; [by destruct e|]. apply IH; [done|].
  intros a z Hz. apply HQ. rewrite Hl, <- Hz. by eapply exec_later.
Qed.

Lemma honest_act {A B} (Q : A → daemon → Prop) (e : action B) (k : B → prog A) d :
  (∀ d' lucky b d'', later d d' → sound d' → exec lucky e d' = (b, d'') →
    allowed e d' ∧ honest Q (k b) d'') → honest Q (Act e k) d.
Proof. done. Qed.

(** The rest of a program after a part that is always allowed. *)
Lemma honest_after {A B} (Q : B → daemon → Prop) (p : prog A) (k : A → prog B) d :
  only modest p → (∀ a d', later d d' → honest Q (k a) d') → honest Q (pbind p k) d.
Proof. intros Hp Hk. apply honest_pbind, honest_only; auto. Qed.

(** What a thread that answers a cancellation has seen. *)
Definition answered (r : outcome StoreError reply) (d : daemon) : Prop :=
  match r with
  | Ok (ReCancel receipt) =>
      ended_cancelled (crr_run_id receipt) d ∨
      launch_cancelled (crr_run_id receipt) d
  | _ => True
  end.

Context (fuel : nat) `{!ProviderRunner}.
Context (Hrunner : ∀ receipt channel, only modest (provider_run receipt channel)).

Lemma honest_answers (Q : outcome unit unit → daemon → Prop) channel run state n d :
  (∀ r d, Q r d) → (state = RunCancelled → ended_cancelled run d) →
  honest Q (answer_requests n channel run state) d.
Proof.
  intros HQ. revert d. induction n as [|n IH]; intros d Hstate; cbn [answer_requests]; [cbn; auto|].
  refine (honest_act _ _ _ _ _). intros d1 lucky request d2 Hl1 Hs1 Hx1. split; [done|].
  pose proof (exec_later _ _ _ _ _ Hx1 Hs1 I) as Hl2. cbn in Hx1.
  destruct request as [request|]; [|cbn; auto].
  assert (Hslot : slot (cq_acknowledgement request) (cq_run_id request) d2).
  { apply Hl2. destruct (dm_channels d1 !! channel) as [c|] eqn:Ec; [|done].
    injection Hx1 as Hq _. by eapply sd_queued. }
  refine (honest_act _ _ _ _ _). intros d3 lucky' [] d4 Hl3 Hs3 Hx3. split.
  - intros [Hr Hc]%andb_true_iff run' [a' Hrun']. apply bool_decide_eq_true in Hr, Hc.
    destruct (lt_slot _ _ Hl3 _ _ Hslot) as [a Ha]. rewrite Ha in Hrun'. injection Hrun' as <- _.
    rewrite Hr. by apply Hl3, Hl2, Hl1, Hstate.
  - apply IH. intros Hc. by eapply (exec_later _ _ _ _ _ Hx3 Hs3 I), Hl3, Hl2, Hl1, Hstate.
Qed.

Lemma honest_worker channel receipt d : honest answered (daemon_worker fuel channel receipt) d.
Proof.
  unfold daemon_worker, provider_worker. apply honest_pbind.
  eapply (honest_mono (λ _ _, True)); [by intros [] x _|].
  apply honest_after.
  { unfold no_error, provider_run_checked. walk; try (split; done); [|apply Hrunner].
    split; [|done]. cbn. apply (keeps_op is_dir (OpPreflightLaunch receipt)); [reflexivity|done]. }
  intros [outcome|e| |] d1 _; try done.
  refine (honest_act _ _ _ _ _). intros d2 lucky [] d3 _ _ Hx. split; [done|]. cbn.
  assert (Hended : po_terminal_state outcome = RunCancelled → ended_cancelled (br_run_id receipt) d3).
  { intros Hc. cbn in Hx. injection Hx as <-. unfold ended_cancelled. cbn. rewrite Hc. set_solver. }
  apply honest_pbind, honest_answers; [|done]. intros [[]| | |] d4; try done.
  apply honest_only; [|done]. apply only_and; [apply keeps_persist|by apply persist_only].
Qed.

(** ** Cancellation *)

(** A receipt names the run, whatever was read and written before. *)
Local Ltac names_run :=
  repeat first
    [ apply wp_bind, wp_any; intros ? ?
    | apply wp_throw
    | by apply wp_ret
    | apply wp_reject; intros _
    | progress cbv zeta
    | lazymatch goal with |- wp (match ?x with _ => _ end) _ _ => destruct x end ].

Lemma cancel_receipt_run run b receipt :
  (on_store (record_provider_cancel_after_preflight run) b).1 = Ok receipt → crr_run_id receipt = run.
Proof.
  cbn. destruct (record_provider_cancel_after_preflight run (bk_world b)) as [r w'] eqn:E. cbn.
  intros ->. revert E. unfold record_provider_cancel_after_preflight. by_transact. names_run.
Qed.
Lemma call_answer {A} (m : M A) lucky d r d' :
  exec lucky (Call m) d = (r, d') → r = (on_store m (dm_broker d)).1.
Proof. by intros [= <- _]. Qed.

(** The controller of a run answers for that run. *)
Lemma honest_controller (Q : outcome unit unit → daemon → Prop) controller run d :
  (∀ r d', (r = Ok tt → ended_cancelled run d') → Q r d') →
  honest Q (controller_cancel controller run) d.
Proof.
  intros HQ. unfold controller_cancel. destruct (negb (bool_decide _)); [intros d' _ _; by apply HQ|].
  refine (honest_act _ _ _ _ _). intros d1 lucky i d2 _ _ Hx. split; [done|].
  assert (Hslot : slot i run d2).
  { cbn in Hx. injection Hx as <- <-. exists None. cbn. by rewrite list_lookup_middle. }
  clear Hx. refine (honest_act _ _ _ _ _). intros d3 lucky' sent d4 Hl3 Hs3 Hx. split; [by apply Hl3|].
  pose proof (exec_later _ _ _ _ _ Hx Hs3 I) as Hl4. clear Hx.
  destruct sent; cbn [negb]; [|intros d' _ _; by apply HQ].
  refine (honest_act _ _ _ _ _). intros d5 lucky'' [] d6 Hl5 Hs5 Hx. split; [done|].
  pose proof (exec_later _ _ _ _ _ Hx Hs5 I) as Hl6. clear Hx.
  refine (honest_act _ _ _ _ _). intros d7 lucky''' answer d8 Hl7 Hs7 Hx. split; [done|].
  pose proof (exec_later _ _ _ _ _ Hx Hs7 I) as Hl8. cbn in Hx.
  destruct answer as [[]|]; cbn; try (intros; by apply HQ).
  intros d9 Hl9 _. apply HQ. intros _. apply Hl9, Hl8.
  assert (Hslot7 : slot i run d7) by by apply Hl7, Hl6, Hl5, Hl4, Hl3.
  destruct Hslot7 as [a Ha]. rewrite Ha in Hx. injection Hx as -> _. by eapply sd_answers.
Qed.

Lemma honest_cancel run command d :
  honest answered (reply_with ReCancel (cancel_run run command)) d.
Proof.
  unfold cancel_run. destruct (negb _); [done|].
  refine (honest_act _ _ _ _ _). intros d1 lucky staged d2 Hl1 Hs1 Hx.
  assert (Hk1 : keeps_stored is_dir (cancel_staged_run run (crc_expected_catalog_revision command)))
    by by apply (keeps_op is_dir (OpCancelStaged run (crc_expected_catalog_revision command))).
  split; [done|]. destruct staged as [[receipt|]|e| |]; try done.
  { intros d3 Hl3 _. right. apply Hl3. cbn in Hx.
    destruct (cancel_staged_run _ _ _) as [r w'] eqn:E. injection Hx as -> <-.
    apply cancel_staged_effect in E as [-> Hid]; [exact Hid|]. by eapply stored_keyed, sd_stored. }
  clear Hx. refine (honest_act _ _ _ _ _). intros d3 lucky' preflight d4 Hl3 Hs3 _.
  split; [by apply (keeps_op is_dir (OpPreflightCancel run (crc_expected_catalog_revision command)))|].
  destruct preflight as [[]|e| |]; try done.
  refine (honest_act _ _ _ _ _). intros d5 lucky'' controller d6 _ _ _. split; [done|].
  destruct controller as [controller|]; [|done].
  do 3 apply honest_pbind. apply honest_controller. intros r d7 Hr.
  destruct r as [[]|e| |]; try done. specialize (Hr eq_refl).
  intros d7' Hl7 _. refine (honest_act _ _ _ _ _). intros d8 lucky3 receipt d9 Hl8 Hs8 Hx8.
  assert (Hk8 : keeps_stored is_dir (record_provider_cancel_after_preflight run))
    by by apply (keeps_op is_dir (OpCancelAfterPreflight run)).
  split; [done|]. pose proof (exec_later _ _ _ _ _ Hx8 Hs8 Hk8) as Hl9. apply call_answer in Hx8.
  destruct receipt as [receipt|e| |]; try done. intros d10 Hl10 _ d11 Hl11 _. left.
  symmetry in Hx8. rewrite (cancel_receipt_run _ _ _ Hx8). by apply Hl11, Hl10, Hl9, Hl8, Hl7.
Qed.

(** ** Runs *)

Lemma plain_start receipts : ∀ run_ids, only plain (start_ready fuel run_ids receipts).
Proof.
  induction receipts as [|r receipts IH]; intros run_ids; cbn [start_ready];
    unfold start, persist_start_failure; walk; auto. by apply persist_only.
Qed.

Lemma plain_route r : (∀ run c, r ≠ PostCancel run c) → only plain (route is_dir fuel r).
Proof.
  intros Hr. destruct r; cbn [route]; try (by destruct (Hr _ _ eq_refl)); apply only_bind;
    try (by apply only_store); try done;
    unfold claim_nodes, complete_node, post_decision, shut_down, execute_ready_graph;
    walk; try done; [by apply begin_only|apply plain_start].
Qed.

(** A request other than a cancellation does not answer one. *)
Lemma route_answers r : (∀ run c, r ≠ PostCancel run c) → ∃ A (f : A → reply) m,
  route is_dir fuel r = reply_with f m ∧ ∀ a, match f a with ReCancel _ => False | _ => True end.
Proof.
  intros Hr. destruct r; try (by destruct (Hr _ _ eq_refl)); cbn [route]; eexists _, _, _;
    (split; [reflexivity|done]).
Qed.

Lemma honest_reply {A} (f : A → reply) (m : task StoreError A) d :
  only modest (reply_with f m) → (∀ a, match f a with ReCancel _ => False | _ => True end) →
  honest answered (reply_with f m) d.
Proof.
  intros Hm%only_pbind_inv Hf. apply honest_after; [done|]. intros [a|e| |] d' _; try done.
  intros d'' _ _. specialize (Hf a). cbn. by destruct (f a).
Qed.

Lemma begins_honest p d : begins is_dir fuel p → honest answered p d.
Proof.
  intros Hp. pose proof (keeps_begins is_dir fuel p Hp) as Hk. destruct Hp as [r Hr|p Hp].
  - assert (Hc : (∃ run c, r = PostCancel run c) ∨ ∀ run c, r ≠ PostCancel run c)
      by (destruct r; first [by right|left; eauto]).
    destruct Hc as [(run & c & ->)|Hr']; [apply honest_cancel|].
    pose proof (plain_route _ Hr') as Hp. destruct (route_answers _ Hr') as (A & f & m & Hm & Hf).
    rewrite Hm in *. apply honest_reply; [by apply only_and|done].
  - destruct Hp; (apply honest_reply; [apply only_and; [done|]|done]); (apply only_bind; [|done]);
      first [by apply only_store|by apply signal_only].
Qed.

Notation sys := (system (R := outcome StoreError reply)).
Lemma running_honest (s : sys) : running is_dir fuel s →
  sound (sy_daemon s) ∧ Forall (λ p, honest answered p (sy_daemon s)) (sy_threads s).
Proof.
  induction 1 as [b Hb|s s' Hs [Hd Ht] Hstep|s Hs [Hd _]].
  - split; [|constructor]. split; cbn; [done|by intros [|?]..].
  - inversion Hstep as [i p lucky p' d new Hi Hr|p Hp]; subst; cbn.
    + pose proof (Forall_lookup_1 _ _ _ _ Ht Hi) as Hp. destruct p as [r|B e k]; cbn in Hr.
      * simplify_eq. split; [done|]. rewrite app_nil_r. by apply Forall_insert.
      * destruct (exec lucky e (sy_daemon s)) as [b d'] eqn:E.
        destruct (Hp _ _ _ _ (reflexivity _) Hd E) as [Ha Hk]. simplify_eq.
        split; [by eapply exec_sound|].
        apply Forall_app. split; [apply Forall_insert; [|done]|].
        { eapply Forall_impl; [exact Ht|]. intros p'. apply honest_later. by eapply exec_later, allowed_keep. }
        destruct (spawned e b) as [[channel receipt]|]; [|done]. apply Forall_singleton, honest_worker.
    + split; [done|]. apply Forall_app. split; [done|]. by apply Forall_singleton, begins_honest.
  - split; [|constructor]. split; [|by intros [|?]..].
    apply (stored_op _ _ OpRecover); [apply stored_reopened, sd_stored, Hd|done].
Qed.

End honest.

(** ** The system's runner *)

Lemma modest_system_run `{Environment} `{Digest} `{Serializer} `{Formats} `{Json} `{!ServerWire}
    `{CredentialReader} is_dir receipt_json worlds fuel codex_bin agy_bin receipt channel :
  only (modest is_dir) (system_run receipt_json worlds fuel codex_bin agy_bin receipt channel).
Proof. apply only_and; [apply keeps_system_run|by apply runner_only]. Qed.
