(* ===== verification/ExecutorFacts.v ===== *)
(** * How runs of providers end

    What the two runners of Executor.v report of a run, in terms of the calls
    that they made of the adapter: an end is reported after the process was
    reaped, and a success with its answer. *)
From S2P Require Import Prelude Policy Identity Catalog Deliverable Approval Graph Execution.
From S2P Require Import M3 Mvp Protocol Store Workspace InputWriter ProcessChild Adapter.
From S2P Require Import CodexLifecycle CodexEvidence CodexServer CodexRun CodexStdio AgyStream.
From S2P Require Import AgyProcess AgyProcessFacts Launch StagedLaunches GraphStore FinishRun.
From S2P Require Import CatalogStore Dispatch StoreLogic StoreRefines StoreMethods StoreEffects.
From S2P Require Import StoreEnds Daemon Executor.

#[local] Existing Instance tolerant.

(** ** Results *)

(** Whether an access tells that the run is to be cancelled. *)
Definition tells_cancelled {B} (e : action B) : B → bool :=
  match e in action B return B → bool with IsCancelled _ => λ b, b | _ => λ _, false end.

(** What a program can return, whatever its accesses answer, and whether one of
    them told so. *)
Fixpoint results {A} (Q : bool → A → Prop) (seen : bool) (p : prog A) : Prop :=
  match p with
  | Ret a => Q seen a
  | Act e k => ∀ b, results Q (seen || tells_cancelled e b) (k b)
  end.

Lemma results_pbind {A B} (Q : bool → B → Prop) seen (p : prog A) (k : A → prog B) :
  results (λ seen a, results Q seen (k a)) seen p → results Q seen (pbind p k).
Proof. revert seen. induction p as [a|B' e c IH]; intros seen; cbn; [done|]. intros Hp b. by apply IH. Qed.
Lemma results_mono {A} (Q Q' : bool → A → Prop) seen (p : prog A) :
  (∀ seen a, Q seen a → Q' seen a) → results Q seen p → results Q' seen p.
Proof.
  intros HQ. revert seen. induction p as [a|B' e c IH]; intros seen; cbn; [apply HQ|].
  intros Hp b. by apply IH.
Qed.

(** [Q] holds of the outcome, when there is one. *)
Definition reported {E} (Q : bool → ProviderOutcome → Prop) (seen : bool) (r : outcome E ProviderOutcome)
    : Prop := ∀ o, r = Ok o → Q seen o.
Notation reports Q := (results (reported Q)).

Lemma reports_mono {E} (Q Q' : bool → ProviderOutcome → Prop) seen (m : task E ProviderOutcome) :
  (∀ seen o, Q seen o → Q' seen o) → reports Q seen m → reports Q' seen m.
Proof. intros HQ. apply results_mono. intros b r Hr o Ho. auto. Qed.

(** An end that was told is the outcome, and a success has the answer that was
    collected; a success without an answer is a failure. *)
Definition as_told (state : NormalizedRunState) (output : option string) (o : ProviderOutcome) : Prop :=
  (po_terminal_state o = state ∧
   (state = RunSucceeded →
    ∃ text, output = Some text ∧ blank text = false ∧ po_output_markdown o = Some text)) ∨
  (state = RunSucceeded ∧ po_terminal_state o = RunFailed ∧
   ∀ text, output = Some text → blank text = true).

Lemma final_as_told state session cost output failure :
  as_told state output (final_outcome state session cost output failure).
Proof.
  unfold as_told, final_outcome. cbn. case_bool_decide as Hs; cbn; [subst state|by left].
  destruct output as [text|]; [|by right]. cbn. destruct (blank text) eqn:Hb; [right|left].
  - split_and!; [done..|]. by intros ? [= <-].
  - split; [done|]. by exists text.
Qed.

Section runners.
Context `{Environment} `{Digest} `{Serializer} `{Formats} `{Json} `{!ServerWire}.
Context (receipt_json : nat → string) (w : provider_world) (channel : nat)
  (receipt : BeginGraphNodeRunReceipt).

(** ** The second agent *)

Notation agy_run ops p := (process_run (H0 := pw_stdio w) receipt_json (pw_cleanup w) ops p).1.

Notation agy_step op p := (process_step (H0 := pw_stdio w) receipt_json (pw_cleanup w) op p).

(** The outcome of a process: after some calls of it, one that leaves its child
    reaped, and it holds what is reported.  The last call closed it because the
    run was to be cancelled, or told the end. *)
Definition agy_ended (p : AgyProcess) (seen : bool) (o : ProviderOutcome) : Prop :=
  ∃ ops op, let p' := (agy_step op (agy_run ops p)).1 in
    gone (ap_child p') ∧ po_provider_session_id o = conversation_id p' ∧
    (seen = true ∧ op = AgyCancelAndClose ∧ po_terminal_state o = RunCancelled ∨
     ∃ event failure, (agy_step op (agy_run ops p)).2 = Some (AgyLifecycle event failure) ∧
       run_is_terminal (ev_state event) = true ∧ as_told (ev_state event) (agy_process_output p') o).

Lemma agy_ended_step op p seen o : agy_ended (agy_step op p).1 seen o → agy_ended p seen o.
Proof.
  intros (ops & last & Ho). exists (op :: ops), last.
  replace (agy_run (op :: ops) p) with (agy_run ops (agy_step op p).1); [done|]. cbn [process_run].
  destruct (agy_step op p) as [p' u]. cbn. by destruct (process_run _ _ ops p').
Qed.

Lemma agy_loop_ends run fuel : ∀ round cost saw past seen p,
  agy_inv None past p →
  reports (agy_ended p) seen (agy_loop receipt_json w channel run fuel round cost saw p).
Proof.
  induction fuel as [|fuel IH]; intros round cost saw past seen p Hp; [by intros ?|]. cbn [agy_loop].
  intros [].
  - pose proof (close_child_post (pw_cleanup w) 0 (put_cancellation p)) as [_ Hg].
    change (close_child (pw_cleanup w) 0 (put_cancellation p))
      with (cancel_and_close (pw_cleanup w) p) in Hg.
    destruct (cancel_and_close _ p) as [p' closed] eqn:E. cbn in Hg.
    destruct closed as [[]|e| |]; try by intros ?. intros o [= <-]. exists [], AgyCancelAndClose.
    cbn. rewrite E. split_and!; [by apply Hg|done|left]. by rewrite orb_true_r.
  - set (op := AgyPoll (pw_pipe_fuel w) (pw_tree w round) (pw_timestamp w round) POLL_INTERVAL).
    pose proof (process_step_polled (H0 := pw_stdio w) receipt_json (pw_cleanup w) None past op p Hp)
      as [Hi _ Hend _].
    assert (Hagain : ∀ cost saw seen, reports (agy_ended p) seen (agy_loop receipt_json w channel run fuel
      (S round) cost saw (agy_step op p).1)).
    { intros cost' saw' seen'. apply (reports_mono (agy_ended (agy_step op p).1)); [intros *; apply agy_ended_step|]. by eapply IH. }
    cbn [op process_step fst snd] in *. clear IH Hp.
    destruct (agy_poll_update _ _ _ _ _ _ p) as [p' update] eqn:E. cbn in Hend, Hagain |- *. clear Hi.
    destruct update as [[[event failure|observed|r]|]|e| |]; try (by intros o); try apply Hagain.
    destruct (run_is_terminal (ev_state event)) eqn:Ht.
    { intros o [= <-]. exists [], op. cbn. rewrite E. cbn. split_and!; [by eapply Hend|done|right].
      exists event, failure. split_and!; [done..|]. apply final_as_told. }
    destruct (_ && _); [|apply Hagain]. intros [x|e| |]; [apply Hagain|by intros o..].
Qed.

(** The run from its start on; a start that was cancelled leaves no child, and no
    other start that fails is reported. *)
Lemma run_agy_ends fuel executable :
  reports (λ seen o, match agy_spawn (H0 := pw_stdio w) (pw_cleanup w) (pw_host w) (agy_request receipt)
                             (not_started 0) with
                     | (_, Ok p) => agy_ended p seen o
                     | (s, Err AgyStartCancelled) => gone (au_child s) ∧ o = outcome_cancelled
                     | _ => False
                     end) false (run_agy receipt_json w fuel executable receipt channel).
Proof.
  unfold run_agy. destruct executable as [file|]; [|by intros o].
  pose proof (spawn_clean (H0 := pw_stdio w) (pw_cleanup w) (pw_host w) (agy_request receipt)
    (not_started 0)) as Hclean.
  pose proof (spawn_started (H0 := pw_stdio w) (pw_cleanup w) (pw_host w) (agy_request receipt) 0)
    as Hstarted.
  destruct (agy_spawn _ _ _ _) as [s [p|e| |]] eqn:E; cbn [snd]; [|destruct e; try by intros o|by intros o..].
  - destruct (Hstarted s p eq_refl) as [Hi Hb]. cbn in Hb. rewrite Hb in Hi. by eapply agy_loop_ends.
  - intros o [= <-]. split; [|done]. unfold post, clean_start in Hclean. rewrite E in Hclean. cbn in Hclean.
    by destruct (Hclean (conj eq_refl eq_refl) _ eq_refl).
Qed.

(** ** The first agent *)

Section codex.
Context {T : Type} {transport : AppServerTransport T} (close_checked : self T TransportError unit)
  (instant_max : Z).

(** The run after some polls. *)
Definition codex_poll (round : nat) (s : tracked T)
    : tracked T * outcome RunTrackerError (option CodexRunUpdate) :=
  poll_update receipt_json instant_max (pw_readings w round) (pw_tree w round) (pw_timestamp w round)
    POLL_INTERVAL s.
Fixpoint codex_polls (round n : nat) (s : tracked T) : tracked T :=
  match n with
  | O => s
  | S n => codex_polls (S round) n (codex_poll round s).1
  end.

Definition closed (s : tracked T) : Prop := (close_checked (sv_transport (td_server s))).2 = Ok tt.

(** The outcome of a run of a session: after some polls the transport was closed
    because the run was to be cancelled; or another poll told the end, and then it
    was closed; or another poll said that it had been cancelled. *)
Definition codex_ended (session : option string) (round : nat) (s : tracked T) (seen : bool)
    (o : ProviderOutcome) : Prop :=
  po_provider_session_id o = session ∧
  ∃ n, let s' := codex_polls round n s in let last := codex_poll (round + n) s' in
    (seen = true ∧ closed s' ∧ po_terminal_state o = RunCancelled) ∨
    (∃ event, last.2 = Ok (Some (Lifecycle event)) ∧ closed last.1 ∧
       run_is_terminal (ev_state (nc_event event)) = true ∧
       as_told (ev_state (nc_event event)) (final_output (tk_final_output (td_tracker last.1))) o) ∨
    (last.2 = Err (TrackerAppServer (Transport TransportCancelled)) ∧ po_terminal_state o = RunCancelled).

Lemma codex_ended_step session round s seen o :
  codex_ended session (S round) (codex_poll round s).1 seen o → codex_ended session round s seen o.
Proof.
  intros [Hs [n Hn]]. split; [done|]. exists (S n). cbn [codex_polls]. by rewrite Nat.add_succ_r.
Qed.
Lemma close_server_closed s : close_server close_checked s = Ok tt → closed s.
Proof. unfold close_server, closed. by destruct (close_checked _).2 as [[]|e| |]. Qed.

Lemma codex_loop_ends fuel : ∀ round session cost saw seen s,
  reports (codex_ended session round s) seen
    (codex_loop receipt_json close_checked instant_max w channel receipt fuel round session cost saw s).
Proof.
  induction fuel as [|fuel IH]; intros round session cost saw seen s; [by intros ?|]. cbn [codex_loop].
  intros [].
  - pose proof (close_server_closed s) as Hclosed.
    destruct (close_server _ s) as [[]|e| |]; [|by intros o..]. intros o [= <-]. split; [done|].
    exists 0. left. rewrite orb_true_r. split_and!; [done|by apply Hclosed|done].
  - assert (Hagain : ∀ cost saw seen, reports (codex_ended session round s) seen (codex_loop receipt_json
      close_checked instant_max w channel receipt fuel (S round) session cost saw (codex_poll round s).1)).
    { intros cost' saw' seen'. apply (reports_mono (codex_ended session (S round) (codex_poll round s).1));
        [intros *; apply codex_ended_step|]. apply IH. }
    assert (Hlast : ∀ seen o, po_provider_session_id o = session →
      (∃ event, (codex_poll round s).2 = Ok (Some (Lifecycle event)) ∧ closed (codex_poll round s).1 ∧
         run_is_terminal (ev_state (nc_event event)) = true ∧
         as_told (ev_state (nc_event event))
           (final_output (tk_final_output (td_tracker (codex_poll round s).1))) o) ∨
      ((codex_poll round s).2 = Err (TrackerAppServer (Transport TransportCancelled)) ∧
       po_terminal_state o = RunCancelled) → codex_ended session round s seen o).
    { intros seen' o Ho Hend. split; [done|]. exists 0. right. by rewrite Nat.add_0_r. }
    clear IH. unfold codex_poll in *.
    destruct (poll_update _ _ _ _ _ _ s) as [s' update] eqn:E. cbn in Hagain, Hlast |- *.
    destruct update as [[[event|[receipt'|observed]]|]|[[[]| |]| | |]| |]; try (by intros o); try apply Hagain.
    2:{ intros o [= <-]. apply Hlast; [done|by right]. }
    destruct (run_is_terminal _) eqn:Ht.
    { pose proof (close_server_closed s') as Hclosed. cbn. destruct (close_server _ s') as [[]|e| |]; [|by intros o..].
      intros o [= <-]. apply Hlast; [done|left]. exists event.
      split_and!; [done|by apply Hclosed|done|apply final_as_told]. }
    destruct (_ && _); [|apply Hagain]. intros [x|e| |]; [apply Hagain|by intros o..].
Qed.

(** The run from the connected server on: its session is the thread that was
    started; of the starts that fail, the cancelled ones are reported. *)
Definition server_ended (server : CodexAppServer T) (seen : bool) (o : ProviderOutcome) : Prop :=
  match start_tracked_run (pw_tree w 0) (codex_request receipt) server with
  | (server, Ok started) =>
      codex_ended (Some (th_thread_id (st_thread started))) 0
        {| td_server := server; td_tracker := st_tracker started |} seen o
  | (_, Err (TrackerAppServer (Transport TransportCancelled))) => o = outcome_cancelled
  | _ => False
  end.
Lemma run_server_ends fuel server :
  reports (server_ended server) false
    (run_server receipt_json close_checked instant_max w channel receipt fuel server).
Proof.
  unfold run_server, server_ended.
  destruct (start_tracked_run _ _ _) as [s' [started|e| |]]; [|..|by intros o|by intros o].
  - apply codex_loop_ends.
  - destruct e as [[[]| |]| | |]; try by intros o. by intros o [= <-].
Qed.

End codex.

(** The run from the start of the app server on. *)
Lemma run_codex_ends fuel executable :
  reports (λ seen o, match connect_app_server w with
                     | Ok server =>
                         server_ended (transport := stdio_transport (H0 := pw_stdio w) (pw_pipe_fuel w))
                           (CodexStdio.close_checked (H0 := pw_stdio w)) (@instant_max _ (pw_stdio w))
                           server seen o
                     | Err (Transport TransportCancelled) => o = outcome_cancelled
                     | _ => False
                     end) false (run_codex receipt_json w fuel executable receipt channel).
Proof.
  unfold run_codex. destruct executable as [file|]; [|by intros o].
  destruct (connect_app_server w) as [server|e| |]; [|..|by intros o|by intros o].
  - apply run_server_ends.
  - destruct e as [[]| |]; try by intros o. by intros o [= <-].
Qed.
End runners.

(** ** The durable end *)

Section persist.
Context `{Environment} `{Digest} `{Serializer} `{Formats}.

Lemma alone_pbind {A B} (p : prog A) (k : A → prog B) d :
  alone (pbind p k) d = let '(a, d') := alone p d in alone (k a) d'.
Proof.
  revert d. induction p as [a|B' e c IH]; intros d; cbn; [done|]. destruct (exec true e d). apply IH.
Qed.
Lemma alone_result {A B} (m : M A) (k : outcome StoreError A → task unit B) d :
  alone (result ← result_of (store m); k result) d =
  let d' := set_broker (on_store m (dm_broker d)).2 d in
  match (on_store m (dm_broker d)).1 with
  | Panic => (Panic, d')
  | Diverge => (Diverge, d')
  | r => alone (k r) d'
  end.
Proof. cbn. by destruct (m _) as [[a|e| |] w]. Qed.

Lemma alone_retrying {A} (f : db → outcome StoreError A) again k d :
  alone (retrying (read_only f) again k) d =
  if w_poisoned (bk_world (dm_broker d)) then alone again d else
  match f (w_db (bk_world (dm_broker d))) with
  | Ok a => alone (k a) d
  | Err Database | Err Poisoned => alone again d
  | Err _ => (Err tt, d)
  | Panic => (Panic, d)
  | Diverge => (Diverge, d)
  end.
Proof.
  destruct d as [[[wd wc wu wm wp] rd] dc da dch dak de]. cbn. unfold read_only. cbn.
  destruct wp; cbn; [done|]. by destruct (f wd) as [a|[]| |].
Qed.

(** The mutex that a panic has poisoned stays so, and the outcome is never
    given up. *)
Lemma persist_poisoned receipt outcome fuel d :
  w_poisoned (bk_world (dm_broker d)) = true →
  alone (persist_outcome fuel receipt outcome) d = (Diverge, d).
Proof.
  intros Hp. unfold persist_outcome. generalize (publishable outcome). clear outcome. intros outcome.
  induction fuel as [|fuel IH]; [done|]. cbn [persist_loop]. unfold catalog. rewrite alone_retrying. by rewrite Hp.
Qed.

(** A blank answer is refused as the output of a node, so the end of the run is
    not recorded. *)
Lemma finish_blank id command text w selected :
  fg_output_markdown command = Some text → blank text = true →
  selection_of (w_db w) (fg_run_id command) (selected, false) →
  is_ok (finish_graph_node_run id command w).1 = false ∧
  w_db (finish_graph_node_run id command w).2 = w_db w.
Proof.
  intros Ho Hb Hsel. enough (Hf : is_ok (finish_graph_node_run id command w).1 = false).
  { split; [done|]. by apply transact_rolls_back. }
  destruct (finish_graph_node_run id command w) as [[receipt|e| |] w'] eqn:E; try done.
  exfalso. revert E. unfold finish_graph_node_run. by_transact. wp_run.
  rename select (finish_current _ _ _ _ _ = _) into Hcur.
  pose proof (finish_current_run _ _ _ _ _ _ _ Hcur) as [Hr _].
  apply finish_current_node in Hcur as (Hsession & _).
  destruct Hsel as (c' & r' & s' & Hc & Hr' & Hs' & Hsel).
  rename select (ct_catalog (d_identity _) = _) into Hcat. rewrite Hcat in Hc. injection Hc as <-.
  rewrite Hr in Hr'. injection Hr' as <-. rewrite Hsession in Hs'. injection Hs' as <-.
  rename select (finish_selection _ _ _ _ _ = _) into Hsel'. rewrite Hsel in Hsel'. injection Hsel' as _ <-.
  rename select (finish_output _ _ = _) into Hout. revert Hout. unfold finish_output, output_create.
  rewrite Ho, Hb. done.
Qed.

Notation database d := (w_db (bk_world (dm_broker d))).

(** So nothing is recorded at all, however often it is tried. *)
Lemma persist_blank receipt outcome text selected fuel d :
  po_output_markdown outcome = Some text → blank text = true →
  selection_of (database d) (br_run_id receipt) (selected, false) →
  database (alone (persist_loop fuel receipt outcome) d).2 = database d.
Proof.
  intros Ho Hb Hsel. remember (database d) as db0 eqn:Hd. symmetry in Hd. revert d Hd.
  induction fuel as [|fuel IH]; intros d Hd; [done|]. cbn [persist_loop].
  unfold catalog. rewrite alone_retrying. destruct (w_poisoned _); [by apply IH|].
  destruct (obind _ _) as [c|[]| |]; try done; try by apply IH.
  unfold m3_catalog. rewrite alone_retrying. destruct (w_poisoned _); [by apply IH|].
  destruct (obind _ _) as [m|[]| |]; try done; try by apply IH.
  unfold graph_execution. rewrite alone_retrying. destruct (w_poisoned _); [by apply IH|].
  destruct (obind _ _) as [g|[]| |]; try done; try by apply IH.
  set (command := finish_command _ _ _ _ _).
  destruct (finish_blank (br_execution_id receipt) command text (bk_world (dm_broker d)) selected)
    as [Hf Hdb]; [done..|by rewrite Hd|].
  rewrite alone_result. cbn [on_store fst snd].
  destruct (finish_graph_node_run _ command _) as [r w']. cbn in Hf, Hdb. rewrite Hd in Hdb.
  by destruct r as [a|[]| |]; try done; try by apply IH.
Qed.

End persist.

(** ** Undisturbed *)

Section undisturbed.
Context `{Environment} `{Digest} `{Serializer} `{Formats}.
Notation database d := (w_db (bk_world (dm_broker d))).

Lemma alone_final {A} (f : db → outcome StoreError A) again k d r :
  final (f (database d)) → w_poisoned (bk_world (dm_broker d)) = false →
  (alone (retrying (read_only f) again k) d).1 = r →
  r = Err tt ∨ r = Panic ∨ ∃ a, f (database d) = Ok a ∧ (alone (k a) d).1 = r.
Proof.
  intros [Hd Hp] Hw. rewrite alone_retrying, Hw. destruct (f _) as [a|e| |]; cbn in *; try done.
  - intros Hr. right. right. by exists a.
  - intros <-. left. by destruct e.
  - intros <-. by right; left.
Qed.

Lemma persist_once receipt outcome d :
  good (database d) → w_poisoned (bk_world (dm_broker d)) = false →
  (alone (persist_loop 1 receipt outcome) d).1 = Diverge →
  ∃ c g m e, (on_store (finish_graph_node_run (br_execution_id receipt)
                          (finish_command receipt outcome c g m)) (dm_broker d)).1 = Err e ∧
    (e = Database ∨ e = Poisoned).
Proof.
  intros Hd Hp. cbn [persist_loop]. unfold catalog.
  intros [?|[?|(c & Hc & E)]]%alone_final; try done; [|apply catalog_final]. revert E. unfold m3_catalog.
  intros [?|[?|(m & Hm & E)]]%alone_final; try done; [|apply m3_final]. revert E. unfold graph_execution.
  intros [?|[?|(g & Hg & E)]]%alone_final; try done; [|apply graph_final]. revert E.
  set (command := finish_command _ _ _ _ _). rewrite alone_result. intros E. exists (csn_revision c), (ge_revision g), (msn_revision m). fold command.
  assert (Hcalm : raises calm (on_store (finish_graph_node_run (br_execution_id receipt) command) (dm_broker d)).1).
  { cbn [on_store fst]. apply (ends_finish_current _ _ (database d)); [done|..|done].
    - cbn. ok_inv. done.
    - cbn. ok_inv. done.
    - intros row Hrow. cbn. unfold load_graph in Hg. rewrite Hrow in Hg. ok_inv. cbn in *.
      destruct (good_graphs _ Hd _ _ Hrow) as (e & He & _ & Hrev & _). unfold from_str in *. rewrite He in *.
      simplify_eq. ok_inv. by simplify_eq. }
  revert E. destruct (on_store _ _).1 as [a|[]| |]; try done; eauto.
Qed.
End undisturbed.
