(* ===== verification/ClientFacts.v ===== *)
(** * Calls of a client, end to end

    The path and the body that a method of the client sends are those of the
    route it is meant for, and what comes back is what the handler returned. *)
From S2P Require Import Prelude Policy Identity Catalog Deliverable Approval Graph Execution.
From S2P Require Import M3 Mvp Protocol Store Launch StagedLaunches GraphStore FinishRun.
From S2P Require Import CatalogStore CredentialGrants Dispatch DaemonStore Daemon Executor Routes.
From S2P Require Import ExecutorFacts Http Client.

(** ** An undisturbed connection *)

(** A body that arrives whole, however it is cut. *)
Definition data_of `{Serde} (f : frame) : list octet :=
  match f with Data bytes => bytes | _ => [] end.
Definition undamaged `{Serde} (f : frame) : bool :=
  match f with Data _ | Trailers => true | _ => false end.
Definition whole `{Serde} (bytes : list octet) (frames : list frame) : Prop :=
  Forall (λ f, undamaged f = true) frames ∧ concat (map data_of frames) = bytes.

Section alone.
Context `{Environment} `{Digest} `{Serializer} `{Formats} `{Serde} `{!Axum}.
Context (is_dir : string → bool) (fuel : nat).
Context {D : Type} (cut : list octet → list frame) (luck : nat → nat).

(** The daemon serves the client, and no one else. *)
Definition react {B} (e : access D B) : daemon * D → B * (daemon * D) :=
  match e in access _ B return daemon * D → B * (daemon * D) with
  | Connect => λ w, (Connected, w)
  | SendRequest q => λ w,
      let '(response, d) := alone (serve is_dir fuel q) w.1 in
      (match response with
       | Some r => Answered (hr_status r) (cut (hr_body r))
       | None => NoAnswer
       end, (d, w.2))
  | Local f => λ w, let '(a, x) := f luck w.2 in (a, (w.1, x))
  end.
Fixpoint served {A} (p : cprog D A) (w : daemon * D) : A * (daemon * D) :=
  match p with
  | CRet a => (a, w)
  | CAct e k => let '(b, w) := react e w in served (k b) w
  end.
End alone.

(** The method of the client for a request.  The events have none. *)
Section methods.
Context `{Serde} `{Formats} {D : Type} (self : DaemonClient).
Notation call := (ctask D ClientError reply).

Definition wrapped {k} (f : receipt k → reply) (m : ctask D ClientError (receipt k)) : call :=
  r ← m; cgive (f r).

Definition client_for (r : request) : option call :=
  match r with
  | GetHealth => Some (wrapped (k := KSnapshot) ReSnapshot (Call.snapshot self))
  | GetEvents _ => None
  | GetCatalog => Some (wrapped (k := KCatalog) ReCatalog (Call.catalog self))
  | PutCatalog c => Some (wrapped (k := KCatalogReceipt) ReCatalogReceipt
      (Call.replace_catalog self (rc_expected_revision c) (rc_catalog c)))
  | GetM3 => Some (wrapped (k := KM3) ReM3 (Call.m3_catalog self))
  | PutM3 c => Some (wrapped (k := KCatalogReceipt) ReCatalogReceipt (Call.replace_m3_catalog self c))
  | GetGraphs => Some (wrapped (k := KGraphs) ReGraphs (Call.graph_executions self))
  | PostGraph e => Some (wrapped (k := KGraph) ReGraph (Call.create_graph_execution self e))
  | PostClaim id c => Some (wrapped (k := KClaimed) ReClaim (Call.claim_graph_nodes self id c))
  | PostRestart id n =>
      Some (wrapped (k := KGraph) ReGraph (Call.restart_missing_output_graph self id n))
  | PostRetry id c => Some (wrapped (k := KGraph) ReGraph (Call.retry_failed_graph_node self id c))
  | PostRun id c => Some (wrapped (k := KBegun) ReBegin (Call.begin_graph_node_run self id c))
  | PostExecuteReady id c =>
      Some (wrapped (k := KStarted) ReExecuteReady (Call.execute_ready_graph self id c))
  | PostFinish id c => Some (wrapped (k := KFinished) ReFinish (Call.finish_graph_node_run self id c))
  | PostComplete id c => Some (wrapped (k := KCompleted) ReComplete (Call.complete_graph_node self id c))
  | PostPrepareMvp c => Some (wrapped (k := KPrepared) RePrepareMvp (Call.prepare_mvp self c))
  | PostAcceptDecision c =>
      Some (wrapped (k := KBaseline) ReAcceptDecision (Call.accept_mvp_decision self c))
  | PostDocument c => Some (wrapped (k := KDocument) ReDocument (Call.create_mvp_document self c))
  | PostAcceptDocument c => Some (wrapped (k := KDocument) ReDocument (Call.accept_mvp_document self c))
  | PostPrepareKnowledge c =>
      Some (wrapped (k := KKnowledge) ReKnowledge (Call.prepare_knowledge_delivery self c))
  | PostCompleteKnowledge c =>
      Some (wrapped (k := KKnowledge) ReKnowledge (Call.complete_knowledge_delivery self c))
  | PostCost c => Some (wrapped (k := KCost) ReCost (Call.record_cost self c))
  | GetApprovals => Some (wrapped (k := KApprovals) ReApprovals (Call.approvals self))
  | PostApproval a => Some (wrapped (k := KApproval) ReApproval (Call.create_approval self a))
  | GetGrant id => Some (wrapped (k := KGrant) ReGrant (Call.credential_grant self id))
  | PostRevokeGrant id actor =>
      Some (wrapped (k := KGrant) ReGrant (Call.revoke_credential_grant self id actor))
  | GetApproval id => Some (wrapped (k := KRecord) ReRecord (Call.approval self id))
  | PostDecision id c =>
      if decide (id = (da_decision c).(ad_request_id))
      then Some (wrapped (k := KApproval) ReApproval
             (Call.decide_approval_with_scope_review self (da_decision c)
                (da_credential_scope_acknowledged c)))
      else None
  | PostCheckpoint c => Some (wrapped (k := KCheckpoint) ReCheckpoint
      (Call.checkpoint self (cc_expected_revision c) (cc_reason c)))
  | PostSuspend c => Some (wrapped (k := KCheckpoint) ReCheckpoint
      (Call.suspend self (cc_expected_revision c) (cc_reason c)))
  | PostResume c => Some (wrapped (k := KEvent) ReEvent
      (Call.resume self (cc_expected_revision c) (cc_reason c)))
  | PostShutdown c => Some (wrapped (k := KCheckpoint) ReCheckpoint
      (Call.shutdown self (cc_expected_revision c) (cc_reason c)))
  | PostCancel run c =>
      if decide (run = crc_run_id c)
      then Some (wrapped (k := KCancelled) ReCancel
             (Call.cancel_run self (crc_run_id c) (crc_expected_catalog_revision c)))
      else None
  end.
End methods.

(** What a request carries. *)
Definition command_of (r : request) : option { k : command_kind & command k } :=
  match r with
  | GetHealth | GetEvents _ | GetCatalog | GetM3 | GetGraphs | GetApprovals | GetGrant _
  | GetApproval _ => None
  | PutCatalog c => Some (existT KReplaceCatalog c)
  | PutM3 c => Some (existT KReplaceM3 c)
  | PostGraph c => Some (existT KCreateGraph c)
  | PostClaim _ c => Some (existT KClaimNodes c)
  | PostRestart _ c => Some (existT KRestart c)
  | PostRetry _ c => Some (existT KRetry c)
  | PostRun _ c => Some (existT KBeginRun c)
  | PostExecuteReady _ c => Some (existT KExecuteReady c)
  | PostFinish _ c => Some (existT KFinishRun c)
  | PostComplete _ c => Some (existT KCompleteNode c)
  | PostPrepareMvp c => Some (existT KPrepareMvp c)
  | PostAcceptDecision c => Some (existT KDecisionBaseline c)
  | PostDocument c => Some (existT KCreateDocument c)
  | PostAcceptDocument c => Some (existT KAcceptDocument c)
  | PostPrepareKnowledge c => Some (existT KPrepareKnowledge c)
  | PostCompleteKnowledge c => Some (existT KCompleteKnowledge c)
  | PostCost c => Some (existT KRecordCost c)
  | PostApproval c => Some (existT KCreateApproval c)
  | PostRevokeGrant _ c => Some (existT KRevokeGrant c)
  | PostDecision _ c => Some (existT KDecideApproval c)
  | PostCheckpoint c | PostSuspend c | PostResume c | PostShutdown c =>
      Some (existT KCheckpointCommand c)
  | PostCancel _ c => Some (existT KCancelRun c)
  end.

(** The command is written, fits the limit of the daemon and is read back. *)
Definition carried `{Serde} `{!Axum} (r : request) : Prop :=
  match command_of r with
  | Some (existT k c) => ∃ bytes, to_vec (Command k) c = Some bytes ∧
      from_slice (Command k) bytes = Some c ∧ (Z.of_nat (length bytes) ≤ body_limit)%Z
  | None => True
  end.
(** So is the reply, within the limit of the client. *)
Definition returned `{Serde} (r : outcome StoreError reply) : Prop :=
  match r with
  | Ok reply => ∃ msg bytes, message_of reply = Some msg ∧ to_vec (projT1 msg) (projT2 msg) = Some bytes ∧
      from_slice (projT1 msg) bytes = Some (projT2 msg) ∧ (Z.of_nat (length bytes) ≤ MAX_RESPONSE_BYTES)%Z
  | Err e => (Z.of_nat (length (error_body e)) ≤ MAX_RESPONSE_BYTES)%Z
  | Panic | Diverge => True
  end.

(** What the client makes of a handler's result. *)
Definition seen_by_client (r : outcome StoreError reply) : outcome ClientError reply :=
  match r with
  | Ok reply => Ok reply
  | Err e => Err (LocalStatus (status_of e))
  | Panic | Diverge => Err (CrTransport InvalidHttpResponse)
  end.

(** ** Bodies *)

Section bodies.
Context `{Serde}.

Lemma read_body_whole frames : ∀ bytes,
  Forall (λ f, undamaged f = true) frames →
  (Z.of_nat (length (bytes ++ concat (map data_of frames))) ≤ MAX_RESPONSE_BYTES)%Z →
  read_body bytes frames = Ok (bytes ++ concat (map data_of frames)).
Proof.
  induction frames as [|f frames IH]; intros bytes Hf Hl; cbn in *; [by rewrite app_nil_r|].
  apply Forall_cons in Hf as [Hf Hfs]. destruct f as [data| | |]; try done; cbn in *.
  - rewrite (proj2 (Z.ltb_ge _ _)) by (rewrite !length_app in Hl; lia).
    rewrite IH; by rewrite <- ?app_assoc.
  - by apply IH.
Qed.

Lemma whole_read bytes frames :
  whole bytes frames → (Z.of_nat (length bytes) ≤ MAX_RESPONSE_BYTES)%Z →
  read_body [] frames = Ok bytes.
Proof. intros [Hf <-] Hl. by rewrite read_body_whole. Qed.

End bodies.

(** A handler's error is never a success. *)
Lemma status_of_fails e : is_success (status_of e) = false.
Proof. by destruct e. Qed.

(** ** Paths *)

Section paths.
Context `{Formats} `{Serde} `{!Axum} `{!AxumLaws}.

Lemma append_cons c s s' : String c s +:+ s' = String c (s +:+ s').
Proof. done. Qed.
Lemma append_nil_r s : s +:+ "" = s.
Proof. induction s as [|c s IH]; [done|]. by rewrite append_cons, IH. Qed.
Lemma all_chars_app p a b : all_chars p (a +:+ b) = all_chars p a && all_chars p b.
Proof. induction a as [|c a IH]; [done|]. rewrite append_cons. cbn. by rewrite IH, andb_assoc. Qed.
Lemma all_chars_impl p q s :
  (∀ c, p c = true → q c = true) → all_chars p s = true → all_chars q s = true.
Proof.
  intros Hpq. induction s as [|c s IH]; cbn; [done|]. intros [Hc Hs]%andb_true_iff.
  by rewrite (Hpq _ Hc), IH.
Qed.

Notation no_slash := (all_chars (λ c, plain_path_char c && negb (Ascii.eqb c "/"))).

Lemma split_at_cons c s : ∃ x xs, split_at c s = x :: xs.
Proof.
  destruct s as [|a s]; cbn; [eauto|]. destruct (Ascii.eqb _ _); [eauto|].
  destruct (split_at c s); eauto.
Qed.

Lemma split_at_plain u after x xs :
  no_slash u = true → split_at "/" after = x :: xs → split_at "/" (u +:+ after) = (u +:+ x) :: xs.
Proof.
  intros Hu Ha. induction u as [|c u IH]; [done|]. rewrite append_cons. cbn in Hu |- *.
  apply andb_true_iff in Hu as [[_ Hc]%andb_true_iff Hu]. apply negb_true_iff in Hc.
  by rewrite Hc, IH.
Qed.

(** All the routes that match the segments of a path. *)
Definition matches (table : list string) (segments : list string) : list (nat * list string) :=
  omap (λ '(i, t), args ← captures (split_at "/" t) segments; Some (i, args)) (enumerate table).

Lemma matches_elem table segments i t args :
  table !! i = Some t → captures (split_at "/" t) segments = Some args →
  (i, args) ∈ matches table segments.
Proof.
  intros Hi Ht. apply list_elem_of_omap. exists (i, t). split; [|by rewrite Ht].
  apply list_elem_of_lookup. exists i. unfold enumerate. rewrite lookup_zip_with, Hi.
  by rewrite lookup_seq_lt by (by eapply lookup_lt_Some).
Qed.
Lemma elem_matches table segments i args :
  (i, args) ∈ matches table segments →
  ∃ t, table !! i = Some t ∧ captures (split_at "/" t) segments = Some args.
Proof.
  intros ([j t] & Hj & Ht)%list_elem_of_omap.
  apply list_elem_of_lookup in Hj as [n Hn]. unfold enumerate in Hn. rewrite lookup_zip_with in Hn.
  destruct (table !! n) as [t'|] eqn:En; [|by destruct (seq _ _ !! n)].
  rewrite lookup_seq_lt in Hn by (by eapply lookup_lt_Some). cbn in Hn. injection Hn as <- <-.
  destruct (captures _ _) as [args'|] eqn:Ec; [|done]. cbn in Ht. injection Ht as -> ->. eauto.
Qed.

Lemma route_only table path segments i args :
  split_at "/" path = segments → matches table segments = [(i, args)] →
  all_chars plain_path_char path = true → match_path table path = Some (i, args).
Proof.
  intros Hs Hm Hp. assert (Hin : (i, args) ∈ matches table segments) by (rewrite Hm; set_solver).
  apply elem_matches in Hin as (t & Ht & Ha).
  apply (match_only table path i t args Ht); [unfold match_of; by rewrite Hs|done|].
  intros j other Hj [args' Ho]. unfold match_of in Ho. rewrite Hs in Ho.
  pose proof (matches_elem _ _ _ _ _ Hj Ho) as Hj'. rewrite Hm in Hj'. set_solver.
Qed.

(** The path of a method that names an object. *)
Lemma id_route before after u segments i :
  (∀ s, split_at "/" (before +:+ s) = segments ++ split_at "/" s) →
  match split_at "/" after with EmptyString :: rest =>
    ∀ a r, matches templates (segments ++ String a r :: rest) = [(i, [String a r])] | _ => False end →
  all_chars plain_path_char before = true → all_chars plain_path_char after = true →
  match_path templates (before +:+ uuid_text u +:+ after) = Some (i, [uuid_text u]).
Proof.
  intros Hb Hm Hcb Hca. pose proof (uuid_chars u) as Hu. pose proof (uuid_filled u) as Hf.
  destruct (split_at "/" after) as [|[] rest] eqn:Ea; try done.
  destruct (uuid_text u) as [|a r] eqn:Eu; [done|].
  eapply route_only.
  - rewrite Hb. erewrite (split_at_plain (String a r)) by done. by rewrite append_nil_r.
  - apply Hm.
  - rewrite !all_chars_app, Hcb, Hca, andb_true_r. cbn [andb].
    eapply all_chars_impl; [|exact Hu]. by intros c [? _]%andb_true_iff.
Qed.

End paths.

(** ** Calls *)

Section calls.
Context `{Environment} `{Digest} `{Serializer} `{Formats} `{Serde} `{!Axum} `{!AxumLaws}.
Context (is_dir : string → bool) (fuel : nat).
Context {D : Type} (cut : list octet → list frame) (luck : nat → nat).
Context (Hcut : ∀ bytes, whole bytes (cut bytes)).

Lemma dispatched q i args e x r :
  match_path templates (hq_path q) = Some (i, args) → router !! i = Some e →
  on_method (hq_method q) e = Some x → x args q = Some r → dispatch q = inr r.
Proof. unfold dispatch. intros -> Hi Hm Hx. rewrite Hi. cbn. by rewrite Hm, Hx. Qed.

(** A response, as the client reads it. *)
Definition reading (k : receipt_kind) (f : receipt k → reply) (a : answer)
    : outcome ClientError reply :=
  match a with
  | NoAnswer => Err (CrTransport InvalidHttpResponse)
  | Overdue => Err (CrTransport RequestTimedOut)
  | Answered status frames =>
      let? bytes := map_err CrTransport (read_body [] frames) in
      let? response := error_for_status {| lr_status := status; lr_body := bytes |} in
      let? received := read_json (Receipt k) response in
      let? _ := require_protocol (vs_protocol_version received) in
      Ok (f (vs_content received))
  end.

Lemma reading_response k (f : receipt k → reply) (m : task StoreError (receipt k)) d :
  (∀ a, message_of (f a) = Some (stamped k a)) →
  returned (alone (reply_with f m) d).1 →
  reading k f match respond (alone (reply_with f m) d).1 with
              | Some r => Answered (hr_status r) (cut (hr_body r))
              | None => NoAnswer
              end = seen_by_client (alone (reply_with f m) d).1.
Proof.
  intros Hf. unfold reply_with, base.mbind, task_bind. rewrite alone_pbind.
  destruct (alone m d) as [[a|e| |] d']; cbn; try done.
  - rewrite Hf. intros (msg & bytes & [= <-] & Hto & Hfrom & Hlen). cbn in Hto, Hfrom.
    cbn. rewrite Hto. cbn.
    rewrite (whole_read _ _ (Hcut bytes) Hlen). cbn. unfold read_json. cbn. by rewrite Hfrom.
  - intros Hlen. rewrite (whole_read _ _ (Hcut _) Hlen). cbn. unfold error_for_status. cbn.
    by rewrite status_of_fails.
Qed.

Lemma receive_served {k} (f : receipt k → reply) (m : task StoreError (receipt k)) req path body
    i args e x r d (y : D) :
  request_target (cq_url req) = Some path → cq_body req = Ok body →
  match_path templates path = Some (i, args) → router !! i = Some e →
  on_method (cq_method req) e = Some x → (∀ q, hq_body q = default [] body → x args q = Some r) →
  route is_dir fuel r = reply_with f m → (∀ a, message_of (f a) = Some (stamped k a)) →
  returned (alone (route is_dir fuel r) d).1 →
  served is_dir fuel cut luck (wrapped f (receive k req)) (d, y) =
    (seen_by_client (alone (route is_dir fuel r) d).1, ((alone (route is_dir fuel r) d).2, y)).
Proof.
  intros Ht Hb Hp Hi Hm Hx Hr Hf Hret.
  unfold wrapped, receive, send, transport_send. rewrite Hb, Ht. cbn.
  unfold serve. rewrite (dispatched _ i args e x r) by (try done; by apply Hx).
  rewrite alone_pbind. destruct (alone (route is_dir fuel r) d) as [res d'] eqn:E. cbn.
  rewrite Hr in E. pose proof (reading_response k f m d Hf) as Hread.
  rewrite E in Hread. specialize (Hread Hret). cbn in Hread.
  destruct (respond res) as [resp|]; cbn in Hread |- *; [|by rewrite <- Hread].
  rewrite <- Hread. destruct (read_body _ _) as [bytes|er| |]; cbn; try done.
  destruct (error_for_status _) as [resp'|er| |]; cbn; try done.
  destruct (read_json _ _) as [received|er| |]; cbn; try done.
  by destruct (require_protocol _) as [[]|er| |].
Qed.


(** The body of a command. *)
Lemma read_command {k} (c : command k) bytes q :
  to_vec (Command k) c = Some bytes → from_slice (Command k) bytes = Some c →
  (Z.of_nat (length bytes) ≤ body_limit)%Z → hq_body q = bytes → json_body k q = Some c.
Proof. intros _ Hf Hl Hq. unfold json_body. by rewrite Hq, (proj2 (Z.leb_le _ _) Hl). Qed.

Lemma read_id {i} (id : stable_id i) : path_id [uuid_text (value id)] = Some (value id).
Proof. apply uuid_read. Qed.

Lemma with_json_body {k} (c : command k) bytes r :
  to_vec (Command k) c = Some bytes → cq_body (with_json k c r) = Ok (Some bytes).
Proof. intros Hc. cbn. by rewrite Hc. Qed.

Lemma mk_value {i} (id : stable_id i) : mk_id (value id) = id.
Proof. by destruct id. Qed.

Ltac fixed_path := eapply route_only; [reflexivity|vm_compute; reflexivity|reflexivity].
Ltac id_path :=
  lazymatch goal with
  | |- context [String.append ?before (String.append (uuid_text _) _)] =>
      let segments := eval vm_compute in (split_at "/" before) in
      let segments := eval cbn in (reverse (tail (reverse segments))) in
      apply (id_route before _ _ segments); [reflexivity|vm_compute; reflexivity|reflexivity..]
  end.
Ltac path := first [fixed_path | id_path].
Ltac carried_by Hr :=
  let bytes := fresh in let Ht := fresh in let Hf := fresh in let Hl := fresh in
  let q := fresh in let Hq := fresh in
  destruct Hr as (bytes & Ht & Hf & Hl);
  eapply receive_served;
    [reflexivity|apply with_json_body, Ht|path|reflexivity|reflexivity
    |intros q Hq; unfold json, with_id_json; rewrite ?read_id; cbn;
     rewrite (read_command _ _ _ Ht Hf Hl Hq); cbn; by rewrite ?mk_value
    |reflexivity|done|done].
Ltac carried_plain :=
  let q := fresh in
  eapply receive_served;
    [reflexivity|reflexivity|path|reflexivity|reflexivity
    |intros q _; unfold with_id; rewrite ?read_id; cbn; by rewrite ?mk_value
    |reflexivity|done|done].

(** A method of the client does to the daemon what the handler of its route does,
    and tells what the handler returned. *)
Lemma calls_served d y r call :
  client_for {| base_url := LOCAL_HTTP_ORIGIN |} r = Some call → carried r →
  returned (alone (route is_dir fuel r) d).1 →
  served is_dir fuel cut luck call (d, y : D) =
    (seen_by_client (alone (route is_dir fuel r) d).1, ((alone (route is_dir fuel r) d).2, y)).
Proof.
  intros Hc Hr Hret.
  destruct r as [|after| |c| |c| |e|id c|id n|id c|id c|id c|id c|id c|c|c|c|c|c|c|c| |a|id|id actor|id|id c|c|c|c|c|run c];
    cbn [client_for] in Hc; try (case_decide; [subst|done]); try discriminate Hc; injection Hc as <-;
    try destruct c; try (carried_plain; fail); try (carried_by Hr; fail).
Qed.

End calls.
