(* ===== verification/DesktopFacts.v ===== *)
(** * What the desktop leaves and offers

    What a delivery to a vault does to its files as a function ([delivered]), and
    what is left when it is interrupted between two calls of the system; and the
    restarts that the window offers against those that the daemon makes. *)
From S2P Require Import Prelude Policy Identity Catalog Office Meeting Deliverable Approval Graph Execution.
From S2P Require Import ExecutionFacts M3 Mvp Protocol Adapter Store StoreLogic Launch GraphStore CredentialGrants Dispatch.
From S2P Require Import StoreReachable StoreFacts StoreEnds Http Client Delivery Projection LineDecoder.

#[local] Existing Instance tolerant.

(** ** Running on files alone *)

(** At most [n] accesses, all of whose calls succeed; [None] when the program is
    interrupted. *)
Fixpoint run_files `{Serde} {A} (n : nat) (p : cprog files A) (fs : files) : option A * files :=
  match p with
  | CRet a => (Some a, fs)
  | CAct e k =>
      match n with
      | O => (None, fs)
      | S n =>
          match e in access _ B return (B → cprog files A) → option A * files with
          | Local f => λ k, let '(b, fs) := f (λ _, 0) fs in run_files n (k b) fs
          | _ => λ _, (None, fs)
          end k
      end
  end.

(** ** Text *)

Lemma contains_prefix pattern s : String.prefix pattern s = true → contains pattern s = true.
Proof. intros Hp. destruct s; cbn in *; by rewrite Hp. Qed.
Lemma prefix_refl_app pattern s : String.prefix pattern (pattern +:+ s) = true.
Proof.
  induction pattern as [|a pattern IH]; [by destruct s|].
  change ((if ascii_dec a a then String.prefix pattern (pattern +:+ s) else false) = true).
  by destruct (ascii_dec a a).
Qed.
Lemma contains_later pattern s s' : contains pattern s = true → contains pattern (s' +:+ s) = true.
Proof.
  intros Hs. induction s' as [|a s' IH]; [done|].
  change (String.prefix pattern (String a (s' +:+ s)) || contains pattern (s' +:+ s) = true).
  by rewrite IH, orb_true_r.
Qed.
Lemma prefix_app pattern s s' : String.prefix pattern s = true → String.prefix pattern (s +:+ s') = true.
Proof.
  revert s. induction pattern as [|a pattern IH]; intros s; [by destruct (s +:+ s')|].
  destruct s as [|b s]; [done|].
  change ((if ascii_dec a b then String.prefix pattern s else false) = true →
    (if ascii_dec a b then String.prefix pattern (s +:+ s') else false) = true).
  destruct (ascii_dec a b); [apply IH|done].
Qed.
Lemma contains_earlier pattern s s' : contains pattern s = true → contains pattern (s +:+ s') = true.
Proof.
  induction s as [|a s IH].
  - intros Hp. apply contains_prefix, prefix_app. cbn in Hp. by rewrite orb_false_r in Hp.
  - change (String.prefix pattern (String a s) || contains pattern s = true →
      String.prefix pattern (String a s +:+ s') || contains pattern (s +:+ s') = true).
    rewrite !orb_true_iff. intros [Hp|Hc]; [left; by apply prefix_app|right; by apply IH].
Qed.
Lemma contains_middle pattern before after : contains pattern (before +:+ pattern +:+ after) = true.
Proof. apply contains_later, contains_prefix, prefix_refl_app. Qed.

Lemma list_ascii_app s s' :
  String.list_ascii_of_string (s +:+ s') = String.list_ascii_of_string s ++ String.list_ascii_of_string s'.
Proof.
  induction s as [|a s IH]; [done|].
  change (a :: String.list_ascii_of_string (s +:+ s') = a :: (String.list_ascii_of_string s ++ String.list_ascii_of_string s')).
  by rewrite IH.
Qed.

Lemma from_utf8_app a b : from_utf8 a = true → from_utf8 b = true → from_utf8 (a ++ b) = true.
Proof.
  intros Ha Hb. remember (length a) as n eqn:Hn. revert a Hn Ha.
  induction (lt_wf n) as [n _ IH]. intros a -> Ha.
  destruct a as [|b0 a]; [done|]. cbn in Ha |- *.
  destruct (in_range 0 127 b0); [by eapply (IH (length a)); cbn; lia || eauto|].
  destruct a as [|b1 a]; [done|]. cbn.
  destruct (in_range 194 223 b0).
  { apply andb_true_iff in Ha as [-> Ha]. cbn. by eapply (IH (length a)); cbn; lia || eauto. }
  destruct a as [|b2 a]; [done|]. cbn.
  destruct (second3 b0 b1).
  { apply andb_true_iff in Ha as [-> Ha]. cbn. by eapply (IH (length a)); cbn; lia || eauto. }
  destruct a as [|b3 a]; [done|]. cbn.
  rewrite !andb_true_iff in Ha. destruct Ha as [[[-> ->] ->] Ha]. cbn.
  by eapply (IH (length a)); cbn; lia || eauto.
Qed.

Definition utf8 (s : string) : bool := from_utf8 (String.list_ascii_of_string s).
Lemma utf8_app s s' : utf8 s = true → utf8 s' = true → utf8 (s +:+ s') = true.
Proof. unfold utf8. rewrite list_ascii_app. apply from_utf8_app. Qed.

(** ** Links *)

(** Files change, links and directories stay: where a path leads stays too. *)
Lemma follow_insert links fs path target content content' p :
  fs !! target = None ∨ fs !! target = Some (Regular content) →
  follow links fs path = Some p →
  follow links (<[target := Regular content']> fs) path =
    Some (if decide (p.1 = target) then (target, Regular content') else p).
Proof.
  intros Ht. revert path. induction links as [|links IH]; intros path; cbn;
    destruct (decide (path = target)) as [->|Hn].
  - rewrite lookup_insert_eq. destruct Ht as [-> | ->]; [done|]. intros [= <-]. cbn. by rewrite decide_True.
  - rewrite lookup_insert_ne by done. destruct (fs !! path) as [[]|]; try done; intros [= <-]; cbn;
      by rewrite decide_False.
  - rewrite lookup_insert_eq. destruct Ht as [-> | ->]; [done|]. intros [= <-]. cbn. by rewrite decide_True.
  - rewrite lookup_insert_ne by done. destruct (fs !! path) as [[]|]; try done; [|apply IH|];
      intros [= <-]; cbn; by rewrite decide_False.
Qed.

Lemma follow_lookup links fs path p : follow links fs path = Some p → fs !! p.1 = Some p.2.
Proof.
  revert path. induction links as [|links IH]; intros path; cbn; destruct (fs !! path) as [[]|] eqn:E;
    try done; [intros [= <-]; done..|intros [= <-]; done|apply IH|intros [= <-]; done].
Qed.

(** ** What a delivery does *)

(** The file that a path leads to, and its text. *)
Definition text_at (fs : files) (path target content : string) : Prop :=
  resolve fs path = Some (target, Regular content).

Definition appended (path marker entry : string) (fs : files) : files :=
  match resolve fs path with
  | Some (target, Regular content) =>
      if contains marker content then fs else <[target := Regular (content +:+ entry)]> fs
  | _ => fs
  end.
Definition noted (path body : string) (fs : files) : files :=
  match fs !! path with None => <[path := Regular body]> fs | Some _ => fs end.

Lemma text_insert fs path target content t c c' :
  text_at fs path target content → fs !! t = None ∨ fs !! t = Some (Regular c) →
  text_at (<[t := Regular c']> fs) path target (if decide (target = t) then c' else content).
Proof.
  unfold text_at, resolve. intros Hp Ht. rewrite (follow_insert _ _ _ _ _ _ _ Ht Hp). cbn.
  by destruct (decide (target = t)) as [->|].
Qed.
Lemma text_lookup fs path target content :
  text_at fs path target content → fs !! target = Some (Regular content).
Proof. intros Hp. exact (follow_lookup _ _ _ _ Hp). Qed.

Section deliveries.
Context `{Serde} `{Formats}.
Notation own := (λ fs : files, fs).
Notation put := (λ (fs _ : files), fs).

(** Calls that succeed. *)
Lemma read_ok path target content fs :
  text_at fs path target content → utf8 content = true → read_to_string path 0 fs = Some content.
Proof.
  unfold text_at, read_to_string. intros -> Hu. rewrite bool_decide_true by done. unfold utf8 in Hu. by rewrite Hu.
Qed.
Lemma open_ok path target content fs :
  text_at fs path target content → open_append path 0 fs = Some target.
Proof. unfold text_at, open_append. intros ->. by rewrite bool_decide_true. Qed.
Lemma write_ok path content text fs :
  fs !! path = Some (Regular content) →
  write_all path text 0 fs = (true, <[path := Regular (content +:+ text)]> fs).
Proof. unfold write_all. intros ->. by rewrite bool_decide_true. Qed.
Lemma create_ok path fs :
  fs !! path = None → create_new path 0 fs = (Opened, <[path := Regular ""]> fs).
Proof. unfold create_new. intros ->. by rewrite bool_decide_true. Qed.

Notation rest k := (λ r, match r with
  | Ok a => k a | Err e => CRet (Err e) | Panic => CRet Panic | Diverge => CRet Diverge end).

(** Either the program is interrupted before [k], in one of the states of [left],
    or [k] goes on in [fs']; it takes at most [cost] accesses. *)
Definition interrupted {A} (cost n : nat) (p k : cprog files A) (fs fs' : files) (left : list files)
    : Prop :=
  (∃ x, n < cost ∧ x ∈ left ∧ run_files n p fs = (None, x)) ∨
  ∃ m, n ≤ cost + m ∧ run_files n p fs = run_files m k fs'.

Lemma interrupted_local {A B} cost n (f : (nat → nat) → files → B * files) (k' : B → cprog files A) k
    fs b fs1 fs' left :
  fs ∈ left → f (λ _, 0) fs = (b, fs1) → (∀ n, interrupted cost n (k' b) k fs1 fs' left) →
  interrupted (S cost) n (CAct (Local f) k') k fs fs' left.
Proof.
  intros Hfs Hf Hk. destruct n as [|n]; [left; exists fs; split; [lia|done]|].
  unfold interrupted. cbn. rewrite Hf. destruct (Hk n) as [(x & ? & ?)|(m & ? & ?)].
  - left. exists x. split; [lia|done].
  - right. exists m. split; [lia|done].
Qed.
Lemma interrupted_there {A} cost n (k : cprog files A) fs left : interrupted cost n k k fs fs left.
Proof. right. exists n. split; [lia|done]. Qed.

Lemma append_interrupted path marker entry target content n
    (k : unit → cprog files (outcome DesktopError string)) fs :
  text_at fs path target content → utf8 content = true →
  interrupted 3 n (cbind (append_once own put path marker entry) (rest k)) (k tt) fs
    (appended path marker entry fs) [fs].
Proof.
  intros Ht Hu. unfold append_once, appended. pose proof Ht as Hr. unfold text_at in Hr. rewrite Hr.
  eapply interrupted_local; [set_solver|by rewrite (read_ok _ _ _ _ Ht Hu)|clear n; intros n; cbn].
  destruct (contains marker content); [apply interrupted_there|].
  eapply interrupted_local; [set_solver|by rewrite (open_ok _ _ _ _ Ht)|clear n; intros n; cbn].
  eapply interrupted_local; [set_solver|by rewrite (write_ok _ _ _ _ (text_lookup _ _ _ _ Ht))|].
  clear n. intros n. apply interrupted_there.
Qed.

(** A note that is created and not written. *)
Definition torn (path : string) (fs : files) : list files :=
  match fs !! path with None => [<[path := Regular ""]> fs] | Some _ => [] end.
Lemma elem_of_torn path fs x :
  x ∈ torn path fs → fs !! path = None ∧ x = <[path := Regular ""]> fs.
Proof. unfold torn. destruct (fs !! path); [set_solver|]. by intros ->%list_elem_of_singleton. Qed.

Lemma note_interrupted path body n (k : unit → cprog files (outcome DesktopError string)) fs :
  fs !! path = None ∨ fs !! path = Some (Regular body) → utf8 body = true →
  interrupted 2 n (cbind (write_note own put path body) (rest k)) (k tt) fs (noted path body fs)
    (fs :: torn path fs).
Proof.
  intros Hp Hu. unfold write_note, noted, torn. destruct Hp as [Hp|Hp]; rewrite Hp.
  - eapply interrupted_local; [set_solver|by rewrite (create_ok _ _ Hp)|clear n; intros n; cbn].
    eapply interrupted_local; [set_solver|by rewrite (write_ok _ "") by apply lookup_insert_eq|].
    clear n. intros n. cbn. rewrite insert_insert_eq. apply interrupted_there.
  - eapply interrupted_local; [set_solver|by unfold create_new; rewrite Hp|clear n; intros n; cbn].
    assert (Ht : text_at fs path path body) by (unfold text_at, resolve; cbn; by rewrite Hp).
    eapply interrupted_local; [set_solver|by rewrite (read_ok _ _ _ _ Ht Hu)|clear n; intros n; cbn].
    rewrite String.eqb_refl. apply interrupted_there.
Qed.

(** A note that was created and not written is another content. *)
Lemma note_torn path body n (k : unit → cprog files (outcome DesktopError string)) fs :
  fs !! path = Some (Regular "") → body ≠ "" →
  run_files (2 + n) (cbind (write_note own put path body) (rest k)) fs =
    (Some (Err (Told "BastetMind delivery path conflicts with different content")), fs).
Proof.
  intros Hp Hb. unfold write_note. cbn. unfold create_new. rewrite Hp. cbn.
  assert (Ht : text_at fs path path "") by (unfold text_at, resolve; cbn; by rewrite Hp).
  rewrite (read_ok _ _ _ _ Ht) by done. cbn. destruct body as [|c body]; [done|]. by destruct n.
Qed.

(** ** A vault *)

Context (canonicalize : string → option string).
Context (root real out : string) (id : KnowledgeDeliveryId) (preview delivered_on : string).

Notation note := (join out (note_name id +:+ ".md")).
Notation body := (note_body id preview delivered_on).
Notation index := (join real "index.md").
Notation log := (join real "log.md").
Notation marker := (marker_of id).
Notation receipt := ("bastetmind:" +:+ marker).
Notation delivery := (deliver_bastet_mind canonicalize own put root id preview delivered_on).

(** A vault whose note of this delivery is absent or complete, and whose index and
    log are text.  Neither of them leads to the note. *)
Record vault (fs : files) : Prop := {
  va_root : canonicalize root = Some real;
  va_out : canonicalize (join real "40-輸出成果") = Some out;
  va_below : below real out = true;
  va_agents : ∃ t c, text_at fs (join real "AGENTS.md") t c;
  va_index : ∃ t c, text_at fs index t c ∧ utf8 c = true ∧ t ≠ note;
  va_log : ∃ t c, text_at fs log t c ∧ utf8 c = true ∧ t ≠ note;
  va_note : fs !! note = None ∨ fs !! note = Some (Regular body);
}.

Context (Hbody : utf8 body = true) (Hindex : utf8 (index_entry id) = true)
  (Hlog : utf8 (log_entry id delivered_on) = true).

Lemma vault_insert fs target content content' :
  vault fs → fs !! target = None ∨ fs !! target = Some (Regular content) →
  utf8 content' = true → (target = note → content' = body) →
  vault (<[target := Regular content']> fs).
Proof.
  intros [Hr Ho Hb (ta & ca & Ha) (ti & ci & Hi & Hui & Hni) (tl & cl & Hl & Hul & Hnl) Hn] Ht Hu Hnote.
  split; [done..| | | |].
  - eexists _, _. by eapply text_insert.
  - exists ti. eexists. split; [by eapply text_insert|]. by destruct (decide (ti = target)).
  - exists tl. eexists. split; [by eapply text_insert|]. by destruct (decide (tl = target)).
  - destruct (decide (target = note)) as [->|Hne].
    + rewrite lookup_insert_eq, Hnote by done. by right.
    + by rewrite lookup_insert_ne.
Qed.

Lemma vault_noted fs : vault fs → vault (noted note body fs).
Proof.
  intros Hv. unfold noted. destruct (fs !! note) eqn:E; [done|].
  apply (vault_insert fs note ""); auto.
Qed.
Lemma vault_appended fs path entry t c :
  vault fs → text_at fs path t c → utf8 c = true → t ≠ note → utf8 entry = true →
  vault (appended path marker entry fs).
Proof.
  intros Hv Ht Hu Hn He. unfold appended. pose proof Ht as Hr. unfold text_at in Hr. rewrite Hr.
  destruct (contains marker c); [done|].
  apply (vault_insert fs t c); [done|right; by eapply text_lookup|by apply utf8_app|done].
Qed.

(** What a delivery leaves when nothing fails. *)
Definition with_index (fs : files) : files := appended index marker (index_entry id) (noted note body fs).
Definition delivered (fs : files) : files := appended log marker (log_entry id delivered_on) (with_index fs).

(** The program, as its parts in order. *)
Definition logging (_ : unit) : cprog files (outcome DesktopError string) := cgive receipt.
Definition indexing (_ : unit) : cprog files (outcome DesktopError string) :=
  cbind (append_once own put log marker (log_entry id delivered_on)) (rest logging).
Definition noting (_ : unit) : cprog files (outcome DesktopError string) :=
  cbind (append_once own put index marker (index_entry id)) (rest indexing).

Lemma delivery_parts :
  canonicalize root = Some real → canonicalize (join real "40-輸出成果") = Some out →
  delivery = CAct (Local (λ _ fs, (is_file fs (join real "AGENTS.md") && is_file fs index
                                   && is_file fs log && below real out, fs)))
    (λ valid, if negb valid then craise (Told "BASTET_MIND_ROOT is not a valid BastetMind vault") else
     cbind (write_note own put note body) (rest noting)).
Proof.
  intros Hr Ho. unfold deliver_bastet_mind, require. rewrite Hr. cbn [ok_or clift].
  unfold clift, base.mbind, ctask_bind. cbn [cbind]. rewrite Ho. reflexivity.
Qed.

Lemma is_file_text fs path t c : text_at fs path t c → is_file fs path = true.
Proof. unfold is_file, text_at. by intros ->. Qed.

Lemma delivery_interrupted n fs :
  vault fs →
  (∃ x, n < 9 ∧ (x ∈ [fs; noted note body fs; with_index fs; delivered fs] ∨ x ∈ torn note fs) ∧
     run_files n delivery fs = (None, x)) ∨
  run_files n delivery fs = (Some (Ok receipt), delivered fs).
Proof.
  intros Hv. pose proof (vault_noted _ Hv) as Hv1.
  destruct (va_index _ Hv1) as (ti & ci & Hi & Hui & Hni).
  pose proof (vault_appended _ _ (index_entry id) _ _ Hv1 Hi Hui Hni Hindex) as Hv2.
  fold (with_index fs) in Hv2. destruct (va_log _ Hv2) as (tl & cl & Hl & Hul & Hnl).
  destruct Hv as [Hr Ho Hb (ta & ca & Ha) (ti0 & ci0 & Hi0 & _) (tl0 & cl0 & Hl0 & _) Hn].
  rewrite (delivery_parts Hr Ho).
  destruct n as [|n]; [left; exists fs; split; [lia|split; [left; left|done]]|]. cbn [run_files].
  rewrite (is_file_text _ _ _ _ Ha), (is_file_text _ _ _ _ Hi0), (is_file_text _ _ _ _ Hl0), Hb. cbn [negb andb].
  destruct (note_interrupted note body n noting fs Hn Hbody) as [(x & Hx & Hin & ->)|(m & Hm & ->)].
  { left. exists x. split; [lia|]. split; [|done]. rewrite elem_of_cons in Hin. destruct Hin as [->|Hin]; [left; left|by right]. }
  destruct (append_interrupted index marker (index_entry id) _ _ m indexing _ Hi Hui)
    as [(x & Hx & Hin & Hrun)|(m' & Hm' & Hrun)]; unfold noting; rewrite Hrun.
  { left. exists x. split; [lia|]. split; [|done]. apply list_elem_of_singleton in Hin as ->. left; right; left. }
  destruct (append_interrupted log marker (log_entry id delivered_on) _ _ m' logging _ Hl Hul)
    as [(x & Hx & Hin & Hrun')|(m'' & Hm'' & Hrun')]; unfold indexing; fold (with_index fs); rewrite Hrun'.
  { left. exists x. split; [lia|]. split; [|done]. apply list_elem_of_singleton in Hin as ->. left; right; right; left. }
  right. by destruct m''.
Qed.

Lemma delivery_completes n fs :
  vault fs → 9 ≤ n → run_files n delivery fs = (Some (Ok receipt), delivered fs).
Proof. intros Hv Hn. destruct (delivery_interrupted n fs Hv) as [(x & Hx & _)|]; [lia|done]. Qed.

(** *** Again *)

Lemma index_entry_marked : contains marker (index_entry id) = true.
Proof. unfold index_entry. do 4 apply contains_later. apply contains_prefix, prefix_refl_app. Qed.
Lemma log_entry_marked : contains marker (log_entry id delivered_on) = true.
Proof. unfold log_entry. do 10 apply contains_later. apply contains_prefix, prefix_refl_app. Qed.

Lemma appended_done fs path entry t c :
  text_at fs path t c → contains marker c = true → appended path marker entry fs = fs.
Proof. unfold appended, text_at. by intros -> ->. Qed.

(** Appending keeps the marks there are, and leaves its own. *)
Lemma appended_keeps fs path entry t c path' t' c' :
  text_at fs path t c → text_at fs path' t' c' → contains marker entry = true →
  ∃ c'', text_at (appended path marker entry fs) path' t' c'' ∧
    (contains marker c' = true ∨ path' = path → contains marker c'' = true).
Proof.
  intros Ht Ht' He. unfold appended. pose proof Ht as Hr. unfold text_at in Hr. rewrite Hr.
  destruct (contains marker c) eqn:Ec.
  { exists c'. split; [done|]. intros [?| ->]; [done|]. unfold text_at in Ht'. congruence. }
  eexists. split; [eapply text_insert; [exact Ht'|right; by eapply text_lookup]|].
  destruct (decide (t' = t)) as [->|Hn]; [by intros _; apply contains_later|].
  intros [?| ->]; [done|]. unfold text_at in Ht'. congruence.
Qed.

Lemma appended_note fs path entry t c :
  text_at fs path t c → t ≠ note → appended path marker entry fs !! note = fs !! note.
Proof.
  intros Ht Hn. unfold appended. pose proof Ht as Hr. unfold text_at in Hr. rewrite Hr.
  destruct (contains marker c); [done|]. by rewrite lookup_insert_ne.
Qed.
Lemma noted_filled fs : is_Some (fs !! note) → noted note body fs = fs.
Proof. unfold noted. by intros [e ->]. Qed.
Lemma noted_present fs : is_Some (noted note body fs !! note).
Proof. unfold noted. destruct (fs !! note) eqn:E; [by rewrite E|]. rewrite lookup_insert_eq. eauto. Qed.

Lemma delivered_again fs x :
  vault fs → x ∈ [fs; noted note body fs; with_index fs; delivered fs] →
  vault x ∧ delivered x = delivered fs.
Proof.
  intros Hv Hx. pose proof (vault_noted _ Hv) as Hv1.
  destruct (va_index _ Hv1) as (ti & ci & Hi & Hui & Hni).
  destruct (va_log _ Hv1) as (tl & cl & Hl & _ & _).
  pose proof (vault_appended _ _ (index_entry id) _ _ Hv1 Hi Hui Hni Hindex) as Hv2.
  destruct (appended_keeps _ _ _ _ _ _ _ _ Hi Hi index_entry_marked) as (ci2 & Hi2 & Hci2).
  specialize (Hci2 (or_intror eq_refl)). fold (with_index fs) in Hv2, Hi2.
  destruct (va_log _ Hv2) as (tl2 & cl2 & Hl2 & Hul2 & Hnl2).
  pose proof (vault_appended _ _ (log_entry id delivered_on) _ _ Hv2 Hl2 Hul2 Hnl2 Hlog) as Hv3.
  destruct (appended_keeps _ _ _ _ _ _ _ _ Hl2 Hi2 log_entry_marked) as (ci3 & Hi3 & Hci3).
  specialize (Hci3 (or_introl Hci2)).
  destruct (appended_keeps _ _ _ _ _ _ _ _ Hl2 Hl2 log_entry_marked) as (cl3 & Hl3 & Hcl3).
  specialize (Hcl3 (or_intror eq_refl)). fold (delivered fs) in Hv3, Hi3, Hl3.
  assert (Hn1 : with_index fs !! note = noted note body fs !! note) by (by eapply appended_note).
  assert (Hn2 : delivered fs !! note = with_index fs !! note) by (by eapply appended_note).
  pose proof (noted_present fs) as Hn. rewrite !elem_of_cons, elem_of_nil in Hx.
  destruct Hx as [->|[->|[->|[->|[]]]]]; (split; [done|]).
  - done.
  - unfold delivered at 1, with_index at 1. by rewrite (noted_filled (noted _ _ _)).
  - unfold delivered at 1, with_index at 1. rewrite (noted_filled (with_index fs)) by (by rewrite Hn1).
    by rewrite (appended_done _ _ _ _ _ Hi2 Hci2).
  - unfold delivered at 1, with_index at 1. rewrite (noted_filled (delivered fs)) by (by rewrite Hn2, Hn1).
    rewrite (appended_done _ _ _ _ _ Hi3 Hci3). by rewrite (appended_done _ _ _ _ _ Hl3 Hcl3).
Qed.

(** Between the creation of the note and its writing there is no way back. *)
Lemma delivery_torn n fs :
  vault fs → fs !! note = None → body ≠ "" → 3 ≤ n →
  run_files n delivery (<[note := Regular ""]> fs) =
    (Some (Err (Told "BastetMind delivery path conflicts with different content")),
     <[note := Regular ""]> fs).
Proof.
  intros [Hr Ho Hb (ta & ca & Ha) (ti & ci & Hi & _) (tl & cl & Hl & _) _] Hn Hne Hlen.
  rewrite (delivery_parts Hr Ho). destruct n as [|n]; [lia|]. cbn [run_files].
  assert (Hins : fs !! note = None ∨ fs !! note = Some (Regular "")) by by left.
  assert (Hfile : ∀ path t c, text_at fs path t c → is_file (<[note := Regular ""]> fs) path = true).
  { intros path t c Ht. eapply is_file_text, text_insert; [exact Ht|exact Hins]. }
  rewrite (Hfile _ _ _ Ha), (Hfile _ _ _ Hi), (Hfile _ _ _ Hl), Hb. cbn [negb andb].
  destruct n as [|[|n]]; [lia..|]. apply (note_torn note body n noting); [|done].
  by rewrite lookup_insert_eq.
Qed.

End deliveries.

(** ** Restarts

    The desktop offers to restart an execution that lacks an output by a test of
    its own on the executions that it was sent; the daemon decides by another. *)
Section restarts.
Context `{Digest}.

Definition restart_of (id : GraphRunId) (next : GraphExecution) : bool :=
  bool_decide (next.(ge_restarted_from_execution_id) = Some id).

(** The two tests agree on an execution that validates. *)
Lemma offered_is_accepted executions e id :
  valid_exec e →
  needs_output_recovery executions e =
    is_ok (restart_as e id) && negb (existsb (restart_of (ge_id e)) executions).
Proof.
  intros He. unfold needs_output_recovery, restart_as, start. f_equal.
  rewrite (proj2 (validate_execution_ok e) He), (proj2 (validate_graph_ok _) (ve_graph _ He)). cbn [obind].
  assert (Hs : existsb (λ n, negb (in_state Succeeded n)) (ge_nodes e) =
               negb (forallb (in_state Succeeded) (ge_nodes e))).
  { induction (ge_nodes e) as [|n l IH]; cbn; [done|]. rewrite IH. by destruct (in_state _ n). }
  assert (Hm : existsb (λ n, bool_decide (find_output e (ne_node_id n) = None)) (ge_nodes e) =
               negb (forallb (λ n, bool_decide (is_Some (find_output e (ne_node_id n)))) (ge_nodes e))).
  { clear Hs. induction (ge_nodes e) as [|n l IH]; cbn; [done|]. rewrite IH.
    by destruct (find_output e (ne_node_id n)). }
  rewrite Hs, Hm. by destruct (forallb (in_state _) _), (forallb _ (ge_nodes e)).
Qed.

Context `{Environment} `{Serializer} `{Formats} `{CredentialReader}.

Lemma stored_well_formed is_dir b : stored is_dir b → well_formed (database b).
Proof.
  intros (id & t & Hs)%stored_steps. eapply well_formed_steps; [exact Hs|]. apply well_formed_empty.
Qed.

(** The executions that are told are those stored, at their revisions. *)
Lemma told_executions d executions e :
  well_formed d → load_graph_executions d = Ok executions → e ∈ executions →
  ∃ row, d_graphs d !! ge_id e = Some row ∧ gw_execution row = Text e ∧
    gw_revision row = ge_revision e ∧ valid_exec e ∧ sound_graph d e = Ok tt.
Proof.
  intros Hd Hl He. unfold load_graph_executions in Hl. apply map_try_ok in Hl.
  apply list_elem_of_lookup in He as [i Hi].
  destruct (Forall2_lookup_r _ _ _ _ _ Hl Hi) as ([id row] & Hrow & Hf). cbn in Hf.
  assert (Hin : d_graphs d !! id = Some row).
  { apply elem_of_map_to_list. rewrite <- (merge_sort_Permutation row_before). by eapply list_elem_of_lookup_2. }
  destruct (wf_graphs _ Hd _ _ Hin) as (e' & Ht & <- & Hr & Hv). rewrite Ht in Hf. cbn in Hf. ok_inv.
  exists row. split_and!; try done. unfold sound_graph.
  rewrite (proj2 (validate_execution_ok _) Hv). cbn.
  by match goal with E : validate_graph_output_ledger _ _ = Ok ?u |- _ => destruct u end.
Qed.

(** Errors that are not about the execution. *)
Definition elsewhere (error : StoreError) : Prop :=
  match error with InvalidGraph _ | GraphNotFound | RevisionConflict _ _ => False | _ => True end.

Lemma expected d e row :
  d_graphs d !! ge_id e = Some row → gw_execution row = Text e → gw_revision row = ge_revision e →
  expect_graph d (ge_id e) (ge_revision e) = Ok e.
Proof. intros Hr Ht He. unfold expect_graph. rewrite Hr. cbn. by rewrite He, bool_decide_true, Ht. Qed.

(** One step of a method whose errors are those of the predicate. *)
Lemma ends_next {A B} P (m : M A) (k : A → M B) d :
  ends P m d → (∀ a d', ends P (k a) d') → ends P (mbind m k) d.
Proof. intros Hm Hk. apply ends_bind; [done|]. intros w a w' _ _. apply Hk. Qed.

Lemma elsewhere_timestamp d : ends elsewhere timestamp d.
Proof. apply ends_next; [by intros ? _|]. intros t d'. by destruct (_ <? _)%Z. Qed.
Lemma elsewhere_insert_event ty p d : ends elsewhere (insert_event ty p) d.
Proof.
  apply ends_next; [by intros ? _|]. intros id d1. apply ends_next; [apply elsewhere_timestamp|].
  by intros t d2 w _.
Qed.
Lemma elsewhere_insert_graph e t d : ends elsewhere (insert_graph e t) d.
Proof.
  apply ends_next; [|intros [] d'; by intros ? _].
  apply ends_next; [unfold sql_u64; by destruct (_ <? _)%Z|]. intros _ d1 w _. cbn.
  by case_bool_decide.
Qed.

Lemma ends_known {A B} P (o : outcome StoreError A) a (k : A → M B) d :
  o = Ok a → ends P (k a) d → ends P (mbind (lift o) k) d.
Proof. intros -> Hk w Hw. by apply (Hk w). Qed.
Lemma ends_get {B} P (k : db → M B) d : ends P (k d) d → ends P (mbind Store.get k) d.
Proof. intros Hk w <-. by apply Hk. Qed.

(** A restart that is offered is not refused for the execution's sake. *)
Lemma restart_offered d executions e :
  well_formed d → load_graph_executions d = Ok executions → e ∈ executions →
  needs_output_recovery executions e = true →
  ends elsewhere (restart_missing_output_graph (ge_id e) (ge_revision e)) d.
Proof.
  intros Hd Hl He Hn. destruct (told_executions _ _ _ Hd Hl He) as (row & Hr & Ht & Hrev & Hv & Hs).
  unfold restart_missing_output_graph. apply ends_transact; [exact I..|]. apply ends_get.
  eapply ends_known; [by eapply expected|]. eapply ends_known; [exact Hs|].
  eapply ends_known; [exact Hl|].
  destruct (List.find _ executions) as [next|]; [by intros ? _|].
  apply ends_next; [by destruct (ct_catalog _)|]. intros m3 d1.
  apply ends_next; [apply ends_lift; by destruct (find_by _ _ _)|]. intros baseline d2.
  destruct (_ || _); [by apply ends_throw|]. apply ends_next; [by intros ? _|]. intros id d3.
  rewrite (offered_is_accepted executions e id Hv) in Hn.
  destruct (restart_as e id) as [restarted|g| |] eqn:E; try done.
  apply ends_next; [by intros ? _|]. intros ? d4.
  apply ends_next; [apply elsewhere_timestamp|]. intros now d5.
  apply ends_next; [apply elsewhere_insert_graph|]. intros ? d6.
  apply ends_next; [apply elsewhere_insert_event|]. by intros ? ? ? _.
Qed.

(** One that is not offered makes nothing new. *)
Lemma restart_not_offered d executions e w receipt w' :
  well_formed d → load_graph_executions d = Ok executions → e ∈ executions →
  needs_output_recovery executions e = false → w_db w = d →
  restart_missing_output_graph (ge_id e) (ge_revision e) w = (Ok receipt, w') →
  w_db w' = d ∧ ∃ next, next ∈ executions ∧ restart_of (ge_id e) next = true ∧
    ger_execution_id receipt = ge_id next ∧ ger_revision receipt = ge_revision next.
Proof.
  intros Hd Hl He Hn Hw. destruct (told_executions _ _ _ Hd Hl He) as (row & Hr & Ht & Hrev & Hv & Hs).
  intros E. eapply (transact_wp _ (λ receipt d', d' = d ∧ ∃ next, next ∈ executions ∧
    restart_of (ge_id e) next = true ∧ ger_execution_id receipt = ge_id next ∧
    ger_revision receipt = ge_revision next)); [|exact E].
  rewrite Hw. apply wp_bind, wp_get, wp_bind, wp_lift. rewrite (expected _ _ _ Hr Ht Hrev).
  intros ? [= <-]. apply wp_bind, wp_lift. intros _ _. apply wp_bind, wp_lift. rewrite Hl.
  intros ? [= <-]. change (λ next, bool_decide (ge_restarted_from_execution_id next = _))
    with (restart_of (ge_id e)).
  destruct (List.find (restart_of (ge_id e)) executions) as [next|] eqn:Ef.
  { apply wp_ret. split; [done|]. apply find_some in Ef as [Hin Hnext]. exists next.
    split_and!; try done. by apply list_elem_of_In. }
  apply wp_bind, wp_parse. intros m3 _. apply wp_bind, wp_required. intros baseline _.
  apply wp_reject. intros _. apply wp_bind, wp_new_id. intros id. apply wp_bind, wp_try.
  intros restarted Hre. rewrite (offered_is_accepted executions e id Hv), Hre in Hn. cbn in Hn.
  apply negb_false_iff, existsb_exists in Hn as (next & Hin & Hnext).
  exfalso. eapply find_none in Ef; [|exact Hin]. congruence.
Qed.

End restarts.
