(* ===== verification/Application.v ===== *)
(** * The desktop and the daemon together

    The threads of the desktop application (Desktop.v) and of the daemon
    (Daemon.v, Routes.v) in every interleaving.  A request becomes a thread of the
    daemon; its response may be lost, late or damaged, and the daemon may crash
    and be started again.  Other clients of the daemon make requests of their own.

    In every run the daemon's side is a run of the daemon; the application has at
    most one child at work; and it leaves only after the daemon has recorded a
    shutdown. *)
From stdpp Require Import relations.
From S2P Require Import Prelude Policy Identity Catalog Office Meeting Deliverable Approval Graph Execution.
From S2P Require Import M3 Mvp Protocol Adapter Store Launch StagedLaunches GraphStore FinishRun.
From S2P Require Import CatalogStore CredentialGrants Dispatch DaemonStore StoreReachable StoreFacts StoreEffects.
From S2P Require Import Daemon Executor Routes DaemonFacts ExecutorFacts Http Client ClientFacts.
From S2P Require Import Delivery Projection Desktop.

(** ** The programs that the application begins *)

Section programs.
Context `{!AgentMemory} `{Serde} `{Formats} `{Digest} `{Json}.
Context (sv : supervisor) (exit_text : Z → string) (client : DaemonClient)
  (canonicalize : string → option string).
Notation task := (ctask desktop DesktopError).

Definition run_to_end {A} (m : task A) : task unit := m ;; cgive tt.

(** The handlers that [run] registers, the loop of the supervisor and what the
    system and the menus begin. *)
Inductive app_begins : task unit → Prop :=
| begins_supervise rounds : app_begins (supervise sv exit_text client rounds)
| begins_quit : app_begins (request_checkpointed_exit client)
| begins_exit_requested : app_begins (run_to_end (exit_requested client))
| begins_resume : app_begins (request_resume client)
| begins_suspend : app_begins (request_suspend client)
| begins_snapshot : app_begins (run_to_end (daemon_snapshot sv exit_text client))
| begins_work : app_begins (run_to_end (work_projection client))
| begins_m3 : app_begins (run_to_end (m3_projection client))
| begins_run_ready : app_begins (run_to_end (run_ready_mvp_nodes client))
| begins_retry_outputs : app_begins (retry_missing_graph_outputs client)
| begins_retry_node execution node : app_begins (retry_failed_mvp_node client execution node)
| begins_prepare a b c d : app_begins (run_to_end (desktop_prepare_mvp client a b c d))
| begins_decision a b c : app_begins (run_to_end (desktop_accept_decision client a b c))
| begins_document a b c : app_begins (run_to_end (desktop_create_document client a b c))
| begins_export a b : app_begins (run_to_end (export_mvp_document client canonicalize a b))
| begins_accept_document a b c d : app_begins (run_to_end (desktop_accept_document client a b c d))
| begins_prepare_delivery a b c d : app_begins (run_to_end (desktop_prepare_delivery client a b c d))
| begins_deliver vault tool a b :
    app_begins (run_to_end (deliver_knowledge client canonicalize vault tool a b))
| begins_apply_pet : app_begins (run_to_end (apply_builtin_pet client))
| begins_rollback_pet : app_begins (run_to_end (rollback_builtin_pet client))
| begins_cancel a b : app_begins (run_to_end (desktop_cancel_run client a b))
| begins_approvals : app_begins (run_to_end (approval_center_snapshot client))
| begins_decide a b c d e : app_begins (run_to_end (desktop_decide_approval client a b c d e))
| begins_sleep : app_begins (run_to_end (suspend_if_ready client))
| begins_wake : app_begins (run_to_end (resume_if_suspended client)).

End programs.

(** ** Steps *)

Section steps.
Context `{Environment} `{Digest} `{Serializer} `{Formats} `{CredentialReader} `{Json}.
Context `{!AgentMemory} `{Serde} `{!Axum} `{!ProviderRunner}.
Context (is_dir : string → bool) (fuel : nat).
Context (sv : supervisor) (exit_text : Z → string) (client : DaemonClient)
  (canonicalize : string → option string).

Notation program := (cprog desktop (outcome DesktopError unit)).

(** A thread of the desktop runs, or waits for the thread of the daemon that
    serves its request. *)
Inductive app_thread :=
| AtWork (p : program)
| Awaiting (r : request) (serving : nat) (k : answer → program).

Record application := {
  ap_system : system (R := outcome StoreError reply);
  ap_desktop : desktop;
  ap_threads : list app_thread;
}.

(** A daemon that starts again answers nothing of before. *)
Definition disconnected (t : app_thread) : app_thread :=
  match t with AtWork p => AtWork p | Awaiting _ _ k => AtWork (k NoAnswer) end.

Definition put_thread (i : nat) (t : app_thread) (a : application) : application :=
  {| ap_system := ap_system a; ap_desktop := ap_desktop a;
     ap_threads := <[i := t]> (ap_threads a) |}.
Definition set_system (s : system) (a : application) : application :=
  {| ap_system := s; ap_desktop := ap_desktop a; ap_threads := ap_threads a |}.
Definition set_desktop (d : desktop) (a : application) : application :=
  {| ap_system := ap_system a; ap_desktop := d; ap_threads := ap_threads a |}.

Inductive app_step (a : application) : application → Prop :=
| app_local i {A} (f : (nat → nat) → desktop → A * desktop) k system x d :
    ap_threads a !! i = Some (AtWork (CAct (Local f) k)) → f system (ap_desktop a) = (x, d) →
    app_step a (set_desktop d (put_thread i (AtWork (k x)) a))
| app_connect i k connected :
    ap_threads a !! i = Some (AtWork (CAct Connect k)) →
    app_step a (put_thread i (AtWork (k connected)) a)
| app_send i q k r :
    ap_threads a !! i = Some (AtWork (CAct (SendRequest q) k)) → dispatch q = inr r →
    app_step a (set_system {| sy_daemon := sy_daemon (ap_system a);
                              sy_threads := sy_threads (ap_system a) ++ [route is_dir fuel r] |}
                  (put_thread i (Awaiting r (length (sy_threads (ap_system a))) k) a))
| app_rejected i q k status frames :
    ap_threads a !! i = Some (AtWork (CAct (SendRequest q) k)) → dispatch q = inl status →
    app_step a (put_thread i (AtWork (k (Answered status frames))) a)
| app_unsent i q k lost :
    ap_threads a !! i = Some (AtWork (CAct (SendRequest q) k)) → lost = NoAnswer ∨ lost = Overdue →
    app_step a (put_thread i (AtWork (k lost)) a)
| app_answered i r j k result response frames :
    ap_threads a !! i = Some (Awaiting r j k) → sy_threads (ap_system a) !! j = Some (Ret result) →
    respond result = Some response →
    app_step a (put_thread i (AtWork (k (Answered (hr_status response) frames))) a)
| app_lost i r j k lost :
    ap_threads a !! i = Some (Awaiting r j k) → lost = NoAnswer ∨ lost = Overdue →
    app_step a (put_thread i (AtWork (k lost)) a)
| app_daemon s :
    daemon_step (daemon_worker fuel) (begins is_dir fuel) (ap_system a) s →
    app_step a (set_system s a)
| app_daemon_restart :
    app_step a
      {| ap_system := process_on
           (run_op is_dir OpRecover (reopened (dm_broker (sy_daemon (ap_system a))))).2;
         ap_desktop := ap_desktop a; ap_threads := map disconnected (ap_threads a) |}
| app_begin p :
    app_begins sv exit_text client canonicalize p →
    app_step a {| ap_system := ap_system a; ap_desktop := ap_desktop a;
                  ap_threads := ap_threads a ++ [AtWork p] |}
| app_child_exits i status :
    ds_processes (ap_desktop a) !! i = Some None →
    app_step a (set_desktop (set_processes (<[i := Some status]> (ds_processes (ap_desktop a)))
                               (ap_desktop a)) a).

Definition fresh_desktop (fs : files) (m : memory) : desktop :=
  {| ds_child := None; ds_processes := []; ds_shutting_down := false; ds_exit_authorized := false;
     ds_exit_code := None; ds_emitted := []; ds_files := fs; ds_memory := m |}.

(** The application since it was started, beside a daemon that may be at work;
    [start] is the database then. *)
Inductive app_running (start : db) : application → Prop :=
| app_started s fs m :
    running is_dir fuel s → start = database (dm_broker (sy_daemon s)) →
    app_running start {| ap_system := s; ap_desktop := fresh_desktop fs m; ap_threads := [] |}
| app_stepped a a' : app_running start a → app_step a a' → app_running start a'.

End steps.

(** ** Local accesses *)

(** The accesses of a program to what the desktop's threads share. *)
Fixpoint locally `{Serde} {D} (P : ∀ B, ((nat → nat) → D → B * D) → Prop) {A} (p : cprog D A) : Prop :=
  match p with
  | CRet _ => True
  | @CAct _ _ _ B e k =>
      match e in access _ B with Local f => P _ f | _ => True end ∧ ∀ b, locally P (k b)
  end.

Section locally.
Context `{Serde} {D : Type} (P : ∀ B, ((nat → nat) → D → B * D) → Prop).

Lemma locally_cbind {A B} (p : cprog D A) (k : A → cprog D B) :
  locally P p → (∀ a, locally P (k a)) → locally P (cbind p k).
Proof. intros Hp Hk. induction p as [a|B' e c IH]; cbn in *; [apply Hk|]. destruct Hp. auto. Qed.
Lemma locally_bind {E A B} (m : ctask D E A) (k : A → ctask D E B) :
  locally P m → (∀ a, locally P (k a)) → locally P (m ≫= k).
Proof. intros Hm Hk. apply locally_cbind; [done|]. intros []; [apply Hk|done..]. Qed.
Lemma locally_con_err {E F A} (f : E → F) (m : ctask D E A) : locally P m → locally P (con_err f m).
Proof. intros Hm. by apply locally_cbind. Qed.
Lemma locally_cresult {E F A} (m : ctask D E A) : locally P m → locally P (cresult_of m : ctask D F _).
Proof. intros Hm. apply locally_cbind; [done|]. by intros []. Qed.
Lemma locally_local {B} (f : (nat → nat) → D → B * D) {A} (k : B → cprog D A) :
  P _ f → (∀ b, locally P (k b)) → locally P (CAct (Local f) k).
Proof. by split. Qed.

(** A call of the daemon accesses nothing of the desktop. *)
Lemma locally_receive k r : locally P (receive k r).
Proof.
  unfold receive, send. apply locally_bind.
  - apply locally_bind; [done|intros body]. apply locally_con_err. unfold transport_send.
    apply locally_bind; [by split|intros []; try done]. apply locally_bind; [done|intros path].
    apply locally_bind; [by split|intros []; try done]. apply locally_bind; by intros.
  - intros response. repeat (apply locally_bind; [done|intros ?]). done.
Qed.
End locally.

(** Walks through a program of the desktop, up to the local accesses. *)
Ltac walk_app :=
  repeat first
    [ progress cbn beta iota
    | lazymatch goal with
      | |- locally _ (receive _ _) => apply locally_receive
      | |- locally _ (CRet _) => exact I
      | |- locally _ (cgive _) => exact I
      | |- locally _ (craise _) => exact I
      | |- locally _ (clift _) => exact I
      | |- locally _ (con_err _ _) => apply locally_con_err
      | |- locally _ (cresult_of _) => apply locally_cresult
      | |- locally _ (told _) => apply locally_con_err
      | |- locally _ (require _) => exact I
      | |- locally _ (cperform (Local _)) => apply locally_local; [|by intros]
      | |- locally _ (CAct (Local _) _) => apply locally_local; [|by intros]
      | |- locally _ (if ?b then _ else _) => destruct b
      | |- locally _ (match ?x with _ => _ end) => destruct x
      | |- locally _ (@base.mbind _ _ _ _ _ _) => apply locally_bind; [|intros ?]
      | |- locally _ (cbind _ _) => apply locally_cbind; [|intros ?]
      end ];
  try (apply locally_receive; fail).

Section programs.
Context `{!AgentMemory} `{Serde} `{Formats} `{Digest} `{Json}.
Context (sv : supervisor) (exit_text : Z → string) (client : DaemonClient)
  (canonicalize : string → option string).

(** ** One child *)

(** A process that is at work is the child. *)
Definition supervised (d : desktop) : Prop :=
  ∀ i, ds_processes d !! i = Some None → ds_child d = Some i.

Definition tidy (B : Type) (f : (nat → nat) → desktop → B * desktop) : Prop :=
  ∀ system d, supervised d → supervised (f system d).2.

(** What tells that the application may leave. *)
Definition leaving (d : desktop) : bool * option Z := (ds_exit_authorized d, ds_exit_code d).
Definition quiet (B : Type) (f : (nat → nat) → desktop → B * desktop) : Prop :=
  ∀ system d, leaving (f system d).2 = leaving d.

Definition calm (B : Type) (f : (nat → nat) → desktop → B * desktop) : Prop := tidy B f ∧ quiet B f.

Lemma calm_same {B} (f : (nat → nat) → desktop → B * desktop) :
  (∀ system d, ds_child (f system d).2 = ds_child d ∧ ds_processes (f system d).2 = ds_processes d ∧
     leaving (f system d).2 = leaving d) → calm B f.
Proof.
  intros Hf. split; intros system d; destruct (Hf system d) as (Hc & Hp & Hl); [|done].
  intros Hd i. rewrite Hc, Hp. apply Hd.
Qed.

Lemma calm_exit_record : locally calm (record_previous_exit sv exit_text).
Proof.
  unfold record_previous_exit, local_try. walk_app. split; intros system d; unfold try_wait.
  - intros Hd. destruct (ds_child d) as [i|] eqn:Ec; [|done]. destruct (succeeds (system 0)); [|done].
    destruct (ds_processes d !! i) as [[status|]|] eqn:Ei; try done. cbn.
    destruct (succeeds (system 1)); [|done]. intros j Hj. cbn in Hj. pose proof (Hd j Hj). congruence.
  - destruct (ds_child d) as [i|]; [|done]. destruct (succeeds (system 0)); [|done].
    destruct (mjoin _); [|done]. by destruct (succeeds (system 1)).
Qed.

Lemma diagnostic_log_child path system d :
  ds_child (diagnostic_log path system d).2 = ds_child d ∧
  ds_processes (diagnostic_log path system d).2 = ds_processes d ∧
  leaving (diagnostic_log path system d).2 = leaving d.
Proof.
  unfold diagnostic_log. destruct (succeeds system); [|done]. cbn. by destruct (ds_files d !! path).
Qed.

Lemma calm_spawn : locally calm (spawn sv).
Proof.
  unfold spawn, local_try. walk_app.
  set (log name := diagnostic_log (join (sv_diagnostics_dir sv) name)).
  split; intros system d.
  - intros Hd. destruct (ds_child d) as [i|] eqn:Ec; [done|].
    destruct (diagnostic_log_child (join (sv_diagnostics_dir sv) "daemon.stdout.log") (system 0) d)
      as (Hc1 & Hp1 & _).
    destruct (diagnostic_log _ (system 0) d) as [out d1]. cbn in Hc1, Hp1.
    destruct (diagnostic_log_child (join (sv_diagnostics_dir sv) "daemon.stderr.log") (system 1) d1)
      as (Hc2 & Hp2 & _).
    destruct (diagnostic_log _ (system 1) d1) as [err d2]. cbn in Hc2, Hp2.
    assert (Hn : ∀ i, ds_processes d !! i ≠ Some None) by (intros i Hi; specialize (Hd i Hi); congruence).
    destruct (is_err out); cbn; [intros i; rewrite Hp1; intros Hi; by destruct (Hn i)|].
    destruct (is_err err); cbn; [intros i; rewrite Hp2, Hp1; intros Hi; by destruct (Hn i)|].
    destruct (succeeds (system 2)); cbn; intros i; cbn; [|rewrite Hp2, Hp1; intros Hi; by destruct (Hn i)].
    intros [Hi|[Hi Hs]]%lookup_app_Some.
    + rewrite Hp2, Hp1 in Hi. by destruct (Hn i).
    + apply list_lookup_singleton_Some in Hs as [Hs _]. f_equal. lia.
  - destruct (ds_child d); [done|].
    destruct (diagnostic_log_child (join (sv_diagnostics_dir sv) "daemon.stdout.log") (system 0) d)
      as (_ & _ & Hl1).
    destruct (diagnostic_log _ (system 0) d) as [out d1]. cbn in Hl1.
    destruct (diagnostic_log_child (join (sv_diagnostics_dir sv) "daemon.stderr.log") (system 1) d1)
      as (_ & _ & Hl2).
    destruct (diagnostic_log _ (system 1) d1) as [err d2]. cbn in Hl2.
    destruct (is_err out); cbn; [done|]. destruct (is_err err); cbn; [congruence|].
    destruct (succeeds (system 2)); unfold leaving in *; cbn; congruence.
Qed.

Ltac calm := apply calm_same; by intros.

Lemma calm_local {A} (f : desktop → A * desktop) :
  (∀ d, ds_child (f d).2 = ds_child d ∧ ds_processes (f d).2 = ds_processes d ∧
     leaving (f d).2 = leaving d) → locally calm (local f).
Proof. intros Hf. unfold local. walk_app. apply calm_same. intros _. apply Hf. Qed.
Lemma calm_emit event : locally calm (emit event).
Proof. by apply calm_local. Qed.
Lemma calm_is_shutting_down : locally calm is_shutting_down.
Proof. by apply calm_local. Qed.
Lemma calm_cancel : locally calm cancel_shutdown.
Proof. by apply calm_local. Qed.
Lemma calm_begin : locally calm begin_shutdown.
Proof. apply calm_local. intros d. by destruct (ds_shutting_down d). Qed.

Lemma calm_await_ready n : locally calm (await_ready client n).
Proof. induction n as [|n IH]; [done|]. cbn [await_ready]. by walk_app. Qed.
Lemma calm_ensure_running : locally calm (ensure_running sv exit_text client).
Proof.
  unfold ensure_running. walk_app;
    auto using calm_is_shutting_down, calm_exit_record, calm_spawn, calm_await_ready.
Qed.
Lemma calm_supervise n : locally calm (supervise sv exit_text client n).
Proof.
  induction n as [|n IH]; [done|]. cbn [supervise]. walk_app; auto using calm_ensure_running, calm_emit.
Qed.

(** *** Files and the memory *)

Lemma calm_on_files {A} (f : nat → files → A * files) :
  locally calm (on_files ds_files set_desktop_files f).
Proof.
  unfold on_files. walk_app. apply calm_same. intros system d. by destruct (f _ _).
Qed.
Lemma calm_see_files {A} (f : nat → files → A) : locally calm (see_files ds_files f).
Proof. unfold see_files. walk_app. by apply calm_same. Qed.
Lemma calm_run_tool arguments : locally calm (run_tool ds_memory set_desktop_memory arguments).
Proof.
  unfold run_tool. walk_app. apply calm_same. intros system d. by destruct (tool_run _ _ _).
Qed.

Lemma calm_append path marker content :
  locally calm (append_once ds_files set_desktop_files path marker content).
Proof. unfold append_once. walk_app; auto using calm_on_files, calm_see_files. Qed.
Lemma calm_note path body : locally calm (write_note ds_files set_desktop_files path body).
Proof. unfold write_note. walk_app; auto using calm_on_files, calm_see_files. Qed.
Lemma calm_vault root id preview date :
  locally calm (deliver_bastet_mind canonicalize ds_files set_desktop_files root id preview date).
Proof. unfold deliver_bastet_mind. walk_app; auto using calm_see_files, calm_note, calm_append. Qed.
Lemma calm_export root version :
  locally calm (export_document_file canonicalize ds_files set_desktop_files root version).
Proof. unfold export_document_file. walk_app; auto using calm_on_files, calm_see_files. Qed.
Lemma calm_memory id preview :
  locally calm (deliver_agent_memory_with ds_memory set_desktop_memory id preview).
Proof. unfold deliver_agent_memory_with. walk_app; auto using calm_run_tool. Qed.

(** *** Commands *)

Lemma calm_resume_if : locally calm (resume_if_suspended client).
Proof. unfold resume_if_suspended. walk_app. Qed.
Lemma calm_suspend_if : locally calm (suspend_if_ready client).
Proof. unfold suspend_if_ready. walk_app. Qed.
Lemma calm_m3 : locally calm (m3_projection client).
Proof. unfold m3_projection. walk_app. Qed.
Lemma calm_replace snapshot profiles : locally calm (replace_profiles client snapshot profiles).
Proof. unfold replace_profiles. walk_app. Qed.
Lemma calm_deliver vault tool id date :
  locally calm (deliver_knowledge client canonicalize vault tool id date).
Proof. unfold deliver_knowledge. walk_app; auto using calm_vault, calm_memory. Qed.

Lemma calm_to_end {A} (m : ctask desktop DesktopError A) : locally calm m → locally calm (run_to_end m).
Proof. intros Hm. unfold run_to_end. by walk_app. Qed.

(** Everything but quitting leaves the authorization to exit as it is. *)
Lemma calm_begins p :
  app_begins sv exit_text client canonicalize p →
  locally calm p ∨ p = request_checkpointed_exit client ∨ p = run_to_end (exit_requested client).
Proof.
  destruct 1; try (by auto); left; try apply calm_to_end.
  - apply calm_supervise.
  - unfold request_resume. walk_app; auto using calm_resume_if, calm_emit.
  - unfold request_suspend. walk_app; auto using calm_suspend_if, calm_emit.
  - unfold daemon_snapshot. walk_app; auto using calm_ensure_running.
  - unfold work_projection. walk_app.
  - apply calm_m3.
  - unfold run_ready_mvp_nodes. walk_app. apply calm_m3.
  - unfold retry_missing_graph_outputs. walk_app.
  - unfold retry_failed_mvp_node. walk_app.
  - unfold desktop_prepare_mvp. walk_app.
  - unfold desktop_accept_decision. walk_app.
  - unfold desktop_create_document. walk_app.
  - unfold export_mvp_document. walk_app. apply calm_export.
  - unfold desktop_accept_document. walk_app.
  - unfold desktop_prepare_delivery. walk_app.
  - apply calm_deliver.
  - unfold apply_builtin_pet. walk_app; auto using calm_replace, calm_m3.
  - unfold rollback_builtin_pet. walk_app; auto using calm_replace, calm_m3.
  - unfold desktop_cancel_run. walk_app.
  - unfold approval_center_snapshot. walk_app.
  - unfold desktop_decide_approval. walk_app.
  - apply calm_suspend_if.
  - apply calm_resume_if.
Qed.

End programs.

(** ** Quitting *)

Section quitting.
Context `{Serde} `{!Axum} `{Formats} `{!AxumLaws} `{!AgentMemory}.

(** The router answers by itself with the status it chose. *)
Definition may_answer (q : http_request) (a : answer) : Prop :=
  match dispatch q, a with inl s, Answered s' _ => s' = s | _, _ => True end.

(** The answer tells that a shutdown was accepted. *)
Definition acks (r : request) (a : answer) : bool :=
  match r, a with PostShutdown _, Answered status _ => is_success status | _, _ => false end.
Definition acked (q : http_request) (a : answer) : bool :=
  match dispatch q with inr r => acks r a | inl _ => false end.

(** Until it knows that a shutdown was accepted, the program leaves the
    authorization to exit as it is; it ends with [Q] of what it then knows. *)
Fixpoint secure {A} (Q : A → bool → Prop) (p : cprog desktop A) (known : bool) : Prop :=
  match p with
  | CRet a => Q a known
  | @CAct _ _ _ B e k =>
      match e in access _ B return (bool → B → Prop) → Prop with
      | Connect => λ K, ∀ c, K known c
      | SendRequest q => λ K, ∀ a, may_answer q a → K (known || acked q a) a
      | Local f => λ K, (known = false → quiet _ f) ∧ ∀ b, K known b
      end (λ known b, secure Q (k b) known)
  end.

Lemma secure_mono {A} (Q Q' : A → bool → Prop) p known :
  (∀ a known', (known = true → known' = true) → Q a known' → Q' a known') → secure Q p known → secure Q' p known.
Proof.
  revert known. induction p as [a|B e k IH]; intros known HQ; cbn.
  - by apply HQ.
  - destruct e as [|q|B' f]; cbn.
    + intros Hk c. by apply IH, Hk.
    + intros Hk a Ha. apply IH; [|by apply Hk]. intros x known' Hkn. apply HQ.
      intros ->. by apply Hkn.
    + intros [Hf Hk]. split; [done|]. intros b. by apply IH.
Qed.

Lemma secure_cbind {A B} (Q : B → bool → Prop) (p : cprog desktop A) (k : A → cprog desktop B) known :
  secure (λ a known, secure Q (k a) known) p known → secure Q (cbind p k) known.
Proof.
  revert known. induction p as [a|B' e c IH]; intros known; cbn; [done|].
  destruct e as [|q|B'' f]; cbn.
  - intros Hk x. by apply IH.
  - intros Hk a Ha. by apply IH, Hk.
  - intros [Hf Hk]. split; [done|]. intros b. by apply IH.
Qed.

Lemma secure_bind {E A B} (Q : outcome E B → bool → Prop) (m : ctask desktop E A)
    (k : A → ctask desktop E B) known :
  secure (λ r known, match r with
                     | Ok a => secure Q (k a) known
                     | Err e => Q (Err e) known
                     | Panic => Q Panic known
                     | Diverge => Q Diverge known
                     end) m known →
  secure Q (m ≫= k) known.
Proof. intros Hm. apply secure_cbind. eapply secure_mono; [|exact Hm]. by intros []. Qed.

(** A program that knows is secure, and so is one that is quiet. *)
Lemma secure_known {A} (p : cprog desktop A) : secure (λ _ _, True) p true.
Proof.
  induction p as [a|B e k IH]; cbn; [done|]. destruct e as [|q|B' f]; cbn; auto. by split.
Qed.
Lemma secure_calm {A} (p : cprog desktop A) known : locally calm p → secure (λ _ _, True) p known.
Proof.
  revert known. induction p as [a|B e k IH]; intros known; cbn; [done|]. intros [He Hk].
  destruct e as [|q|B' f]; cbn; auto. split; [by intros _; apply He|auto].
Qed.

Notation local_client := {| base_url := LOCAL_HTTP_ORIGIN |}.

Lemma shutdown_path : match_path templates "/v1/shutdown" = Some (25, []).
Proof. eapply route_only; [reflexivity|vm_compute; reflexivity|reflexivity]. Qed.

(** Only an accepted shutdown is answered with a success. *)
Lemma shutdown_acked q status frames :
  hq_method q = POST → hq_path q = "/v1/shutdown" → may_answer q (Answered status frames) →
  is_success status = true → acked q (Answered status frames) = true.
Proof.
  unfold may_answer, acked, dispatch. intros Hm Hp. rewrite Hp, shutdown_path, Hm. cbn.
  unfold json. destruct (json_body KCheckpointCommand q) as [c|]; cbn; [done|].
  intros ->. pose proof (rejection_is_client_error q). unfold is_success.
  intros [Hl Hu]%andb_true_iff. apply Z.ltb_lt in Hu. lia.
Qed.

Lemma secure_shutdown revision reason known :
  secure (λ r known, is_ok r = true → known = true) (Call.shutdown local_client revision reason) known.
Proof.
  unfold Call.shutdown, receive, send, with_json, transport_send. cbn.
  destruct (to_vec _ _) as [body|]; cbn; [|done]. intros []; cbn; try done.
  intros [status frames| |] Ha; cbn; try done.
  destruct (read_body [] frames) as [bytes|e| |]; cbn; try done.
  unfold error_for_status. cbn. destruct (is_success status) eqn:Es; cbn; [|done].
  assert (Hk : ∀ b, b || acked {| hq_method := POST; hq_path := "/v1/shutdown"; hq_query := ""; hq_body := body |}
                        (Answered status frames) = true).
  { intros b. apply orb_true_iff. right. by apply shutdown_acked. }
  destruct (read_json _ _); cbn; try done. destruct (require_protocol _); cbn; try done.
Qed.

(** The application is authorized to exit by an accepted shutdown only. *)
Lemma secure_quit known : secure (λ _ _, True) (request_checkpointed_exit local_client) known.
Proof.
  unfold request_checkpointed_exit. apply secure_bind.
  eapply secure_mono; [|apply (secure_calm begin_shutdown), calm_begin].
  intros [[|]|e| |] known1 _ _; try done. cbn [negb]. apply secure_bind.
  apply (secure_mono (λ r known, match r with Ok receipt => is_ok (receipt : outcome DesktopError _) = true → known = true | _ => True end)).
  - intros [[receipt|e| |]|e| |] known' _ Hk; try done; cbn [is_ok];
      [by rewrite Hk; [apply secure_known|]|..];
      apply secure_calm; walk_app; auto using calm_cancel, calm_emit.
  - unfold cresult_of. apply secure_cbind. unfold checkpoint_for_quit. apply secure_bind.
    unfold told. apply secure_cbind.
    eapply secure_mono; [|apply (secure_calm (Call.snapshot local_client)); walk_app].
    intros [snapshot|e| |] known2 _ _; cbn; try done. apply secure_cbind.
    eapply secure_mono; [|apply secure_shutdown]. by intros [receipt|e| |] known' _ Hk; cbn.
Qed.
End quitting.

Lemma locally_mono `{Serde} {D} (P P' : ∀ B, ((nat → nat) → D → B * D) → Prop) {A} (p : cprog D A) :
  (∀ B f, P B f → P' B f) → locally P p → locally P' p.
Proof.
  intros HP. induction p as [a|B e k IH]; cbn; [done|]. intros [He Hk]. split; [|auto].
  destruct e; auto.
Qed.

(** A request is of its type when its body was read. *)
Section dispatch.
Context `{Formats} `{Serde} `{!Axum} `{!AxumLaws}.

Lemma router_typed :
  Forall (λ e, ∀ m x args q r, on_method m e = Some x → x args q = Some r → typed r) router.
Proof.
  repeat constructor; intros m x args q r Hm Hx; destruct m; try discriminate Hm; injection Hm as <-;
    cbn in Hx; unfold plain, with_query, json, with_id, with_id_json in Hx;
    repeat match type of Hx with
           | context [path_id args] => destruct (path_id args); cbn in Hx; [|discriminate Hx]
           | context [json_body ?k q] => destruct (json_body k q) eqn:Hj; cbn in Hx; [|discriminate Hx]
           | context [query_u64 ?s] => destruct (query_u64 s); cbn in Hx; [|discriminate Hx]
           end;
    injection Hx as <-; try exact I.
  unfold json_body in Hj. destruct (_ <=? _)%Z; [|discriminate Hj]. by eapply limits_read.
Qed.

Lemma dispatch_typed q r : dispatch q = inr r → typed r.
Proof.
  unfold dispatch. destruct (match_path _ _) as [[i args]|]; [|done].
  destruct (router !! i ≫= on_method (hq_method q)) as [x|] eqn:Ex; [|done].
  apply bind_Some in Ex as (e & Hi & Hm). destruct (x args q) as [r'|] eqn:Er; [|done].
  intros [= <-]. exact (Forall_lookup_1 _ _ _ _ router_typed Hi _ _ _ _ _ Hm Er).
Qed.
End dispatch.

(** ** Runs *)

Section runs.
Context `{Environment} `{Digest} `{Serializer} `{Formats} `{CredentialReader} `{Json}.
Context `{!AgentMemory} `{Serde} `{!Axum} `{!AxumLaws} `{!ProviderRunner}.
Context (is_dir : string → bool) (fuel : nat).
Context (sv : supervisor) (exit_text : Z → string) (canonicalize : string → option string).
Context (Hrunner : ∀ receipt channel, only (calls_keep is_dir) (provider_run receipt channel)).

Notation local_client := {| base_url := LOCAL_HTTP_ORIGIN |}.
Notation step := (app_step is_dir fuel sv exit_text local_client canonicalize).
Notation app_runs := (app_running is_dir fuel sv exit_text local_client canonicalize).
Notation tables s := (database (dm_broker (sy_daemon s))).
Notation thread := (prog (outcome StoreError reply)).

(** *** A recorded shutdown *)

(** Since [start], a shutdown was recorded, with a checkpoint. *)
Definition shut_since (start d : db) : Prop :=
  ∃ i x e, length (d_checkpoints start) ≤ i ∧ d_checkpoints d !! i = Some x ∧ e ∈ d_events d ∧
    ee_sequence e = cw_event_sequence x ∧ ee_event_type e = "daemon.shutdown_requested".

Lemma shut_follows start d d' : follows d d' → shut_since start d → shut_since start d'.
Proof.
  intros Hf (i & x & e & Hi & Hx & He & Hs). exists i, x, e. split; [done|]. split.
  - by eapply prefix_lookup_Some, fo_checkpoints.
  - split; [|done]. destruct (fo_events _ _ Hf) as [rest ->]. apply elem_of_app. by left.
Qed.

Lemma shutdown_since start c b receipt b' :
  follows start (database b) → on_store (shutdown c) b = (Ok receipt, b') →
  shut_since start (database b').
Proof.
  intros Hf Hs. unfold on_store in Hs. destruct (shutdown c (bk_world b)) as [r w'] eqn:E.
  cbn in Hs. injection Hs as -> <-.
  apply shutdown_effect in E as (_ & _ & _ & _ & e & x & He & Hc & _ & Hx & _ & Ht).
  exists (length (d_checkpoints (database b))), x, e. unfold database in *. cbn in *. rewrite Hc, He.
  split; [by apply prefix_length, fo_checkpoints|]. split; [by rewrite list_lookup_middle|].
  split; [set_solver|done].
Qed.

(** How far a thread that serves a shutdown has come. *)
Definition serving (start : db) (c : CheckpointCommand) (p : thread) (d : db) : Prop :=
  p = route is_dir fuel (PostShutdown c) ∨ p = reply_with ReCheckpoint (store (shutdown c)) ∨
  ∃ result, p = Ret result ∧ (is_ok result = true → shut_since start d).
Definition tracked (start : db) (r : request) (p : thread) (d : db) : Prop :=
  match r with PostShutdown c => serving start c p d | _ => True end.

Lemma tracked_follows start r p d d' : follows d d' → tracked start r p d → tracked start r p d'.
Proof.
  intros Hf. destruct r; try done. intros [?|[?|(result & -> & Hs)]]; [by left|by right; left|].
  right. right. exists result. split; [done|]. intros Hr. by eapply shut_follows, Hs.
Qed.

Lemma serving_step start c p worker lucky d p' d' new :
  follows start (database (dm_broker d)) → serving start c p (database (dm_broker d)) →
  run_action worker lucky p d = (p', d', new) → serving start c p' (database (dm_broker d')).
Proof.
  intros Hstart Ht Hr. destruct Ht as [->|[->|(result & -> & Hs)]]; cbn in Hr.
  - injection Hr as <- <- <-. destruct (negb _).
    + right. right. eexists. split; [reflexivity|done].
    + right. by left.
  - destruct (shutdown c (bk_world (dm_broker d))) as [result w'] eqn:E. cbn in Hr.
    injection Hr as <- <- <-. right. right.
    destruct result as [receipt|e| |]; eexists; (split; [reflexivity|try done]).
    intros _. cbn. apply (shutdown_since start c (dm_broker d) receipt); [done|].
    unfold on_store. by rewrite E.
  - injection Hr as <- <- <-. right. right. eauto.
Qed.

(** *** The invariant *)

Definition thread_sound (start : db) (s : system) (t : app_thread) : Prop :=
  match t with
  | AtWork p => ∃ known, secure (λ _ _, True) p known ∧ (known = true → shut_since start (tables s))
  | Awaiting r j k => ∃ known p,
      (∀ a, secure (λ _ _, True) (k a) (known || acks r a)) ∧
      (known = true → shut_since start (tables s)) ∧
      sy_threads s !! j = Some p ∧ tracked start r p (tables s)
  end.
Definition thread_tidy (t : app_thread) : Prop :=
  match t with AtWork p => locally tidy p | Awaiting _ _ k => ∀ a, locally tidy (k a) end.

Record sound_application (start : db) (a : application) : Prop := {
  sa_running : running is_dir fuel (ap_system a);
  sa_follows : follows start (tables (ap_system a));
  sa_leaving : leaving (ap_desktop a) ≠ (false, None) → shut_since start (tables (ap_system a));
  sa_threads : Forall (thread_sound start (ap_system a)) (ap_threads a);
  sa_tidy : Forall thread_tidy (ap_threads a);
  sa_supervised : supervised (ap_desktop a);
}.

(** What a step of the daemon leaves of its threads and tables. *)
Definition advances (start : db) (s s' : system) : Prop :=
  follows (tables s) (tables s') ∧
  ∀ j p, sy_threads s !! j = Some p → ∃ p', sy_threads s' !! j = Some p' ∧
    ∀ r, tracked start r p (tables s) → tracked start r p' (tables s').

Lemma thread_advances start s s' t :
  advances start s s' → thread_sound start s t → thread_sound start s' t.
Proof.
  intros [Hf Ht]. destruct t as [p|r j k]; cbn.
  - intros (known & Hp & Hk). exists known. split; [done|]. intros E. by eapply shut_follows, Hk.
  - intros (known & p & Hp & Hk & Hj & Htr). destruct (Ht _ _ Hj) as (p' & Hj' & Hp'). exists known, p'.
    split_and!; [done| |done|by apply Hp']. intros E. by eapply shut_follows, Hk.
Qed.

Lemma advances_arrival start s p :
  advances start s {| sy_daemon := sy_daemon s; sy_threads := sy_threads s ++ [p] |}.
Proof.
  split; [apply follows_refl|]. intros j q Hj. exists q. split; [by apply lookup_app_l_Some|done].
Qed.

Lemma advances_step start s s' :
  running is_dir fuel s → follows start (tables s) →
  daemon_step (daemon_worker fuel) (begins is_dir fuel) s s' → advances start s s'.
Proof.
  intros Hs Hf Hstep. split; [by eapply step_follows|].
  assert (Hfs : follows (tables s) (tables s')) by by eapply step_follows.
  inversion Hstep as [i p lucky p' d new Hi Hr|p Hp]; subst; [|apply (advances_arrival start s p)].
  cbn. intros j q Hj. destruct (decide (i = j)) as [->|Hn].
  - assert (q = p) as -> by congruence. exists p'. split.
    + apply lookup_app_l_Some. apply list_lookup_insert_eq. by eapply lookup_lt_Some.
    + intros r Ht. destruct r; try done. by eapply serving_step.
  - exists q. split; [apply lookup_app_l_Some; by rewrite list_lookup_insert_ne|].
    intros r. by apply tracked_follows.
Qed.

(** A step of one thread of the desktop, which leaves the daemon as it is. *)
Lemma sound_thread start a i t d :
  sound_application start a → thread_sound start (ap_system a) t → thread_tidy t →
  supervised d → (leaving d ≠ (false, None) → shut_since start (tables (ap_system a))) →
  sound_application start (set_desktop d (put_thread i t a)).
Proof.
  intros [] Ht Htidy Hd Hl. split; cbn; try done; by apply Forall_insert.
Qed.

Lemma sound_continue start a i p :
  sound_application start a → thread_sound start (ap_system a) (AtWork p) → locally tidy p →
  sound_application start (put_thread i (AtWork p) a).
Proof. intros [] Ht Htidy. split; cbn; try done; by apply Forall_insert. Qed.

Lemma sound_system start a s :
  sound_application start a → running is_dir fuel s → advances start (ap_system a) s →
  sound_application start (set_system s a).
Proof.
  intros [Hr Hf Hl Ht Hty Hsv] Hs Ha. split; cbn; try done.
  - eapply follows_trans; [exact Hf|apply Ha].
  - intros Hd. eapply shut_follows; [apply Ha|auto].
  - eapply Forall_impl; [exact Ht|]. intros t. by apply thread_advances.
Qed.

Lemma tidy_begins p :
  app_begins sv exit_text local_client canonicalize p → locally tidy p.
Proof.
  assert (Hq : locally tidy (request_checkpointed_exit local_client)).
  { unfold request_checkpointed_exit. walk_app.
    - eapply locally_mono; [|apply calm_begin]. by intros B f [].
    - unfold checkpoint_for_quit. walk_app.
    - eapply locally_mono; [|apply calm_emit]. by intros B f [].
    - unfold authorize_exit, local. walk_app. by intros system d.
    - unfold local. walk_app. by intros system d.
    - eapply locally_mono; [|apply calm_cancel]. by intros B f [].
    - eapply locally_mono; [|apply calm_emit]. by intros B f []. }
  intros [Hc|[->| ->]]%calm_begins; [|done|].
  - eapply locally_mono; [|exact Hc]. by intros B f [].
  - unfold run_to_end, exit_requested, exit_authorized, local. walk_app; [by intros system d|exact Hq].
Qed.

Lemma secure_begins p :
  app_begins sv exit_text local_client canonicalize p → secure (λ _ _, True) p false.
Proof.
  intros [Hc|[->| ->]]%calm_begins; [by apply secure_calm|apply secure_quit|].
  unfold run_to_end, exit_requested. apply secure_bind, secure_bind. cbn [exit_authorized].
  eapply secure_mono; [|apply (secure_calm exit_authorized); by apply calm_local].
  intros [[|]|e| |] known _ _; try done. apply secure_bind.
  eapply secure_mono; [|apply secure_quit]. by intros [].
Qed.

(** The invariant of every run. *)
Lemma app_sound start a : app_runs start a → sound_application start a.
Proof.
  induction 1 as [s fs m Hs ->|a a' _ IH Hstep].
  { split; cbn; try done; apply follows_refl. }
  pose proof IH as [Hr Hf Hl Ht Hty Hsv].
  destruct Hstep as [i A f k system x d Hi Hx|i k c Hi|i q k r Hi Hd|i q k status frames Hi Hd
    |i q k lost Hi Hlost|i r j k result response frames Hi Hj Hres|i r j k lost Hi Hlost|s Hs| |p Hp
    |i status Hi];
    try (pose proof (Forall_lookup_1 _ _ _ _ Ht Hi) as Hti;
         pose proof (Forall_lookup_1 _ _ _ _ Hty Hi) as Htyi; cbn in Hti, Htyi).
  - destruct Hti as (known & [Hq Hk] & Hs). destruct Htyi as [Htf Htk].
    apply sound_thread; try done.
    + by exists known.
    + apply Htk.
    + specialize (Htf system (ap_desktop a) Hsv). by rewrite Hx in Htf.
    + destruct known; [by auto|]. specialize (Hq (reflexivity _) system (ap_desktop a)).
      rewrite Hx in Hq. cbn in Hq. by rewrite Hq.
  - destruct Hti as (known & Hk & Hs). apply sound_continue; [done| |apply Htyi].
    exists known. split; [apply Hk|done].
  - destruct Hti as (known & Hk & Hs). split; cbn; try done.
    + eapply running_step; [exact Hr|]. apply step_begin, begins_request. by eapply dispatch_typed.
    + apply Forall_insert.
      * eapply Forall_impl; [exact Ht|]. intros t. apply thread_advances, advances_arrival.
      * exists known, (route is_dir fuel r). split_and!; [|done| |by destruct r; try done; left].
        -- intros answer. specialize (Hk answer). unfold may_answer, acked in Hk. rewrite Hd in Hk.
           by apply Hk.
        -- cbn. rewrite lookup_app_r, Nat.sub_diag by done. done.
    + apply Forall_insert; [done|]. intros b. apply Htyi.
  - destruct Hti as (known & Hk & Hs). apply sound_continue; [done| |apply Htyi].
    exists (known || acked q (Answered status frames)). split; [apply Hk|].
    + unfold may_answer. by rewrite Hd.
    + unfold acked. by rewrite Hd, orb_false_r.
  - destruct Hti as (known & Hk & Hs). apply sound_continue; [done| |apply Htyi].
    exists (known || acked q lost). split; [apply Hk|]; destruct Hlost as [->| ->];
      unfold may_answer, acked; destruct (dispatch q) as [|[]]; cbn; by rewrite ?orb_false_r.
  - destruct Hti as (known & p & Hk & Hs & Hp & Htr). apply sound_continue; [done| |apply Htyi].
    exists (known || acks r (Answered (hr_status response) frames)). split; [apply Hk|].
    intros [?|Ha]%orb_true_iff; [by auto|]. destruct r; try done. cbn in Ha, Htr.
    rewrite Hp in Hj. injection Hj as ->.
    destruct Htr as [Hno|[Hno|(result' & [= <-] & Hok)]]; [discriminate Hno..|]. apply Hok.
    destruct result as [reply|e| |]; try done. cbn in Hres. injection Hres as <-. cbn in Ha.
    by rewrite status_of_fails in Ha.
  - destruct Hti as (known & p & Hk & Hs & _). apply sound_continue; [done| |apply Htyi].
    exists (known || acks r lost). split; [apply Hk|].
    destruct Hlost as [->| ->]; destruct r; cbn; by rewrite orb_false_r.
  - apply sound_system; [done|by eapply running_step|by apply advances_step].
  - assert (Hres : follows (tables (ap_system a))
      (database (run_op is_dir OpRecover (reopened (dm_broker (sy_daemon (ap_system a))))).2))
      by (eapply restart_follows; [exact Hrunner|exact Hr]).
    split; cbn; try done.
    + by apply running_restart.
    + by eapply follows_trans.
    + intros Hd. by eapply shut_follows, Hl.
    + apply Forall_map. eapply Forall_impl; [exact Ht|]. intros [p|r j k]; cbn.
      * intros (known & Hp & Hk). exists known. split; [done|]. intros E. by eapply shut_follows, Hk.
      * intros (known & p & Hk & Hs & _). exists (known || acks r NoAnswer). split; [apply Hk|].
        intros [E|E]%orb_true_iff; [by eapply shut_follows, Hs|by destruct r].
    + apply Forall_map. eapply Forall_impl; [exact Hty|]. by intros [p|r j k]; cbn.
  - split; cbn; try done; apply Forall_app; (split; [done|]); apply Forall_singleton.
    + exists false. split; [by apply secure_begins|done].
    + by apply tidy_begins.
  - split; cbn; try done. intros j Hj. cbn in Hj. destruct (decide (i = j)) as [->|Hn].
    + rewrite list_lookup_insert_eq in Hj by (by eapply lookup_lt_Some). done.
    + rewrite list_lookup_insert_ne in Hj by done. by apply Hsv.
Qed.

End runs.
