(* ===== verification/StoreSamples.v ===== *)
(** * A day of the daemon

    A database that goes through the first-run workflow, a staged launch, its
    approval and its dispatch, on which the witnesses of the theorems about the
    store evaluate the methods. *)
From Corelib Require Import Floats.SpecFloat.
From S2P Require Import Prelude Policy Identity Catalog Office Meeting.
From S2P Require Import Deliverable Approval Graph Execution M3 Mvp Protocol.
From S2P Require Import Store Launch StagedLaunches GraphStore FinishRun CatalogStore.
From S2P Require Import CredentialGrants Dispatch DaemonStore StoreMethods StoreReachable Samples.

#[export] Existing Instance sample_digest.

(** Short stand-ins for the encodings: what they tell apart is enough here. *)
#[export] Instance short_serializer : Serializer := λ h, pretty (value (hi_id h)).
#[export] Instance short_formats : Formats :=
  {| plan_to_vec := λ p, pretty (value (lp_run_id p)); quote := λ s, s; uuid_text := pretty |}.

(** A clock that advances by a millisecond at each reading, and by a night after
    two hundred of them, fresh identifiers, a database without faults, and a
    native store with one secret. *)
#[export] Instance sample_environment : Environment :=
  {| clock := λ n, (1000 + Z.of_nat n + (if Nat.ltb n 200 then 0 else 40000000))%Z; uuid := λ n, N.of_nat (1000 + n); commits := λ _, true |}.
#[export] Instance sample_reader : CredentialReader :=
  {| reader_validate := λ _, true; reader_read := λ _ _, Some "secret" |}.

Definition world_0 : broker :=
  {| bk_world := {| w_db := empty_db 1 "0"; w_clock := 0; w_uuid := 0; w_commits := 0;
                    w_poisoned := false |};
     bk_reads := [] |}.

Definition any_dir : string → bool := λ _, true.

Definition op_prepare : store_op :=
  OpPrepareMvp {| pm_expected_catalog_revision := 0; pm_expected_m3_revision := 0;
                  pm_project_name := "project"; pm_workspace_root := "/w";
                  pm_codex_model := "m1"; pm_agy_model := "m2" |}.

Definition run_list (ops : list store_op) (w : broker) : broker :=
  fold_left (λ w op, (run_op any_dir op w).2) ops w.

Definition world_1 : broker := run_list [op_prepare] world_0.

(** The stored catalogs. *)
Definition stored_catalog (w : broker) : IdentityCatalog :=
  match ct_catalog (d_identity (database w)) with Text c => c | Malformed => empty_identity end.
Definition stored_m3 (w : broker) : option M3Catalog :=
  match ct_catalog (d_m3 (database w)) with Text m3 => Some m3 | Malformed => None end.

Definition trusting (layer : PolicyLayer) : ScopedPolicy := sample_policy layer.

(** The first agent with an account and a credential, in a project that lets it
    be used. *)
Definition with_account (c : IdentityCatalog) : IdentityCatalog :=
  {| ic_credential_references := ic_credential_references sample_catalog;
     ic_agent_providers := ic_agent_providers c; ic_model_providers := ic_model_providers c;
     ic_accounts :=
       match ic_agent_instances c with
       | agent :: _ =>
           [{| acc_metadata := sample_metadata id1;
               acc_agent_provider_id := agent.(ai_agent_provider_id);
               acc_provider_identity := "user@example";
               acc_credential_reference_id := Some id1 |}]
       | [] => []
       end;
     ic_models := ic_models c;
     ic_agent_instances :=
       match ic_agent_instances c with
       | agent :: agents =>
           {| ai_metadata := agent.(ai_metadata);
              ai_agent_provider_id := agent.(ai_agent_provider_id); ai_account_id := Some id1;
              ai_default_model_id := agent.(ai_default_model_id) |} :: agents
       | [] => []
       end;
     ic_projects := map (λ p, {| pj_metadata := p.(pj_metadata); pj_name := p.(pj_name);
       pj_workspace_root := p.(pj_workspace_root); pj_policy := trusting ProjectLayer |})
       (ic_projects c);
     ic_roles := map (λ r, {| rl_metadata := r.(rl_metadata); rl_name := r.(rl_name);
       rl_responsibilities := r.(rl_responsibilities); rl_policy := trusting RoleOrAgent |})
       (ic_roles c);
     ic_sessions := ic_sessions c; ic_runs := ic_runs c |}.

Definition account_command : ReplaceCatalogCommand :=
  {| rc_expected_revision := 1; rc_catalog := with_account (stored_catalog world_1) |}.
Definition op_account : store_op := OpReplaceCatalog account_command.

Definition meeting_of_world (w : broker) : MeetingId :=
  match stored_m3 w with
  | Some {| m3_meetings := {| mc_meetings := m :: _ |} |} => m.(mt_metadata).(em_id)
  | _ => id1
  end.
Definition op_decision : store_op :=
  OpAcceptDecisionBaseline {| ab_expected_m3_revision := 1; ab_meeting_id := meeting_of_world world_1;
    ab_content := "compare"; ab_accepted_by := "user"; ab_accepted_at := "now" |}.

(** The project is set up and the daemon is ready. *)
Definition world_2 : broker := run_list [op_account; op_decision; OpMarkReady] world_1.

Definition sample_execution : option GraphExecution :=
  match map_to_list (d_graphs (database world_2)) with
  | (_, {| gw_execution := Text e |}) :: _ => Some e
  | _ => None
  end.
Definition execution_id : GraphRunId := match sample_execution with Some e => ge_id e | None => id1 end.
Definition node_at (i : nat) : GraphNodeId :=
  match sample_execution with
  | Some e => match ge_nodes e !! i with Some n => n.(ne_node_id) | None => id1 end
  | None => id1
  end.
Definition begin_command : BeginGraphNodeRunCommand :=
  {| bg_expected_catalog_revision := 2; bg_expected_graph_revision := 0; bg_node_id := node_at 0;
     bg_owner := "worker" |}.
Definition sample_binding_of (w : broker) (node : GraphNodeId) : outcome StoreError ProviderRunBinding :=
  match stored_m3 w, sample_execution with
  | Some m3, Some e => resolve_provider_run_binding (stored_catalog w) m3 e node
  | _, _ => Err Database
  end.

Definition op_begin : store_op :=
  match sample_binding_of world_2 (node_at 0) with
  | Ok b => OpBeginProvider execution_id begin_command b
  | _ => OpExpire
  end.

(** The first node is staged behind an approval. *)
Definition world_3 : broker := run_list [op_begin] world_2.

Definition staged_row_of (w : broker) : option (RunId * staged_row) :=
  head (map_to_list (d_staged (database w))).
Definition run_id : RunId := match staged_row_of world_3 with Some (r, _) => r | None => id1 end.
Definition request_id : ApprovalRequestId :=
  match staged_row_of world_3 with Some (_, row) => sw_request_id row | None => id1 end.
Definition request_hash : string :=
  match d_approvals (database world_3) !! request_id with Some row => aw_request_hash row | None => "" end.

Definition decision_command (kind : ApprovalDecisionKind) : DecideApprovalCommand :=
  {| da_decision := {| ad_request_id := request_id; ad_request_hash := request_hash;
                       ad_kind := kind; ad_decided_at_ms := 0; ad_actor := "user" |};
     da_credential_scope_acknowledged := true |}.
Definition op_approve : store_op := OpDecide (decision_command Approve).

(** The launch is ready, then dispatched, then at work. *)
Definition world_4 : broker := run_list [op_approve] world_3.
Definition world_5 : broker := run_list [OpDispatch request_id] world_4.
Definition world_6 : broker := run_list [OpProviderRunning run_id (Some "session")] world_5.

Definition finish_command : FinishGraphNodeRunCommand :=
  {| fg_expected_catalog_revision := 5; fg_expected_graph_revision := 2;
     fg_expected_m3_revision := 2; fg_node_id := node_at 0; fg_run_id := run_id;
     fg_owner := "worker"; fg_terminal_state := RunSucceeded; fg_failure := None;
     fg_provider_session_id := None; fg_output_markdown := Some "report";
     fg_cost := {| ce_evidence_class := UnknownEvidence; ce_currency := None; ce_amount := None;
                   ce_input_tokens := None; ce_output_tokens := None;
                   ce_confidence := S754_zero false |} |}.
Definition op_finish : store_op := OpFinish execution_id finish_command.

(** The first node has succeeded. *)
Definition world_7 : broker := run_list [op_finish] world_6.

(** The morning after the launch was staged. *)
Definition morning : world :=
  {| w_db := database world_3; w_clock := 200; w_uuid := 200; w_commits := 200;
     w_poisoned := false |}.

(** A request for the credential, with the hash of its contents, that names no
    run. *)
Definition forged_action : ApprovalAction :=
  match ic_agent_instances (stored_catalog world_2), ic_projects (stored_catalog world_2) with
  | agent :: _, project :: _ =>
      {| aa_agent_instance_id := agent.(ai_metadata).(em_id); aa_role_id := None;
         aa_action_key := "credential.use"; aa_reason_key := "reason";
         aa_consequence_key := "consequence"; aa_risk := High;
         aa_scope :=
           {| sc_project_id := project.(pj_metadata).(em_id); sc_run_id := None;
              sc_filesystem_roots := []; sc_data_scopes := []; sc_network_destinations := [];
              sc_credential_reference_ids := [id1]; sc_destination := None;
              sc_credential_binding :=
                Some {| cb_agent_provider_id := agent.(ai_agent_provider_id); cb_account_id := id1;
                        cb_adapter_kind := "codex_cli"; cb_provider_identity := "user@example";
                        cb_credential_reference_id := id1; cb_backend := MacosKeychain;
                        cb_service := "svc"; cb_account_label := "label";
                        cb_capability_key := "provider.authenticate" |} |};
         aa_requested_policy := sample_policy SingleRun |}
  | _, _ => sample_action None
  end.
Definition forged_request : ApprovalRequest :=
  {| ar_id := id2; ar_request_hash := canonical_hash id2 10 20 forged_action;
     ar_created_at_ms := 10; ar_expires_at_ms := 20; ar_action := forged_action |}.

Definition shutdown_command : CheckpointCommand := {| cc_expected_revision := 1; cc_reason := "bye" |}.
