(* ===== verification/RunSamples.v ===== *)
(** * A concrete run of the daemon

    A request starts the workers of the ready nodes while another one cancels the
    run of one of them; and the start of an agent's process. *)
From S2P Require Import Prelude Policy Identity Catalog Deliverable Approval Graph Execution.
From S2P Require Import M3 Mvp Protocol Store Workspace InputWriter ProcessChild Adapter.
From S2P Require Import CodexStdio AgyStream AgyProcess AgyProcessFacts Launch StagedLaunches.
From S2P Require Import GraphStore FinishRun.
From S2P Require Import CatalogStore CredentialGrants Dispatch DaemonStore StoreReachable.
From S2P Require Import Daemon Executor Routes DaemonFacts Samples AdapterSamples StoreSamples.

(** ** Schedules *)

(** Steps of one thread. *)
Section schedules.
Context {R : Type} (worker : nat → BeginGraphNodeRunReceipt → prog R).

Fixpoint advance (n i : nat) (s : system) : system :=
  match n with
  | O => s
  | S n =>
      match sy_threads s !! i with
      | Some p =>
          let '(p', d, new) := run_action worker true p (sy_daemon s) in
          advance n i {| sy_daemon := d; sy_threads := <[i := p']> (sy_threads s) ++ new |}
      | None => s
      end
  end.
Definition arrive (p : prog R) (s : system) : system :=
  {| sy_daemon := sy_daemon s; sy_threads := sy_threads s ++ [p] |}.
End schedules.

Section running.
Context `{Environment} `{Digest} `{Serializer} `{Formats} `{CredentialReader}
  (is_dir : string → bool) (fuel : nat) `{!ProviderRunner}.

Lemma running_advance n i s :
  running is_dir fuel s → running is_dir fuel (advance (daemon_worker fuel) n i s).
Proof.
  revert s. induction n as [|n IH]; intros s Hs; [done|]. cbn [advance].
  destruct (sy_threads s !! i) as [p|] eqn:Hi; [|done].
  destruct (run_action _ _ _ _) as [[p' d] new] eqn:E. apply IH.
  eapply running_step; [exact Hs|]. by eapply step_thread.
Qed.
Lemma running_arrive p s :
  running is_dir fuel s → begins is_dir fuel p → running is_dir fuel (arrive p s).
Proof. intros Hs Hp. eapply running_step; [exact Hs|]. by apply step_begin. Qed.
End running.

(** Whether all threads have ended. *)
Definition has_ended {E A} (p : task E A) : bool :=
  match p with Ret Diverge => false | Ret _ => true | Act _ _ => false end.
Lemma all_ended {E A} (threads : list (task E A)) :
  forallb has_ended threads = true → Forall (λ p, ∃ r, p = Ret r ∧ r ≠ Diverge) threads.
Proof.
  intros Hf. apply Forall_forall. intros p Hp. rewrite forallb_forall in Hf.
  specialize (Hf p (proj1 (list_elem_of_In _ _) Hp)). destruct p as [[]|]; try done; eauto.
Qed.

(** ** The world of a run *)

Definition receipt_json (n : nat) : string := pretty n.

Definition clean_shutdown : shutdown_schedule :=
  {| sh_probes := [StillRunning true; Exited]; sh_group := GroupKilled; sh_wait := true |}.

Definition sample_host : agy_host :=
  {| ah_executable := true; ah_tree := empty_tree; ah_launcher := true; ah_pid := Some 7%Z;
     ah_writer := None; ah_reader := true |}.

(** A host that runs for an hour, on which lines arrive at certain questions. *)
Definition long_pipe (lines : nat → option string) : StdioEnvironment := {|
  instant n := Z.of_nat n;
  instant_max := 3600000000000;
  token_cancelled _ := false;
  queue_failed _ := false;
  received n _ := match lines n with Some line => Line (Some line) | None => Silence end;
  write_observed _ := one_write;
  child_shutdown _ _ := true;
  allocator _ := true;
  serialized _ := {| sz_buffers := [["{"%char; "}"%char]]; sz_error := None |};
|}.

(** A run that starts, says something and succeeds. *)
Definition agy_lines (n : nat) : option string :=
  if Nat.eqb n 12 then Some "init" else if Nat.eqb n 21 then Some "text a"
  else if Nat.ltb n 30 then None else Some "result".
Definition agy_sample (read_only : bool) : AgyRunRequest :=
  {| aq_run_id := id1; aq_model := "m"; aq_effort := None; aq_prompt := "p"; aq_cwd := "/w";
     aq_read_only := read_only; aq_timeout := 60000000000; aq_conversation_id := None |}.
Definition agy_polls : list agy_process_op :=
  replicate 5 (AgyPoll 50 written_tree "now" 1000).

(** A host on which the agents are not installed. *)
Definition sample_world : provider_world :=
  {| pw_stdio := long_pipe agy_lines; pw_pipe_fuel := 50; pw_pipe_steps := [true];
     pw_host := sample_host; pw_cleanup := λ _ _, clean_shutdown; pw_readings := λ _, [];
     pw_tree := λ _, empty_tree; pw_timestamp := λ _, "now" |}.
Definition sample_runner : ProviderRunner :=
  SystemProviderRunner receipt_json (λ _, sample_world) 9 None None.
#[local] Existing Instance sample_runner.

(** ** A worker alone *)

Definition alone_with (b : broker) : daemon := sy_daemon (process_on (R := unit) b).

(** The second node needs no approval. *)
Definition worker_begun : outcome StoreError BeginGraphNodeRunReceipt * broker :=
  match sample_binding_of world_2 (node_at 1) with
  | Ok binding =>
      on_store (begin_provider_graph_node_run execution_id
                  (Routes.begin_command (node_at 1) 2 0) binding) world_2
  | _ => (Err Database, world_2)
  end.
Definition worker_broker : broker := worker_begun.2.
Definition worker_receipt : BeginGraphNodeRunReceipt :=
  match worker_begun.1 with
  | Ok receipt => receipt
  | _ => {| br_execution_id := id1; br_node_id := id1; br_session_id := id1; br_run_id := id1;
            br_launch_identity := None; br_adapter_kind := ""; br_model := "";
            br_workspace_root := ""; br_prompt := ""; br_catalog_revision := 0;
            br_graph_revision := 0; br_event_sequence := 0 |}
  end.
Definition run_state_of (b : broker) (run : RunId) : option NormalizedRunState :=
  rn_state <$> find_run (stored_catalog b) run.
Definition succeeded_with (text : string) : ProviderOutcome :=
  final_outcome RunSucceeded None unknown_cost (Some text) None.

(** ** The run *)

Definition sample_worker := daemon_worker 9.

Definition ready_execution : request :=
  PostExecuteReady execution_id
    {| erg_expected_catalog_revision := 2; erg_expected_graph_revision := 0 |}.
Definition morning_1 : system := arrive (route any_dir 9 ready_execution) (process_on world_2).
Definition morning_2 : system := advance sample_worker 40 0 morning_1.

(** One node is staged behind an approval, the other has a worker, whose run is
    cancelled before it begins. *)
Definition worker_run : RunId :=
  match map_to_list (dm_controllers (sy_daemon morning_2)) with (run, _) :: _ => run | [] => id1 end.
Definition cancellation : request :=
  PostCancel worker_run {| crc_run_id := worker_run; crc_expected_catalog_revision := 4 |}.
Definition morning_3 : system := arrive (route any_dir 9 cancellation) morning_2.
Definition morning_4 : system := advance sample_worker 6 2 morning_3.
Definition morning_5 : system := advance sample_worker 20 1 morning_4.
Definition morning_6 : system := advance sample_worker 5 2 morning_5.
