(* ===== verification/DesktopSamples.v ===== *)
(** * A morning at the desktop

    A router, a JSON and an AgentMemoryOS that are functions, with the proof that
    the router keeps the laws that are asked of it, and schedules of the
    application beside the daemon. *)
From stdpp Require Import pretty.
From S2P Require Import Prelude Policy Identity Catalog Office Meeting Deliverable Approval Graph Execution.
From S2P Require Import M3 Mvp Protocol Store Launch StagedLaunches GraphStore FinishRun.
From S2P Require Import CatalogStore CredentialGrants Dispatch DaemonStore StoreReachable Daemon Executor Routes.
From S2P Require Import DaemonFacts Http Client ClientFacts Delivery Projection Desktop Application.
From S2P Require Import Samples AdapterSamples StoreSamples RunSamples.

(** ** The network *)

Definition in_usize (k : message_kind) : message k → bool :=
  match k with
  | Command KClaimNodes => λ c, (0 <=? cgn_limit c)%Z && (cgn_limit c <=? USIZE_MAX)%Z
  | _ => λ _, true
  end.

(** A message is one octet. *)
#[export] Instance sample_serde : Serde := {|
  octet := { k : message_kind & message k };
  to_vec k m := Some [existT k m];
  from_slice k bytes :=
    match bytes with
    | [existT k' m] =>
        match decide (k' = k) with
        | left e => let m := eq_rect k' message m k e in if in_usize k m then Some m else None
        | right _ => None
        end
    | _ => None
    end;
  error_body _ := [];
|}.

Lemma sample_read k m : in_usize k m = true → from_slice k [existT k m] = Some m.
Proof.
  intros Hm. cbn. rewrite (decide_True_pi (reflexivity k)).
  change (eq_rect k message m k (reflexivity k)) with m. by rewrite Hm.
Qed.

(** Identifiers print in decimal in these samples. *)
Fixpoint read_decimal (n : N) (s : string) : option N :=
  match s with
  | EmptyString => Some n
  | String c s =>
      if ascii_digit c then read_decimal (10 * n + (N_of_ascii c - 48)) s else None
  end.
#[export] Instance sample_axum : Axum := {|
  match_path table path := head (matches table (split_at "/" path));
  uuid_parse := read_decimal 0;
  query_u64 s := Z.of_N <$> read_decimal 0 s;
  body_limit := 2097152%Z;
  rejection_status _ := 422%Z;
  rejection_body := [];
|}.

Lemma pretty_digit x : (x < 10)%N →
  ascii_digit (pretty_N_char x) = true ∧ (N_of_ascii (pretty_N_char x) - 48 = x)%N ∧
  plain_path_char (pretty_N_char x) && negb (Ascii.eqb (pretty_N_char x) "/") = true.
Proof.
  intros Hx. assert (Hc : x ∈ [0; 1; 2; 3; 4; 5; 6; 7; 8; 9]%N).
  { rewrite !elem_of_cons, elem_of_nil. lia. }
  clear Hx. revert x Hc. by apply Forall_forall; repeat constructor.
Qed.

(** What holds of the digits that a number is written with. *)
Lemma pretty_go_ind (P : N → string → Prop) x s :
  (∀ x s, (0 < x)%N → P x s → P (x `div` 10)%N (String (pretty_N_char (x `mod` 10)) s)) →
  P x s → P 0%N (pretty_N_go x s).
Proof.
  intros HP. revert s. induction (N.lt_wf_0 x) as [x _ IH]. intros s Hs.
  destruct (decide (x = 0%N)) as [->|Hx]; [by rewrite pretty_N_go_0|].
  rewrite pretty_N_go_step by lia. apply IH; [|apply HP; [lia|done]].
  apply N.div_lt; lia.
Qed.

Lemma pretty_N_go_of (x : N) : pretty x = if decide (x = 0%N) then "0" else pretty_N_go x "".
Proof. done. Qed.

Lemma read_pretty (x : N) : read_decimal 0 (pretty x) = Some x.
Proof.
  rewrite pretty_N_go_of. destruct (decide (x = 0%N)) as [->|Hx]; [done|].
  apply (pretty_go_ind (λ n s, read_decimal n s = Some x)); [|done].
  clear. intros n s Hn Hs. cbn [read_decimal].
  destruct (pretty_digit (n `mod` 10)%N) as (-> & Hd & _); [by apply N.mod_lt|].
  rewrite Hd, <- Hs. f_equal. pose proof (N.div_mod n 10). lia.
Qed.
Lemma pretty_plain (x : N) :
  all_chars (λ c, plain_path_char c && negb (Ascii.eqb c "/")) (pretty x) = true.
Proof.
  rewrite pretty_N_go_of. destruct (decide (x = 0%N)) as [->|Hx]; [done|].
  apply (pretty_go_ind (λ _ s, all_chars _ s = true)); [|done].
  clear. intros n s Hn Hs. cbn [all_chars].
  destruct (pretty_digit (n `mod` 10)%N) as (_ & _ & Hc); [by apply N.mod_lt|]. by rewrite Hc, Hs.
Qed.

Lemma head_only {A} (l : list A) x : x ∈ l → (∀ y, y ∈ l → y = x) → head l = Some x.
Proof. intros Hx Hl. destruct l as [|y l]; [by apply elem_of_nil in Hx|]. cbn. f_equal. apply Hl. left. Qed.

#[export] Instance sample_laws : AxumLaws.
Proof.
  split.
  - intros table path i t args Hi Ht _ Hn. apply head_only; [by eapply matches_elem|].
    intros [j args'] (other & Hj & Ho)%elem_matches.
    assert (j = i) as -> by (apply (Hn j other Hj); unfold match_of; by rewrite Ho).
    unfold match_of in Ht. congruence.
  - apply read_pretty.
  - apply pretty_plain.
  - intros u. cbn. destruct (pretty u) eqn:E; [|done]. pose proof (read_pretty u) as Hr.
    rewrite E in Hr. injection Hr as <-. discriminate E.
  - intros q. cbn. lia.
  - intros bytes c. cbn. destruct bytes as [|[k m] [|]]; [done| |done].
    destruct (decide _) as [->|]; [|done]. cbn.
    destruct (_ && _) eqn:E; [|done]. intros [= <-].
    apply andb_true_iff in E as [?%Z.leb_le ?%Z.leb_le]. lia.
Qed.

(** Every reply and every command comes across. *)
Lemma sample_returned r : r ≠ Ok Finished → returned r.
Proof.
  intros Hr. destruct r as [reply|e| |]; cbn; try done.
  assert (∃ k m, message_of reply = Some (existT k m) ∧ in_usize k m = true) as (k & m & Hm & Hk).
  { destruct reply; try done;
      match goal with |- ∃ k m, ?msg = _ ∧ _ =>
        let msg := eval hnf in msg in
        match msg with Some ?x => exists (projT1 x), (projT2 x) end end; by split. }
  exists (existT k m), [existT k m]. split_and!; [done|done|by apply sample_read|done].
Qed.

(** An AgentMemoryOS that finds nothing. *)
#[export] Instance sample_memory : AgentMemory :=
  {| memory := unit; tool_run _ _ m := (Some {| to_success := true; to_stdout := "" |}, m) |}.

(** ** Schedules *)

Section schedules.
Context `{Environment} `{Digest} `{Serializer} `{Formats} `{CredentialReader} `{Json}.
Context `{!AgentMemory} `{Serde} `{!Axum} `{!ProviderRunner}.
Context (is_dir : string → bool) (fuel : nat).
Context (sv : supervisor) (exit_text : Z → string) (client : DaemonClient)
  (canonicalize : string → option string).
Notation runs := (app_running is_dir fuel sv exit_text client canonicalize).

(** One step of a thread, or of the thread of the daemon that serves it; the
    daemon may be absent. *)
Definition app_move (present : bool) (i : nat) (a : application) : application :=
  match ap_threads a !! i with
  | Some (AtWork (CAct e k)) =>
      match e in access _ B return (B → _) → application with
      | Local f => λ k, let '(x, d) := f (λ _, 0) (ap_desktop a) in
                        set_desktop d (put_thread i (AtWork (k x)) a)
      | Connect => λ k, put_thread i (AtWork (k (if present then Connected else ConnectRefused))) a
      | SendRequest q => λ k,
          match dispatch q with
          | inr r =>
              set_system {| sy_daemon := sy_daemon (ap_system a);
                            sy_threads := sy_threads (ap_system a) ++ [route is_dir fuel r] |}
                (put_thread i (Awaiting r (length (sy_threads (ap_system a))) k) a)
          | inl _ => put_thread i (AtWork (k NoAnswer)) a
          end
      end k
  | Some (Awaiting r j k) =>
      match sy_threads (ap_system a) !! j with
      | Some (Ret result) =>
          match respond result with
          | Some response =>
              put_thread i (AtWork (k (Answered (hr_status response) [Data (hr_body response)]))) a
          | None => a
          end
      | Some p =>
          let '(p', d, new) := run_action (daemon_worker fuel) true p (sy_daemon (ap_system a)) in
          set_system {| sy_daemon := d; sy_threads := <[j := p']> (sy_threads (ap_system a)) ++ new |} a
      | None => a
      end
  | _ => a
  end.
Fixpoint app_moves (n : nat) (present : bool) (i : nat) (a : application) : application :=
  match n with O => a | S n => app_moves n present i (app_move present i a) end.
Definition app_start (p : cprog desktop (outcome DesktopError unit)) (a : application) : application :=
  {| ap_system := ap_system a; ap_desktop := ap_desktop a; ap_threads := ap_threads a ++ [AtWork p] |}.

Lemma runs_move start present i a : runs start a → runs start (app_move present i a).
Proof.
  intros Ha. unfold app_move. destruct (ap_threads a !! i) as [[[r|B e k]|r j k]|] eqn:Hi; try done.
  - destruct e as [|q|B f].
    + eapply app_stepped; [exact Ha|]. by apply app_connect.
    + destruct (dispatch q) as [s|r] eqn:Ed.
      * eapply app_stepped; [exact Ha|]. eapply app_unsent; [exact Hi|by left].
      * eapply app_stepped; [exact Ha|]. by eapply app_send.
    + destruct (f _ _) as [x d] eqn:Ef. eapply app_stepped; [exact Ha|]. by eapply app_local.
  - destruct (sy_threads (ap_system a) !! j) as [[result|B e' k']|] eqn:Hj; try done.
    + destruct (respond result) as [response|] eqn:Er; [|done].
      eapply app_stepped; [exact Ha|]. by eapply app_answered.
    + destruct (run_action _ _ _ _) as [[p' d] new] eqn:E. eapply app_stepped; [exact Ha|].
      apply app_daemon. by eapply step_thread.
Qed.
Lemma runs_moves start n present i a : runs start a → runs start (app_moves n present i a).
Proof. revert a. induction n as [|n IH]; intros a Ha; [done|]. by apply IH, runs_move. Qed.
Lemma runs_start start p a :
  runs start a → app_begins sv exit_text client canonicalize p → runs start (app_start p a).
Proof. intros Ha Hp. eapply app_stepped; [exact Ha|]. by apply app_begin. Qed.
End schedules.

(** ** Quitting *)

#[local] Existing Instance sample_runner.

Definition local_client : DaemonClient := {| base_url := LOCAL_HTTP_ORIGIN |}.
Definition sample_supervisor : supervisor :=
  {| sv_executable := "/app/bastet-daemon"; sv_database := "/data/bastet.sqlite";
     sv_diagnostics_dir := "/logs" |}.
Definition sample_exit_text (status : Z) : string := "status".
Definition sample_paths (path : string) : option string := Some path.
Notation sample_running := (app_running any_dir 9 sample_supervisor sample_exit_text local_client sample_paths).

(** Beside a daemon at rest. *)
Definition desktop_0 : application :=
  {| ap_system := process_on world_2; ap_desktop := fresh_desktop ∅ tt; ap_threads := [] |}.
Definition supervising : cprog desktop (outcome DesktopError unit) :=
  supervise sample_supervisor sample_exit_text local_client 1.

(** The user quits. *)
Definition desktop_1 : application :=
  app_moves any_dir 9 30 true 0 (app_start (request_checkpointed_exit local_client) desktop_0).

(** The daemon is absent, and is started. *)
Definition desktop_2 : application := app_moves any_dir 9 5 false 0 (app_start supervising desktop_0).

(** The supervisor has just begun a round when the user quits, and goes on with it
    when the daemon has ended. *)
Definition desktop_3 : application := app_moves any_dir 9 1 true 0 (app_start supervising desktop_0).
Definition desktop_4 : application :=
  app_moves any_dir 9 30 true 1 (app_start (request_checkpointed_exit local_client) desktop_3).
Definition desktop_5 : application := app_moves any_dir 9 4 false 0 desktop_4.

(** ** A vault *)

Definition sample_vault : files := list_to_map [
  ("/vault/AGENTS.md", Regular "rules"); ("/vault/index.md", Link "/elsewhere/index.md");
  ("/elsewhere/index.md", Regular "# Index"); ("/vault/log.md", Regular "# Log")].

(** ** An execution without outputs *)

Definition completed (id : GraphRunId) (e : GraphExecution) : GraphExecution :=
  {| ge_id := id; ge_graph := ge_graph e;
     ge_nodes := map (λ n, {| ne_node_id := n.(ne_node_id); ne_state := Succeeded;
                              ne_owner := Some "worker"; ne_revision := n.(ne_revision);
                              ne_run_id := None; ne_failure := None |}) (ge_nodes e);
     ge_outputs := []; ge_restarted_from_execution_id := None; ge_revision := 0 |}.
Definition op_completed : store_op :=
  match sample_execution with Some e => OpCreateGraph (completed id1 e) | None => OpExpire end.
Definition world_8 : broker := run_list [op_completed] world_2.
Definition world_9 : broker := run_list [OpRestartGraph id1 0] world_8.
Definition told_at (b : broker) : list GraphExecution :=
  match (on_store graph_executions b).1 with Ok l => l | _ => [] end.
