(* ===== verification/StoreTheorems.v ===== *)
(** * The daemon store

    What the daemon promises of its database, its approvals and the native
    credentials, proved of the methods of the store; each theorem with
    hypotheses is applied to the database of StoreSamples.v. *)
From stdpp Require Import relations.
From S2P Require Import Prelude Policy Identity Catalog Office Meeting.
From S2P Require Import Deliverable Approval Graph Execution ExecutionFacts M3 Mvp Protocol.
From S2P Require Import Store StoreLogic Launch StagedLaunches GraphStore FinishRun CatalogStore.
From S2P Require Import CredentialGrants Dispatch DaemonStore StoreSpec StoreRefines StoreMethods.
From S2P Require Import StoreReachable StoreFacts StoreEffects StoreEnds Samples StoreSamples.

(** ** The sample databases are stored ones *)

Lemma stored_run_list ops b :
  stored any_dir b → Forall in_range ops → stored any_dir (run_list ops b).
Proof.
  intros Hb Hops. revert b Hb. induction Hops as [|op ops Hop Hops IH]; intros b Hb; [done|].
  apply IH. by apply stored_op.
Qed.
Lemma stored_0 : stored any_dir world_0.
Proof. by apply stored_new with 1%N "0". Qed.
Lemma stored_1 : stored any_dir world_1.
Proof. apply stored_run_list; [apply stored_0|by repeat constructor]. Qed.
Lemma stored_2 : stored any_dir world_2.
Proof. apply stored_run_list; [apply stored_1|by repeat constructor]. Qed.
Lemma stored_3 : stored any_dir world_3.
Proof.
  apply stored_run_list; [apply stored_2|]. constructor; [|done]. unfold op_begin.
  by destruct (sample_binding_of _ _).
Qed.
Lemma stored_4 : stored any_dir world_4.
Proof. apply stored_run_list; [apply stored_3|by repeat constructor]. Qed.
Lemma stored_5 : stored any_dir world_5.
Proof. apply stored_run_list; [apply stored_4|by repeat constructor]. Qed.
Lemma stored_6 : stored any_dir world_6.
Proof. apply stored_run_list; [apply stored_5|by repeat constructor]. Qed.
Lemma stored_7 : stored any_dir world_7.
Proof. apply stored_run_list; [apply stored_6|by repeat constructor]. Qed.

Lemma well_formed_world b : stored any_dir b → well_formed (w_db (bk_world b)).
Proof.
  intros (id & t & Hs)%stored_steps. eapply well_formed_steps; [exact Hs|].
  apply well_formed_empty.
Qed.
Lemma keyed_world b : stored any_dir b → keyed (w_db (bk_world b)).
Proof. apply stored_keyed. Qed.

Lemma keyed_morning : keyed (w_db morning).
Proof. unfold morning. cbn [w_db]. apply (stored_keyed any_dir), stored_3. Qed.

Lemma launch_in_state d run id s :
  (λ row, (sw_request_id row, sw_state row)) <$> d_staged d !! run = Some (id, s) →
  launch_in d run id s.
Proof. intros (row & Hrow & [= ??])%fmap_Some. by exists row. Qed.
Lemma morning_cancels :
  launch_in (w_db (expire_staged_launches morning).2) run_id request_id SlCancelled.
Proof. apply launch_in_state. vm_compute. reflexivity. Qed.

(** The other results of a call that succeeds. *)
Ltac returned :=
  match goal with E : _ = (_, _) |- _ => exfalso; revert E; vm_compute; discriminate end.

(** ** Every method *)

Lemma sample_clock_sound n : (0 ≤ clock n)%Z.
Proof. unfold clock, sample_environment. destruct (Nat.ltb n 200); lia. Qed.

Section methods.
Context `{Environment} `{Digest} `{Serializer} `{Formats} `{CredentialReader}.
Context (is_dir : string → bool).

(** C1. Refinement: whatever a method of the store is called with and whatever it
    returns, it moves the stored database by steps of the abstract database
    only, each of which changes one table under its conditions. *)
Theorem methods_refine_the_abstract_database b op :
  stored is_dir b → in_range op → rtc db_step (database b) (database (run_op is_dir op b).2).
Proof. intros Hb Hop. apply run_op_steps; [done|by eapply stored_keyed]. Qed.

(** C2. Every database that arises from an empty file by any calls, failures and
    restarts is well formed: the catalogs parse and validate, executions are
    stored under their id and revision and validate, the journal is numbered
    without gaps, attempts, hashes, launches and claims are unique, an approval
    is unchanged and its decision one of it, a grant belongs to an approved
    request with a credential and was spent or revoked at most once, a launch
    is ready only with a grant and dispatched only after it was spent. *)
Theorem stored_databases_are_well_formed b : stored is_dir b → well_formed (database b).
Proof.
  intros (id & t & Hs)%stored_steps. eapply well_formed_steps; [exact Hs|].
  apply well_formed_empty.
Qed.

(** C7. Nothing is rewritten: whatever a method returns, the journal and the
    checkpoints only grow at their end, plans, outputs and claims stay as they
    are, executions advance by their operations, decisions are final, a grant
    is spent or revoked once, launches and runs move along their states. *)
Theorem methods_keep_the_history b op :
  stored is_dir b → in_range op → follows (database b) (database (run_op is_dir op b).2).
Proof. intros Hb Hop. apply follows_steps, run_op_steps; [done|by eapply stored_keyed]. Qed.

(** C17. Every call of every method on a database there is ends, the loops over the
    nodes of an execution included, which are not bounded in the program; and
    while the clock does not stand before the epoch it ends with a result or an
    error, and not with a panic, unless it is the creation of an approval that
    binds a credential and names no run. *)
Theorem every_method_returns b op :
  stored is_dir b →
  (run_op is_dir op b).1 ≠ Diverge ∧
  ((∀ n, 0 ≤ clock n)%Z →
   returns (run_op is_dir op b).1 ∨
   ∃ r, op = OpCreateApproval r ∧ is_Some (sc_credential_binding (aa_scope (ar_action r))) ∧
     sc_run_id (aa_scope (ar_action r)) = None).
Proof.
  intros Hb. pose proof (good_stored _ _ Hb) as Hg. split.
  { apply (raises_no_loop (H := tolerant) (λ _, True)), (run_op_ends (may := tolerant)); [by left|done]. }
  intros Hc. destruct (op_names_run_dec op) as [Hn|(r & -> & Hr)]; [left|by right; exists r].
  assert (Hs : ClockSound strict) by by right.
  apply raises_strict, (run_op_ends (may := strict)); [by right|done].
Qed.

End methods.

Lemma methods_refine_the_abstract_database_witness :
  stored any_dir world_3 ∧ rtc db_step (database world_3) (database (run_op any_dir op_approve world_3).2).
Proof.
  split; [apply stored_3|]. refine (methods_refine_the_abstract_database any_dir _ _ _ _).
  - apply stored_3.
  - exact I.
Defined.

Lemma stored_databases_are_well_formed_witness :
  stored any_dir world_7 ∧ well_formed (database world_7).
Proof.
  split; [apply stored_7|]. refine (stored_databases_are_well_formed any_dir _ _). apply stored_7.
Defined.

Lemma methods_keep_the_history_witness :
  stored any_dir world_6 ∧ follows (database world_6) (database (run_op any_dir op_finish world_6).2).
Proof.
  split; [apply stored_6|]. refine (methods_keep_the_history any_dir _ _ _ _).
  - apply stored_6.
  - exact I.
Defined.

Lemma every_method_returns_witness :
  stored any_dir world_6 ∧ returns (run_op any_dir op_finish world_6).1.
Proof.
  split; [apply stored_6|]. destruct (every_method_returns any_dir world_6 op_finish stored_6) as [_ Hr].
  destruct (Hr sample_clock_sound) as [|(r & E & _)]; [assumption|discriminate E].
Defined.

(** ** Credentials *)

Section dispatch.
Context `{Environment} `{Digest} `{Serializer} `{Formats} `{CredentialReader}.

(** C4. A launch is claimed for dispatch only while the daemon is ready, under an
    approval that has not expired, a grant that is neither spent nor revoked,
    and with the catalog, the policy and the provider selection as they were
    approved; the claim spends the grant, starts the run and its node, and
    leaves the launch dispatching, all in one transaction. *)
Theorem claims_need_a_live_approval_and_spend_it id w claim w' :
  keyed (w_db w) → claim_staged_dispatch id w = (Ok claim, w') →
  claimed (w_db w) id (clock (w_clock w)) claim (w_db w').
Proof. apply claim_effect. Qed.

End dispatch.

Lemma claims_need_a_live_approval_and_spend_it_witness :
  ∃ claim w', claim_staged_dispatch request_id (bk_world world_4) = (Ok claim, w') ∧
    claimed (database world_4) request_id (clock (w_clock (bk_world world_4))) claim (w_db w').
Proof.
  destruct (claim_staged_dispatch request_id (bk_world world_4)) as [[claim| | |] w'] eqn:E.
  - exists claim, w'. split; [reflexivity|].
    refine (claims_need_a_live_approval_and_spend_it _ _ _ _ _ E).
    exact (keyed_world _ stored_4).
  - returned.
  - returned.
  - returned.
Defined.

Section secrets.
Context `{Environment} `{Digest} `{Serializer} `{Formats} `{CredentialReader}.
Context (is_dir : string → bool).

Lemma reads_spent_steps b b' :
  reads_spent b → bk_reads b' = bk_reads b → rtc db_step (database b) (database b') →
  reads_spent b'.
Proof.
  intros [Hn Hr] E Hs. split; rewrite E; [done|]. eapply Forall_impl; [exact Hr|].
  intros read (Hsteps & ? & ?). split_and!; [by etrans|done..].
Qed.

(** A request that has been read is spent for good. *)
Lemma read_is_spent now read t : read_after_spending now read → ¬ usable_grant now read.1 t.
Proof.
  intros (Hs & (t' & g & Hg & Hc & _) & _) (g' & Hg' & Hu & _).
  destruct (spent_follows _ _ read.1 (follows_steps _ _ Hs)) as (g2 & Hg2 & [t2 Ht2]);
    [exists g; split; [done|by eexists]|].
  rewrite Hg' in Hg2. simplify_eq. unfold unspent in Hu. by rewrite Ht2 in Hu.
Qed.

Lemma dispatch_reads id b :
  keyed (database b) → reads_spent b → reads_spent (prepare_staged_credentials id b).2.
Proof.
  intros Hk Hb. unfold prepare_staged_credentials, on_store, read_native.
  pose proof (claim_staged_dispatch_sound id _ Hk) as Hsteps.
  pose proof (λ claim w', claim_effect id _ claim w' Hk) as Hclaim.
  destruct (claim_staged_dispatch id (bk_world b)) as [[claim| | |] w1];
    try (by eapply reads_spent_steps).
  destruct (Hclaim claim w1 eq_refl) as (r & plan & c & _ & _ & Hu & _ & _ & _ & _ & _ & _ & _
    & _ & _ & _ & Hspent & Hlaunch & _). clear Hclaim. cbn in Hsteps |- *.
  set (b1 := {| bk_world := w1; bk_reads := bk_reads b ++ [(id, w_db w1)] |}).
  assert (Hb1 : reads_spent b1).
  { destruct Hb as [Hn Hr]. split; cbn.
    - rewrite fmap_app. apply NoDup_app. split_and!; [done| |apply NoDup_singleton].
      intros x (read & -> & Hin)%list_elem_of_fmap Hx%list_elem_of_singleton. cbn in Hx.
      rewrite Forall_forall in Hr. apply (read_is_spent _ _ (clock (w_clock (bk_world b))) (Hr _ Hin)). by rewrite Hx.
    - apply Forall_app. split.
      + eapply Forall_impl; [exact Hr|]. intros read (? & ? & ?). split_and!; [by etrans|done..].
      + apply Forall_singleton. split_and!; [done|by eexists|by eexists]. }
  destruct (reader_read _ _); [exact Hb1|]. cbn.
  pose proof (fail_dispatch_claim_sound (br_run_id (dc_receipt claim)) w1
    (keyed_steps _ _ Hsteps Hk)) as Hf.
  destruct (fail_dispatch_claim _ _) as [[| | |] w2]; by eapply reads_spent_steps.
Qed.

(** C3. The native credential store is read at most once for a request, and only
    after the grant of the request was spent and its launch was dispatching in
    a committed database: over any calls, failures, crashes and restarts. *)
Theorem secrets_are_read_once_after_the_grant_is_spent b : stored is_dir b → reads_spent b.
Proof.
  induction 1 as [w id t E|b Hb IH|b op Hb IH Hop].
  - split; [apply NoDup_nil_2|done].
  - by eapply reads_spent_steps.
  - pose proof (run_op_steps is_dir op b Hop (stored_keyed _ _ Hb)) as Hs.
    destruct op; try (by eapply reads_spent_steps). by apply dispatch_reads; [eapply stored_keyed|].
Qed.

End secrets.

Lemma secrets_are_read_once_after_the_grant_is_spent_witness :
  stored any_dir world_5 ∧ length (bk_reads world_5) = 1 ∧ reads_spent world_5.
Proof.
  split; [apply stored_5|]. split; [by vm_compute|].
  refine (secrets_are_read_once_after_the_grant_is_spent any_dir _ _). apply stored_5.
Defined.

(** ** Recovery and shutdown *)

Section lifecycle.
Context `{Environment} `{Digest} `{Serializer} `{Formats}.

(** C9. When the store has been opened, whatever the daemon was doing when it was
    stopped, no run is active, no node is running and no launch is being
    dispatched, and the catalog and every execution parse and validate. *)
Theorem recovery_leaves_nothing_running w w' :
  keyed (w_db w) → recover w = (Ok tt, w') → settled (w_db w') ∧ rtc db_step (w_db w) (w_db w').
Proof.
  intros Hk. unfold recover. by_transact.
  eapply wp_mono; [by apply recover_refines|]. by intros u d [].
Qed.

(** A shutdown is accepted at the expected revision only, and only while no
    run is active; the daemon is then stopping, with a checkpoint of that
    revision at the event that records the request. *)
Theorem shutdown_waits_for_active_runs command w receipt w' :
  shutdown command w = (Ok receipt, w') →
  dr_revision (d_daemon (w_db w)) = cc_expected_revision command ∧
  (∃ c, ct_catalog (d_identity (w_db w)) = Text c ∧
        Forall (λ r, run_is_active r = false) (ic_runs c)) ∧
  parse_lifecycle (dr_lifecycle (d_daemon (w_db w'))) = LcStopping ∧
  dr_revision (d_daemon (w_db w')) = (cc_expected_revision command + 1)%Z ∧
  ∃ e x, d_events (w_db w') = d_events (w_db w) ++ [e] ∧
    d_checkpoints (w_db w') = d_checkpoints (w_db w) ++ [x] ∧
    cw_revision x = cpr_revision receipt ∧ cw_event_sequence x = ee_sequence e ∧
    cpr_event_sequence receipt = ee_sequence e ∧
    ee_event_type e = "daemon.shutdown_requested".
Proof. apply shutdown_effect. Qed.

(** After an expiry no launch waits or is ready under an approval that had
    expired when the method was called, whatever had become of the runs. *)
Theorem expiry_leaves_no_expired_launch w w' :
  keyed (w_db w) → expire_staged_launches w = (Ok tt, w') →
  ∀ run row, d_staged (w_db w') !! run = Some row →
    expired_row (w_db w') (clock (w_clock w)) (run, row) = false.
Proof.
  intros Hk. unfold expire_staged_launches. by_clocked_transact. by apply expire_effect.
Qed.

(** C14. The identity catalog is replaced at its revision only, by one that
    validates together with the state catalog and all executions; every run
    known before stays as it was, with its session, and a run that is new has
    not been started. *)
Theorem replaced_catalogs_keep_every_run command w receipt w' :
  replace_catalog command w = (Ok receipt, w') →
  ∃ previous m3 executions t, let c := rc_catalog command in
    ct_catalog (d_identity (w_db w)) = Text previous ∧
    ct_revision (d_identity (w_db w)) = rc_expected_revision command ∧
    ct_catalog (d_m3 (w_db w)) = Text m3 ∧ load_graph_executions (w_db w) = Ok executions ∧
    validate_m3 {| ms_catalog := m3; ms_graph_executions := executions |} c = Ok tt ∧
    Forall (λ run, find_run c (em_id (rn_metadata run)) = Some run ∧
      ∃ session, find_session previous (rn_session_id run) = Some session ∧
                 find_session c (em_id (ss_metadata session)) = Some session) (ic_runs previous) ∧
    Forall (λ run, (∃ r, r ∈ ic_runs previous ∧ em_id (rn_metadata r) = em_id (rn_metadata run)) ∨
      rn_state run = RunStarting ∧ rn_started_at run = None) (ic_runs c) ∧
    ctr_revision receipt = (rc_expected_revision command + 1)%Z ∧
    d_identity (w_db w') = {| ct_revision := ctr_revision receipt; ct_catalog := Text c;
                              ct_updated_at := t |}.
Proof.
  unfold replace_catalog. intros (u & _ & E)%try_bind_ok. revert E. by_transact. wp_run. bool_prop. wp_write. wp_run. db_simpl.
  repeat match goal with u : unit |- _ => destruct u end.
  rename select (for_each (keeps_run _ _) _ = _) into Hkeep.
  rename select (for_each (introduces_run _) _ = _) into Hnew. rewrite for_each_ok in Hkeep, Hnew.
  eexists _, _, _, _. split_and!; try done; cbn; try congruence.
  - eapply Forall_impl; [exact Hkeep|]. cbv beta. intros run Hr. unfold keeps_run in Hr. ok_inv.
    bool_prop. eauto.
  - eapply Forall_impl; [exact Hnew|]. cbv beta. intros run Hr. unfold introduces_run in Hr. ok_inv.
    rename select (_ && _ = false) into E. apply andb_false_iff in E as [E|E]; bool_prop.
    + left. apply existsb_true in E as (r & Hin & E). exists r. split; [done|].
      by apply bool_decide_eq_true in E.
    + right. split; [done|]. by apply eq_None_not_Some.
Qed.

(** [events_after] returns the journal from the given number on, in order
    and without gaps. *)
Theorem events_after_a_number_are_the_rest_of_the_journal n w :
  well_formed (w_db w) → w_poisoned w = false → (Z.of_nat n ≤ I64_MAX)%Z →
  (events_after (Z.of_nat n) w).1 = Ok (drop n (d_events (w_db w))).
Proof.
  intros Hwf Hp Hn. unfold events_after, sql_u64, mbind, read_only.
  destruct (Z.ltb_spec I64_MAX (Z.of_nat n)); [lia|]. cbn. rewrite Hp. cbn. f_equal.
  rewrite (filter_numbered _ 0); [by rewrite Nat.sub_0_r|]. apply Hwf.
Qed.

End lifecycle.

Lemma recovery_leaves_nothing_running_witness :
  ∃ w', recover (bk_world world_6) = (Ok tt, w') ∧
    settled (w_db w') ∧ rtc db_step (w_db (bk_world world_6)) (w_db w').
Proof.
  destruct (recover (bk_world world_6)) as [[[]| | |] w'] eqn:E.
  - exists w'. split; [reflexivity|].
    refine (recovery_leaves_nothing_running _ _ _ E). exact (keyed_world _ stored_6).
  - returned.
  - returned.
  - returned.
Defined.

Lemma shutdown_waits_for_active_runs_witness :
  ∃ r w', shutdown shutdown_command (bk_world world_2) = (Ok r, w') ∧
    parse_lifecycle (dr_lifecycle (d_daemon (w_db w'))) = LcStopping.
Proof.
  destruct (shutdown shutdown_command (bk_world world_2)) as [[r| | |] w'] eqn:E.
  - exists r, w'. split; [reflexivity|].
    refine (proj1 (proj2 (proj2 (shutdown_waits_for_active_runs _ _ _ _ E)))).
  - returned.
  - returned.
  - returned.
Defined.

Lemma expiry_leaves_no_expired_launch_witness :
  launch_in (w_db morning) run_id request_id SlAwaitingApproval ∧
  ∃ w', expire_staged_launches morning = (Ok tt, w') ∧
    (∀ run row, d_staged (w_db w') !! run = Some row →
      expired_row (w_db w') (clock (w_clock morning)) (run, row) = false) ∧
    launch_in (w_db w') run_id request_id SlCancelled.
Proof.
  split; [eexists; by vm_compute|].
  destruct (expire_staged_launches morning) as [[[]| | |] w'] eqn:E.
  - exists w'. split; [reflexivity|]. split.
    + refine (expiry_leaves_no_expired_launch _ _ _ E). exact keyed_morning.
    + pose proof morning_cancels as Hm. rewrite E in Hm. exact Hm.
  - returned.
  - returned.
  - returned.
Defined.

Lemma replaced_catalogs_keep_every_run_witness :
  ∃ receipt w', replace_catalog account_command (bk_world world_1) = (Ok receipt, w') ∧
    ∃ t, d_identity (w_db w') = {| ct_revision := ctr_revision receipt;
      ct_catalog := Text (rc_catalog account_command); ct_updated_at := t |}.
Proof.
  destruct (replace_catalog account_command (bk_world world_1)) as [[r| | |] w'] eqn:E.
  - exists r, w'. split; [reflexivity|].
    destruct (replaced_catalogs_keep_every_run _ _ _ _ E)
      as (previous & m3 & executions & t & _ & _ & _ & _ & _ & _ & _ & _ & Hd).
    exists t. exact Hd.
  - returned.
  - returned.
  - returned.
Defined.

Lemma events_after_a_number_are_the_rest_of_the_journal_witness :
  length (d_events (database world_7)) = 14 ∧
  (events_after 5 (bk_world world_7)).1 = Ok (drop 5 (d_events (w_db (bk_world world_7)))).
Proof.
  split; [by vm_compute|].
  refine (events_after_a_number_are_the_rest_of_the_journal 5 _ _ _ _).
  - exact (well_formed_world _ stored_7).
  - by vm_compute.
  - by vm_compute.
Defined.

(** ** Refusals *)

Section refusals.
Context `{Environment} `{Digest} `{Serializer} `{Formats} `{CredentialReader}.
Context (is_dir : string → bool).

(** A command made from another revision of the catalog, the state catalog,
    an execution or the daemon than the stored one is refused, and changes
    nothing. *)
Theorem stale_commands_are_refused b op :
  stale (database b) op →
  is_ok (run_op is_dir op b).1 = false ∧ database (run_op is_dir op b).2 = database b.
Proof.
  intros Hs. pose proof (stale_refused is_dir op b Hs) as Hr. split; [done|].
  apply single_atomic; [|done]. by destruct op.
Qed.

(** C15. A request that binds a credential to no run, and whose agent, account,
    credential, project and role are otherwise those of the catalog, is not
    refused: [create_approval] panics while it holds the mutex, and every later
    call of any method fails, until the process is restarted. *)
Theorem an_approval_without_a_run_disables_the_store b r c binding :
  w_poisoned (bk_world b) = false → load_catalog (database b) = Ok c →
  request_validate_unchanged r = Ok tt → unbound_login c r.(ar_action) binding →
  let b' := (run_op is_dir (OpCreateApproval r) b).2 in
  (create_approval r (bk_world b)).1 = Panic ∧ database b' = database b ∧
  ∀ op, is_ok (run_op is_dir op b').1 = false ∧ database (run_op is_dir op b').2 = database b.
Proof.
  intros Hp Hc Hu Hl b'. pose proof (validate_against_panics _ _ _ Hu Hl) as Hr.
  assert (E : ∃ w, create_approval r (bk_world b) = (Panic, w) ∧ w_db w = database b ∧
                   w_poisoned w = true).
  { unfold create_approval, transact. rewrite Hp. unfold mbind, get, lift.
    change (w_db (bk_world b)) with (database b). rewrite Hc. unfold try, lift. rewrite Hr. cbn.
    by eexists. }
  destruct E as (w & E & Hdb & Hw).
  assert (Hb' : b' = with_world b w) by (subst b'; unfold run_op, ended, on_store; by rewrite E).
  rewrite E, Hb'. split_and!; [done|done|]. intros op.
  destruct (run_op_closed is_dir op (with_world b w) Hw) as (Ho & Hd & _).
  split; [done|]. by rewrite Hd.
Qed.

End refusals.

Lemma stale_commands_are_refused_witness :
  stale (database world_7) op_finish ∧ is_ok (run_op any_dir op_finish world_7).1 = false ∧
  database (run_op any_dir op_finish world_7).2 = database world_7.
Proof.
  assert (Hs : stale (database world_7) op_finish) by (left; vm_compute; discriminate).
  split; [exact Hs|]. refine (stale_commands_are_refused any_dir _ _ Hs).
Defined.

(** The first entity of a list of the sample has what is asked of it. *)
Ltac first_of l :=
  let x := eval vm_compute in (head l) in
  lazymatch x with Some ?a => exists a end; split_and!; try (by vm_compute);
  try (vm_compute; lia).

Lemma forged_login :
  ∃ binding, unbound_login (stored_catalog world_2) (ar_action forged_request) binding.
Proof.
  let x := eval vm_compute in (sc_credential_binding (aa_scope (ar_action forged_request))) in
  lazymatch x with Some ?b => exists b end.
  split; try (by vm_compute).
  - first_of (ic_agent_instances (stored_catalog world_2)).
  - first_of (ic_projects (stored_catalog world_2)).
  - first_of (ic_agent_providers (stored_catalog world_2)).
  - first_of (ic_accounts (stored_catalog world_2)).
  - first_of (ic_credential_references (stored_catalog world_2)).
  - vm_compute. set_solver.
Qed.

Lemma an_approval_without_a_run_disables_the_store_witness :
  sc_run_id (aa_scope (ar_action forged_request)) = None ∧
  (create_approval forged_request (bk_world world_2)).1 = Panic ∧
  is_ok (run_op any_dir OpMarkReady (run_op any_dir (OpCreateApproval forged_request) world_2).2).1 = false.
Proof.
  split; [by vm_compute|]. destruct forged_login as [binding Hl].
  destruct (an_approval_without_a_run_disables_the_store any_dir world_2 forged_request
    (stored_catalog world_2) binding) as (Hp & _ & Hops).
  - by vm_compute.
  - by vm_compute.
  - by vm_compute.
  - exact Hl.
  - split; [exact Hp|]. exact (proj1 (Hops OpMarkReady)).
Defined.

(** ** Runs *)

Section runs.
Context `{Environment} `{Digest} `{Serializer} `{Formats}.

(** C10. The end of a run is recorded everywhere by one transaction: the run and
    its attempt have the terminal state, the node the corresponding one, with
    the sanitized failure; a success has an output and no failure, and every
    output is in the execution and in the ledger with the hash of its text; a
    cost record of the run is added.  A run whose stored selection is corrupt is
    recorded as uncertain, whatever is reported of it. *)
Theorem a_finished_run_is_recorded_everywhere id command w receipt w' :
  finish_graph_node_run id command w = (Ok receipt, w') →
  ∃ selected (malformed : bool) s, let given := if malformed then as_uncertain command else command in
    selection_of (w_db w) (fg_run_id command) (selected, malformed) ∧
    terminal_graph_state (fg_terminal_state given) = Some s ∧
    finish_recorded (w_db w') id given s.
Proof. apply finish_effect. Qed.

End runs.

Lemma a_finished_run_is_recorded_everywhere_witness :
  ∃ receipt w', finish_graph_node_run execution_id finish_command (bk_world world_6) = (Ok receipt, w') ∧
    ∃ selected (malformed : bool) s,
      let given := if malformed then as_uncertain finish_command else finish_command in
      selection_of (w_db (bk_world world_6)) (fg_run_id finish_command) (selected, malformed) ∧
      terminal_graph_state (fg_terminal_state given) = Some s ∧
      finish_recorded (w_db w') execution_id given s.
Proof.
  destruct (finish_graph_node_run execution_id finish_command (bk_world world_6))
    as [[r| | |] w'] eqn:E.
  - exists r, w'. split; [reflexivity|].
    refine (a_finished_run_is_recorded_everywhere _ _ _ _ _ E).
  - returned.
  - returned.
  - returned.
Defined.
