(* ===== verification/ExecutionTheorems.v ===== *)
(** * Graph execution: the properties

    What the refinement of ExecutionFacts.v gives for whole executions. *)
From stdpp Require Import relations.
From S2P Require Import Prelude Policy Identity Graph Execution ExecutionFacts Samples.

(** ** Properties *)

Section properties.
Context `{Digest}.

(** C31. In a reachable execution every operation, accepted or refused, moves
    every node by a step of the abstract state machine [node_step], whose rules
    carry the guards (owner, run, readiness, transitive dependence on a dead
    node), and leaves the graph and the identity of the execution alone. *)
Theorem operations_refine_state_machine e op :
  reachable e → op_in_range op →
  Forall2 (node_step e op) e.(ge_nodes) (apply_op e op).(ge_nodes) ∧
  same_frame e (apply_op e op).
Proof.
  intros He Hop. split.
  - apply apply_op_refines; [by apply reachable_is_valid|done].
  - apply apply_op_frame.
Qed.

(** C32. Every reachable execution passes [GraphExecution::validate]: no sequence
    of operations on a started execution, whatever the results, leaves a state
    that a restart would refuse to load. *)
Theorem reachable_executions_validate e : reachable e → validate_execution e = Ok tt.
Proof. intros He. by apply validate_execution_ok, reachable_is_valid. Qed.

(** C34. No node is launched early: in a reachable execution a node that is
    awaiting approval, running or finished has all its dependencies recorded
    as succeeded. *)
Theorem no_node_launches_before_its_dependencies e n :
  reachable e → n ∈ e.(ge_nodes) → launched n → ready e n.(ne_node_id).
Proof.
  intros He Hn Hl. revert n Hn Hl. change (launches_ordered e).
  induction He as [id graph e Hs|e op He IH Hop].
  - unfold start in Hs. ok_inv. intros n Hn [Hp _]. cbn in Hn.
    by apply elem_of_map in Hn as (node & _ & ->).
  - apply launches_ordered_op; [by apply reachable_is_valid|done|done].
Qed.

(** A staged node leaves [AwaitingApproval] only by activation or by
    cancellation, and only when the operation presents the owner and the run
    that were staged. *)
Theorem staging_is_left_only_by_its_owner e op n n' :
  reachable e → op_in_range op →
  n ∈ e.(ge_nodes) → n' ∈ (apply_op e op).(ge_nodes) → n'.(ne_node_id) = n.(ne_node_id) →
  n.(ne_state) = AwaitingApproval → n'.(ne_state) ≠ AwaitingApproval →
  ∃ owner run, n.(ne_owner) = Some owner ∧ n.(ne_run_id) = Some run ∧
    (op = ActivateStaged n.(ne_node_id) owner run ∧ n'.(ne_state) = Running ∨
     op = CancelStaged n.(ne_node_id) owner run ∧ n'.(ne_state) = Cancelled).
Proof.
  intros He Hop Hn Hn' Hid Hs Hs'. apply reachable_is_valid in He as Hv.
  destruct (Forall2_elem_l _ _ _ _ (apply_op_refines e op Hv Hop) Hn) as (m & Hm & Hst).
  assert (m = n') as ->.
  { apply (NoDup_map_key ne_node_id (ge_nodes (apply_op e op))); [|done|done|].
    - apply (ve_nodup _ (apply_op_valid e op Hv Hop)).
    - by rewrite (node_step_id _ _ _ _ Hst). }
  inversion Hst; subst; try congruence; eexists _, _; (split_and!; [eassumption..|]); auto.
Qed.

(** Succeeded, cancelled and uncertain nodes are final: no operation changes
    their record in any way, so a retry keeps the results of their siblings. *)
Theorem finished_nodes_are_final e op n :
  reachable e → op_in_range op → n ∈ e.(ge_nodes) →
  n.(ne_state) = Succeeded ∨ n.(ne_state) = Cancelled ∨ n.(ne_state) = Uncertain →
  n ∈ (apply_op e op).(ge_nodes).
Proof.
  intros He Hop Hn Hs. apply reachable_is_valid in He as Hv.
  destruct (Forall2_elem_l _ _ _ _ (apply_op_refines e op Hv Hop) Hn) as (m & Hm & Hst).
  inversion Hst; subst; try done; exfalso; intuition congruence.
Qed.

(** [block_dependents] returns, and turns exactly the pending nodes that
    transitively need the dead node into blocked ones; every other record is
    unchanged. *)
Theorem block_dependents_blocks_exactly_the_dependents e id :
  reachable e →
  ∃ e', block_dependents e id = Ok e' ∧
    Forall2 (λ n n',
      (n.(ne_state) = Pending ∧ tc (depends e.(ge_graph)) n.(ne_node_id) id →
         n' = blocked_node n) ∧
      (¬ (n.(ne_state) = Pending ∧ tc (depends e.(ge_graph)) n.(ne_node_id) id) → n' = n))
      e.(ge_nodes) e'.(ge_nodes).
Proof.
  intros He. apply reachable_is_valid in He as Hv. destruct (ve_graph _ Hv) as [Hnd _ _ Hac _].
  destruct (block_dependents_correct (ge_graph e) Hnd id (ge_nodes e) (ve_nodup _ Hv) e)
    as (s & Hs & Hmem); [done|done|intros Hc; apply Hac; by exists id|].
  eexists. split; [exact Hs|]. cbn [ge_nodes set_nodes]. apply Forall2_map_r, Forall2_diag.
  intros n _. unfold mark. rewrite <- Hmem. destruct (in_state Pending n) eqn:Ep; cbn [andb].
  - apply in_state_true in Ep. case_bool_decide; split; intuition.
  - apply in_state_false in Ep. split; intuition.
Qed.


(** [claim_ready] hands out exactly the first [limit] nodes, in the order of
    the execution, that are pending with all dependencies succeeded, and marks
    those and only those as running for the owner. *)
Theorem claim_ready_claims_the_first_ready_nodes e owner limit :
  reachable e → (0 < limit)%Z → blank owner = false →
  ∃ ids, (claim_ready e owner limit).2 = Ok ids ∧
    ids = take (Z.to_nat limit) (execution_ids (List.filter
      (eligible e.(ge_graph) (state_map e.(ge_nodes))) e.(ge_nodes))) ∧
    (∀ n, n ∈ e.(ge_nodes) →
       (eligible e.(ge_graph) (state_map e.(ge_nodes)) n = true ↔
        n.(ne_state) = Pending ∧ ready e n.(ne_node_id))) ∧
    (claim_ready e owner limit).1.(ge_nodes) =
      map (λ n, if bool_decide (n.(ne_node_id) ∈ ids) then claimed_by owner n else n)
          e.(ge_nodes).
Proof.
  intros He Hlim Ho. apply reachable_is_valid in He as Hv.
  rewrite claim_ready_correct by (done || lia). cbv zeta. eexists. split; [done|].
  split; [done|]. split; [by intros; apply eligible_ready|].
  by destruct (bool_decide _).
Qed.

(** Progress: while a reachable execution has pending nodes and all others
    have succeeded, a claim with an owner and a positive limit is never empty,
    so the workflow cannot get stuck. *)
Theorem claims_make_progress e owner limit n :
  reachable e → n ∈ e.(ge_nodes) → n.(ne_state) = Pending →
  (∀ m, m ∈ e.(ge_nodes) → m.(ne_state) = Pending ∨ m.(ne_state) = Succeeded) →
  (0 < limit)%Z → blank owner = false →
  ∃ id ids, (claim_ready e owner limit).2 = Ok (id :: ids).
Proof.
  intros He Hn Hs Hall Hlim Ho. apply reachable_is_valid in He as Hv.
  rewrite claim_ready_correct by (done || lia). cbv zeta. cbn [snd].
  destruct (exists_ready e (ne_node_id n) Hv Hall) as (m & Hm & Hms & Hr); [eauto|].
  assert (Hel : m ∈ List.filter (eligible (ge_graph e) (state_map (ge_nodes e))) (ge_nodes e))
    by (apply elem_of_filter_bool; split; [done|by apply eligible_ready]).
  destruct (List.filter _ _) as [|x l]; [by apply elem_of_nil in Hel|].
  destruct (Z.to_nat limit) eqn:El; [lia|]. cbn. eauto.
Qed.

(** Evidence is append-only: no operation removes or rewrites a recorded
    output, at most one is appended, and the outputs of a reachable execution
    carry distinct runs, the hash of their own text and the id of a graph node. *)
Theorem outputs_are_append_only_and_hash_bound e op :
  reachable e → op_in_range op →
  (∃ new, (apply_op e op).(ge_outputs) = e.(ge_outputs) ++ new ∧ length new ≤ 1) ∧
  NoDup (map no_run_id e.(ge_outputs)) ∧
  ∀ o, o ∈ e.(ge_outputs) →
    o.(no_content_hash) = output_hash o.(no_markdown) ∧ blank o.(no_markdown) = false ∧
    (str_len o.(no_markdown) ≤ MAX_NODE_OUTPUT_BYTES)%Z ∧
    o.(no_node_id) ∈ node_ids e.(ge_graph).
Proof.
  intros He Hop. apply reachable_is_valid in He as Hv. split_and!.
  - destruct (apply_op_frame e op) as [_ [->|(o & _ & _ & ->)]].
    + exists []. rewrite app_nil_r. split; [done|simpl; lia].
    + exists [o]. split; [done|simpl; lia].
  - apply Hv.
  - intros o Ho. destruct (ve_outputs _ Hv o Ho) as [Hok ?].
    unfold output_validate in Hok. ok_inv. bool_prop. split_and!; auto. lia.
Qed.

(** A refused operation changes nothing: when the result is an error, the
    execution a reachable state is left in is the one before, also for
    [claim_ready] and [retry_failed], which report errors after assignments. *)
Theorem refused_claims_and_retries_change_nothing e owner limit id :
  reachable e → (0 ≤ limit)%Z →
  returns (claim_ready e owner limit).2 ∧ returns (retry_failed e id).2 ∧
  (is_ok (claim_ready e owner limit).2 = false → (claim_ready e owner limit).1 = e) ∧
  (is_ok (retry_failed e id).2 = false → (retry_failed e id).1 = e).
Proof.
  intros He Hlim. apply reachable_is_valid in He as Hv.
  assert (Hc : returns (claim_ready e owner limit).2 ∧
    (is_ok (claim_ready e owner limit).2 = false → (claim_ready e owner limit).1 = e)).
  { destruct (blank owner || bool_decide (limit = 0%Z)) eqn:Eb.
    - unfold claim_ready. by rewrite Eb.
    - apply orb_false_iff in Eb as [Ho Hl]. apply bool_decide_eq_false in Hl.
      by rewrite claim_ready_correct by done. }
  assert (Hr : returns (retry_failed e id).2 ∧
    (is_ok (retry_failed e id).2 = false → (retry_failed e id).1 = e)).
  { destruct (find_execution e id) as [n|] eqn:Hn; [|by unfold retry_failed; rewrite Hn].
    destruct (in_state Failed n) eqn:Es; [|by unfold retry_failed; rewrite Hn, Es].
    apply in_state_true in Es.
    by destruct (retry_failed_correct e id n Hv Hn Es) as (nodes & -> & _). }
  tauto.
Qed.

End properties.

(** [retry_failed] reopens more than the failed node and its descendants:
    in a reachable execution where one research branch failed and the other
    ended [Blocked] with its run and failure recorded, retrying the first
    makes the second pending and erases that evidence, although it has no
    dependency at all. *)
Theorem retry_reopens_an_unrelated_blocked_branch :
  ∃ e n n', @reachable sample_digest e ∧ validate_execution (H:=sample_digest) e = Ok tt ∧
    n ∈ e.(ge_nodes) ∧ n.(ne_state) = Blocked ∧ n.(ne_failure) = Some sample_failure ∧
    (∀ d, ¬ depends e.(ge_graph) n.(ne_node_id) d) ∧
    n' ∈ (retry_failed e id1).1.(ge_nodes) ∧ n'.(ne_node_id) = n.(ne_node_id) ∧
    n'.(ne_state) = Pending ∧ n'.(ne_run_id) = None ∧ n'.(ne_failure) = None.
Proof.
  set (ops := [ClaimReady "worker" 2; BindRun id1 "worker" id1; BindRun id2 "worker" id2;
               FinishTerminal id2 "worker" Blocked (Some sample_failure);
               Complete id1 "worker" false]).
  assert (Hr : @reachable sample_digest (run_ops sample_start ops)).
  { unfold run_ops, ops. cbn [fold_left]. repeat (apply reach_op; [|done]).
    by apply (reach_start id1 sample_graph). }
  set (e := run_ops sample_start ops) in *.
  destruct (ge_nodes e !! 1) as [n|] eqn:En; [|by vm_compute in En].
  destruct (ge_nodes (retry_failed e id1).1 !! 1) as [n'|] eqn:En'; [|by vm_compute in En'].
  exists e, n, n'. apply list_elem_of_lookup_2 in En as Hn. apply list_elem_of_lookup_2 in En' as Hn'.
  vm_compute in En, En'. simplify_eq. split_and!; try done.
  intros d (node & Hnode & Hd). vm_compute in Hnode. simplify_eq.
  by apply elem_of_nil in Hd.
Qed.

(** ** Witnesses

    Each property at a concrete execution of the sample graph. *)

#[local] Existing Instance sample_digest.

Lemma run_ops_reachable ops : Forall op_in_range ops → reachable (run_ops sample_start ops).
Proof.
  intros Hops. induction ops as [|op ops IH] using rev_ind.
  - by apply (reach_start id1 sample_graph).
  - apply Forall_app in Hops as [? Hop]. unfold run_ops. rewrite fold_left_app. cbn.
    apply reach_op; [by apply IH|]. by inversion Hop.
Qed.
Ltac sample_run := apply run_ops_reachable; repeat constructor; cbn; lia.

Lemma operations_refine_witness :
  let e := run_ops sample_start launch_ops in
  Forall2 (node_step e (CancelStaged id2 "worker" id2)) e.(ge_nodes)
    (apply_op e (CancelStaged id2 "worker" id2)).(ge_nodes) ∧
  same_frame e (apply_op e (CancelStaged id2 "worker" id2)).
Proof. apply operations_refine_state_machine; [sample_run|exact I]. Defined.

Lemma reachable_validate_witness :
  validate_execution (run_ops sample_start launch_ops) = Ok tt.
Proof. apply reachable_executions_validate. sample_run. Defined.

Lemma no_early_launch_witness :
  ready (run_ops sample_start both_succeed) id3.
Proof.
  apply (no_node_launches_before_its_dependencies (run_ops sample_start both_succeed)
    (staged_as "worker" id3 {| ne_node_id := id3; ne_state := Pending; ne_owner := None;
       ne_revision := 0; ne_run_id := None; ne_failure := None |})).
  - sample_run.
  - apply (list_elem_of_lookup_2 _ 2). vm_compute. reflexivity.
  - split; discriminate.
Defined.

Lemma staging_owner_witness :
  ∃ owner run, Some "worker" = Some owner ∧ Some (@id2 RunK) = Some run ∧
    (ActivateStaged id2 "worker" id2 = ActivateStaged id2 owner run ∧ Running = Running ∨
     ActivateStaged id2 "worker" id2 = CancelStaged id2 owner run ∧ Running = Cancelled).
Proof.
  set (n := staged_as "worker" id2 {| ne_node_id := id2; ne_state := Pending; ne_owner := None;
       ne_revision := 0; ne_run_id := None; ne_failure := None |}).
  apply (staging_is_left_only_by_its_owner (run_ops sample_start launch_ops)
           (ActivateStaged id2 "worker" id2) n (activated n)).
  - sample_run.
  - exact I.
  - apply (list_elem_of_lookup_2 _ 1). vm_compute. reflexivity.
  - apply (list_elem_of_lookup_2 _ 1). vm_compute. reflexivity.
  - reflexivity.
  - reflexivity.
  - discriminate.
Defined.

Lemma finished_final_witness :
  let e := run_ops sample_start both_succeed in
  let n := completed true (claimed_by "worker" {| ne_node_id := id1; ne_state := Pending;
       ne_owner := None; ne_revision := 0; ne_run_id := None; ne_failure := None |}) in
  n ∈ (apply_op e (RetryFailed id1)).(ge_nodes).
Proof.
  apply finished_nodes_are_final; [sample_run|exact I| |left; reflexivity].
  apply (list_elem_of_lookup_2 _ 0). vm_compute. reflexivity.
Defined.

Lemma block_dependents_witness :
  let e := run_ops sample_start launch_ops in
  ∃ e', block_dependents e id1 = Ok e' ∧
    Forall2 (λ n n',
      (n.(ne_state) = Pending ∧ tc (depends e.(ge_graph)) n.(ne_node_id) id1 →
         n' = blocked_node n) ∧
      (¬ (n.(ne_state) = Pending ∧ tc (depends e.(ge_graph)) n.(ne_node_id) id1) → n' = n))
      e.(ge_nodes) e'.(ge_nodes).
Proof. apply block_dependents_blocks_exactly_the_dependents. sample_run. Defined.


Lemma claim_ready_witness :
  ∃ ids, (claim_ready sample_start "worker" 1).2 = Ok ids ∧ length ids = 1.
Proof.
  destruct (claim_ready_claims_the_first_ready_nodes (run_ops sample_start []) "worker" 1)
    as (ids & Hr & Hi & _); [sample_run|done|done|].
  exists ids. split; [exact Hr|]. rewrite Hi. vm_compute. reflexivity.
Defined.

Lemma claims_progress_witness :
  ∃ id ids, (claim_ready sample_start "worker" 2).2 = Ok (id :: ids).
Proof.
  apply (claims_make_progress (run_ops sample_start []) "worker" 2
    {| ne_node_id := id1; ne_state := Pending; ne_owner := None; ne_revision := 0;
       ne_run_id := None; ne_failure := None |}).
  - sample_run.
  - apply (list_elem_of_lookup_2 _ 0). vm_compute. reflexivity.
  - reflexivity.
  - apply Forall_forall. repeat constructor.
  - done.
  - done.
Defined.

Lemma outputs_append_only_witness :
  let e := run_ops sample_start both_succeed in
  (∃ new, (apply_op e ReconcileAfterRestart).(ge_outputs) = e.(ge_outputs) ++ new ∧
     length new ≤ 1) ∧
  NoDup (map no_run_id e.(ge_outputs)) ∧
  ∀ o, o ∈ e.(ge_outputs) →
    o.(no_content_hash) = output_hash o.(no_markdown) ∧ blank o.(no_markdown) = false ∧
    (str_len o.(no_markdown) ≤ MAX_NODE_OUTPUT_BYTES)%Z ∧
    o.(no_node_id) ∈ node_ids e.(ge_graph).
Proof. apply outputs_are_append_only_and_hash_bound; [sample_run|exact I]. Defined.

Lemma refused_changes_nothing_witness :
  let e := run_ops sample_start launch_ops in
  returns (claim_ready e "" 2).2 ∧ returns (retry_failed e id3).2 ∧
  (is_ok (claim_ready e "" 2).2 = false → (claim_ready e "" 2).1 = e) ∧
  (is_ok (retry_failed e id3).2 = false → (retry_failed e id3).1 = e).
Proof. apply refused_claims_and_retries_change_nothing; [sample_run|done]. Defined.
