(* ===== verification/CoreTheorems.v ===== *)
(** * The domain records: the properties

    Policies, graphs, approvals, the four catalogs, the office state and the
    first-run workflow. *)
From stdpp Require Import relations.
From S2P Require Import Prelude Policy Identity Catalog Office Meeting Deliverable Approval.
From S2P Require Import Graph Execution ExecutionFacts M3 Mvp Samples.

(** ** Policies *)

(** [restrict] accepts a child policy exactly when its layer is strictly
    deeper and it grants nothing the parent does not grant; the accepted policy
    is the child itself, and the call always returns. *)
Theorem restrict_accepts_exactly_narrower_children (p c r : ScopedPolicy) :
  (restrict p c = Ok r ↔
   r = c ∧ layer_rank p.(sp_layer) < layer_rank c.(sp_layer) ∧
   ceiling_le c.(sp_ceiling) p.(sp_ceiling)) ∧
  returns (restrict p c).
Proof. split; [apply restrict_ok|apply restrict_returns]. Qed.

(** However long the chain of accepted restrictions, the last policy grants
    no more than the first, and the chain is at most three links long. *)
Theorem restriction_chains_never_widen (p q : ScopedPolicy) children :
  restrict_chain p children = Ok q →
  ceiling_le q.(sp_ceiling) p.(sp_ceiling) ∧ length children ≤ 3.
Proof.
  intros [Hle Hlen]%restrict_chain_ok. split; [done|].
  destruct (sp_layer q); cbn [layer_rank] in Hlen; lia.
Qed.

(** ** Graphs *)

(** C37. [WorkflowGraph::validate] accepts exactly the well-formed graphs: distinct
    ids, titles, closed and acyclic dependencies, and a join of the only two
    research nodes.  [Cycle] is reported exactly for graphs that pass the checks
    on ids, titles and dependency targets and whose dependencies are cyclic, and
    the search always returns within its recursion depth. *)
Theorem validate_graph_accepts_exactly_well_formed_graphs graph :
  (validate_graph graph = Ok tt ↔ wf_graph graph) ∧
  (validate_graph graph = Err Cycle ↔
   NoDup (node_ids graph) ∧
   (∀ node, node ∈ graph.(wg_nodes) → blank node.(gn_title) = false) ∧
   closed_needs graph ∧ ∃ id, tc (depends graph) id id) ∧
  returns (validate_graph graph).
Proof.
  split; [apply validate_graph_ok|split; [apply validate_graph_cycle|apply validate_graph_returns]].
Qed.

(** ** Approvals *)

Section approvals.
Context `{Digest} `{Serializer}.

(** A decision is accepted exactly when it names its actor, carries the id and
    the hash of the request, and was taken in the request's validity interval,
    which includes its start and excludes its end. *)
Theorem decisions_are_accepted_exactly_in_their_interval r d :
  verify_decision r d = Ok tt ↔
  blank d.(ad_actor) = false ∧ d.(ad_request_id) = r.(ar_id) ∧
  d.(ad_request_hash) = r.(ar_request_hash) ∧
  (r.(ar_created_at_ms) ≤ d.(ad_decided_at_ms) < r.(ar_expires_at_ms))%Z.
Proof. apply verify_decision_ok. Qed.

(** C33. A credential-use approval that passes [validate_against] is unchanged since
    it was hashed, asks for one run with full credential permission at high
    risk and without persistence, and is bound to a chain of active catalog
    entities, within the ceilings of the project and the role. *)
Theorem credential_use_is_bound_to_an_active_chain r c b :
  validate_against r c = Ok tt → r.(ar_action).(aa_scope).(sc_credential_binding) = Some b →
  request_validate_unchanged r = Ok tt ∧ valid_grant r.(ar_action) b ∧
  r.(ar_action).(aa_requested_policy).(sp_layer) = SingleRun ∧
  credential_chain c r.(ar_action) b.
Proof. apply validate_against_ok. Qed.

(** Two unchanged requests with the same hash are the same request, unless
    their encodings are a collision of SHA-256. *)
Theorem request_hash_binds_the_request r r' :
  (∀ x y : HashInput, to_vec x = to_vec y → x = y) →
  request_validate_unchanged r = Ok tt → request_validate_unchanged r' = Ok tt →
  r.(ar_request_hash) = r'.(ar_request_hash) → r = r' ∨ collision.
Proof.
  rewrite !request_validate_unchanged_ok. intros Hinj Hr Hr' E.
  destruct (canonical_hash_inj r.(ar_id) r.(ar_created_at_ms) r.(ar_expires_at_ms) r.(ar_action)
    r'.(ar_id) r'.(ar_created_at_ms) r'.(ar_expires_at_ms) r'.(ar_action)) as [(? & ? & ? & ?)|?];
    [done|congruence| |by right].
  left. destruct r, r'; cbn in *. congruence.
Qed.

(** [create] accepts exactly the valid actions with a future expiry; a created
    request is unchanged, and checking it against any catalog returns. *)
Theorem created_requests_are_valid_and_checkable id created expires action parent :
  (is_ok (request_create id created expires action parent) = true ↔
   valid_action action parent ∧ (created < expires)%Z) ∧
  ∀ r, request_create id created expires action parent = Ok r →
    request_validate_unchanged r = Ok tt ∧ r.(ar_action) = action ∧
    ∀ c, returns (validate_against r c).
Proof.
  assert (Hret : returns (request_create id created expires action parent)).
  { unfold request_create, validate_action, validate_action_binding. solve_returns. }
  split.
  - split.
    + destruct (request_create _ _ _ _ _) as [r| | |] eqn:E; try done.
      intros _. apply request_create_ok in E. tauto.
    + intros [Hv Ht]. assert (Hc : ∃ r, request_create id created expires action parent = Ok r)
        by (eexists; by apply request_create_ok).
      by destruct Hc as [r ->].
  - intros r (Hv & Ht & ->)%request_create_ok. split_and!; [|done|].
    + by apply request_validate_unchanged_ok.
    + intros c. apply validate_against_returns. cbn. intros b Hb.
      apply (vg_run _ _ (va_grant _ _ Hv b Hb)).
Qed.

(** The checks of a credential binding run before those of the action: on a
    request that carries the hash of its contents and a consistent catalog,
    [validate_against] panics when the binding has no run, where the checks of
    the action would have reported the missing run.  (No request made by
    [create] is of this kind.) *)
Theorem validate_against_panics_on_a_binding_without_run :
  ∃ r c, validate_catalog c = Ok tt ∧ request_validate_unchanged r = Ok tt ∧
    r.(ar_action).(aa_scope).(sc_run_id) = None ∧ validate_against r c = Panic ∧
    validate_action r.(ar_action) (sample_policy RoleOrAgent) = Err CredentialBindingRunRequired.
Proof.
  exists (sample_request None), sample_catalog. split_and!; [by vm_compute| |done| |by vm_compute].
  - unfold request_validate_unchanged, sample_request. cbn. by rewrite bool_decide_true.
  - unfold validate_against, request_validate_unchanged.
    rewrite bool_decide_true by done. by vm_compute.
Qed.

End approvals.

(** ** Catalogs *)

(** [IdentityCatalog::validate] accepts exactly the consistent catalogs: distinct
    ids, filled fields, policy layers, resolving references, accounts and
    instances of one provider, and run times that fit the run states; it always
    returns. *)
Theorem validate_catalog_accepts_exactly_consistent_catalogs c :
  (validate_catalog c = Ok tt ↔ valid_catalog c) ∧ returns (validate_catalog c).
Proof. split; [apply validate_catalog_ok|apply validate_catalog_returns]. Qed.

(** [OfficeCatalog::validate] accepts exactly the offices whose profiles have
    one labelled asset for every required state and whose assignments and rooms
    resolve, at most one pet per project role. *)
Theorem validate_office_accepts_exactly_complete_offices o c :
  (validate_office o c = Ok tt ↔ valid_office o c) ∧ returns (validate_office o c).
Proof. split; [apply validate_office_ok|apply validate_office_returns]. Qed.

(** [MeetingCatalog::validate] accepts exactly the bounded meetings in rooms of
    their project, with numbered rounds and distinct known participants, and
    the baselines that carry the hash of their text and belong, one each, to a
    meeting that is at its decision. *)
Theorem validate_meetings_accepts_exactly_bounded_meetings `{Digest} ms c o :
  (validate_meetings ms c o = Ok tt ↔ valid_meetings ms c o) ∧
  returns (validate_meetings ms c o).
Proof. split; [apply validate_meetings_ok|apply validate_meetings_returns]. Qed.

(** [DeliverableCatalog::validate] accepts exactly the catalogs whose documents
    are unbroken, hash-bound version chains with two sources each, whose costs
    are finite non-negative amounts with a confidence in the unit interval, and
    whose deliveries carry a receipt exactly when delivered and refer to an
    accepted version. *)
Theorem validate_deliverables_accepts_exactly_sound_ledgers `{Digest} dc :
  (validate_deliverables dc = Ok tt ↔ valid_deliverables dc) ∧
  returns (validate_deliverables dc).
Proof. split; [apply validate_deliverables_ok|apply validate_deliverables_returns]. Qed.

(** A version that was created validates; binding a receipt and accepting keep
    it valid, change neither its text nor its hash, and succeed at most once. *)
Theorem document_versions_are_bound_and_accepted_once `{Digest} v v' :
  (∀ id n parent text sources, version_create id n parent text sources = Ok v →
     version_validate_unchanged v = Ok tt ∧ v.(dv_markdown) = text) ∧
  (∀ e j hash, bind_join_receipt v e j hash = Ok v' →
     v'.(dv_markdown) = v.(dv_markdown) ∧ v'.(dv_content_hash) = v.(dv_content_hash) ∧
     (version_validate_unchanged v = Ok tt → version_validate_unchanged v' = Ok tt) ∧
     ∀ e' j' hash', is_err (bind_join_receipt v' e' j' hash') = true) ∧
  (∀ actor at_, accept v actor at_ = Ok v' →
     v'.(dv_markdown) = v.(dv_markdown) ∧ v'.(dv_content_hash) = v.(dv_content_hash) ∧
     version_validate_unchanged v' = Ok tt ∧
     ∀ actor' at', is_err (accept v' actor' at') = true).
Proof.
  split_and!.
  - intros id n parent text sources E. unfold version_create in E. ok_inv. bool_prop.
    rewrite version_validate_unchanged_ok. split; [|done]. by split.
  - intros e j hash E. unfold bind_join_receipt in E. ok_inv. bool_prop. cbn. split_and!; try done.
    + rewrite !version_validate_unchanged_ok. intros []. split; try done.
      unfold valid_source_receipt. cbn. by apply negb_true_iff.
    + intros e' j' hash'. unfold bind_join_receipt. cbn.
      by destruct (blank hash').
  - intros actor at_ E. unfold accept in E. ok_inv. bool_prop. cbn.
    match goal with H : version_validate_unchanged v = _ |- _ =>
      apply version_validate_unchanged_ok in H as [] end.
    match goal with |- _ ∧ _ ∧ version_validate_unchanged ?w = _ ∧ _ =>
      assert (Hw : version_validate_unchanged w = Ok tt) by by apply version_validate_unchanged_ok
    end.
    split_and!; try done. intros actor' at'. unfold accept. by rewrite Hw.
Qed.

(** [M3State::validate] accepts exactly the states in which the catalogs are
    valid on their own and everything that refers resolves: executions to
    baselines and roles, outputs and costs to runs and nodes, documents to the
    join of the research outputs whose hash they carry. *)
Theorem validate_m3_accepts_exactly_resolved_states `{Digest} s c :
  (validate_m3 s c = Ok tt ↔ valid_m3 s c) ∧ returns (validate_m3 s c).
Proof. split; [apply validate_m3_ok|apply validate_m3_returns]. Qed.

(** ** The first-run workflow *)

(** [prepare] fails on its inputs alone: given distinct fresh identifiers the
    draft it assembles always passes its own validation. *)
Theorem prepared_drafts_always_validate `{Digest} is_dir ids name root codex agy :
  distinct_mvp_ids ids →
  prepare_draft is_dir ids name root codex agy =
  if blank name || negb (is_absolute root) || negb (is_dir root) || blank codex || blank agy
  then Err InvalidProject
  else Ok (initial_draft ids name root codex agy).
Proof. apply prepare_draft_ok. Qed.

(** Accepting the decision of a prepared draft with a text, an actor and a time
    succeeds, and the catalog with the started execution is a state that
    [M3State::validate] accepts. *)
Theorem accepted_decisions_give_valid_states `{Digest} ids dids is_dir name root codex agy draft
    content actor at_ :
  distinct_mvp_ids ids → distinct_decision_ids dids →
  prepare_draft is_dir ids name root codex agy = Ok draft →
  blank content = false → blank actor = false → blank at_ = false →
  ∃ draft' e, accept_decision dids draft content actor at_ = (draft', Ok e) ∧
    validate_m3 {| ms_catalog := draft'.(mv_m3); ms_graph_executions := [e] |} draft'.(mv_identity)
    = Ok tt.
Proof.
  intros. destruct (accept_prepared ids dids is_dir name root codex agy draft content actor at_)
    as (draft' & e & E & Hv); [done..|].
  exists draft', e. split; [done|]. by apply validate_m3_ok.
Qed.

(** A decision is all or nothing and is taken once: a refused one leaves the
    catalog as it was, an accepted one adds one baseline and starts a valid
    execution of it, and the same meeting cannot be decided again. *)
Theorem decisions_are_atomic_and_final `{Digest} ids ids' m3 identity meeting_id content actor at_
    content' actor' at' :
  distinct_decision_ids ids →
  let r := accept_mvp_decision ids m3 identity meeting_id content actor at_ in
  ((∃ e, r.2 = Err e) ∧ r.1 = m3) ∨
  ∃ e baseline,
    r.2 = Ok e ∧ validate_execution e = Ok tt ∧
    r.1.(m3_meetings).(mc_decision_baselines)
      = m3.(m3_meetings).(mc_decision_baselines) ++ [baseline] ∧
    baseline_validate_unchanged baseline = Ok tt ∧ baseline.(db_content) = content ∧
    e.(ge_graph).(wg_decision_baseline_id) = baseline.(db_metadata).(em_id) ∧
    accept_mvp_decision ids' r.1 identity meeting_id content' actor' at'
      = (r.1, Err NotAwaitingDecision).
Proof.
  intros Hids. cbv zeta.
  destruct (accept_mvp_decision_cases ids m3 identity meeting_id content actor at_ Hids)
    as [?|(m & l & r & i & b & e & Hm & Hs & Hp & Hr & Hb & He & ->)]; [by left|right].
  exists e, b. cbn [fst snd m3_meetings mc_decision_baselines].
  pose proof (baseline_create_ok _ _ _ _ _ _ Hb) as (Hbv & Hbc & _).
  split_and!; try done.
  - apply validate_execution_ok. by eapply start_valid.
  - unfold start in He. apply obind_ok in He as (? & _ & [= <-]).
    unfold baseline_create in Hb. by apply fail_if_ok in Hb as [_ [= <-]].
  - unfold accept_mvp_decision. cbn [m3_meetings mc_meetings].
    rewrite (find_update_first _ (set_state Accepted) _ _ Hm).
    + done.
    + by apply find_Some_elem in Hm as [_ Hm].
Qed.

(** ** Witnesses *)

#[local] Existing Instance sample_digest.
#[local] Existing Instance sample_serializer.

Lemma restriction_chains_witness :
  ceiling_le (sample_policy SingleRun).(sp_ceiling) (sample_policy Workstation).(sp_ceiling) ∧
  length [sample_policy ProjectLayer; sample_policy RoleOrAgent; sample_policy SingleRun] ≤ 3.
Proof. apply restriction_chains_never_widen. by vm_compute. Defined.

Lemma credential_use_witness :
  request_validate_unchanged (sample_request (Some id1)) = Ok tt ∧
  valid_grant (sample_request (Some id1)).(ar_action) sample_binding ∧
  (sample_request (Some id1)).(ar_action).(aa_requested_policy).(sp_layer) = SingleRun ∧
  credential_chain sample_catalog (sample_request (Some id1)).(ar_action) sample_binding.
Proof.
  apply credential_use_is_bound_to_an_active_chain; [|reflexivity].
  unfold validate_against, request_validate_unchanged. rewrite bool_decide_true by reflexivity.
  by vm_compute.
Defined.

Lemma request_hash_witness :
  sample_request (Some id1) = sample_request (Some id1) ∨ collision.
Proof.
  apply request_hash_binds_the_request.
  - apply sample_serializer_inj.
  - by apply request_validate_unchanged_ok.
  - by apply request_validate_unchanged_ok.
  - reflexivity.
Defined.

Lemma created_requests_witness :
  request_validate_unchanged (sample_request (Some id1)) = Ok tt ∧
  ∀ c, returns (validate_against (sample_request (Some id1)) c).
Proof.
  destruct (created_requests_are_valid_and_checkable id1 10 20 (sample_action (Some id1))
    (sample_policy RoleOrAgent)) as [_ Hc].
  destruct (Hc (sample_request (Some id1))) as (? & _ & ?); [|by split].
  unfold request_create, sample_request.
  assert (Ha : validate_action (sample_action (Some id1)) (sample_policy RoleOrAgent) = Ok tt)
    by by vm_compute.
  by rewrite Ha.
Defined.

Lemma prepared_drafts_witness :
  prepare_draft (λ _, true) sample_mvp_ids "Office" "/work" "gpt" "agy"
  = Ok (initial_draft sample_mvp_ids "Office" "/work" "gpt" "agy").
Proof.
  rewrite prepared_drafts_always_validate; [by vm_compute|apply sample_mvp_ids_distinct].
Defined.

Lemma accepted_decisions_witness :
  ∃ draft' e, accept_decision sample_decision_ids
      (initial_draft sample_mvp_ids "Office" "/work" "gpt" "agy") "Do it" "human" "t1"
    = (draft', Ok e) ∧
    validate_m3 {| ms_catalog := draft'.(mv_m3); ms_graph_executions := [e] |} draft'.(mv_identity)
    = Ok tt.
Proof.
  apply (accepted_decisions_give_valid_states sample_mvp_ids sample_decision_ids (λ _, true)
    "Office" "/work" "gpt" "agy").
  - apply sample_mvp_ids_distinct.
  - apply sample_decision_ids_distinct.
  - rewrite prepare_draft_ok; [by vm_compute|apply sample_mvp_ids_distinct].
  - by vm_compute.
  - by vm_compute.
  - by vm_compute.
Defined.

Lemma decisions_atomic_witness :
  let d := initial_draft sample_mvp_ids "Office" "/work" "gpt" "agy" in
  let r := accept_mvp_decision sample_decision_ids d.(mv_m3) d.(mv_identity) id1 "Do it" "human" "t1" in
  (∃ e, r.2 = Err e) ∧ r.1 = d.(mv_m3) ∨
  ∃ e baseline,
    r.2 = Ok e ∧ validate_execution e = Ok tt ∧
    r.1.(m3_meetings).(mc_decision_baselines)
      = d.(mv_m3).(m3_meetings).(mc_decision_baselines) ++ [baseline] ∧
    baseline_validate_unchanged baseline = Ok tt ∧ baseline.(db_content) = "Do it" ∧
    e.(ge_graph).(wg_decision_baseline_id) = baseline.(db_metadata).(em_id) ∧
    accept_mvp_decision sample_decision_ids r.1 d.(mv_identity) id1 "Again" "human" "t2"
      = (r.1, Err NotAwaitingDecision).
Proof. apply decisions_are_atomic_and_final, sample_decision_ids_distinct. Defined.

Lemma document_versions_witness :
  ∃ v v', version_create id1 1 None "text" [] = Ok v ∧ accept v "human" "t1" = Ok v' ∧
    version_validate_unchanged v' = Ok tt ∧ is_err (accept v' "other" "t2") = true.
Proof.
  destruct (version_create id1 1 None "text" []) as [v| | |] eqn:Ev; try (by vm_compute in Ev).
  destruct (accept v "human" "t1") as [v'| | |] eqn:Ea;
    try (by vm_compute in Ev; injection Ev as <-; vm_compute in Ea).
  destruct (document_versions_are_bound_and_accepted_once v v') as (_ & _ & H).
  destruct (H _ _ Ea) as (_ & _ & Hv & Hagain). exists v, v'. by split_and!.
Defined.
