(* ===== verification/ProcessTheorems.v ===== *)
(** * Adapter processes and workspaces: the properties

    The output queue under every interleaving, the line decoder and the input
    writer under every schedule, the launch encodings and the evidence of a
    workspace. *)
From stdpp Require Import relations.
From S2P Require Import Prelude OutputQueue LineDecoder InputWriter WinEncoding ProcessEnv.
From S2P Require Import Workspace Samples.

(** ** The sandbox *)

(** C23. A command that [launch_command] gives runs under an enforcer that is
    there, in the workspace, and never on Windows; every directory of the
    profile is absolute, is not the root of the file system under its own name
    or another, and has no [..].  The enforcer reads the command as exactly the
    profile: it may read below the workspace and the read-only roots, write
    below the workspace and use the network exactly when that is allowed, and
    runs the executable with the arguments; beside that it may look at the
    directories above those roots themselves. *)
Theorem sandboxed_commands_grant_the_declared_scope canonicalize is_file profile platform
    executable arguments command :
  Sandbox.launch_command canonicalize is_file profile platform executable arguments = Ok command →
  platform ≠ Sandbox.WindowsAppContainer ∧
  is_file (Sandbox.la_program command) = true ∧
  Sandbox.la_directory command = Sandbox.sp_workspace_root profile ∧
  Forall (Sandbox.grantable canonicalize) (Sandbox.read_paths profile) ∧
  ∃ s, Sandbox.enforced command = Some s ∧
    Sandbox.sc_reads s ≡ₚ Sandbox.read_paths profile ∧
    Sandbox.sc_writes s = (if Sandbox.sp_allow_workspace_write profile
                           then [Sandbox.sp_workspace_root profile] else []) ∧
    Sandbox.sc_network s = Sandbox.sp_allow_network profile ∧
    Sandbox.sc_command s = executable :: arguments ∧
    ∀ path, path ∈ Sandbox.sc_passages s →
      ∃ root, root ∈ Sandbox.read_paths profile ∧ path ∈ tail (Sandbox.ancestors root).
Proof.
  unfold Sandbox.launch_command.
  destruct (Sandbox.validate canonicalize profile) as [[]| | |] eqn:Hv; try done.
  destruct (Sandbox.platform_command is_file profile platform executable) as [c| | |] eqn:Hc; try done.
  cbn [obind]. intros [= <-].
  destruct (Sandbox.platform_command_Ok profile canonicalize is_file platform executable arguments
              (Sandbox.sp_workspace_root profile) c Hv Hc) as (Hf & Hw & Hs).
  split_and!; [done..| |done].
  eapply Forall_impl; [by apply Sandbox.validate_grantable|]. by intros path [? _].
Qed.

(** A workspace that may be written, with a runtime beside it, on either platform. *)
Lemma sandboxed_commands_witness :
  let profile := {| Sandbox.sp_workspace_root := "/home/a b/work"%string;
                    Sandbox.sp_read_only_roots := ["/usr/lib"%string];
                    Sandbox.sp_allow_workspace_write := true; Sandbox.sp_allow_network := false |} in
  let launch platform := Sandbox.launch_command Some (λ _, true) profile platform "/usr/bin/agent" ["--serve"%string] in
  ∃ c c' s s', launch Sandbox.MacosSeatbelt = Ok c ∧ launch Sandbox.LinuxBubblewrap = Ok c' ∧
    Sandbox.enforced c = Some s ∧ Sandbox.enforced c' = Some s' ∧
    Sandbox.sc_passages s = ["/home/a b"; "/home"; "/"; "/usr"; "/"]%string ∧
    Sandbox.sc_reads s ≡ₚ Sandbox.sc_reads s' ∧ Sandbox.sc_network s' = false.
Proof.
  cbv zeta.
  destruct (sandboxed_commands_grant_the_declared_scope Some (λ _, true)
              {| Sandbox.sp_workspace_root := "/home/a b/work";
                 Sandbox.sp_read_only_roots := ["/usr/lib"%string];
                 Sandbox.sp_allow_workspace_write := true; Sandbox.sp_allow_network := false |}
              Sandbox.MacosSeatbelt "/usr/bin/agent" ["--serve"%string] _ eq_refl)
    as (_ & _ & _ & _ & s & Es & Hr & _).
  destruct (sandboxed_commands_grant_the_declared_scope Some (λ _, true)
              {| Sandbox.sp_workspace_root := "/home/a b/work";
                 Sandbox.sp_read_only_roots := ["/usr/lib"%string];
                 Sandbox.sp_allow_workspace_write := true; Sandbox.sp_allow_network := false |}
              Sandbox.LinuxBubblewrap "/usr/bin/agent" ["--serve"%string] _ eq_refl)
    as (_ & _ & _ & _ & s' & Es' & Hr' & _ & Hn & _).
  eexists _, _, s, s'. split_and!; [reflexivity..|exact Es|exact Es'| | |exact Hn].
  - revert Es. vm_compute. by intros [= <-].
  - by rewrite Hr, Hr'.
Defined.

(** ** The output queue *)

(** C36. Under every interleaving of senders, the receiver and the destructors, the
    byte counter is the total size of the envelopes that exist and stays within
    16 MiB, the channel holds at most 128 items, and what was delivered is a
    prefix of what was accepted; until a failure or the end of the receiver,
    nothing accepted is lost and the order is kept. *)
Theorem output_queue_is_bounded_and_ordered {T} (q : queue_state T) :
  rtc queue_step output_queue q →
  q.(q_used) = (sizes q.(q_reserved) + sizes q.(q_rejected) + sizes q.(q_channel)
                + sizes (taken q) + sizes q.(q_dropping))%Z ∧
  (0 ≤ q.(q_used) ≤ OUTPUT_QUEUE_BYTES)%Z ∧
  length q.(q_channel) ≤ OUTPUT_QUEUE_ITEMS ∧
  q.(q_delivered) `prefix_of` q.(q_accepted) ∧
  (q.(q_failed) = false → q.(q_open) = true →
   q.(q_accepted) = q.(q_delivered) ++ map fst (taken q) ++ map fst q.(q_channel)).
Proof.
  intros Hs. apply queue_inv_steps in Hs as ((Hu & Hb & _ & Hr & Hj & Hc & Ht & Hd) & Hi & Ho & Hp & _);
    [|apply output_queue_inv].
  pose proof (sizes_nonneg _ Hr). pose proof (sizes_nonneg _ Hj). pose proof (sizes_nonneg _ Hc).
  pose proof (sizes_nonneg _ Ht). pose proof (sizes_nonneg _ Hd).
  split_and!; [done|lia|done..].
Qed.

Lemma output_queue_bounded_witness :
  let q := (send output_queue "line"%string 4).1 in
  q.(q_accepted) = ["line"%string] ∧ (0 ≤ q.(q_used) ≤ OUTPUT_QUEUE_BYTES)%Z.
Proof.
  cbv zeta. split; [done|]. eapply output_queue_is_bounded_and_ordered.
  eapply rtc_l; [by apply (step_check _ "line"%string 4)|]. eapply rtc_l.
  - by apply (step_reserve _ [] [] ("line"%string, 4%Z)).
  - apply rtc_once. by apply (step_enqueue _ [] [] ("line"%string, 4%Z)).
Defined.

(** [send] and [recv_timeout] are runs of the interleaving semantics.  [send]
    answers [true] exactly when the queue has not failed, the bytes fit and the
    channel has room; otherwise the queue has failed from then on, and whatever
    happens later nothing more is delivered. *)
Theorem queue_methods_refine_the_interleaving {T} (q q' : queue_state T) v n b :
  (0 ≤ n)%Z → send q v n = (q', b) →
  rtc queue_step q q' ∧
  (b = true ↔ q.(q_failed) = false ∧ (q.(q_used) + n ≤ OUTPUT_QUEUE_BYTES)%Z ∧ has_room q = true) ∧
  q'.(q_accepted) = q.(q_accepted) ++ (if b then [v] else []) ∧
  (b = false → ∀ q2, rtc queue_step q' q2 →
     q2.(q_failed) = true ∧ q2.(q_delivered) = q'.(q_delivered)) ∧
  (q.(q_open) = true → q.(q_receiving) = false → q.(q_taken) = None →
   ∀ q2 r, recv_timeout q = (q2, r) →
     rtc queue_step q q2 ∧
     q2.(q_delivered) = q.(q_delivered) ++ (match r with Some v => [v] | None => [] end)).
Proof.
  intros Hn Hs. pose proof (send_steps q v n q' b Hn Hs) as (Hr & Ha & Hf).
  split; [done|]. split; [|split; [done|split]].
  - revert Hs. unfold send. destruct (q_failed q); [intros [= <- <-]; naive_solver|].
    cbv zeta. cbn [q_check q_used]. destruct (reserve (q_used q) n) as [total|] eqn:Er.
    + apply reserve_Some in Er as [-> ?]. change (has_room (q_reserve _ _ _ _)) with (has_room q).
      destruct (has_room q); intros [= <- <-]; naive_solver.
    + intros [= <- <-]. split; [done|]. intros (_ & Hle & _).
      assert (reserve (q_used q) n = Some (q_used q + n)%Z) by by apply reserve_Some. congruence.
  - intros Hb q2. apply failed_is_sticky. auto.
  - intros Ho Hrc Ht q2 r E. destruct (recv_timeout_steps q q2 r) as (? & ? & _); done.
Qed.

Lemma queue_methods_witness :
  (send output_queue "line"%string (OUTPUT_QUEUE_BYTES + 1)).2 = false ∧
  rtc queue_step output_queue (send output_queue "line"%string (OUTPUT_QUEUE_BYTES + 1)).1.
Proof.
  split; [by vm_compute|].
  by refine (proj1 (queue_methods_refine_the_interleaving output_queue _ "line"%string
                      (OUTPUT_QUEUE_BYTES + 1) false _ _)).
Defined.

(** ** The line decoder *)

(** C39. What the sink receives depends on the bytes alone: two undisturbed
    schedules that read the same bytes, cut into chunks in any way and with any
    number of polls in between, cannot be told apart, whatever follows. *)
Theorem decoding_ignores_how_the_output_is_cut sink ticks ticks' more :
  Forall undisturbed ticks → Forall undisturbed ticks' →
  concat (map tick_bytes ticks) = concat (map tick_bytes ticks') →
  read_stdout sink [] [] (ticks ++ more) = read_stdout sink [] [] (ticks' ++ more).
Proof.
  intros Ht Ht' E. rewrite !read_stdout_app.
  rewrite !(read_stdout_feed sink [] []), E by (done || apply not_elem_of_nil). done.
Qed.

Definition sample_tick (bytes : list byte) : tick :=
  {| t_stopped_first := false; t_available := Available (length bytes);
     t_stopped_second := false; t_read := ReadBytes bytes; t_stopped_third := false |}.

Lemma decoding_ignores_cut_witness :
  let bytes := String.list_ascii_of_string "first" ++ [newline] ++ String.list_ascii_of_string "sec" in
  read_stdout (λ _, true) [] [] ([sample_tick bytes] ++ []) =
  read_stdout (λ _, true) [] [] ([sample_tick (take 2 bytes); sample_tick (drop 2 bytes)] ++ []).
Proof.
  cbv zeta. apply decoding_ignores_how_the_output_is_cut; [|..|done];
    repeat constructor; done.
Defined.

(** Whatever the reads, the errors, the stops and the answers of the sink, the
    reader neither panics nor loops, and every line it hands over is valid UTF-8
    of at most 8 MiB without a newline. *)
Theorem handed_over_lines_are_sound sink ticks :
  ∃ r, read_stdout sink [] [] ticks = Ok r ∧
       Forall line_ok (match r with inl (_, ev) => ev | inr ev => ev end).
Proof. apply read_stdout_lines; [done|set_solver|constructor]. Qed.

(** ** The input writer *)

(** [encode_json_line] accepts exactly the values whose line fits in 8 MiB; the
    frame is the text and a newline, and a sequence of frames fed to the line
    decoder is read back as the lines that were written. *)
Theorem encoded_lines_are_exact_and_read_back allocates sink values :
  (∀ c, allocates c = true) → (∀ received, sink received = true) →
  (∀ v, v ∈ values → v.(sz_error) = None ∧ plain_line (concat v.(sz_buffers))) →
  (∀ v, v ∈ values →
     encode_json_line allocates v =
     if (len (concat v.(sz_buffers)) <? MAX_INPUT_FRAME_BYTES)%Z
     then Ok (concat v.(sz_buffers) ++ [newline]) else Err oversized_error) ∧
  ∀ frames, map (encode_json_line allocates) values = map Ok frames →
    same_decoding (feed_all sink (running [] []) (concat frames))
      (running [] (map (λ v, Line (concat v.(sz_buffers))) values)).
Proof.
  intros Hal Hs Hv.
  assert (Henc : ∀ v, v ∈ values → encode_json_line allocates v =
     if (len (concat v.(sz_buffers)) <? MAX_INPUT_FRAME_BYTES)%Z
     then Ok (concat v.(sz_buffers) ++ [newline]) else Err oversized_error).
  { intros v Hin. rewrite encode_json_line_spec by (done || by apply Hv). cbv zeta.
    unfold len. rewrite length_app, Nat2Z.inj_add. cbn [length].
    destruct (Z.ltb_spec (Z.of_nat (length (concat (sz_buffers v)))) MAX_INPUT_FRAME_BYTES);
      [rewrite (proj2 (Z.leb_le _ _)) by lia|rewrite (proj2 (Z.leb_gt _ _)) by lia]; done. }
  split; [done|]. intros frames Hf.
  assert (frames = map (λ line, line ++ [newline]) (map (λ v, concat v.(sz_buffers)) values)) as ->.
  { clear Hv Hs. revert frames Hf. induction values as [|v values IH]; intros [|f frames] Hf; try done.
    cbn [map] in Hf |- *. injection Hf as Hf Hfs. rewrite Henc in Hf by left.
    destruct (_ <? _)%Z; [|done]. injection Hf as <-. f_equal. apply IH; [|done].
    intros w Hw. apply Henc. by right. }
  rewrite (feed_lines sink []); [by rewrite map_map|done|].
  apply Forall_forall. intros line (v & Hv' & ->)%elem_of_map. by apply Hv.
Qed.

Definition sample_line : serialization :=
  {| sz_buffers := map String.list_ascii_of_string ["{"; "}"]%string; sz_error := None |}.

Lemma encoded_lines_witness :
  same_decoding (feed_all (λ _, true) (running [] []) (String.list_ascii_of_string "{}" ++ [newline]))
    (running [] [Line (String.list_ascii_of_string "{}")]).
Proof.
  refine (proj2 (encoded_lines_are_exact_and_read_back (λ _, true) (λ _, true) [sample_line]
                   (λ _, eq_refl) (λ _, eq_refl) _)
            [String.list_ascii_of_string "{}" ++ [newline]] _); [|by vm_compute].
  intros v ->%list_elem_of_singleton. unfold plain_line. split_and!; [done| |done..].
  intros Hin. rewrite list_elem_of_In in Hin. vm_compute in Hin. naive_solver.
Defined.

(** The pipe receives whole frames, in order; the writer stops at the first
    frame whose write fails or that ends in a stop, of which the pipe holds a
    prefix, and answers nothing after it. *)
Theorem pipe_holds_whole_frames_up_to_a_failure pipe requests pipe' results :
  write_stdin pipe requests = (pipe', results) →
  ∃ n cut, pipe' = pipe ++ concat (map wr_frame (take n requests)) ++ cut ∧
    (cut = [] ∨ ∃ r k, requests !! n = Some r ∧ cut = take k r.(wr_frame) ∧
                        is_ok (default (Ok tt) (results !! n)) = false) ∧
    (∀ i, i < n → results !! i = Some (Ok tt)) ∧
    (∀ i, n < i → results !! i = None).
Proof. apply write_stdin_frames. Qed.

Definition sample_write (frame : list byte) (results : list pipe_result) : write_request :=
  {| wr_frame := frame; wr_late := false; wr_stopped_after := false;
     wr_ticks := map (λ r, {| w_stopped := false; w_past_deadline := false; w_result := r |}) results |}.

Lemma pipe_holds_whole_frames_witness :
  let bytes := String.list_ascii_of_string "abc" in
  let requests := [sample_write bytes [Written 2; WriteWouldBlock; Written 1];
                   sample_write bytes [Written 1; WriteError BrokenPipe];
                   sample_write bytes [Written 3]] in
  (write_stdin [] requests).1 = bytes ++ take 1 bytes ∧
  ∃ n cut, (write_stdin [] requests).1 = [] ++ concat (map wr_frame (take n requests)) ++ cut.
Proof.
  cbv zeta. split; [done|]. destruct (write_stdin [] _) as [pipe' results] eqn:E.
  destruct (pipe_holds_whole_frames_up_to_a_failure _ _ _ _ E) as (n & cut & Hp & _).
  by exists n, cut.
Defined.

(** A writer that fails is of no more use: an attempt on a usable writer either
    succeeds and leaves it usable, or fails and poisons and closes it, after
    which every frame is refused.  Only a frame over 8 MiB is refused without
    harm. *)
Theorem failed_writes_poison_the_writer self frame s self' r :
  write_frame_cancellable self frame s = (self', r) → returns r →
  (unusable self = true → r = Err unusable_error ∧ self' = self) ∧
  (unusable self = false → (MAX_INPUT_FRAME_BYTES < len frame)%Z →
     r = Err oversized_error ∧ self' = self) ∧
  (unusable self = false → (len frame ≤ MAX_INPUT_FRAME_BYTES)%Z →
     (r = Ok tt ∧ self' = self) ∨
     ((∃ e, r = Err e) ∧ ∀ frame' s',
        write_frame_cancellable self' frame' s' = (self', Err unusable_error))).
Proof.
  unfold write_frame_cancellable at 1. fold (unusable self). destruct (unusable self) eqn:Eu.
  { intros [= <- <-] _. by split_and!. }
  destruct (Z.ltb_spec MAX_INPUT_FRAME_BYTES (len frame)).
  { intros [= <- <-] _. split_and!; [done..|lia]. }
  assert (Hpoison : ∀ e, fail_poisoned self e = (self', r) →
    (∃ e, r = Err e) ∧ ∀ frame' s',
      write_frame_cancellable self' frame' s' = (self', Err unusable_error)).
  { intros e [= <- <-]. by eauto. }
  intros Hw Hr. split; [done|split; [lia|intros _ _]].
  destruct (ws_cancelled s); [by eauto|]. destruct (ws_past_deadline s); [by eauto|].
  pose proof (hand_over_poisons self s.(ws_recv) s.(ws_send)) as Hh. rewrite Hw in Hh. cbn in Hh.
  destruct Hh as [[-> ->]|[[[e ->] ->]|Hn]]; [by left| |by destruct Hn].
  right. by apply (Hpoison e).
Qed.

Lemma failed_writes_poison_witness :
  let self := {| pw_open := true; pw_poisoned := false |} in
  let s := {| ws_cancelled := false; ws_past_deadline := false; ws_recv := [];
              ws_send := [{| s_cancelled := false; s_past_deadline := false; s_sent := Full;
                             s_past_deadline_again := true |}] |} in
  ∃ e, (write_frame_cancellable self [newline] s).2 = Err e.
Proof.
  cbv zeta. destruct (write_frame_cancellable _ _ _) as [self' r] eqn:E.
  assert (Hr : returns r) by (vm_compute in E; by simplify_eq).
  destruct (proj2 (proj2 (failed_writes_poison_the_writer _ _ _ _ _ E Hr)) eq_refl) as [[-> _]|[He _]];
    [done|vm_compute in E; by simplify_eq|done].
Defined.

(** ** Launch encodings *)

(** C40. A command line is produced exactly for a non-empty executable without quotes
    and zero units, arguments without zero units, and a text that fits in 32767
    units; by the rules of the C runtime, old and new, it reads back as the
    executable and the arguments. *)
Theorem command_lines_read_back_as_written exe args line :
  (windows_command_line exe args = Ok line ↔
   exe ≠ [] ∧ (∀ u, u ∈ exe → u ≠ 0%Z ∧ u ≠ 34%Z) ∧ (∀ arg, arg ∈ args → 0%Z ∉ arg) ∧
   line = command_text exe args ++ [0%Z] ∧ (Z.of_nat (length line) ≤ MAX_COMMAND_UNITS)%Z) ∧
  (windows_command_line exe args = Ok line → ∀ doubled, argv doubled line = exe :: args) ∧
  returns (windows_command_line exe args).
Proof.
  rewrite windows_command_line_bounded. set (text := command_text exe args ++ [0%Z]).
  assert (Hz : ∀ l : list Z, existsb (λ u, (u =? 0)%Z) l = false ↔ 0%Z ∉ l).
  { intros l. rewrite existsb_false. setoid_rewrite Z.eqb_neq. set_solver. }
  assert (He : existsb (λ u, (u =? 0) || (u =? 34))%Z exe = false ↔ ∀ u, u ∈ exe → u ≠ 0%Z ∧ u ≠ 34%Z).
  { rewrite existsb_false. setoid_rewrite orb_false_iff. by setoid_rewrite Z.eqb_neq. }
  assert (Ha : forallb (λ arg, negb (existsb (λ u, u =? 0)%Z arg)) args = true
               ↔ ∀ arg, arg ∈ args → 0%Z ∉ arg).
  { rewrite forallb_true. setoid_rewrite negb_true_iff. by setoid_rewrite Hz. }
  rewrite <- He, <- Ha, bounded_ok, andb_true_iff, negb_true_iff, orb_false_iff, bool_decide_eq_false.
  split; [tauto|split; [|apply bounded_returns]].
  intros ([[_ E1] E2] & -> & _) doubled. by apply argv_command_text.
Qed.

Lemma command_lines_witness :
  let exe := [99%Z] in let args := [[97%Z; 32%Z; 92%Z]; []; [34%Z]] in
  windows_command_line exe args = Ok (command_text exe args ++ [0%Z]) ∧
  argv true (command_text exe args ++ [0%Z]) = exe :: args.
Proof.
  cbv zeta. assert (E : windows_command_line [99%Z] [[97%Z; 32%Z; 92%Z]; []; [34%Z]]
    = Ok (command_text [99%Z] [[97%Z; 32%Z; 92%Z]; []; [34%Z]] ++ [0%Z])) by by vm_compute.
  split; [done|]. by apply (proj1 (proj2 (command_lines_read_back_as_written _ _ _)) E).
Defined.

(** An environment block is produced exactly when every entry is valid, no two
    keys are equal up to the case of ASCII letters, and the text fits in 32767
    units; reading it back gives the entries, each once, in the order of their
    upper-case keys. *)
Theorem environment_blocks_read_back_as_written entries block :
  (windows_environment_block entries = Ok block ↔
   forallb valid_entry entries = true ∧ NoDup (map upper_key entries) ∧
   block = block_text (sort_entries entries) ∧
   (Z.of_nat (length block) ≤ MAX_ENVIRONMENT_UNITS)%Z) ∧
  (windows_environment_block entries = Ok block →
   ∃ ordered, ordered ≡ₚ entries ∧ Sorted.Sorted key_le ordered ∧
     decode_block (S (length entries)) block = map (λ e, (encode_utf16 e.1, e.2)) ordered) ∧
  returns (windows_environment_block entries).
Proof.
  rewrite windows_environment_block_bounded, bounded_ok, andb_true_iff, bool_decide_eq_true.
  split; [tauto|split; [|apply bounded_returns]].
  intros ([Hv _] & -> & _). exists (sort_entries entries).
  split_and!; [apply sort_entries_perm|apply sort_entries_sorted|by apply decode_block_text].
Qed.

Lemma environment_blocks_witness :
  let entries := [("b"%string, [50%Z]); ("A"%string, [])] in
  match windows_environment_block entries with
  | Ok block => ∃ ordered, ordered ≡ₚ entries ∧ Sorted.Sorted key_le ordered ∧
                  decode_block 3 block = map (λ e, (encode_utf16 e.1, e.2)) ordered
  | _ => False
  end.
Proof.
  cbv zeta. destruct (windows_environment_block _) as [block| | |] eqn:E; [|by vm_compute in E..].
  exact (proj1 (proj2 (environment_blocks_read_back_as_written _ _)) E).
Defined.

(** ** Process environments *)

(** Whatever a command held before and whatever its parent exports, the child
    sees exactly the inherited variables with a name of the fixed list, the last
    value winning; on Windows names are compared without their case. *)
Theorem children_inherit_exactly_the_fixed_list windows parent command inherited :
  let child := child_environment parent
    (configure_adapter_process_environment_from windows command inherited) in
  child = collect_map (passed windows inherited) ∧
  (∀ key, is_Some (child !! key) → key ∈ ALLOWED_ENVIRONMENT_KEYS).
Proof.
  cbv zeta. set (child := child_environment _ _).
  assert (Hc : child = collect_map (passed windows inherited)).
  { unfold child, child_environment, configure_adapter_process_environment_from.
    destruct (configure_fold windows (env_clear command) inherited) as [-> ->]. cbn.
    by rewrite !(right_id_L ∅ (∪)). }
  split; [done|]. intros key [v Hv]. rewrite Hc in Hv. unfold collect_map in Hv.
  apply elem_of_list_to_map_2, elem_of_reverse, elem_of_map in Hv as ([k w] & Hp & [= -> ->]).
  apply elem_of_filter_bool in Hp as [_ Hp]. by apply allowed_env_key.
Qed.

Lemma fixed_list_witness :
  child_environment {["API_KEY" := "secret"]}
    (configure_adapter_process_environment_from true {| cmd_cleared := false; cmd_env := ∅ |}
       [("Path", "/bin"); ("API_KEY", "secret")]) !! "API_KEY" = None.
Proof.
  apply eq_None_not_Some. intros Hs.
  apply (proj2 (children_inherit_exactly_the_fixed_list _ _ _ _)) in Hs.
  by apply (bool_decide_eq_true_2 ("API_KEY" ∈ ALLOWED_ENVIRONMENT_KEYS)) in Hs.
Defined.

(** ** Workspace evidence *)

Section workspace.
Context `{Digest} (receipt_json : nat → string).

(** A snapshot is taken exactly of an absolute directory that holds nothing but
    readable files and directories, at most 10000 files of at most 256 MiB
    together, and it records the digest of every file; two snapshots of a root
    give no receipt exactly when they record the same. *)
Theorem snapshots_record_every_file_within_the_limits root absolute tree s :
  well_formed tree →
  (capture root absolute tree = Ok s ↔
   absolute = true ∧ (∃ entries, tree = FDir entries) ∧
   forallb readable (leaves tree []) = true ∧ length (leaves tree []) ≤ MAX_FILES ∧
   (total_len (leaves tree []) ≤ MAX_TOTAL_BYTES)%Z ∧
   s = {| wsn_root := root; wsn_files := list_to_map (map leaf_digest (leaves tree [])) |}) ∧
  ∀ after, after.(wsn_root) = s.(wsn_root) →
    (write_receipt receipt_json s after = Ok None ↔ after.(wsn_files) = s.(wsn_files)).
Proof.
  intros Hw. destruct (leaves_well_formed tree [] Hw) as [Hnd Hlen]. split.
  - unfold capture. rewrite fail_if_ok, obind_ok.
    assert (Hg : negb absolute || negb (match tree with FDir _ => true | _ => false end) = false
                 ↔ absolute = true ∧ ∃ entries, tree = FDir entries).
    { destruct absolute, tree; cbn; naive_solver. }
    rewrite Hg, capture_node_leaves. split.
    + intros ([Ha Ht] & [files total] & Hv & [= <-]).
      apply visit_leaves_ok in Hv as (Hr & Hs & Hb & -> & _); try done.
      * split_and!; try done; [|by rewrite (right_id_L ∅ (∪))].
        destruct Hs as [->|Hs]; [cbn; lia|]. by rewrite map_size_empty in Hs.
      * apply leaves_are_leaves.
    + intros (Ha & Ht & Hr & Hs & Hb & ->). split; [done|].
      exists (list_to_map (map leaf_digest (leaves tree [])), total_len (leaves tree [])). split; [|done].
      apply visit_leaves_ok; try done; [apply leaves_are_leaves|].
      split_and!; try done; [right; by rewrite map_size_empty|by rewrite (right_id_L ∅ (∪))].
  - intros after Hroot. unfold write_receipt. rewrite fail_if_ok, Hroot, bool_decide_true by done.
    destruct (Nat.eqb_spec (changed_files s.(wsn_files) after.(wsn_files)) 0) as [E|E].
    + apply changed_files_0 in E. by rewrite E.
    + rewrite changed_files_0 in E. split; [by intros [_ ?]|congruence].
Qed.

End workspace.

Lemma snapshots_witness :
  let tree := FDir (Some [("b", FFile (Some 1%Z) (Some "x")); ("a", FDir (Some [("c", FFile (Some 0%Z) (Some ""))]))]) in
  ∃ s, capture (H := sample_digest) "/w" true tree = Ok s ∧ s.(wsn_files) !! ["a"; "c"] = Some "" ∧
    write_receipt (λ _, "receipt") s s = Ok None.
Proof.
  cbv zeta. set (tree := FDir _).
  assert (Hw : well_formed tree).
  { repeat (constructor || done || rewrite NoDup_cons || set_solver). }
  eexists. destruct (snapshots_record_every_file_within_the_limits (H := sample_digest)
    (λ _, "receipt") "/w" true tree
    {| wsn_root := "/w"; wsn_files := list_to_map (map (leaf_digest (H := sample_digest)) (leaves tree [])) |} Hw)
    as [Hc Hr].
  split; [|split]; [apply Hc|by vm_compute|by apply Hr].
  split_and!; [done|by eexists|done|by vm_compute; lia|by vm_compute|done].
Defined.
