(* ===== verification/AdapterTheorems.v ===== *)
(** * The adapters: the properties

    What the streams of both adapters and the tracked runs report, and what the
    pipe to the app server keeps. *)
From S2P Require Import Prelude Identity Workspace Samples OutputQueue InputWriter Deliverable.
From S2P Require Import LineDecoder CodexCommands AgyCommands.
From S2P Require Import Adapter CodexLifecycle CodexFacts AgyStream AgyFacts CodexEvidence.
From S2P Require Import CodexServer CodexRun CodexRunFacts CodexStdio CodexStdioFacts.
From S2P Require Import AdapterSamples.

(** ** Runs *)

(** C26. The events of a run are numbered from 1 without gaps, carry the run and
    a time, and end with the first of a terminal state, whatever methods of a
    Codex stream, an Agy stream or a tracked Codex run are called, with any
    notifications, lines and clocks, over any transport. *)
Theorem runs_are_reported_in_order `{Json} (run : RunId) :
  (∀ turn s (ops : list stream_op), stream_new run turn = Ok s →
   reported run 1 (src_run_ops ops s).2) ∧
  (∀ ops : list agy_op, reported run 1 (src_run_ops ops (agy_new run)).2) ∧
  (∀ conversation s (ops : list agy_op), agy_resuming run conversation = Ok s →
   reported run 1 (src_run_ops ops s).2) ∧
  (∀ (D : Digest) receipt_json T (transport : AppServerTransport T) (wire : ServerWire)
     thread turn before t (server : CodexAppServer T) (ops : list tracker_op),
   tracker_new run thread turn before = Ok t →
   reported run 1
     (src_run_ops (H := tracker_source receipt_json) ops
        {| td_server := server; td_tracker := t |}).2).
Proof.
  split_and!.
  - intros turn s ops. unfold stream_new. destruct (blank turn); [done|]. intros [= <-].
    match goal with |- reported _ _ (src_run_ops _ ?s).2 => exact (src_reported ops s I) end.
  - intros ops. exact (src_reported ops (agy_new run) I).
  - intros c s ops. unfold agy_resuming. destruct (blank c); [done|]. intros [= <-].
    match goal with |- reported _ _ (src_run_ops _ ?s).2 => exact (src_reported ops s I) end.
  - intros D receipt_json T transport wire thread turn before t server ops Ht.
    pose proof (src_reported (H := tracker_source receipt_json) (H0 := tracker_source_laws receipt_json) ops
      {| td_server := server; td_tracker := t |}) as Hr.
    unfold tracker_new, stream_new in Ht. destruct (blank turn); [done|]. cbn in Ht.
    ok_step. ok_step. simplify_eq. by apply Hr.
Qed.

(** A run of the sample server that may write, and its updates. *)
Definition sample_before (tree : fs_node) : option WorkspaceSnapshot :=
  match capture (H := sample_digest) "/w" true tree with Ok b => Some b | _ => None end.
Definition sample_tracked (before : option WorkspaceSnapshot) : outcome RunTrackerError (tracked script) :=
  let? t := tracker_new id1 "t1" "u1" before in
  Ok {| td_server := sample_server; td_tracker := t |}.
Definition sample_ops (tree : fs_node) : list tracker_op :=
  [NextUpdate 9 tree "t0"; NextUpdate 9 tree "t1"; NextUpdate 9 tree "t2"].

Lemma runs_are_reported_witness :
  ∃ t, tracker_new id1 "t1" "u1" (sample_before empty_tree) = Ok t ∧
    let es := (src_run_ops (H := tracker_source (H0 := sample_digest) (λ _, "receipt"))
      (sample_ops written_tree) {| td_server := sample_server; td_tracker := t |}).2 in
    map ev_state es = [RunRunning; RunSucceeded] ∧ reported id1 1 es.
Proof.
  eexists. split; [vm_compute; reflexivity|]. cbv zeta. split; [vm_compute; reflexivity|].
  apply (runs_are_reported_in_order id1) with (thread := "t1") (turn := "u1")
    (before := sample_before empty_tree). vm_compute. reflexivity.
Defined.

(** ** Redaction *)

(** C30. What a notification of the app server or a line of an Agy process makes
    of an event is one of a fixed list, given the run, the turn, the next number
    and the time: no text of the provider reaches an event or a failure. *)
Theorem provider_text_reaches_no_event `{Json} :
  (∀ n at_ s s' e, stream_ingest n at_ s = (s', Ok (Some e)) → e ∈ codex_vocabulary s at_) ∧
  (∀ line at_ s s' e f, consume_line line at_ s = (s', Ok (Some (AgyLifecycle e f))) →
   (e, f) ∈ agy_vocabulary s at_).
Proof.
  split; [exact stream_ingest_vocabulary|]. intros line at_ s s' e f E.
  pose proof (consume_line_follows line at_ s) as [_ Hv]. by rewrite E in Hv.
Qed.

Lemma provider_text_witness :
  ∃ s e f, stream_ingest completed_note "t0"
      {| cs_provider_turn_id := "u1"; cs_normalizer := normalizer_new id1; cs_terminal := false |}
      = (s, Ok (Some e)) ∧
    e ∈ codex_vocabulary {| cs_provider_turn_id := "u1"; cs_normalizer := normalizer_new id1;
                            cs_terminal := false |} "t0" ∧
    ∃ s' e', consume_line "init" "t0" (agy_new id1) = (s', Ok (Some (AgyLifecycle e' f))) ∧
      (e', f) ∈ agy_vocabulary (agy_new id1) "t0".
Proof.
  do 3 eexists. split; [vm_compute; reflexivity|].
  split; [eapply (proj1 provider_text_reaches_no_event completed_note); vm_compute; reflexivity|].
  do 2 eexists. split; [vm_compute; reflexivity|].
  eapply (proj2 provider_text_reaches_no_event "init"). vm_compute. reflexivity.
Defined.

(** ** Answers *)

(** The answer of a run is all the text that was told of it, in order, or
    nothing when that exceeds 256 KiB: for an Agy stream the text of the steps of
    its conversation, for a Codex turn the final answers of its thread and turn. *)
Theorem answers_are_whole_or_absent `{Json} :
  (∀ (ops : list agy_op) run,
   let s := (src_run_ops ops (agy_new run)).1 in
   collected MAX_FINAL_OUTPUT_BYTES (answers ops (agy_new run))
     (as_final_output s) (as_final_output_overflowed s)) ∧
  (∀ ns thread turn o, final_output_new thread turn = Ok o →
   collected FINAL_OUTPUT_MAX_BYTES (omap (answer_of thread turn) ns)
     (fo_text (ingest_all ns o)) (fo_overflowed (ingest_all ns o))).
Proof.
  split.
  - intros ops run. apply (answers_collected ops []). by apply collected_nil.
  - intros ns thread turn o Ho. apply (codex_answers_collected thread turn ns []).
    unfold final_output_new in Ho. ok_step. ok_step. simplify_eq.
    split_and!; try done.
Qed.

Lemma answers_witness :
  let ops := [AgyLine "init" "t0"; AgyLine "text a" "t1"; AgyLine "text b" "t2"] in
  collected MAX_FINAL_OUTPUT_BYTES ["text a"; "text b"]
    (as_final_output (src_run_ops ops (agy_new id1)).1)
    (as_final_output_overflowed (src_run_ops ops (agy_new id1)).1) ∧
  ∃ o, final_output_new "t1" "u1" = Ok o ∧
    fo_text (ingest_all [answer_note "a"; completed_note; answer_note "b"] o) = "ab" ∧
    collected FINAL_OUTPUT_MAX_BYTES ["a"; "b"]
      (fo_text (ingest_all [answer_note "a"; completed_note; answer_note "b"] o))
      (fo_overflowed (ingest_all [answer_note "a"; completed_note; answer_note "b"] o)).
Proof.
  intros ops. split; [exact (proj1 answers_are_whole_or_absent ops id1)|].
  eexists. split; [vm_compute; reflexivity|]. split; [vm_compute; reflexivity|].
  exact (proj2 answers_are_whole_or_absent [answer_note "a"; completed_note; answer_note "b"]
           "t1" "u1" _ eq_refl).
Defined.

(** ** Evidence *)

(** The evidence that a notification gives is a receipt that names the kind
    of evidence and the turn, or counts of tokens whose sum fits 64 bits and
    claims no money; the call always returns. *)
Theorem provider_evidence_is_sound `{Json} (ev : CodexRunEvidence) (n : AppServerNotification) :
  returns (evidence_ingest ev n) ∧
  ∀ u, evidence_ingest ev n = Ok (Some u) →
    match u with
    | WriteReceipt r =>
        r = receipt ev "codex.item_file_change.completed" ∨
        r = receipt ev "codex.turn_diff.updated"
    | Cost c =>
        ce_evidence_class c = ProviderReported ∧ ce_currency c = None ∧ ce_amount c = None ∧
        ∃ i o : Z, ce_input_tokens c = Some i ∧ ce_output_tokens c = Some o ∧ (i + o ≤ U64_MAX)%Z
    end.
Proof.
  split; [apply evidence_ingest_returns|]. intros u Hu%evidence_ingest_sound. destruct u as [r|c]; [done|].
  destruct Hu as (i & o & -> & ?). cbn. split_and!; try done. by exists i, o.
Qed.

Lemma evidence_witness :
  ∃ ev c, evidence_new "t1" "u1" = Ok ev ∧ evidence_ingest ev usage_note = Ok (Some (Cost c)) ∧
    ce_amount c = None ∧ ce_input_tokens c = Some 5%Z.
Proof.
  do 2 eexists. split; [vm_compute; reflexivity|]. split; [vm_compute; reflexivity|].
  match goal with |- ce_amount ?c = None ∧ _ =>
    destruct (proj2 (provider_evidence_is_sound
      {| re_provider_thread_id := "t1"; re_provider_turn_id := "u1" |} usage_note) (Cost c))
      as (_ & _ & Ha & _) end; [vm_compute; reflexivity|]. by split.
Defined.

(** C27. Whatever calls were made of a run that may write, and over any transport:
    a call that reports its end does so after a receipt of what was written, or
    when the snapshot of the directory that this call takes shows no change. *)
Theorem writes_are_reported_before_the_end `{Json} (D : Digest) receipt_json T
    (transport : AppServerTransport T) (wire : ServerWire) run thread turn before t
    (server : CodexAppServer T) (ops : list tracker_op) (op : tracker_op) s us s' u :
  tracker_new run thread turn (Some before) = Ok t →
  tracker_run receipt_json ops {| td_server := server; td_tracker := t |} = (s, us) →
  tracker_step receipt_json op s = (s', Some u) → is_terminal u = true →
  (∃ r, Evidence (WriteReceipt r) ∈ us) ∨
  ∃ tree after, op_tree op = Some tree ∧
    capture (wsn_root before) (is_absolute (wsn_root before)) tree = Ok after ∧
    write_receipt receipt_json before after = Ok None.
Proof.
  intros Ht E Eu Hu. unfold tracker_new, stream_new in Ht.
  destruct (blank turn); [done|]. cbn in Ht. ok_step. ok_step. simplify_eq.
  assert (Hend : ends_after receipt_json (op_tree op) before ([] ++ us) u).
  { eapply tracker_step_ends; [| | |exact E|exact Eu]; [done| |done]. by intros [?|[??]]. }
  destruct (Hend Hu) as [?|(tree & Htree & after & ?)]; [by left|right]. by exists tree, after.
Qed.

(** A run that wrote nothing: the call that reports its end finds the directory as
    it was. *)
Lemma writes_are_reported_witness :
  ∃ b t, sample_before empty_tree = Some b ∧ tracker_new id1 "t1" "u1" (Some b) = Ok t ∧
    let first := tracker_run (H0 := sample_digest) (λ _, "receipt") [NextUpdate 9 written_tree "t0"]
                   {| td_server := sample_server; td_tracker := t |} in
    let last := tracker_step (H0 := sample_digest) (λ _, "receipt") (NextUpdate 9 empty_tree "t1") first.1 in
    is_terminal <$> last.2 = Some true ∧
    ((∃ r, Evidence (WriteReceipt r) ∈ first.2) ∨
     ∃ tree after, Some empty_tree = Some tree ∧
       capture (H := sample_digest) (wsn_root b) (is_absolute (wsn_root b)) tree = Ok after ∧
       write_receipt (λ _, "receipt") b after = Ok None).
Proof.
  do 2 eexists. split; [vm_compute; reflexivity|]. split; [vm_compute; reflexivity|]. cbv zeta.
  match goal with |- ?P ∧ _ => assert (Hend : P) by (vm_compute; reflexivity) end. split; [exact Hend|].
  apply fmap_Some in Hend as (u & Hu & Ht).
  refine (writes_are_reported_before_the_end sample_digest (λ _, "receipt") script script_transport sample_wire
    id1 "t1" "u1" _ _ _ [NextUpdate 9 written_tree "t0"] (NextUpdate 9 empty_tree "t1") _ _ _ u _
    (surjective_pairing _) (eq_trans (surjective_pairing _) (f_equal (pair _) Hu)) (eq_sym Ht)).
  vm_compute. reflexivity.
Defined.

(** A run that may write starts only with its working directory as the one
    root, on an initialized server and after the directory was captured: other
    roots, a failed capture and a server that is not initialized are reported
    before anything is sent, and the tracker keeps the snapshot. *)
Theorem runs_start_under_one_captured_root `{Json} (D : Digest) T (transport : AppServerTransport T)
    (wire : ServerWire) tree request (server : CodexAppServer T) roots network :
  rq_sandbox_policy request = TurnWorkspaceWrite roots network →
  let captured := capture (rq_cwd request) (is_absolute (rq_cwd request)) tree in
  let started := start_tracked_run tree request server in
  (roots ≠ [rq_cwd request] → started = (server, Err (TrackerWorkspace InvalidRoot))) ∧
  (∀ e, roots = [rq_cwd request] → captured = Err e →
   started = (server, Err (TrackerWorkspace e))) ∧
  (∀ b, roots = [rq_cwd request] → captured = Ok b → sv_initialized server = false →
   started = (server, Err (TrackerAppServer NotInitialized))) ∧
  (∀ run, started.2 = Ok run →
   roots = [rq_cwd request] ∧ sv_initialized server = true ∧
   ∃ b, captured = Ok b ∧ tk_before (st_tracker run) = Some b).
Proof.
  intros Hp captured started.
  assert (Hroots : (Nat.eqb (length roots) 1 && bool_decide (head roots = Some (rq_cwd request)))
                   = bool_decide (roots = [rq_cwd request])).
  { destruct roots as [|r [|r2 roots]]; cbn [length Nat.eqb head andb].
    - by rewrite bool_decide_false.
    - apply bool_decide_ext. naive_solver.
    - by rewrite bool_decide_false. }
  subst captured started. unfold start_tracked_run. rewrite Hp, Hroots.
  destruct (bool_decide_reflect (roots = [rq_cwd request])) as [->|Hne].
  2:{ by split_and!; intros. }
  split_and!; [done|intros e _ He; unself; by rewrite He| |].
  - intros b _ Hb Hi. unfold start_thread, require_initialized. unself. rewrite Hb. cbn. by rewrite Hi.
  - intros run ([sandbox before] & s1 & H1 & (thread & s2 & H2 & (turn & s3 & _ & (t & s4 & H4 & H5)%bind_ok)%bind_ok)%bind_ok)%bind_ok.
    revert H1. unself. destruct (capture _ _ _) as [b| | |]; try done. cbn. intros [= <- <- <-].
    split_and!; [done| |].
    + revert H2. unfold start_thread, require_initialized. unself. by destruct (sv_initialized server).
    + exists b. split; [done|]. injection H5 as <-. cbn in *. injection H4 as _ H4. unfold tracker_new in H4.
      repeat (ok_step; simplify_eq/=). done.
Qed.

Lemma captured_root_witness :
  ∃ run, (start_tracked_run (H0 := sample_digest) empty_tree (sample_request ["/w"]) sample_server).2 = Ok run ∧
    sv_initialized sample_server = true ∧ is_Some (tk_before (st_tracker run)).
Proof.
  eexists. split; [vm_compute; reflexivity|].
  match goal with |- _ ∧ is_Some (tk_before (st_tracker ?r)) =>
    destruct (proj2 (proj2 (proj2 (runs_start_under_one_captured_root sample_digest script
      script_transport sample_wire empty_tree (sample_request ["/w"]) sample_server ["/w"] false
      eq_refl))) r) as (_ & Hi & b & _ & Hb) end; [vm_compute; reflexivity|].
  split; [exact Hi|]. by exists b.
Defined.

(** ** The pipe *)

Definition new_pipe : StdioTransport := transport_of 100 0.
Definition sample_calls `{Json} : list stdio_call :=
  [Request "m" json_null; PollNotification 50; PollNotification 50; PollNotification 50].

Definition is_reply `{Json} (r : outcome TransportError answer) : bool :=
  match r with Ok (Reply _) => true | _ => false end.
Definition is_rejection `{Json} (code : Z) (retryable : bool) (r : outcome TransportError answer)
    : bool :=
  match r with
  | Err (RemoteRejected c b) => bool_decide (c = code) && Bool.eqb b retryable
  | _ => false
  end.
Lemma is_rejected `{Json} code retryable r :
  is_rejection code retryable r = true → r = Err (RemoteRejected code retryable).
Proof.
  destruct r as [|[]| |]; try done. cbn. rewrite andb_true_iff, bool_decide_eq_true.
  by intros [-> ->%Bool.eqb_prop].
Qed.
Lemma orderly_all {A} (rs : list (outcome TransportError A)) :
  forallb is_ok rs = true → Forall orderly rs.
Proof.
  rewrite forallb_true, Forall_forall. intros Hr r Hin. specialize (Hr r Hin). by destruct r.
Qed.

(** C28. From the start of a transport on, whatever is called and whatever
    arrives, at most 128 notifications of 16 MiB wait and their bytes are counted
    exactly; and while no call ends unavailable or with a protocol drift, the
    notifications that were delivered and those that wait are all that arrived,
    in their order, those that came while a reply was awaited included. *)
Theorem notifications_keep_their_order_within_bounds `{Json} (env : StdioEnvironment) fuel calls
    timeout asked s rs :
  stdio_calls fuel calls (transport_of timeout asked) = (s, rs) →
  length (pn_items (sd_pending s)) ≤ OUTPUT_QUEUE_ITEMS ∧
  (0 ≤ pn_bytes (sd_pending s) ≤ OUTPUT_QUEUE_BYTES)%Z ∧
  pn_bytes (sd_pending s) = total (map snd (pn_items (sd_pending s))) ∧
  (Forall orderly rs → concat (map delivered rs) ++ waiting s = omap note_of (sd_heard s)).
Proof.
  intros E. pose proof (calls_exchange fuel calls (transport_of timeout asked)) as Hc.
  rewrite E in Hc. destruct Hc as ([Hs Hz Hi Hb] & new & Hh & Ho); [exact no_notifications_ok|].
  split_and!; try done.
  - rewrite Hs. unfold total. clear -Hz. induction Hz as [|i l Hi Hl IH]; cbn in *; lia.
  - intros Hr. rewrite <- (Ho Hr), Hh. done.
Qed.

Lemma notifications_witness :
  let r := stdio_calls (H0 := sample_pipe sample_lines) 20 sample_calls new_pipe in
  map no_method (concat (map delivered r.2)) = ["note a"; "note b"; "note c"] ∧
  concat (map delivered r.2) ++ waiting r.1 = omap note_of (sd_heard r.1).
Proof.
  intros r. assert (Hok : forallb is_ok r.2 = true) by (vm_compute; reflexivity).
  split; [vm_compute; reflexivity|].
  destruct (notifications_keep_their_order_within_bounds (sample_pipe sample_lines) 20 sample_calls
    100 0 r.1 r.2 (surjective_pairing r)) as (_ & _ & _ & Ho). apply Ho, orderly_all, Hok.
Defined.

(** C29. A request that returns a result has written one message, with a number
    that is larger than that of every request written before, whether these
    returned, failed or were given up; and it was answered while it waited, by a
    message with that number and no error.  So a reply that comes too late is
    never taken for another's. *)
Theorem replies_belong_to_their_requests `{Json} (env : StdioEnvironment) fuel calls timeout asked
    s rs call s' v :
  stdio_calls fuel calls (transport_of timeout asked) = (s, rs) →
  stdio_step fuel call s = (s', Ok (Reply v)) →
  ∃ id, Forall (λ m, (∃ name params before, (before < id)%Z ∧ m = request_message name params before) ∨
                     ∃ name params, m = notice_message name params) (sd_written s) ∧
    (∃ name params, sd_written s' = sd_written s ++ [request_message name params id]) ∧
    ∃ new m, sd_heard s' = sd_heard s ++ new ∧ m ∈ new ∧
      message_id m = Some id ∧ value_get m "error" = None ∧ value_get m "result" = Some v.
Proof.
  intros E Hstep. pose proof (calls_exchange fuel calls (transport_of timeout asked)) as Hc.
  pose proof (calls_numbered fuel calls (transport_of timeout asked) ltac:(constructor)) as Hw.
  rewrite E in Hc, Hw. destruct Hc as (Hp & _); [exact no_notifications_ok|].
  pose proof (stdio_step_exchanges fuel call s Hp) as Hs. pose proof (stdio_step_logs fuel call s Hw) as Hl.
  rewrite Hstep in Hs, Hl. destruct Hs as (new & Hex & (m & Hm & Hid & He & Hr) & _).
  exists (sd_next_request_id s). split; [|split].
  - eapply Forall_impl; [exact Hw|]. intros x [name params id Hlt|name params]; [left|right]; eauto.
  - destruct Hl as [_ Hl]. rewrite (Hl v eq_refl).
    destruct (reply_of_request fuel call s s' v Hstep) as (name & params & E'). exists name, params. by rewrite E'.
  - exists new, m. split_and!; try done. exact (ex_heard _ _ _ _ _ Hex).
Qed.

(** The first request gets no answer in time, its reply comes before that of the
    second. *)
Lemma replies_witness :
  let env := sample_pipe late_lines in
  let before := stdio_calls (H0 := env) 30 [RequestWithin "m" json_null 40] new_pipe in
  let r := stdio_step (H0 := env) 30 (Request "m" json_null) before.1 in
  sd_abandoned before.1 = [0%Z] ∧ length (sd_heard r.1) = 2 ∧
  ∃ m, m ∈ sd_heard r.1 ∧ message_id m = Some 1%Z ∧ value_get m "result" = Some (json_string "done again").
Proof.
  intros env before r. split; [vm_compute; reflexivity|]. split; [vm_compute; reflexivity|].
  assert (Hr : r = (r.1, Ok (Reply (json_string "done again")))) by (vm_compute; reflexivity).
  destruct (replies_belong_to_their_requests env 30 [RequestWithin "m" json_null 40] 100 0 before.1 before.2
    (Request "m" json_null) r.1 (json_string "done again") (surjective_pairing _) Hr)
    as (id & _ & (name & params & Hw) & new & m & Hh & Hm & Hid & _ & Hres).
  exists m. split; [rewrite Hh; apply elem_of_app; by right|]. split; [|exact Hres]. rewrite Hid. f_equal.
  revert Hw. vm_compute. congruence.
Defined.

(** A request that the server rejects fails the transport, also when the
    rejection says that it may be tried again; and on a failed transport every
    later call but the closing one is an error. *)
Theorem a_failed_pipe_accepts_nothing `{Json} (env : StdioEnvironment) fuel :
  (∀ name params s s' code retryable,
   stdio_step fuel (Request name params) s = (s', Err (RemoteRejected code retryable)) →
   sd_output_failed s' = true) ∧
  (∀ name params wait s s' code retryable,
   stdio_step fuel (RequestWithin name params wait) s = (s', Err (RemoteRejected code retryable)) →
   sd_output_failed s' = true) ∧
  (∀ calls s s' rs, sd_output_failed s = true → Close ∉ calls →
   stdio_calls fuel calls s = (s', rs) →
   sd_output_failed s' = true ∧ Forall (λ r, ¬ is_ok r) rs).
Proof.
  split_and!.
  - intros name params s s' code retryable. unfold stdio_step, tr_request, stdio_transport. unself.
    pose proof (request_rejected fuel name params (sd_timeout s) false s code retryable) as Hr.
    destruct (request_inner _ _ _ _ _ _) as [s1 [v|e| |]]; intros; simplify_eq; auto.
  - intros name params wait s s' code retryable. unfold stdio_step, tr_request_with_timeout, stdio_transport.
    unself. pose proof (request_rejected fuel name params wait true s code retryable) as Hr.
    destruct (request_inner _ _ _ _ _ _) as [s1 [v|e| |]]; intros; simplify_eq; auto.
  - intros calls s s' rs Hs Hc E. pose proof (failed_calls fuel calls s Hs Hc) as Hf. by rewrite E in Hf.
Qed.

Lemma failed_pipe_witness :
  let env := sample_pipe (λ _, Some "busy 0") in
  let r := stdio_step (H0 := env) 20 (Request "m" json_null) new_pipe in
  is_rejection (-32001) true r.2 = true ∧
  Forall (λ r, ¬ is_ok r) (stdio_calls (H0 := env) 20 [Request "m" json_null] r.1).2.
Proof.
  intros env r. assert (Hr : is_rejection (-32001) true r.2 = true) by (vm_compute; reflexivity).
  split; [exact Hr|]. apply is_rejected in Hr.
  destruct (a_failed_pipe_accepts_nothing env 20) as (Hf & _ & Hc).
  specialize (Hf "m" json_null new_pipe r.1 (-32001)%Z true).
  refine (proj2 (Hc [Request "m" json_null] r.1 _ _
    (Hf (eq_trans (surjective_pairing r) (f_equal (pair r.1) Hr))) _ (surjective_pairing _))).
  by intros ?%list_elem_of_singleton.
Defined.

(** Every call of the transport returns, if the clock passes every instant
    and the writer's loops observe their deadlines: the waits for a reply and for
    a notification are not kept alive by what arrives. *)
Theorem every_wait_ends `{Json} (env : StdioEnvironment) :
  clock_runs → (∀ n, settles (write_observed n)) →
  ∀ call s, ∃ N, ∀ fuel, N < fuel → returns (stdio_step fuel call s).2.
Proof. intros Hclock Hwrites call. exact (stdio_step_ends Hclock Hwrites call). Qed.

Lemma every_wait_ends_witness :
  ∃ N, ∀ fuel, N < fuel →
    returns (stdio_step (H0 := sample_pipe sample_lines) fuel (Request "m" json_null) new_pipe).2.
Proof.
  apply (every_wait_ends (sample_pipe sample_lines)).
  - intros t. exists (S (Z.to_nat t)). intros n Hn. cbn. lia.
  - intros n. split_and!; [right; left; reflexivity|right; left; reflexivity|by repeat constructor].
Defined.

(** ** Two surprises *)

(** A run is reported as recovering when the server resumed another thread. *)
Example resume_accepts_another_thread :
  let server := {| sv_transport := {| sc_replies := [JObject [("thread", JString "other")]];
                                      sc_notes := [] |}; sv_initialized := true |} in
  match tracker_new id1 "t1" "u1" None with
  | Ok t =>
      match (tracker_resume_thread "now" {| td_server := server; td_tracker := t |}).2 with
      | Ok (_, Lifecycle e) =>
          bool_decide (ev_provider_event_id (nc_event e) = Some "other") &&
          bool_decide (ev_state (nc_event e) = RunRecovering)
      | _ => false
      end
  | _ => false
  end = true.
Proof. vm_compute. reflexivity. Qed.

(** An answer that was too long and a denied action make a success a failure. *)
Theorem a_long_answer_counts_as_none `{Json} ops run result actions :
  let s := (src_run_ops ops (agy_new run)).1 in
  (MAX_FINAL_OUTPUT_BYTES < str_len (texts (answers ops (agy_new run))))%Z →
  (v ← result !! "denied_actions"; as_array v) = Some actions → actions ≠ [] →
  result_of result (as_final_output s) "SUCCESS" =
    Ok (RunFailed, "run.failed",
        Some (agy_failure PermissionDenied "adapter.agy.permission_denied" false)).
Proof.
  intros s Hlong Hd Hne. pose proof (answers_collected ops [] (agy_new run)) as Hc.
  specialize (Hc ltac:(by apply collected_nil)). fold s in Hc. unfold output_is, collected in Hc. cbn [app] in Hc.
  rewrite (proj2 (Z.leb_gt _ _)) in Hc by exact Hlong. destruct Hc as [Ho _].
  unfold result_of, denied_actions. rewrite Ho, Hd. by destruct actions.
Qed.

(** ** The list of models *)

(** C38. The models of the second agent are listed exactly when its executable is
    there, its command succeeds with text, and every row but the notice of
    progress tells one model: a valid identifier before the first tab, a name
    that is not blank after it.  They are the models of the rows, in order, at
    least one; otherwise the whole list is refused. *)
Theorem models_are_read_row_by_row is_file run executable ms :
  AgyCommands.list_models is_file run executable = Ok ms ↔
  is_file executable = true ∧ ∃ output, run executable ["models"] = Some output ∧
    co_success output = true ∧ from_utf8 (String.list_ascii_of_string (co_stdout output)) = true ∧
    ms ≠ [] ∧ Forall2 tells (rows_of (co_stdout output)) ms.
Proof.
  unfold AgyCommands.list_models, AgyCommands.discover, run_command, utf8_text.
  destruct (is_file executable); cbn; [|by split; [|intros []]].
  destruct (run executable ["models"]) as [output|]; cbn; [|by split; [|intros (_ & ? & ? & _)]].
  destruct (co_success output) eqn:Es; cbn.
  2: { split; [done|]. intros (_ & o & [= ->] & E & _). congruence. }
  destruct (from_utf8 _) eqn:Eu; cbn.
  - rewrite models_of_ok. split; [intros []; split; [done|]; by exists output|].
    by intros (_ & o & [= ->] & _ & _ & Hm).
  - split; [done|]. intros (_ & o & [= ->] & _ & E & _). congruence.
Qed.

Example models_of_a_listing :
  AgyCommands.list_models (λ _, true)
    (λ _ _, Some {| co_success := true; co_stderr := "";
       co_stdout := "Fetching available models..." +:+ String "010" ("m/1" +:+ String "009" (" One " +:+ String "010" "")) |})
    "/agy" = Ok [{| AgyCommands.md_id := "m/1"; AgyCommands.md_display_name := "One" |}].
Proof. vm_compute. reflexivity. Qed.
