(* ===== verification/RunTheorems.v ===== *)
(** * The daemon at work: the properties

    The threads that serve requests and supervise agents, in every interleaving;
    how an agent's process begins and ends; and how its outcome is recorded. *)
From S2P Require Import Prelude Policy Identity Catalog Deliverable Approval Graph Execution.
From S2P Require Import M3 Mvp Protocol Store Workspace InputWriter ProcessChild Adapter.
From S2P Require Import CodexLifecycle CodexServer CodexRun CodexRunFacts CodexStdio CodexStdioFacts AgyStream.
From S2P Require Import AgyProcess AgyProcessFacts Launch StagedLaunches GraphStore FinishRun.
From S2P Require Import CatalogStore CredentialGrants Dispatch DaemonStore StoreReachable StoreFacts.
From S2P Require Import StoreEffects StoreEnds Daemon Executor Routes DaemonFacts DaemonBooks.
From S2P Require Import DaemonCancel ExecutorFacts Samples AdapterSamples StoreSamples RunSamples.
From S2P Require Import StoreTheorems.

(** ** Threads *)

Section threads.
Context `{Environment} `{Digest} `{Serializer} `{Formats} `{CredentialReader} `{Json} `{!ServerWire}.
Context (is_dir : string → bool) (fuel : nat) (receipt_json : nat → string)
  (worlds : RunId → provider_world) (rounds : nat) (codex_bin agy_bin : option string).

(** The daemon with the system's runner, on any providers. *)
Notation daemon_runs := (running is_dir fuel
  (H4 := SystemProviderRunner receipt_json worlds rounds codex_bin agy_bin)).

(** C5. At any moment every controller in the registry and every worker in the
    count of active ones belongs to one thread that owes it; when all threads
    have ended, by a result, an error or a panic, the registry is empty and no
    worker counts as active. *)
Theorem nothing_is_left_registered s :
  daemon_runs s →
  (∃ b, balanced s b) ∧
  (Forall (λ p, ∃ r, p = Ret r ∧ r ≠ Diverge) (sy_threads s) →
   dm_controllers (sy_daemon s) = ∅ ∧ dm_active (sy_daemon s) = 0%Z).
Proof.
  intros Hs. assert (Hb : ∃ b, balanced s b).
  { eapply running_balanced; [|exact Hs]. intros. apply uncounted_system_run. }
  destruct Hb as [b Hb]. split; [by exists b|]. intros He. destruct (ended_books _ _ (bl_threads _ _ Hb) He) as [Hr Hn].
  pose proof (bl_controllers _ _ Hb) as Hc. pose proof (bl_active _ _ Hb) as Ha.
  rewrite Hr in Hc. rewrite Hn in Ha. split; [|done].
  apply Permutation_nil_r, fmap_nil_inv in Hc. by apply map_to_list_empty_iff.
Qed.

(** C6. A cancellation is acknowledged only for a run whose worker has ended it
    cancelled; and a client is told that a run was cancelled only then, or when
    the store of this daemon holds the launch of the run as cancelled, which it
    does from then on. *)
Theorem cancellations_are_honest s :
  daemon_runs s →
  (∀ i run, dm_acknowledgements (sy_daemon s) !! i = Some (run, Some true) →
     (run, RunCancelled) ∈ dm_ended (sy_daemon s)) ∧
  (∀ i receipt, sy_threads s !! i = Some (Ret (Ok (ReCancel receipt))) →
     (crr_run_id receipt, RunCancelled) ∈ dm_ended (sy_daemon s) ∨
     ∃ id row, d_staged (database (dm_broker (sy_daemon s))) !! crr_run_id receipt = Some row ∧
       sw_request_id row = id ∧ sw_state row = SlCancelled).
Proof.
  intros Hs. assert (Hh : sound is_dir (sy_daemon s) ∧
    Forall (λ p, honest is_dir answered p (sy_daemon s)) (sy_threads s)).
  { eapply running_honest; [|exact Hs]. intros. apply modest_system_run. }
  destruct Hh as [Hd Ht]. split; [apply (sd_answers _ _ Hd)|]. intros i receipt Hi.
  exact (Forall_lookup_1 _ _ _ _ Ht Hi _ (reflexivity _) Hd).
Qed.

End threads.

#[local] Existing Instance sample_runner.

Lemma morning_runs : running any_dir 9 morning_6.
Proof.
  unfold morning_6, morning_5, morning_4, morning_3, morning_2, morning_1, sample_worker.
  do 3 apply running_advance. apply running_arrive; [|by apply begins_request].
  apply running_advance, running_arrive; [apply running_start, stored_2|by apply begins_request].
Qed.

(** A thread that has answered a cancellation. *)
Lemma told_cancelled (threads : list (prog (outcome StoreError reply))) i :
  match threads !! i with Some (Ret (Ok (ReCancel _))) => true | _ => false end = true →
  ∃ receipt, threads !! i = Some (Ret (Ok (ReCancel receipt))).
Proof. destruct (threads !! i) as [[[[]| | |]|]|]; try done. by eexists. Qed.

Lemma nothing_is_left_registered_witness :
  length (sy_threads morning_6) = 3 ∧
  dm_controllers (sy_daemon morning_2) !! worker_run = Some {| cr_run_id := worker_run; cr_channel := 0 |} ∧
  dm_controllers (sy_daemon morning_6) = ∅.
Proof.
  split; [by vm_compute|]. split; [by vm_compute|].
  pose proof (nothing_is_left_registered any_dir 9 receipt_json (λ _, sample_world) 9 None None
    morning_6 morning_runs) as [_ He].
  apply He, all_ended. vm_compute. reflexivity.
Defined.

(** The third thread asked for the cancellation, and its client is told of it. *)
Lemma cancellations_are_honest_witness :
  dm_acknowledgements (sy_daemon morning_6) !! 0 = Some (worker_run, Some true) ∧
  (worker_run, RunCancelled) ∈ dm_ended (sy_daemon morning_6) ∧
  ∃ receipt, sy_threads morning_6 !! 2 = Some (Ret (Ok (ReCancel receipt))) ∧
    ((crr_run_id receipt, RunCancelled) ∈ dm_ended (sy_daemon morning_6) ∨
     ∃ id row, d_staged (database (dm_broker (sy_daemon morning_6))) !! crr_run_id receipt = Some row ∧
       sw_request_id row = id ∧ sw_state row = SlCancelled).
Proof.
  assert (Ha : dm_acknowledgements (sy_daemon morning_6) !! 0 = Some (worker_run, Some true))
    by (vm_compute; reflexivity).
  destruct (cancellations_are_honest any_dir 9 receipt_json (λ _, sample_world) 9 None None
    morning_6 morning_runs) as [Hans Htold].
  split; [exact Ha|]. split; [exact (Hans 0 worker_run Ha)|].
  destruct (told_cancelled (sy_threads morning_6) 2) as [receipt Hr]; [vm_compute; reflexivity|].
  exists receipt. split; [exact Hr|]. exact (Htold 2 receipt Hr).
Defined.

(** ** Processes *)

(** C24. Whatever is observed of a child, and however often its owner shuts it
    down, it is signalled at most once, before it is reaped and by its own
    process id, which is never one that addresses other processes; and once a
    call has told the result, every later call tells the same. *)
Theorem only_the_own_child_is_signalled pid schedules :
  let '(s, rs) := shutdowns schedules (own_child pid) in
  (oc_effects s = [] ∨
   oc_effects s = [KillGroup pid; KillChild pid; Reap pid] ∧ (1 < pid ≤ I32_MAX)%Z ∧
   oc_child s = None) ∧
  (∀ i j r, i ≤ j → rs !! i = Some r → returns r → is_Some (rs !! j) → rs !! j = Some r).
Proof.
  destruct (shutdowns _ _) as [s rs] eqn:E. split.
  - pose proof (shutdowns_owned _ _ _ _ _ (own_child_owned pid) E) as [(He & _)|Ho]; auto.
  - revert E. generalize (own_child pid). induction schedules as [|x schedules IH] in s, rs |- *.
    { intros c [= <- <-]. by intros [|?]. }
    intros c. cbn. destruct (ProcessChild.shutdown x c) as [c1 r1] eqn:E1. destruct (shutdowns schedules c1) as [c2 rs2] eqn:E2.
    intros [= <- <-] i j r Hij. destruct i as [|i], j as [|j]; cbn; try done; [|lia|].
    + intros [= <-] Hr. pose proof (shutdowns_settled _ schedules _ Hr (shutdown_left _ _ _ _ E1)) as Hs.
      rewrite E2 in Hs. injection Hs as _ ->. intros [r' Hj]. rewrite Hj. f_equal.
      by apply lookup_replicate in Hj as [-> _].
    + intros Hi Hr Hj. eapply IH; [exact E2| |exact Hi|done..]. lia.
Qed.

Section agy.
Context `{Json} `{!StdioEnvironment} `{Digest} (receipt_json : nat → string)
  (cleanup : nat → Z → shutdown_schedule).

(** C20. A start of the second agent that fails, at whichever step, has reaped the
    child that it had spawned, if any, or reports that it could not. *)
Theorem failed_starts_leave_no_child host request asked s e :
  agy_spawn cleanup host request (not_started asked) = (s, Err e) →
  e = AgyCleanupUncertain ∨ gone (au_child s).
Proof.
  intros E. pose proof (spawn_clean cleanup host request (not_started asked) (conj eq_refl eq_refl)) as Hc.
  unfold post, clean_start in Hc. rewrite E in Hc. by apply Hc.
Qed.

(** C13. Whatever calls are made of a process that started, an update that ends its
    run is told only when its child has been reaped; when the run may write, only
    after a receipt of what was written, or when a snapshot of the directory
    shows no change; a run that may not write tells no receipt. *)
Theorem ends_are_told_after_cleanup host request asked s p ops :
  agy_spawn cleanup host request (not_started asked) = (s, Ok p) →
  let '(p', us) := process_run receipt_json cleanup ops p in
  ∀ i u, us !! i = Some u →
    (agy_is_terminal u = true →
     gone (ap_child p') ∧
     (aq_read_only request = true ∨ (∃ r, AgyWriteReceipt r ∈ take i us) ∨
      ∃ before tree, capture (aq_cwd request) (is_absolute (aq_cwd request)) (ah_tree host) = Ok before ∧
        tree ∈ concat (map process_tree ops) ∧ unwritten receipt_json before tree)) ∧
    (is_agy_receipt u = true → aq_read_only request = false).
Proof.
  intros [Hi Hb]%spawn_started. pose proof (process_run_justified receipt_json cleanup ops _ [] p Hi) as Hj.
  destruct (process_run _ _ ops p) as [p' us]. cbn in Hj. intros i u Hu.
  destruct (Hj i u Hu) as [[Ht Hr] Hg]. destruct (aq_read_only request).
  - split; [auto|]. rewrite Hb in Hr. intros Hur. by destruct (Hr Hur).
  - destruct Hb as (b & Hc & Hb). split; [|done]. intros Hend. split; [auto|]. right.
    destruct (Ht Hend) as [Hn|[?|(b' & tree & Hb' & ?)]]; [congruence|by left|right].
    rewrite Hb in Hb'. injection Hb' as <-. by exists b, tree.
Qed.

(** C25. A poll of a process ends, whatever arrives meanwhile, if the probes of each
    clean-up tell that the child has exited or is overdue.  Its deadline is fixed
    by the first reading of the clock: a clock that stands at the deadline from the
    reading [N] on bounds the rounds by [N], so that lines that keep arriving, each
    of which moves the deadline of inactivity, cannot hold the poll.  A poll
    whose deadline is past the last instant has none, and ends if the clock passes
    every instant. *)
Theorem every_poll_ends tree at_ wait s :
  (∀ n grace, returns (await_exit (sh_probes (cleanup n grace)))) →
  (∀ deadline N, checked_add instant_max (instant (S (ap_asked s))) wait = Some deadline →
     (∀ n, N ≤ n → (deadline ≤ instant n)%Z) →
     ∀ fuel, N - ap_asked s < fuel →
       returns (agy_poll_update receipt_json cleanup fuel tree at_ wait s).2) ∧
  (clock_runs → ∃ N, ∀ fuel, N < fuel →
     returns (agy_poll_update receipt_json cleanup fuel tree at_ wait s).2).
Proof.
  intros Hcleanup. split.
  - intros deadline N Hd HN fuel Hf. apply (poll_update_returns _ _ Hcleanup tree at_ wait N); [|done].
    intros n Hn. right. eauto.
  - intros Hclock. destruct (Hclock (Z.max instant_max (ap_inactivity_deadline s))) as [N HN]. exists N.
    intros fuel Hf. apply (poll_update_returns _ _ Hcleanup tree at_ wait N); [|lia]. auto.
Qed.

End agy.

Lemma failed_starts_leave_no_child_witness :
  let host := {| ah_executable := true; ah_tree := empty_tree; ah_launcher := true;
                 ah_pid := Some 7%Z; ah_writer := None; ah_reader := false |} in
  ∃ s, agy_spawn (H0 := long_pipe agy_lines) (λ _ _, clean_shutdown) host (agy_sample true) (not_started 0)
       = (s, Err AgyUnavailable) ∧
    oc_effects (au_child s) = [KillGroup 7; KillChild 7; Reap 7] ∧ gone (au_child s).
Proof.
  intros host. eexists. split; [vm_compute; reflexivity|]. split; [reflexivity|].
  destruct (failed_starts_leave_no_child (H0 := long_pipe agy_lines) (H1 := sample_digest)
    (λ _ _, clean_shutdown) host (agy_sample true) 0 _ AgyUnavailable eq_refl) as [?|Hg];
    [discriminate|exact Hg].
Defined.

Lemma ends_are_told_after_cleanup_witness :
  ∃ s p, agy_spawn (H0 := long_pipe agy_lines) (λ _ _, clean_shutdown) sample_host (agy_sample false)
           (not_started 0) = (s, Ok p) ∧
    let '(p', us) := process_run (H0 := long_pipe agy_lines) (H1 := sample_digest) receipt_json
                       (λ _ _, clean_shutdown) agy_polls p in
    agy_process_output p' = Some "text a" ∧ length us = 3 ∧ gone (ap_child p') ∧
    ∃ r, AgyWriteReceipt r ∈ take 2 us.
Proof.
  eexists _, _. split; [vm_compute; reflexivity|].
  match goal with |- context [process_run _ _ _ ?p] =>
    pose proof (ends_are_told_after_cleanup (H0 := long_pipe agy_lines) (H1 := sample_digest) receipt_json
      (λ _ _, clean_shutdown) sample_host (agy_sample false) 0 _ p agy_polls eq_refl) as Ht;
    destruct (process_run _ _ _ p) as [p' us] eqn:E
  end.
  vm_compute in E. injection E as <- <-. destruct (Ht 2 _ eq_refl) as [Hend _].
  destruct (Hend eq_refl) as [Hg _]. split_and!; [reflexivity..|exact Hg|]. eexists. right. left.
Defined.

(** Every line is noise and moves the deadline of inactivity. *)
Lemma every_poll_ends_witness :
  returns (agy_poll_update (H0 := long_pipe (λ _, Some "noise")) (H1 := sample_digest) receipt_json
    (λ _ _, clean_shutdown) 100 empty_tree "now" 50
    {| ap_child := own_child 7; ap_stdin := None; ap_reading := true; ap_stream := agy_new id1;
       ap_timeout := 1000; ap_inactivity_deadline := 1000; ap_cancellation_requested := false;
       ap_pending := None; ap_pending_terminal := None; ap_before := None; ap_asked := 0 |}).2.
Proof.
  refine (proj1 (every_poll_ends (H0 := long_pipe (λ _, Some "noise")) receipt_json (λ _ _, clean_shutdown)
    empty_tree "now" 50 _ _) 51%Z 51 _ _ 100 _).
  - done.
  - vm_compute. reflexivity.
  - intros n Hn. cbn. lia.
  - cbn. lia.
Defined.

(** ** Outcomes *)

Section outcomes.
Context `{Environment} `{Digest} `{Serializer} `{Formats} `{Json} `{!ServerWire}.


Notation database d := (w_db (bk_world (dm_broker d))).

(** C18. A provider that succeeds with an answer of white space only leaves its run
    active: the answer is passed on as the output of a failure, which the store
    refuses, so that nothing of the end is recorded, whatever is tried again. *)
Theorem a_blank_answer_is_never_recorded receipt session cost text failure selected fuel d :
  blank text = true →
  selection_of (database d) (br_run_id receipt) (selected, false) →
  database (alone (persist_outcome fuel receipt
    (final_outcome RunSucceeded session cost (Some text) failure)) d).2 = database d.
Proof.
  intros Hb Hs. unfold persist_outcome, publishable, final_outcome. cbn. rewrite Hb. cbn.
  by apply (persist_blank _ _ text selected).
Qed.

(** C21. A worker that is not disturbed settles its outcome in one round: it is
    recorded, or given up for a reason that no other round could remove, unless
    the database fails.  When a panic has poisoned the store, which lasts, the
    worker never gives up: it stays active for ever, and with it the refusal to
    shut down. *)
Theorem outcomes_are_settled_in_one_round is_dir receipt outcome `{CredentialReader} d :
  stored is_dir (dm_broker d) →
  (w_poisoned (bk_world (dm_broker d)) = false →
   (alone (persist_outcome 1 receipt outcome) d).1 = Diverge →
   ∃ c g m e, (on_store (finish_graph_node_run (br_execution_id receipt)
       (Executor.finish_command receipt (publishable outcome) c g m)) (dm_broker d)).1 = Err e ∧
     (e = Database ∨ e = Poisoned)) ∧
  (w_poisoned (bk_world (dm_broker d)) = true →
   ∀ fuel, alone (persist_outcome fuel receipt outcome) d = (Diverge, d)).
Proof.
  intros Hs. split; [|intros; by apply persist_poisoned].
  apply persist_once. pose proof (stored_keyed _ _ Hs) as Hk.
  apply good_well_formed; [|done]. apply stored_steps in Hs as (id & t & Hs).
  eapply well_formed_steps; [exact Hs|]. apply well_formed_empty.
Qed.

End outcomes.

Lemma a_blank_answer_is_never_recorded_witness :
  let b' := dm_broker (alone (persist_outcome 3 worker_receipt (succeeded_with "  "))
                         (alone_with worker_broker)).2 in
  database b' = database worker_broker ∧
  run_state_of b' (br_run_id worker_receipt) = Some RunStarting ∧
  (on_store (DaemonStore.shutdown shutdown_command) b').1 = Err ProviderRunsActive.
Proof.
  split.
  - apply (a_blank_answer_is_never_recorded worker_receipt None unknown_cost "  " None
      (br_launch_identity worker_receipt) 3 (alone_with worker_broker)); [reflexivity|].
    eexists _, _, _. split_and!; vm_compute; reflexivity.
  - split; vm_compute; reflexivity.
Defined.

Lemma outcomes_are_settled_in_one_round_witness :
  (alone (persist_outcome 1 worker_receipt (succeeded_with "report")) (alone_with worker_broker)).1
    = Ok tt ∧
  ∀ fuel, let poisoned := alone_with (run_op any_dir (OpCreateApproval forged_request) world_2).2 in
    alone (persist_outcome fuel worker_receipt (succeeded_with "report")) poisoned = (Diverge, poisoned).
Proof.
  split; [vm_compute; reflexivity|].
  apply (outcomes_are_settled_in_one_round any_dir worker_receipt (succeeded_with "report")
    (alone_with (run_op any_dir (OpCreateApproval forged_request) world_2).2)).
  - apply stored_op; [apply stored_2|done].
  - vm_compute. reflexivity.
Defined.
