(* ===== verification/DesktopTheorems.v ===== *)
(** * The desktop and the daemon: the properties

    The methods of the client against the routes they are meant for; the life of
    the application beside the daemon, in every interleaving; what it writes
    outside the daemon; and a choice that it makes where the daemon makes it too. *)
From S2P Require Import Prelude Policy Identity Catalog Office Meeting Deliverable Approval Graph Execution.
From S2P Require Import M3 Mvp Protocol Adapter CodexServer Store Launch StagedLaunches GraphStore FinishRun.
From S2P Require Import StoreLogic CatalogStore CredentialGrants Dispatch DaemonStore StoreReachable StoreFacts.
From S2P Require Import Daemon Executor Routes DaemonFacts ExecutorFacts Http Client ClientFacts Delivery DesktopFacts.
From S2P Require Import Projection Desktop Application.
From S2P Require Import Samples AdapterSamples StoreSamples RunSamples DesktopSamples StoreTheorems.

(** ** Calls *)

Section calls.
Context `{Environment} `{Digest} `{Serializer} `{Formats} `{Serde} `{!Axum} `{!AxumLaws}.

(** C12. Every method of the client reaches the handler that it is meant for and no
    other: alone with the daemon, over a connection that may cut a body as it
    likes, it does to the daemon what the handler does, and tells the result of
    the handler, its error as the status that the handler's error has. *)
Theorem calls_reach_their_handlers is_dir fuel {D} cut luck r call d (y : D) :
  (∀ bytes, whole bytes (cut bytes)) →
  client_for {| base_url := LOCAL_HTTP_ORIGIN |} r = Some call →
  carried r → returned (alone (route is_dir fuel r) d).1 →
  served is_dir fuel cut luck call (d, y) =
    (seen_by_client (alone (route is_dir fuel r) d).1, ((alone (route is_dir fuel r) d).2, y)).
Proof. intros. by apply calls_served. Qed.

End calls.

(** A body that arrives in two parts. *)
Definition in_parts (bytes : list octet) : list frame :=
  [Data []; Trailers; Data bytes; Data []].
Lemma in_parts_whole bytes : whole bytes (in_parts bytes).
Proof. split; [by repeat constructor|]. cbn. by rewrite app_nil_r. Qed.

Lemma calls_reach_their_handlers_witness :
  let call := Call.shutdown local_client 1 "bye" in
  let '(r, (d, y)) := served any_dir 9 in_parts (λ _, 0) (wrapped (k := KCheckpoint) ReCheckpoint call)
                        (alone_with world_2, tt) in
  is_ok r = true ∧ length (d_checkpoints (database (dm_broker d))) = 1 ∧
  r = seen_by_client (alone (route any_dir 9 (PostShutdown shutdown_command)) (alone_with world_2)).1.
Proof.
  intros call.
  rewrite (calls_reach_their_handlers any_dir 9 in_parts (λ _, 0) (PostShutdown shutdown_command)
    _ (alone_with world_2) tt in_parts_whole (reflexivity _)).
  - split_and!; vm_compute; reflexivity.
  - eexists. split_and!; [reflexivity|by apply sample_read|done].
  - apply sample_returned. vm_compute. discriminate.
Defined.

(** ** The life of the application *)

Section life.
Context `{Environment} `{Digest} `{Serializer} `{Formats} `{CredentialReader} `{Json}.
Context `{!AgentMemory} `{Serde} `{!Axum} `{!AxumLaws} `{!ServerWire}.
Context (is_dir : string → bool) (fuel : nat) (receipt_json : nat → string)
  (worlds : RunId → provider_world) (rounds : nat) (codex_bin agy_bin : option string).
Context (sv : supervisor) (exit_text : Z → string) (canonicalize : string → option string).

(** The application beside the daemon with the system's runner. *)
Notation app_runs := (app_running is_dir fuel sv exit_text
  {| base_url := LOCAL_HTTP_ORIGIN |} canonicalize
  (H8 := SystemProviderRunner receipt_json worlds rounds codex_bin agy_bin)).

(** C8. However the threads of the application and of the daemon are interleaved,
    whatever the network loses or delays, and whenever the daemon crashes and
    starts again: the application is authorized to exit, and exits, only when
    the daemon has recorded a shutdown, with its checkpoint, since the
    application was started. *)
Theorem exits_follow_a_recorded_shutdown start a :
  app_runs start a →
  ds_exit_authorized (ap_desktop a) = true ∨ is_Some (ds_exit_code (ap_desktop a)) →
  ∃ i checkpoint event, length (d_checkpoints start) ≤ i ∧
    d_checkpoints (database (dm_broker (sy_daemon (ap_system a)))) !! i = Some checkpoint ∧
    event ∈ d_events (database (dm_broker (sy_daemon (ap_system a)))) ∧
    ee_sequence event = cw_event_sequence checkpoint ∧
    ee_event_type event = "daemon.shutdown_requested".
Proof.
  intros Ha Hl. apply app_sound in Ha; [|intros; apply keeps_system_run]. apply (sa_leaving _ _ _ _ Ha).
  unfold leaving. destruct Hl as [->|[code ->]]; congruence.
Qed.

(** C22. The supervisor never has two daemons at work: at any moment of any run, a
    process that it has spawned and that has not exited is the child that it
    knows of. *)
Theorem one_daemon_child_at_a_time start a :
  app_runs start a →
  ∀ i, ds_processes (ap_desktop a) !! i = Some None → ds_child (ap_desktop a) = Some i.
Proof. intros Ha. apply app_sound in Ha; [|intros; apply keeps_system_run]. apply (sa_supervised _ _ _ _ Ha). Qed.

End life.

#[local] Existing Instance sample_runner.

Lemma desktop_runs_0 : sample_running (database world_2) desktop_0.
Proof. apply app_started; [apply running_start, stored_2|done]. Qed.
Lemma desktop_runs_1 : sample_running (database world_2) desktop_1.
Proof. apply runs_moves, runs_start; [apply desktop_runs_0|constructor]. Qed.
Lemma desktop_runs_2 : sample_running (database world_2) desktop_2.
Proof. apply runs_moves, runs_start; [apply desktop_runs_0|constructor]. Qed.

(** The quit and the supervisor may cross: a round that began before the user quit
    starts a new daemon after the quit has shut the old one down, and the
    application leaves it behind. *)
Theorem a_quit_may_leave_a_new_daemon :
  ∃ a, sample_running (database world_2) a ∧
    ds_exit_code (ap_desktop a) = Some 0%Z ∧ ds_processes (ap_desktop a) = [None] ∧
    length (d_checkpoints (database (dm_broker (sy_daemon (ap_system a))))) = 1.
Proof.
  exists desktop_5. split; [|split_and!; vm_compute; reflexivity].
  apply runs_moves, runs_moves, runs_start; [|constructor].
  apply runs_moves, runs_start; [apply desktop_runs_0|constructor].
Qed.

Lemma exits_follow_a_recorded_shutdown_witness :
  ds_exit_code (ap_desktop desktop_1) = Some 0%Z ∧
  ∃ i checkpoint, 0 ≤ i ∧
    d_checkpoints (database (dm_broker (sy_daemon (ap_system desktop_1)))) !! i = Some checkpoint.
Proof.
  assert (Hx : ds_exit_code (ap_desktop desktop_1) = Some 0%Z) by (vm_compute; reflexivity).
  split; [exact Hx|].
  destruct (exits_follow_a_recorded_shutdown any_dir 9 receipt_json (λ _, sample_world) 9 None None
    sample_supervisor sample_exit_text sample_paths (database world_2) desktop_1 desktop_runs_1)
    as (i & checkpoint & event & _ & Hc & _).
  - right. rewrite Hx. by eexists.
  - exists i, checkpoint. split; [apply Nat.le_0_l|exact Hc].
Defined.

Lemma one_daemon_child_at_a_time_witness :
  ds_processes (ap_desktop desktop_2) = [None] ∧ ds_child (ap_desktop desktop_2) = Some 0.
Proof.
  assert (Hp : ds_processes (ap_desktop desktop_2) = [None]) by (vm_compute; reflexivity).
  split; [exact Hp|].
  apply (one_daemon_child_at_a_time any_dir 9 receipt_json (λ _, sample_world) 9 None None
    sample_supervisor sample_exit_text sample_paths (database world_2) desktop_2 desktop_runs_2).
  rewrite Hp. reflexivity.
Defined.

(** ** Deliveries *)

Section deliveries.
Context `{Serde} `{Formats} (canonicalize : string → option string).

(** C16. A delivery to a vault may be interrupted after any number of calls of the
    system.  Undisturbed, it ends with its receipt and has written the note and
    the entries of the index and the log; interrupted, it can be made again with
    the same end, as often as one likes, and each part is there once; except
    when the note had been created and not yet written: then every later
    delivery is refused and changes nothing. *)
Theorem deliveries_resume_after_an_interruption root real out id preview delivered_on fs n :
  let note := join out (note_name id +:+ ".md") in
  let deliver := deliver_bastet_mind canonicalize (λ fs, fs) (λ fs _, fs) root id preview delivered_on in
  let done := (Some (Ok ("bastetmind:" +:+ marker_of id)), delivered real out id preview delivered_on fs) in
  vault canonicalize root real out id preview delivered_on fs →
  utf8 (note_body id preview delivered_on) = true → utf8 (index_entry id) = true →
  utf8 (log_entry id delivered_on) = true →
  (9 ≤ n → run_files n deliver fs = done) ∧
  (∀ m, 9 ≤ m → run_files m deliver done.2 = done) ∧
  (run_files n deliver fs = done ∨
   ∃ left, run_files n deliver fs = (None, left) ∧
     ((∀ m, 9 ≤ m → run_files m deliver left = done) ∨
      fs !! note = None ∧ left = <[note := Regular ""]> fs ∧
      ∀ m, 3 ≤ m → run_files m deliver left =
        (Some (Err (Told "BastetMind delivery path conflicts with different content")), left))).
Proof.
  intros note deliver done Hv Hb Hi Hl.
  assert (Hagain : ∀ x, x ∈ [fs; noted note (note_body id preview delivered_on) fs;
      with_index real out id preview delivered_on fs; delivered real out id preview delivered_on fs] →
      ∀ m, 9 ≤ m → run_files m deliver x = done).
  { intros x Hx m Hm. destruct (delivered_again _ _ _ _ _ _ _ Hb Hi Hl _ _ Hv Hx) as [Hvx Hdx].
    unfold done. rewrite <- Hdx. by apply (delivery_completes canonicalize root real out). }
  split; [|split].
  - apply Hagain. left.
  - apply Hagain. do 3 right. left.
  - destruct (delivery_interrupted _ _ _ _ _ _ _ Hb Hi n _ Hv) as [(x & _ & Hx & Hr)|Hr]; [right|by left].
    exists x. split; [exact Hr|]. destruct Hx as [Hx|[Hn ->]%elem_of_torn]; [left; by apply Hagain|right].
    split; [done|]. split; [done|]. intros m Hm. by apply (delivery_torn canonicalize root real out).
Qed.
End deliveries.

Lemma deliveries_resume_after_an_interruption_witness :
  let deliver := deliver_bastet_mind sample_paths (λ fs, fs) (λ fs _, fs) "/vault" id1 "preview" "2026-01-01" in
  (run_files 4 deliver sample_vault).1 = None ∧ (run_files 2 deliver sample_vault).1 = None ∧
  (run_files 9 deliver sample_vault).1 = Some (Ok ("bastetmind:" +:+ marker_of id1)) ∧
  (∀ m, 9 ≤ m → run_files m deliver (run_files 9 deliver sample_vault).2 = run_files 9 deliver sample_vault) ∧
  ∃ left, run_files 2 deliver sample_vault = (None, left) ∧ left ≠ sample_vault.
Proof.
  intros deliver. split; [vm_compute; reflexivity|]. split; [vm_compute; reflexivity|].
  destruct (deliveries_resume_after_an_interruption sample_paths "/vault" "/vault" "/vault/40-輸出成果"
    id1 "preview" "2026-01-01" sample_vault 9) as (Hd & Ha & _); [|vm_compute; reflexivity..|].
  - split; [vm_compute; reflexivity..| | | |].
    + exists "/vault/AGENTS.md", "rules". vm_compute. reflexivity.
    + exists "/elsewhere/index.md", "# Index". split_and!; [vm_compute; reflexivity..|discriminate].
    + exists "/vault/log.md", "# Log". split_and!; [vm_compute; reflexivity..|discriminate].
    + left. vm_compute. reflexivity.
  - specialize (Hd (le_n 9)). fold deliver in Hd. rewrite Hd. split; [reflexivity|]. split; [exact Ha|].
    eexists. split; [reflexivity|]. discriminate.
Defined.

(** ** Restarts *)

Section restarts.
Context `{Environment} `{Digest} `{Serializer} `{Formats} `{CredentialReader} (is_dir : string → bool).

(** C19. Where the window offers to restart an execution that lacks an output, by
    the desktop's own test on the executions that it was sent, and while the
    daemon's database is still that one: the daemon does not refuse the restart
    for the execution's sake; where it does not offer it, the daemon makes
    nothing new: it refuses, or tells a restart that there is already. *)
Theorem restarts_are_offered_where_they_are_made b executions e :
  stored is_dir b → (on_store graph_executions b).1 = Ok executions → e ∈ executions →
  let '(r, b') := on_store (restart_missing_output_graph (ge_id e) (ge_revision e)) b in
  (needs_output_recovery executions e = true →
   ∀ error, r = Err error → (∀ g, error ≠ InvalidGraph g) ∧ error ≠ GraphNotFound ∧
     (∀ expected actual, error ≠ RevisionConflict expected actual)) ∧
  (needs_output_recovery executions e = false →
   database b' = database b ∧
   ∀ receipt, r = Ok receipt → ∃ next, next ∈ executions ∧
     ge_restarted_from_execution_id next = Some (ge_id e) ∧ ger_execution_id receipt = ge_id next).
Proof.
  intros Hb Hl He. pose proof (stored_well_formed is_dir b Hb) as Hd. unfold on_store in *.
  destruct (restart_missing_output_graph _ _ (bk_world b)) as [r w'] eqn:E.
  assert (Hload : load_graph_executions (w_db (bk_world b)) = Ok executions).
  { revert Hl. unfold graph_executions, read_only. by destruct (w_poisoned (bk_world b)). }
  cbn [fst snd]. split.
  - intros Hn error ->. pose proof (restart_offered _ _ _ Hd Hload He Hn (bk_world b) eq_refl) as Hr.
    rewrite E in Hr. cbn in Hr. by destruct error.
  - intros Hn. destruct r as [receipt|error| |].
    { destruct (restart_not_offered _ _ _ _ _ _ Hd Hload He Hn eq_refl E)
        as [Hdb (next & Hin & Hr%bool_decide_eq_true & Hid & _)].
      split; [exact Hdb|]. intros ? [= <-]. by exists next. }
    all: split; [|done]; unfold restart_missing_output_graph in E;
      match type of E with transact ?m ?w = _ => pose proof (transact_rolls_back m w) as Hback end;
      rewrite E in Hback; by apply Hback.
Qed.
End restarts.

Lemma stored_9 : stored any_dir world_8 ∧ stored any_dir world_9.
Proof.
  assert (H8 : stored any_dir world_8).
  { apply stored_run_list; [apply stored_2|]. constructor; [|done]. unfold op_completed.
    by destruct sample_execution. }
  split; [exact H8|]. apply stored_run_list; [exact H8|by repeat constructor].
Qed.

(** The execution that is offered for a restart is restarted; after that it is no
    longer offered, and the restart there is is told. *)
Lemma restarts_are_offered_where_they_are_made_witness :
  ∃ e, e ∈ told_at world_9 ∧ needs_output_recovery (told_at world_8) e = true ∧
    is_ok (on_store (restart_missing_output_graph (ge_id e) (ge_revision e)) world_8).1 = true ∧
    database (on_store (restart_missing_output_graph (ge_id e) (ge_revision e)) world_9).2 = database world_9.
Proof.
  destruct (told_at world_9 !! 1) as [e|] eqn:E; [|vm_compute in E; discriminate E].
  assert (He : e ∈ told_at world_9) by (eapply list_elem_of_lookup_2; exact E).
  exists e. split; [exact He|].
  assert (Hn : needs_output_recovery (told_at world_9) e = false).
  { vm_compute in E. injection E as <-. vm_compute. reflexivity. }
  pose proof (restarts_are_offered_where_they_are_made any_dir world_9 (told_at world_9) e
    (proj2 stored_9) ltac:(vm_compute; reflexivity) He) as Hr.
  destruct (on_store _ world_9) as [r b'] eqn:Er. destruct Hr as [_ Hr]. destruct (Hr Hn) as [Hdb _].
  vm_compute in E. injection E as <-. split; [vm_compute; reflexivity|].
  split; [vm_compute; reflexivity|]. exact Hdb.
Defined.
